(** * cantools ARXML loader: a shallow embedding and its verified properties

    Source: [src/cantools/database/can/formats/arxml.py].

    The development follows the source top-down: the Python builtins the
    loader relies on ([str.strip], [int], [str.split], ...), the
    [xml.etree.ElementTree] element model, [parse_int_string], the
    [SystemLoader] class (version detection, reference index, reference
    resolution, child location, PDU decomposition, signal and scaling
    loading) and the [EcuExtractLoader] class.  Definitions come first, the
    lemmas and theorems about them follow.

    Text is modelled as Rocq strings, i.e. sequences of 8-bit characters;
    the classification of characters (whitespace, digits) is the one Python
    uses on the ASCII range. *)

From Stdlib Require Import ZArith QArith Ascii String List Bool Lia DecimalString.
From stdpp Require Import base option list gmap strings.

Set Warnings "-register-all".

Local Open Scope string_scope.
Local Open Scope list_scope.
Local Open Scope Z_scope.

(* ===================================================================== *)
(** * Exceptions and results *)
(* ===================================================================== *)

(** The [ValueError]s the loader raises itself, one constructor per
    [raise ValueError(...)] of the source, and the ones raised by the
    builtins [int], [float] and [Decimal]. *)
Inductive value_error : Type :=
  | IllegalRootTag (tag : string)
  | UnrecognizedNamespace (xml_namespace : string)
  | UnparsableVersion (version : string)
  | UnsupportedVersion
  | DuplicatePath (path : string)
  | MultipleDefaultRefbases (package : string)
  | GlobalRefbase
  | DuplicateRefbaseName (package name : string)
  | UnknownRefbase (name : option string) (path : string)
  | NonExistingBase
  | DanglingReference (tag : string) (text : option string)
  | NonUniqueChild (tag : string)
  | NonUniqueNode (location : list string)
  | NumeratorCount (n : nat)
  | DenominatorCount (n : nat)
  | BaseTypeEncodingMissing
  | NoComPduIdRef
  | NoParameterValues
  | NoReferenceValues
  | ComCount (n : nat)
  | InvalidIntLiteral (text : string)
  | InvalidFloatLiteral (text : string).

Inductive exn : Type :=
  | ValueError (e : value_error)
  | AttributeError      (* attribute access on [None] *)
  | TypeError           (* arithmetic or conversion applied to [None] *)
  | AssertionError
  | KeyError
  | IndexError
  | NameError
  | SyntaxError
  | OverflowError
  | DecimalException
  | RecursionError
  | NotImplementedError (direction : option string).

Inductive result (A : Type) : Type :=
  | OK (a : A)
  | Err (e : exn).
Arguments OK {A} a.
Arguments Err {A} e.

Definition rbind {A B} (r : result A) (k : A -> result B) : result B :=
  match r with
  | OK a => k a
  | Err e => Err e
  end.

Notation "'let!' x := r 'in' k" := (rbind r (fun x => k))
  (at level 10, x pattern, r at level 200, k at level 200,
   format "'[v' 'let!'  x  :=  r  'in' '/' k ']'").

(** [x.attr] where [x] may be [None]. *)
Definition attr_of {A} (o : option A) : result A :=
  match o with
  | Some a => OK a
  | None => Err AttributeError
  end.

(** [assert b]. *)
Definition py_assert (b : bool) : result unit :=
  if b then OK tt else Err AssertionError.

(* ===================================================================== *)
(** * Python builtins on strings *)
(* ===================================================================== *)

Definition ascii_eqb (a b : ascii) : bool := Ascii.eqb a b.

Definition code (c : ascii) : Z := Z.of_N (N_of_ascii c).

(** [c.isspace()] on the ASCII range: TAB, LF, VT, FF, CR, FS, GS, RS, US
    and the space. *)
Definition py_isspace (c : ascii) : bool :=
  let n := code c in
  ((9 <=? n) && (n <=? 13)) || ((28 <=? n) && (n <=? 32)).

(** [Py_ISSPACE], the whitespace [int()] itself skips. *)
Definition c_isspace (c : ascii) : bool :=
  let n := code c in
  ((9 <=? n) && (n <=? 13)) || (n =? 32).

(** [c.isdigit()] on the ASCII range. *)
Definition py_isdigit (c : ascii) : bool :=
  let n := code c in (48 <=? n) && (n <=? 57).

Fixpoint lstrip (ws : ascii -> bool) (s : string) : string :=
  match s with
  | String c s' => if ws c then lstrip ws s' else s
  | EmptyString => EmptyString
  end.

(** Drops the trailing characters satisfying [ws]. *)
Fixpoint rstrip (ws : ascii -> bool) (s : string) : string :=
  match s with
  | String c s' =>
      match rstrip ws s' with
      | EmptyString => if ws c then EmptyString else String c EmptyString
      | r => String c r
      end
  | EmptyString => EmptyString
  end.

(** [s.strip()] *)
Definition py_strip (s : string) : string := rstrip py_isspace (lstrip py_isspace s).

Definition lower_char (c : ascii) : ascii :=
  let n := code c in
  if (65 <=? n) && (n <=? 90) then ascii_of_N (Z.to_N (n + 32)) else c.

(** [s.lower()] *)
Fixpoint py_lower (s : string) : string :=
  match s with
  | String c s' => String (lower_char c) (py_lower s')
  | EmptyString => EmptyString
  end.

(** [s.startswith(p)] *)
Fixpoint py_startswith (p s : string) : bool :=
  match p, s with
  | EmptyString, _ => true
  | String a p', String b s' => ascii_eqb a b && py_startswith p' s'
  | String _ _, EmptyString => false
  end.

(** [s[n:]] *)
Fixpoint drop_chars (n : nat) (s : string) : string :=
  match n, s with
  | O, _ => s
  | S n', String _ s' => drop_chars n' s'
  | S _, EmptyString => EmptyString
  end.

(** [s[:n]] *)
Fixpoint take_chars (n : nat) (s : string) : string :=
  match n, s with
  | O, _ => EmptyString
  | S n', String c s' => String c (take_chars n' s')
  | S _, EmptyString => EmptyString
  end.

(** [s.endswith(p)] *)
Definition py_endswith (p s : string) : bool :=
  (String.length p <=? String.length s)%nat
  && String.eqb (drop_chars (String.length s - String.length p) s) p.

(** [c in s] for a character [c]. *)
Fixpoint char_in (c : ascii) (s : string) : bool :=
  match s with
  | String a s' => ascii_eqb c a || char_in c s'
  | EmptyString => false
  end.

(** [s.split(sep)] for a one-character separator: never empty. *)
Fixpoint py_split (sep : ascii) (s : string) : list string :=
  match s with
  | EmptyString => [EmptyString]
  | String c s' =>
      if ascii_eqb c sep then EmptyString :: py_split sep s'
      else match py_split sep s' with
           | w :: ws => String c w :: ws
           | [] => [String c EmptyString]
           end
  end.

(** [sep.join(l)] *)
Fixpoint py_join (sep : string) (l : list string) : string :=
  match l with
  | [] => EmptyString
  | [w] => w
  | w :: ws => w +:+ sep +:+ py_join sep ws
  end.

(** [f'{x}'] for a value that is a string or [None]. *)
Definition fmt (o : option string) : string :=
  match o with
  | Some s => s
  | None => "None"
  end.

(* ===================================================================== *)
(** * The builtin [int(text, base)] *)
(* ===================================================================== *)

(** Value of a character as a digit, [_PyLong_DigitValue]: [0-9], then
    letters of either case from 10 on. *)
Definition digit_value (c : ascii) : option Z :=
  let n := code c in
  if (48 <=? n) && (n <=? 57) then Some (n - 48)
  else if (97 <=? n) && (n <=? 122) then Some (n - 87)
  else if (65 <=? n) && (n <=? 90) then Some (n - 55)
  else None.

Definition is_digit_in (base : Z) (c : ascii) : bool :=
  match digit_value c with
  | Some d => d <? base
  | None => false
  end.

(** The digit loop of [PyLong_FromString]: digits of the base with single
    underscores between them.  Returns the value read, the number of digits
    and the unread rest; [None] on a doubled or trailing underscore. *)
Fixpoint scan_digits (base : Z) (s : string) (prev_underscore : bool)
         (acc : Z) (ndigits : nat) : option (Z * nat * string) :=
  match s with
  | EmptyString => if prev_underscore then None else Some (acc, ndigits, s)
  | String c s' =>
      if ascii_eqb c "_" then
        if prev_underscore then None
        else scan_digits base s' true acc ndigits
      else
        match digit_value c with
        | Some d =>
            if d <? base then scan_digits base s' false (acc * base + d) (S ndigits)
            else if prev_underscore then None else Some (acc, ndigits, s)
        | None => if prev_underscore then None else Some (acc, ndigits, s)
        end
  end.

Definition second_char_in (letters : string) (s : string) : bool :=
  match s with
  | String _ (String c _) => char_in c letters
  | _ => false
  end.

Definition starts_with_zero (s : string) : bool :=
  match s with
  | String c _ => ascii_eqb c "0"
  | EmptyString => false
  end.

(** The stages of [PyLong_FromString].  First the sign. *)
Definition split_sign (s : string) : bool * string :=
  match s with
  | String c r =>
      if ascii_eqb c "+" then (false, r)
      else if ascii_eqb c "-" then (true, r)
      else (false, s)
  | EmptyString => (false, s)
  end.

(** With base 0 the prefix selects the base; a literal with a leading zero
    and no prefix is read in base 10 and must denote zero. *)
Definition detect_base (base : Z) (s : string) : Z * bool :=
  if base =? 0 then
    if negb (starts_with_zero s) then (10, false)
    else if second_char_in "xX" s then (16, false)
    else if second_char_in "oO" s then (8, false)
    else if second_char_in "bB" s then (2, false)
    else (10, true)
  else (base, false).

(** The prefix of the base, and one underscore after it, are skipped. *)
Definition skip_prefix (base : Z) (s : string) : string :=
  if starts_with_zero s &&
     (((base =? 16) && second_char_in "xX" s)
      || ((base =? 8) && second_char_in "oO" s)
      || ((base =? 2) && second_char_in "bB" s))
  then
    match drop_chars 2 s with
    | String c r => if ascii_eqb c "_" then r else String c r
    | EmptyString => EmptyString
    end
  else s.

(** The digits: at least one, no leading underscore, nothing but
    whitespace after them. *)
Definition read_digits (text : string) (negative : bool) (base : Z)
           (error_if_nonzero : bool) (s : string) : result Z :=
  let bad := Err (ValueError (InvalidIntLiteral text)) in
  match s with
  | String c _ =>
      if ascii_eqb c "_" then bad
      else
        match scan_digits base s false 0 O with
        | None => bad
        | Some (v, n, rest) =>
            if error_if_nonzero && negb (v =? 0) then bad
            else if (n =? 0)%nat then bad
            else
              match lstrip c_isspace rest with
              | EmptyString => OK (if negative then - v else v)
              | String _ _ => bad
              end
        end
  | EmptyString => bad
  end.

(** [int(text, base)] for [base] 0 or between 2 and 36, after
    [PyLong_FromString]: surrounding whitespace, an optional sign, the base
    prefix ([0x], [0o], [0b]), then the digits. *)
Definition py_int (text : string) (base : Z) : result Z :=
  let '(negative, s) := split_sign (lstrip c_isspace text) in
  let '(base', error_if_nonzero) := detect_base base s in
  read_digits text negative base' error_if_nonzero (skip_prefix base' s).

(** [int(x)] where [x] is a string or [None]. *)
Definition py_int_of (o : option string) : result Z :=
  match o with
  | Some s => py_int s 10
  | None => Err TypeError
  end.

(* ===================================================================== *)
(** * [parse_int_string] *)
(* ===================================================================== *)

(** [in_string[0] == '0' and in_string[1:2].isdigit()] *)
Definition zero_then_digit (s : string) : bool :=
  match s with
  | String c0 (String c1 _) => ascii_eqb c0 "0" && py_isdigit c1
  | _ => false
  end.

Definition parse_int_string (in_string : string) : result Z :=
  let in_string := py_strip in_string in
  match in_string with
  | EmptyString => OK 0
  | String _ _ =>
      if zero_then_digit in_string then
        (* interpret strings starting with a 0 as octal *)
        py_int in_string 8
      else
        py_int in_string 0 (* autodetect the base *)
  end.

(** [parse_int_string(elem.text)]: the text of an empty element is [None],
    and [None.strip()] raises. *)
Definition parse_int_text (t : option string) : result Z :=
  match t with
  | Some s => parse_int_string s
  | None => Err AttributeError
  end.

(* ===================================================================== *)
(** * [xml.etree.ElementTree] elements *)
(* ===================================================================== *)

(** A parsed document, as the XML text gives it: qualified tag
    ([{namespace}NAME]), attributes, text, children and tail. *)
Inductive Xml : Type :=
  | XmlElem (xtag : string) (xattrib : list (string * string))
            (xtext : option string) (xchildren : list Xml)
            (xtail : option string).

(** An [Element] object.  Python keys dictionaries by object identity; the
    identity of an element is modelled by [eid], its address in the
    document (the child indices leading to it from the root). *)
Inductive Element : Type :=
  mkElement { eid : list nat;
              tag : string;
              attrib : list (string * string);
              text : option string;
              children : list Element;
              tail : option string }.

(** [f(i, x)] for the elements [x] of a list, numbered from [i] on. *)
Definition numbered {A B} (f : nat -> A -> B) : nat -> list A -> list B :=
  fix loop (i : nat) (l : list A) : list B :=
    match l with
    | [] => []
    | x :: l' => f i x :: loop (S i) l'
    end.

(** [ElementTree.fromstring]: allocation of the element objects. *)
Fixpoint alloc (pos : list nat) (x : Xml) : Element :=
  match x with
  | XmlElem t a tx cs tl =>
      mkElement pos t a tx (numbered (fun i c => alloc (pos ++ [i]) c) O cs) tl
  end.

Definition fromstring (doc : Xml) : Element := alloc [] doc.

(** The qualified name [f'{{{ns}}}{name}']. *)
Definition qname (ns name : string) : string := "{" +:+ ns +:+ "}" +:+ name.

Definition has_tag (t : string) (e : Element) : bool := String.eqb (tag e) t.

(** [elem.find('./ns:NAME', namespaces)]: the first child with that tag. *)
Definition find_child (t : string) (e : Element) : option Element :=
  List.find (has_tag t) (children e).

(** [elem.iterfind('./ns:NAME', namespaces)]: the children with that tag. *)
Definition iterfind_child (t : string) (e : Element) : list Element :=
  List.filter (has_tag t) (children e).

(** [elem.attrib.get(key)] *)
Fixpoint attrib_get (key : string) (a : list (string * string)) : option string :=
  match a with
  | [] => None
  | (k, v) :: a' => if String.eqb k key then Some v else attrib_get key a'
  end.

(** [x.text] where [x] is the result of a [find], possibly [None]. *)
Definition text_of (o : option Element) : result (option string) :=
  let! e := attr_of o in OK (text e).

(** [x.text.strip()] *)
Definition stripped_text_of (o : option Element) : result string :=
  let! t := text_of o in
  let! s := attr_of t in
  OK (py_strip s).

(* ===================================================================== *)
(** * [SystemLoader]: version detection *)
(* ===================================================================== *)

(** [$] also matches before a final newline: none of the patterns below can
    consume a newline, so matching [^P$] is matching [P] against the whole
    text less one final newline. *)
Fixpoint chomp (s : string) : string :=
  match s with
  | EmptyString => EmptyString
  | String c s' =>
      match s' with
      | EmptyString => if ascii_eqb c "010" then EmptyString else s
      | String _ _ => String c (chomp s')
      end
  end.

Fixpoint all_chars (p : ascii -> bool) (s : string) : bool :=
  match s with
  | String c s' => p c && all_chars p s'
  | EmptyString => true
  end.

Fixpoint span_chars (p : ascii -> bool) (s : string) : string * string :=
  match s with
  | String c s' =>
      if p c then let '(a, b) := span_chars p s' in (String c a, b)
      else (EmptyString, s)
  | EmptyString => (EmptyString, EmptyString)
  end.

Definition strip_prefix (p s : string) : option string :=
  if py_startswith p s then Some (drop_chars (String.length p) s) else None.

Definition strip_suffix (p s : string) : option string :=
  if py_endswith p s
  then Some (take_chars (String.length s - String.length p) s)
  else None.

Definition is_newline (c : ascii) : bool := ascii_eqb c "010".
Definition is_dot (c : ascii) : bool := ascii_eqb c ".".
Definition digit_or_dot (c : ascii) : bool := py_isdigit c || is_dot c.

(** [re.match] of the root tag against [^\{ GROUP \}AUTOSAR$], where GROUP is
    any run of characters other than the newline; returns the group. *)
Definition match_root_tag (t : string) : option string :=
  match strip_prefix "{" (chomp t) with
  | Some r =>
      match strip_suffix "}AUTOSAR" r with
      | Some g => if all_chars (fun c => negb (is_newline c)) g then Some g else None
      | None => None
      end
  | None => None
  end.

(** [re.match] of the namespace against [^http://autosar\.org/schema/r GROUP $],
    where GROUP is [4\.] followed by any run of [[0-9.]]; returns the group. *)
Definition match_autosar4 (ns : string) : option string :=
  match strip_prefix "http://autosar.org/schema/r" (chomp ns) with
  | Some g =>
      match strip_prefix "4." g with
      | Some w => if all_chars digit_or_dot w then Some g else None
      | None => None
      end
  | None => None
  end.

(** [re.match] of the namespace against [^http://autosar\.org/ GROUP $], where
    GROUP is [3\.] followed by any run of [[0-9.]]; returns the group. *)
Definition match_autosar3 (ns : string) : option string :=
  match strip_prefix "http://autosar.org/" (chomp ns) with
  | Some g =>
      match strip_prefix "3." g with
      | Some w => if all_chars digit_or_dot w then Some g else None
      | None => None
      end
  | None => None
  end.

(** [re.match] of the namespace against
    [^http://autosar\.org/ GROUP \.DAI\.[0-9]$], where GROUP is any run of
    [[0-9.]]; returns the group. *)
Definition match_daimler (ns : string) : option string :=
  match strip_prefix "http://autosar.org/" (chomp ns) with
  | Some r =>
      match String.rev r with
      | String d r' =>
          match strip_suffix ".DAI." (String.rev r') with
          | Some g =>
              if py_isdigit d && all_chars digit_or_dot g then Some g else None
          | None => None
          end
      | EmptyString => None
      end
  | None => None
  end.

(** An optional group, a dot followed by any run of digits: the greedy match
    at the head of [s]. *)
Definition dot_digits (s : string) : option string * string :=
  match s with
  | String c s' =>
      if is_dot c
      then let '(ds, r) := span_chars py_isdigit s' in (Some (String c ds), r)
      else (None, s)
  | EmptyString => (None, s)
  end.

(** [re.match] of the version string against three groups and [$]: a run of
    digits, then twice an optional dot-and-digits group.  Returns groups 1
    to 3.  Digits and dots are disjoint, so the greedy match is the only
    one. *)
Definition match_version (v : string) : option (string * option string * option string) :=
  let '(g1, r1) := span_chars py_isdigit (chomp v) in
  let '(g2, r2) := dot_digits r1 in
  let '(g3, r3) := dot_digits r2 in
  match r3 with
  | EmptyString => Some (g1, g2, g3)
  | String _ _ => None
  end.

(** [0 if g is None else int(g[1:])] *)
Definition version_part (g : option string) : result Z :=
  match g with
  | None => OK 0
  | Some s => py_int (drop_chars 1 s) 10
  end.

Record AutosarVersion : Type :=
  mkVersion { autosar_version_major : Z;
              autosar_version_minor : Z;
              autosar_version_patch : Z }.

(** The part of [SystemLoader.__init__] before the reference index is
    built: from the root tag to the namespace and the version triple. *)
Definition detect_version (root_tag : string) : result (string * AutosarVersion) :=
  match match_root_tag root_tag with
  | None => Err (ValueError (IllegalRootTag root_tag))
  | Some xml_namespace =>
      let! autosar_version_string :=
        match match_autosar4 xml_namespace with
        | Some g => OK g
        | None =>
            match match_autosar3 xml_namespace with
            | Some g => OK g
            | None =>
                match match_daimler xml_namespace with
                | Some g => OK g
                | None => Err (ValueError (UnrecognizedNamespace xml_namespace))
                end
            end
        end in
      match match_version autosar_version_string with
      | None => Err (ValueError (UnparsableVersion autosar_version_string))
      | Some (g1, g2, g3) =>
          let! major := py_int g1 10 in
          let! minor := version_part g2 in
          let! patch := version_part g3 in
          if negb (major =? 4) && negb (major =? 3)
          then Err (ValueError UnsupportedVersion)
          else OK (xml_namespace, mkVersion major minor patch)
      end
  end.

(** [autosar_version_newer(major, minor=None, patch=None)] *)
Definition autosar_version_newer (v : AutosarVersion)
           (major : Z) (minor patch : option Z) : bool :=
  if autosar_version_major v >? major then true
  else if autosar_version_major v <? major then false
  else
    match minor with
    | None => true
    | Some minor =>
        if autosar_version_minor v >? minor then true
        else if autosar_version_minor v <? minor then false
        else
          match patch with
          | None => true
          | Some patch =>
              if autosar_version_patch v >? patch then true
              else if autosar_version_patch v <? patch then false
              else true
          end
    end.

(* ===================================================================== *)
(** * [SystemLoader]: the reference index *)
(* ===================================================================== *)

(** The four dictionaries of [_create_arxml_reference_dicts].
    [_node_to_arxml_path] is keyed by element identity. *)
Record RefDicts : Type :=
  mkRefDicts { _node_to_arxml_path : gmap (list nat) string;
               _arxml_path_to_node : gmap string Element;
               _package_default_refbase_path : gmap string string;
               _package_refbase_paths : gmap string (gmap string string) }.

Definition empty_dicts : RefDicts := mkRefDicts ∅ ∅ ∅ ∅.

(** [x = elem.find(...)], then [x = (x.text.strip().lower() == "true")]
    unless [x] is [None]. *)
Definition flag_of (o : option Element) : result (option bool) :=
  match o with
  | None => OK None
  | Some e =>
      let! t := attr_of (text e) in
      OK (Some (String.eqb (py_lower (py_strip t)) "true"))
  end.

Definition truthy (o : option bool) : bool :=
  match o with
  | Some b => b
  | None => false
  end.

(** The part of [add_sub_references] that handles a [REFERENCE-BASE]
    element. *)
Definition add_reference_base (ns : string) (elem : Element)
           (cur_package_path : string) (d : RefDicts) : result RefDicts :=
  let! refbase_name := stripped_text_of (find_child (qname ns "SHORT-LABEL") elem) in
  let! refbase_path := stripped_text_of (find_child (qname ns "PACKAGE-REF") elem) in
  let! is_default := flag_of (find_child (qname ns "IS-DEFAULT") elem) in
  let current_default_refbase_path :=
    _package_default_refbase_path d !! cur_package_path in
  let! d :=
    if truthy is_default && bool_decide (is_Some current_default_refbase_path)
    then Err (ValueError (MultipleDefaultRefbases cur_package_path))
    else if truthy is_default
    then OK (mkRefDicts (_node_to_arxml_path d) (_arxml_path_to_node d)
               (<[cur_package_path := refbase_path]> (_package_default_refbase_path d))
               (_package_refbase_paths d))
    else OK d in
  let! is_global := flag_of (find_child (qname ns "IS-GLOBAL") elem) in
  if truthy is_global then Err (ValueError GlobalRefbase)
  else
    (* ensure that a dictionary for the refbases of the package exists *)
    let! bases :=
      match _package_refbase_paths d !! cur_package_path with
      | None => OK ∅
      | Some bases =>
          if bool_decide (is_Some (bases !! refbase_name))
          then Err (ValueError (DuplicateRefbaseName cur_package_path refbase_name))
          else OK bases
      end in
    OK (mkRefDicts (_node_to_arxml_path d) (_arxml_path_to_node d)
          (_package_default_refbase_path d)
          (<[cur_package_path := <[refbase_name := refbase_path]> bases]>
             (_package_refbase_paths d))).

(** The part of [add_sub_references] that comes before its loop over the
    children: the element is registered under its path, and the path and
    the package path its children are visited with are computed. *)
Definition register_element (ns : string) (elem : Element) (elem_path : string)
           (cur_package_path : string) (d : RefDicts)
  : result (string * string * RefDicts) :=
  (* check if a short name has been attached to the current element *)
  let short_name := find_child (qname ns "SHORT-NAME") elem in
  let short_name := match short_name with Some sn => text sn | None => None end in
  let! (elem_path, d) :=
    match find_child (qname ns "SHORT-NAME") elem with
    | Some _ =>
        let elem_path := elem_path +:+ "/" +:+ fmt short_name in
        if bool_decide (is_Some (_arxml_path_to_node d !! elem_path))
        then Err (ValueError (DuplicatePath elem_path))
        else OK (elem_path,
                 mkRefDicts (_node_to_arxml_path d)
                   (<[elem_path := elem]> (_arxml_path_to_node d))
                   (_package_default_refbase_path d) (_package_refbase_paths d))
    | None => OK (elem_path, d)
    end in
  (* register the ARXML path name of the current element *)
  let d := mkRefDicts (<[eid elem := elem_path]> (_node_to_arxml_path d))
             (_arxml_path_to_node d)
             (_package_default_refbase_path d) (_package_refbase_paths d) in
  (* if the current element is a package, update the ARXML package path *)
  let cur_package_path :=
    if has_tag (qname ns "AR-PACKAGE") elem
    then cur_package_path +:+ "/" +:+ fmt short_name
    else cur_package_path in
  (* handle reference bases (for relative references) *)
  let! d :=
    if has_tag (qname ns "REFERENCE-BASE") elem
    then add_reference_base ns elem cur_package_path d
    else OK d in
  OK (elem_path, cur_package_path, d).

(** [for child in elem: f(child)], the dictionaries being passed along. *)
Definition over_children (f : Element -> RefDicts -> result RefDicts)
  : list Element -> RefDicts -> result RefDicts :=
  fix loop (cs : list Element) (d : RefDicts) : result RefDicts :=
    match cs with
    | [] => OK d
    | child :: cs' => let! d := f child d in loop cs' d
    end.

(** [add_sub_references(elem, elem_path, cur_package_path)], the recursive
    traversal; the dictionaries it updates are passed along. *)
Fixpoint add_sub_references (ns : string) (elem : Element) (elem_path : string)
         (cur_package_path : string) (d : RefDicts) : result RefDicts :=
  let! (elem_path, cur_package_path, d) :=
    register_element ns elem elem_path cur_package_path d in
  (* iterate over all children and add all references contained therein *)
  over_children
    (fun child => add_sub_references ns child elem_path cur_package_path)
    (children elem) d.

Definition _create_arxml_reference_dicts (ns : string) (root : Element) : result RefDicts :=
  add_sub_references ns root "" "" empty_dicts.

(** A [SystemLoader] object once [__init__] has returned. *)
Record SystemLoader : Type :=
  mkSystemLoader { _root : Element;
                   _strict : bool;
                   xml_namespace : string;
                   autosar_version : AutosarVersion;
                   dicts : RefDicts }.

Definition SystemLoader_init (root : Element) (strict : bool) : result SystemLoader :=
  let! (ns, v) := detect_version (tag root) in
  let! d := _create_arxml_reference_dicts ns root in
  OK (mkSystemLoader root strict ns v d).

(** [self.autosar_version_newer(4)] *)
Definition is_ar4 (ld : SystemLoader) : bool :=
  autosar_version_newer (autosar_version ld) 4 None None.

Definition ns_tag (ld : SystemLoader) (name : string) : string :=
  qname (xml_namespace ld) name.

(* ===================================================================== *)
(** * [SystemLoader]: reference resolution *)
(* ===================================================================== *)

(** The [for i in range(len(base_path), 0, -1)] loop of
    [_follow_arxml_reference]; [i] counts down, [None] when no package on
    the way supplies an applicable reference base. *)
Fixpoint find_refbase (ld : SystemLoader) (base_path : list string)
         (refbase_name : option string) (i : nat) : option string :=
  match i with
  | O => None
  | S i' =>
      let test_path := py_join "/" (take i base_path) in
      let test_node := _arxml_path_to_node (dicts ld) !! test_path in
      let not_a_package :=
        match test_node with
        | Some n => negb (has_tag (ns_tag ld "AR-PACKAGE") n)
        | None => false
        end in
      if not_a_package then find_refbase ld base_path refbase_name i'
      else
        let refbase_path :=
          match refbase_name with
          | None => _package_default_refbase_path (dicts ld) !! test_path
          | Some name =>
              match _package_refbase_paths (dicts ld) !! test_path with
              | Some bases => bases !! name
              | None => None
              end
          end in
        match refbase_path with
        | Some p => Some p
        | None => find_refbase ld base_path refbase_name i'
        end
  end.

(** [_follow_arxml_reference(base_elem, arxml_path, dest_tag_name,
    refbase_name)]; [arxml_path] is the text of the reference element. *)
Definition _follow_arxml_reference (ld : SystemLoader) (base_elem : Element)
           (arxml_path : option string) (dest_tag_name refbase_name : option string)
  : result (option Element) :=
  let! arxml_path := attr_of arxml_path in
  let! arxml_path :=
    if negb (py_startswith "/" arxml_path) then
      match _node_to_arxml_path (dicts ld) !! eid base_elem with
      | None => Err KeyError
      | Some p =>
          let base_path := py_split "/" p in
          match find_refbase ld base_path refbase_name (length base_path) with
          | None => Err (ValueError (UnknownRefbase refbase_name arxml_path))
          | Some refbase_path => OK (refbase_path +:+ "/" +:+ arxml_path)
          end
      end
    else OK arxml_path in
  let result := _arxml_path_to_node (dicts ld) !! arxml_path in
  match result, dest_tag_name with
  | Some r, Some dest =>
      if negb (has_tag (ns_tag ld dest) r) then OK None else OK result
  | _, _ => OK result
  end.

(* ===================================================================== *)
(** * The loader monad *)
(* ===================================================================== *)

(** What the child locator learns each time it follows a [-REF] child: the
    atom it was locating, the text of the reference and the node the
    reference resolved to, if any. *)
Record RefEvent : Type :=
  mkRefEvent { ref_tag : string;
               ref_text : option string;
               ref_target : option Element }.

(** Loader code either returns or raises.  Next to that outcome a run
    carries the journal of the references the child locator has followed;
    the journal is ghost state: no loader code reads it. *)
Definition M (A : Type) : Type := (list RefEvent * result A)%type.

Definition journal {A} (m : M A) : list RefEvent := fst m.
Definition outcome {A} (m : M A) : result A := snd m.

Definition ret {A} (a : A) : M A := ([], OK a).
Definition raise {A} (e : exn) : M A := ([], Err e).
Definition lift {A} (r : result A) : M A := ([], r).
Definition record_event (ev : RefEvent) : M unit := ([ev], OK tt).

Definition bind {A B} (m : M A) (k : A -> M B) : M B :=
  match m with
  | (j, OK a) => let '(j', r) := k a in (j ++ j', r)
  | (j, Err e) => (j, Err e)
  end.

Notation "'let*' x := m 'in' k" := (bind m (fun x => k))
  (at level 10, x pattern, m at level 200, k at level 200,
   format "'[v' 'let*'  x  :=  m  'in' '/' k ']'").

(** [for x in xs: acc = body(x, acc)] *)
Fixpoint for_each {A S} (xs : list A) (acc : S) (body : A -> S -> M S) : M S :=
  match xs with
  | [] => ret acc
  | x :: xs' => let* acc := body x acc in for_each xs' acc body
  end.

(* ===================================================================== *)
(** * [SystemLoader]: the child locator *)
(* ===================================================================== *)

(** The qualifiers of a location atom: ['&' in atom[:2]], ['*' in atom[:2]]
    and the tag name left once a character is dropped for each. *)
Definition atom_allows_references (atom : string) : bool :=
  char_in "&" (take_chars 2 atom).
Definition atom_is_nodeset (atom : string) : bool :=
  char_in "*" (take_chars 2 atom).
Definition atom_tag_name (atom : string) : string :=
  let t := if atom_allows_references atom then drop_chars 1 atom else atom in
  if atom_is_nodeset atom then drop_chars 1 t else t.

(** One turn of [for child_elem in base_elem]. *)
Definition locate_child (ld : SystemLoader) (base_elem : Element)
           (child_tag_name : string) (child_elem : Element)
           (local_result : list Element) : M (list Element) :=
  let ctt := ns_tag ld child_tag_name in
  let cttr := ns_tag ld (child_tag_name +:+ "-REF") in
  if has_tag ctt child_elem then ret (local_result ++ [child_elem])
  else if has_tag cttr child_elem then
    let* tmp := lift (_follow_arxml_reference ld base_elem (text child_elem)
                        (attrib_get "DEST" (attrib child_elem))
                        (attrib_get "BASE" (attrib child_elem))) in
    let* _ := record_event (mkRefEvent child_tag_name (text child_elem) tmp) in
    match tmp with
    | None => raise (ValueError (DanglingReference child_tag_name (text child_elem)))
    | Some node => ret (local_result ++ [node])
    end
  else ret local_result.

(** One turn of [for base_elem in base_elems]. *)
Definition locate_in (ld : SystemLoader) (atom : string) (base_elem : Element)
           (result : list Element) : M (list Element) :=
  let* local_result :=
    for_each (children base_elem) [] (locate_child ld base_elem (atom_tag_name atom)) in
  if negb (atom_is_nodeset atom) && (1 <? length local_result)%nat
  then raise (ValueError (NonUniqueChild (atom_tag_name atom)))
  else ret (result ++ local_result).

(** The [for child_tag_name in children_location] loop of
    [_get_arxml_children], on a list of base elements. *)
Fixpoint locate (ld : SystemLoader) (base_elems : list Element)
         (children_location : list string) : M (list Element) :=
  match children_location with
  | [] => ret base_elems
  | atom :: rest =>
      match base_elems with
      | [] => ret []  (* the base elements left are the empty set... *)
      | _ :: _ =>
          let* result := for_each base_elems [] (locate_in ld atom) in
          locate ld result rest
      end
  end.

(** [_get_arxml_children(base_elems, children_location)] as the loader
    calls it: on one element, possibly [None]; a location given as a
    single string is the one-atom list. *)
Definition _get_arxml_children (ld : SystemLoader) (base_elems : option Element)
           (children_location : list string) : M (list Element) :=
  match base_elems with
  | None => raise (ValueError NonExistingBase)
  | Some e => locate ld [e] children_location
  end.

Definition _get_unique_arxml_child (ld : SystemLoader) (base_elem : option Element)
           (child_location : list string) : M (option Element) :=
  let* tmp := _get_arxml_children ld base_elem child_location in
  match tmp with
  | [] => ret None
  | [e] => ret (Some e)
  | _ => raise (ValueError (NonUniqueNode child_location))
  end.

(** [self._get_unique_arxml_child(...).text] *)
Definition unique_child_text (ld : SystemLoader) (base_elem : option Element)
           (child_location : list string) : M (option string) :=
  let* c := _get_unique_arxml_child ld base_elem child_location in
  lift (text_of c).

(* ===================================================================== *)
(** * Python numbers *)
(* ===================================================================== *)

(** The builtin [float] and the class [decimal.Decimal] are taken as an
    interface: the types and the operations the loader applies to them.
    Nothing is assumed about rounding, about which texts are literals or
    about special values, so whatever is proved below holds for IEEE 754
    doubles and 28-digit decimals as for any other interpretation.
    Operations that can raise return a [result]. *)
Class PyNumerics : Type :=
  { pyfloat : Type;
    pydecimal : Type;
    py_float : string -> result pyfloat;          (* [float(text)] *)
    float_of_int : Z -> result pyfloat;           (* [float(n)] *)
    float_zero : pyfloat;                         (* the literal [0.0] *)
    float_one : pyfloat;                          (* the literal [1.0] *)
    float_mul : pyfloat -> pyfloat -> pyfloat;
    float_add : pyfloat -> pyfloat -> pyfloat;
    float_lt : pyfloat -> pyfloat -> bool;
    int_lt_float : Z -> pyfloat -> bool;
    float_lt_int : pyfloat -> Z -> bool;
    int_of_float : pyfloat -> result Z;           (* [int(x)] *)
    py_decimal : string -> result pydecimal;      (* [Decimal(text)] *)
    decimal_of_int : Z -> pydecimal;              (* [Decimal(n)] *)
    decimal_of_float : pyfloat -> pydecimal;      (* [Decimal(x)] *)
    decimal_div : pydecimal -> pydecimal -> result pydecimal;
    float_of_decimal : pydecimal -> result pyfloat (* [float(d)] *) }.

Section Loader.
Context `{PyNumerics}.

(** A Python number: an [int] or a [float]. *)
Inductive pynum : Type :=
  | PyInt (n : Z)
  | PyFloat (x : pyfloat).

Definition to_float (a : pynum) : result pyfloat :=
  match a with
  | PyInt n => float_of_int n
  | PyFloat x => OK x
  end.

(** [a * b] *)
Definition num_mul (a b : pynum) : result pynum :=
  match a, b with
  | PyInt x, PyInt y => OK (PyInt (x * y))
  | _, _ =>
      let! x := to_float a in
      let! y := to_float b in
      OK (PyFloat (float_mul x y))
  end.

(** [a + b] *)
Definition num_add (a b : pynum) : result pynum :=
  match a, b with
  | PyInt x, PyInt y => OK (PyInt (x + y))
  | _, _ =>
      let! x := to_float a in
      let! y := to_float b in
      OK (PyFloat (float_add x y))
  end.

(** [a < b] *)
Definition num_lt (a b : pynum) : bool :=
  match a, b with
  | PyInt x, PyInt y => x <? y
  | PyInt x, PyFloat y => int_lt_float x y
  | PyFloat x, PyInt y => float_lt_int x y
  | PyFloat x, PyFloat y => float_lt x y
  end.

(** [min(a, b)]: the first argument unless the second is smaller. *)
Definition py_min (a b : pynum) : pynum := if num_lt b a then b else a.

(** [max(a, b)]: the first argument unless the second is greater. *)
Definition py_max (a b : pynum) : pynum := if num_lt a b then b else a.

(** [x*factor + offset] *)
Definition affine (x factor offset : pynum) : result pynum :=
  let! y := num_mul x factor in num_add y offset.

(** [float(text)] where [text] may be [None]. *)
Definition py_float_of (t : option string) : result pyfloat :=
  match t with
  | Some s => py_float s
  | None => Err TypeError
  end.

(** [Decimal(text)] where [text] may be [None]. *)
Definition py_decimal_of (t : option string) : result pydecimal :=
  match t with
  | Some s => py_decimal s
  | None => Err TypeError
  end.

(** [Decimal(x)] for a number. *)
Definition decimal_of_num (a : pynum) : pydecimal :=
  match a with
  | PyInt n => decimal_of_int n
  | PyFloat x => decimal_of_float x
  end.

(* =================================================================== *)
(** * Signals, messages and the database *)
(* =================================================================== *)

(** The result of [_load_comments]: language to text. *)
Definition Comments : Type := gmap string (option string).

(** Modelled from the spec: the value types [NamedSignalValue], [Signal],
    [Decimal] (here [SignalDecimal]), [Message] and [InternalDatabase]
    are imported by the loader from modules that are not part of the
    verified source.  They are records of the fields the loader passes
    and reads (section 3 of the specification); a field the loader does
    not pass has the default value [None], [False], 1 or 0. *)
Record NamedSignalValue : Type :=
  mkNamedSignalValue { nsv_value : Z;
                       nsv_name : option string;
                       nsv_comments : option Comments }.

Inductive pyvalue : Type :=
  | VNum (a : pynum)
  | VDecimal (d : pydecimal).

Record SignalDecimal : Type :=
  mkSignalDecimal { dec_scale : pydecimal;
                    dec_offset : pydecimal;
                    dec_minimum : option pyvalue;
                    dec_maximum : option pyvalue }.

(** The values the loader stores as a signal's [initial]. *)
Inductive initial_value : Type :=
  | InitChoice (c : NamedSignalValue)
  | InitBool (b : bool)
  | InitNum (a : pynum).

Record Signal : Type :=
  mkSignal { name : option string;
             start : Z;
             length : option Z;
             byte_order : string;
             is_signed : bool;
             scale : pynum;
             offset : pynum;
             initial : option initial_value;
             minimum : option pynum;
             maximum : option pynum;
             unit : option string;
             choices : option (gmap Z NamedSignalValue);
             comment : option Comments;
             is_float : bool;
             decimal : option SignalDecimal;
             is_multiplexer : bool;
             multiplexer_ids : option (list Z);
             multiplexer_signal : option string }.

Record Message : Type :=
  mkMessage { frame_id : Z;
              is_extended_frame : bool;
              msg_name : option string;
              msg_length : Z;
              cycle_time : option Z;
              signals : list Signal;
              msg_comment : option Comments;
              msg_strict : bool }.

Record InternalDatabase : Type :=
  mkInternalDatabase { messages : list Message }.

Definition set_initial (s : Signal) (v : option initial_value) : Signal :=
  mkSignal (name s) (start s) (length s) (byte_order s) (is_signed s) (scale s)
    (offset s) v (minimum s) (maximum s) (unit s) (choices s) (comment s)
    (is_float s) (decimal s) (is_multiplexer s) (multiplexer_ids s)
    (multiplexer_signal s).

Definition set_choices (s : Signal) (c : option (gmap Z NamedSignalValue)) : Signal :=
  mkSignal (name s) (start s) (length s) (byte_order s) (is_signed s) (scale s)
    (offset s) (initial s) (minimum s) (maximum s) (unit s) c (comment s)
    (is_float s) (decimal s) (is_multiplexer s) (multiplexer_ids s)
    (multiplexer_signal s).

Definition set_multiplexer (s : Signal) (sel : option string) (ids : list Z) : Signal :=
  mkSignal (name s) (start s) (length s) (byte_order s) (is_signed s) (scale s)
    (offset s) (initial s) (minimum s) (maximum s) (unit s) (choices s) (comment s)
    (is_float s) (decimal s) (is_multiplexer s) (Some ids) sel.

(* =================================================================== *)
(** * [SystemLoader]: comments, units and scaling *)
(* =================================================================== *)

Definition _load_comments (ld : SystemLoader) (node : option Element) : M (option Comments) :=
  let* l_2s := _get_arxml_children ld node ["DESC"; "*L-2"] in
  let result : Comments :=
    fold_left (fun result l_2 =>
                 let lang := default "EN" (attrib_get "L" (attrib l_2)) in
                 <[lang := text l_2]> result) l_2s ∅ in
  if bool_decide (size result = O) then ret None else ret (Some result).

Definition _load_system_signal_unit (ld : SystemLoader)
           (system_signal compu_method : option Element) : M (option string) :=
  let* res := _get_unique_arxml_child ld system_signal
                ["PHYSICAL-PROPS"; "SW-DATA-DEF-PROPS-VARIANTS";
                 "&SW-DATA-DEF-PROPS-CONDITIONAL"; "&UNIT"; "DISPLAY-NAME"] in
  let* res :=
    match res, compu_method with
    | None, Some _ =>
        (* try to go via the compu_method *)
        _get_unique_arxml_child ld compu_method ["&UNIT"; "DISPLAY-NAME"]
    | _, _ => ret res
    end in
  match res with
  | None => ret None
  | Some r =>
      match text r with
      | Some t => if String.eqb t "NoUnit" then ret None else ret (Some t)
      | None => ret None
      end
  end.

(** [None if limit is None else fn(limit.text)] *)
Definition limit_value (fn : option string -> result pynum)
           (limit : option Element) : result (option pynum) :=
  match limit with
  | None => OK None
  | Some e => let! v := fn (text e) in OK (Some v)
  end.

Definition int_limit : option Element -> result (option pynum) :=
  limit_value (fun t => let! n := parse_int_text t in OK (PyInt n)).

Definition float_limit : option Element -> result (option pynum) :=
  limit_value (fun t => let! x := py_float_of t in OK (PyFloat x)).

(** The running minimum of [_load_texttable]:
    [if minimum is None: minimum = m  elif m is not None: min(minimum, m)] *)
Definition merge_bound (pick : pynum -> pynum -> pynum)
           (bound m : option pynum) : option pynum :=
  match bound, m with
  | None, _ => m
  | Some b, Some v => Some (pick b v)
  | Some b, None => Some b
  end.

Definition set_decimal_bounds (d : SignalDecimal) (lo hi : option pyvalue) : SignalDecimal :=
  mkSignalDecimal (dec_scale d) (dec_offset d) lo hi.

Definition _load_texttable (ld : SystemLoader) (compu_method : option Element)
           (decimal : SignalDecimal) (is_float : bool)
  : M (option pynum * option pynum * gmap Z NamedSignalValue * SignalDecimal) :=
  let text_to_num_fn := if is_float then float_limit else int_limit in
  let* compu_scales :=
    _get_arxml_children ld compu_method
      ["&COMPU-INTERNAL-TO-PHYS"; "COMPU-SCALES"; "*&COMPU-SCALE"] in
  let* (minimum, maximum, choices) :=
    for_each compu_scales (None, None, ∅)
      (fun compu_scale acc =>
         let '(minimum, maximum, choices) := acc in
         let* lower_limit := _get_unique_arxml_child ld (Some compu_scale) ["LOWER-LIMIT"] in
         let* upper_limit := _get_unique_arxml_child ld (Some compu_scale) ["UPPER-LIMIT"] in
         let* vt := _get_unique_arxml_child ld (Some compu_scale) ["&COMPU-CONST"; "VT"] in
         let* comments := _load_comments ld (Some compu_scale) in
         (* range of the internal values of the scale. *)
         let* minimum_int_scale := lift (text_to_num_fn lower_limit) in
         let* maximum_int_scale := lift (text_to_num_fn upper_limit) in
         (* for texttables the internal and the physical values are identical *)
         let minimum := merge_bound py_min minimum minimum_int_scale in
         let maximum := merge_bound py_max maximum maximum_int_scale in
         match vt with
         | Some vt =>
             let* lower_text := lift (text_of lower_limit) in
             let* value := lift (parse_int_text lower_text) in
             ret (minimum, maximum,
                  <[value := mkNamedSignalValue value (text vt) comments]> choices)
         | None => ret (minimum, maximum, choices)
         end) in
  ret (minimum, maximum, choices,
       set_decimal_bounds decimal (VNum <$> minimum) (VNum <$> maximum)).

(** Returns [(factor, offset)], both [None] or both floats, and the
    updated [decimal]. *)
Definition _load_linear_factor_and_offset (ld : SystemLoader)
           (compu_scale : option Element) (decimal : SignalDecimal)
  : M (option (pyfloat * pyfloat) * SignalDecimal) :=
  let* compu_rational_coeffs :=
    _get_unique_arxml_child ld compu_scale ["&COMPU-RATIONAL-COEFFS"] in
  match compu_rational_coeffs with
  | None => ret (None, decimal)
  | Some _ =>
      let* numerators :=
        _get_arxml_children ld compu_rational_coeffs ["&COMPU-NUMERATOR"; "*&V"] in
      match numerators with
      | [n0; n1] =>
          let* denominators :=
            _get_arxml_children ld compu_rational_coeffs ["&COMPU-DENOMINATOR"; "*&V"] in
          match denominators with
          | [d0] =>
              let* denominator := lift (py_decimal_of (text d0)) in
              let* num1 := lift (py_decimal_of (text n1)) in
              let* dscale := lift (decimal_div num1 denominator) in
              let* num0 := lift (py_decimal_of (text n0)) in
              let* doffset := lift (decimal_div num0 denominator) in
              let decimal := mkSignalDecimal dscale doffset
                               (dec_minimum decimal) (dec_maximum decimal) in
              let* fscale := lift (float_of_decimal dscale) in
              let* foffset := lift (float_of_decimal doffset) in
              ret (Some (fscale, foffset), decimal)
          | _ => raise (ValueError (DenominatorCount (List.length denominators)))
          end
      | _ => raise (ValueError (NumeratorCount (List.length numerators)))
      end
  end.

(** [None if x is None else x*factor + offset] *)
Definition project (x : option pynum) (factor offset : pynum) : result (option pynum) :=
  match x with
  | None => OK None
  | Some v => let! y := affine v factor offset in OK (Some y)
  end.

Definition _load_linear (ld : SystemLoader) (compu_method : option Element)
           (decimal : SignalDecimal) (is_float : bool)
  : M (option pynum * option pynum * pynum * pynum * SignalDecimal) :=
  let* compu_scale :=
    _get_unique_arxml_child ld compu_method
      ["COMPU-INTERNAL-TO-PHYS"; "COMPU-SCALES"; "&COMPU-SCALE"] in
  let* lower_limit := _get_unique_arxml_child ld compu_scale ["&LOWER-LIMIT"] in
  let* upper_limit := _get_unique_arxml_child ld compu_scale ["&UPPER-LIMIT"] in
  (* range of the internal values *)
  let* minimum_int := lift (int_limit lower_limit) in
  let* maximum_int := lift (int_limit upper_limit) in
  let* (fo, decimal) := _load_linear_factor_and_offset ld compu_scale decimal in
  let factor := match fo with Some (f, _) => PyFloat f | None => PyFloat float_one end in
  let offset := match fo with Some (_, o) => PyFloat o | None => PyFloat float_zero end in
  (* range of the physical values *)
  let* minimum := lift (project minimum_int factor offset) in
  let* maximum := lift (project maximum_int factor offset) in
  let decimal :=
    set_decimal_bounds decimal
      ((fun m => VDecimal (decimal_of_num m)) <$> minimum)
      ((fun m => VDecimal (decimal_of_num m)) <$> maximum) in
  ret (minimum, maximum, factor, offset, decimal).

(** What the loop of [_load_scale_linear_and_texttable] reads from one
    [COMPU-SCALE]: the internal limits, the [VT] element, the comments
    and the linear coefficients. *)
Record ScaleData : Type :=
  mkScaleData { sd_lower : option Z;
                sd_upper : option Z;
                sd_vt : option Element;
                sd_comments : option Comments;
                sd_coeffs : option (pyfloat * pyfloat) }.

Definition int_text_limit (limit : option Element) : result (option Z) :=
  match limit with
  | None => OK None
  | Some e => let! v := parse_int_text (text e) in OK (Some v)
  end.

Definition read_compu_scale (ld : SystemLoader) (compu_scale : Element)
           (decimal : SignalDecimal) : M (ScaleData * SignalDecimal) :=
  let* lower_limit := _get_unique_arxml_child ld (Some compu_scale) ["LOWER-LIMIT"] in
  let* upper_limit := _get_unique_arxml_child ld (Some compu_scale) ["UPPER-LIMIT"] in
  let* vt := _get_unique_arxml_child ld (Some compu_scale) ["&COMPU-CONST"; "VT"] in
  let* comments := _load_comments ld (Some compu_scale) in
  (* range of the internal values of the scale. *)
  let* minimum_int_scale := lift (int_text_limit lower_limit) in
  let* maximum_int_scale := lift (int_text_limit upper_limit) in
  let* (fo, decimal) := _load_linear_factor_and_offset ld (Some compu_scale) decimal in
  ret (mkScaleData minimum_int_scale maximum_int_scale vt comments fo, decimal).

(** The accumulators of the loop: [minimum], [maximum], [factor],
    [offset] and [choices]. *)
Record ScaleAcc : Type :=
  mkScaleAcc { acc_minimum : option pynum;
               acc_maximum : option pynum;
               acc_factor : pynum;
               acc_offset : pynum;
               acc_choices : gmap Z NamedSignalValue }.

(** [factor_scale] and [offset_scale] once the defaults [1.0] and [0.0]
    are filled in. *)
Definition factor_scale (sd : ScaleData) : pyfloat :=
  match sd_coeffs sd with Some (f, _) => f | None => float_one end.
Definition offset_scale (sd : ScaleData) : pyfloat :=
  match sd_coeffs sd with Some (_, o) => o | None => float_zero end.

(** [limit*factor_scale + offset_scale]; the limit may be [None]. *)
Definition physical (sd : ScaleData) (limit : option Z) : result pynum :=
  match limit with
  | None => Err TypeError
  | Some v => affine (PyInt v) (PyFloat (factor_scale sd)) (PyFloat (offset_scale sd))
  end.

(** [if bound is None: bound = physical(limit)
     elif limit is not None: bound = pick(bound, physical(limit))] *)
Definition widen (pick : pynum -> pynum -> pynum) (sd : ScaleData)
           (bound : option pynum) (limit : option Z) : result (option pynum) :=
  match bound, limit with
  | None, _ => let! v := physical sd limit in OK (Some v)
  | Some b, Some _ => let! v := physical sd limit in OK (Some (pick b v))
  | Some b, None => OK (Some b)
  end.

(** The body of the loop after its reads. *)
Definition scale_step (acc : ScaleAcc) (sd : ScaleData) : result ScaleAcc :=
  let factor := match sd_coeffs sd with Some (f, _) => PyFloat f | None => acc_factor acc end in
  let offset := match sd_coeffs sd with Some (_, o) => PyFloat o | None => acc_offset acc end in
  (* range of the physical values of the scale. *)
  let! minimum := widen py_min sd (acc_minimum acc) (sd_lower sd) in
  let! maximum := widen py_max sd (acc_maximum acc) (sd_upper sd) in
  match sd_vt sd with
  | Some vt =>
      match sd_lower sd with
      | Some value =>
          let! _ := py_assert (bool_decide (sd_upper sd = Some value)) in
          OK (mkScaleAcc minimum maximum factor offset
                (<[value := mkNamedSignalValue value (text vt) (sd_comments sd)]>
                   (acc_choices acc)))
      | None => Err AssertionError
      end
  | None => OK (mkScaleAcc minimum maximum factor offset (acc_choices acc))
  end.

(** [Decimal(x)] where [x] may be [None]. *)
Definition decimal_of_bound (x : option pynum) : result pyvalue :=
  match x with
  | Some v => OK (VDecimal (decimal_of_num v))
  | None => Err TypeError
  end.

Definition _load_scale_linear_and_texttable (ld : SystemLoader)
           (compu_method : option Element) (decimal : SignalDecimal) (is_float : bool)
  : M (option pynum * option pynum * pynum * pynum * gmap Z NamedSignalValue
       * SignalDecimal) :=
  let* compu_scales :=
    _get_arxml_children ld compu_method
      ["&COMPU-INTERNAL-TO-PHYS"; "COMPU-SCALES"; "*&COMPU-SCALE"] in
  let* (acc, decimal) :=
    for_each compu_scales (mkScaleAcc None None (PyInt 1) (PyInt 0) ∅, decimal)
      (fun compu_scale st =>
         let '(acc, decimal) := st in
         let* (sd, decimal) := read_compu_scale ld compu_scale decimal in
         let* acc := lift (scale_step acc sd) in
         ret (acc, decimal)) in
  let* dmin := lift (decimal_of_bound (acc_minimum acc)) in
  let* dmax := lift (decimal_of_bound (acc_maximum acc)) in
  ret (acc_minimum acc, acc_maximum acc, acc_factor acc, acc_offset acc,
       acc_choices acc, set_decimal_bounds decimal (Some dmin) (Some dmax)).

Definition _get_compu_method (ld : SystemLoader) (system_signal : option Element)
  : M (option Element) :=
  if is_ar4 ld then
    _get_unique_arxml_child ld system_signal
      ["&PHYSICAL-PROPS"; "SW-DATA-DEF-PROPS-VARIANTS";
       "&SW-DATA-DEF-PROPS-CONDITIONAL"; "&COMPU-METHOD"]
  else
    _get_unique_arxml_child ld system_signal
      ["&DATA-TYPE"; "SW-DATA-DEF-PROPS"; "&COMPU-METHOD"].

(** The seven values [_load_system_signal] returns, and the [decimal]
    object it may have updated. *)
Record SystemSignalData : Type :=
  mkSystemSignalData { ss_minimum : option pynum;
                       ss_maximum : option pynum;
                       ss_factor : pynum;
                       ss_offset : pynum;
                       ss_choices : option (gmap Z NamedSignalValue);
                       ss_unit : option string;
                       ss_comments : option Comments;
                       ss_decimal : SignalDecimal }.

Definition _load_system_signal (ld : SystemLoader) (system_signal : option Element)
           (decimal : SignalDecimal) (is_float : bool) : M SystemSignalData :=
  let* compu_method := _get_compu_method ld system_signal in
  (* Unit and comment. *)
  let* unit := _load_system_signal_unit ld system_signal compu_method in
  let* comments := _load_comments ld system_signal in
  let identity := mkSystemSignalData None None (PyInt 1) (PyInt 0) None unit comments decimal in
  match compu_method with
  | None => ret identity
  | Some _ =>
      let* category := _get_unique_arxml_child ld compu_method ["CATEGORY"] in
      match category with
      | None => ret identity
      | Some category =>
          let category := text category in
          if bool_decide (category = Some "TEXTTABLE") then
            let* (minimum, maximum, choices, decimal) :=
              _load_texttable ld compu_method decimal is_float in
            ret (mkSystemSignalData minimum maximum (PyInt 1) (PyInt 0)
                   (Some choices) unit comments decimal)
          else if bool_decide (category = Some "LINEAR") then
            let* (minimum, maximum, factor, offset, decimal) :=
              _load_linear ld compu_method decimal is_float in
            ret (mkSystemSignalData minimum maximum factor offset
                   None unit comments decimal)
          else if bool_decide (category = Some "SCALE_LINEAR_AND_TEXTTABLE") then
            let* (minimum, maximum, factor, offset, choices, decimal) :=
              _load_scale_linear_and_texttable ld compu_method decimal is_float in
            ret (mkSystemSignalData minimum maximum factor offset
                   (Some choices) unit comments decimal)
          else
            (* Compu method category is not yet implemented. *)
            ret identity
      end
  end.

(* =================================================================== *)
(** * [SystemLoader]: signals *)
(* =================================================================== *)

Definition _get_i_signal (ld : SystemLoader) (i_signal_to_i_pdu_mapping : option Element)
  : M (option Element) :=
  if is_ar4 ld
  then _get_unique_arxml_child ld i_signal_to_i_pdu_mapping ["&I-SIGNAL"]
  else _get_unique_arxml_child ld i_signal_to_i_pdu_mapping ["&SIGNAL"].

Definition _get_sw_base_type (ld : SystemLoader) (i_signal : option Element)
  : M (option Element) :=
  _get_unique_arxml_child ld i_signal
    ["&NETWORK-REPRESENTATION-PROPS"; "SW-DATA-DEF-PROPS-VARIANTS";
     "&SW-DATA-DEF-PROPS-CONDITIONAL"; "&BASE-TYPE"].

(** Returns [(is_signed, is_float)].  When the encoding is missing the
    source builds its error message from an undefined variable. *)
Definition _load_signal_type (ld : SystemLoader) (i_signal : option Element)
  : M (bool * bool) :=
  let* base_type := _get_sw_base_type ld i_signal in
  match base_type with
  | None => ret (false, false)
  | Some _ =>
      let* base_type_encoding :=
        _get_unique_arxml_child ld base_type ["&BASE-TYPE-ENCODING"] in
      match base_type_encoding with
      | None => raise NameError
      | Some e =>
          let enc := text e in
          if bool_decide (enc = Some "2C") || bool_decide (enc = Some "1C")
             || bool_decide (enc = Some "SM")
          then ret (true, false)
          else if bool_decide (enc = Some "IEEE754") then ret (false, true)
          else ret (false, false)
      end
  end.

Definition _load_signal_name (ld : SystemLoader) (i_signal : option Element)
  : M (option string) :=
  unique_child_text ld i_signal ["SHORT-NAME"].

Definition _load_signal_start_position (ld : SystemLoader)
           (i_signal_to_i_pdu_mapping : option Element) : M Z :=
  let* pos := unique_child_text ld i_signal_to_i_pdu_mapping ["START-POSITION"] in
  lift (parse_int_text pos).

Definition _load_signal_length (ld : SystemLoader) (i_signal system_signal : option Element)
  : M (option Z) :=
  let* i_signal_length := _get_unique_arxml_child ld i_signal ["LENGTH"] in
  match i_signal_length with
  | Some l => let* n := lift (parse_int_text (text l)) in ret (Some n)
  | None =>
      match system_signal with
      | Some _ =>
          if negb (is_ar4 ld) then
            (* AUTOSAR3 supports specifying the signal length via the
               system signal. *)
            let* system_signal_length :=
              _get_unique_arxml_child ld system_signal ["LENGTH"] in
            match system_signal_length with
            | Some l => let* n := lift (parse_int_text (text l)) in ret (Some n)
            | None => ret None
            end
          else ret None
      | None => ret None
      end
  end.

Definition _load_signal_byte_order (ld : SystemLoader)
           (i_signal_to_i_pdu_mapping : option Element) : M string :=
  let* packing_byte_order :=
    _get_unique_arxml_child ld i_signal_to_i_pdu_mapping ["PACKING-BYTE-ORDER"] in
  match packing_byte_order with
  | Some e =>
      if bool_decide (text e = Some "MOST-SIGNIFICANT-BYTE-FIRST")
      then ret "big_endian" else ret "little_endian"
  | None => ret "little_endian"
  end.

Definition _load_arxml_init_value_string_helper (ld : SystemLoader)
           (signal_elem : Element) : M (option string) :=
  if is_ar4 ld then
    let* value_elem :=
      _get_unique_arxml_child ld (Some signal_elem)
        ["INIT-VALUE"; "NUMERICAL-VALUE-SPECIFICATION"; "VALUE"] in
    match value_elem with
    | Some v => ret (text v)  (* initial value is specified directly. *)
    | None =>
        let* value_elem :=
          _get_unique_arxml_child ld (Some signal_elem)
            ["INIT-VALUE"; "CONSTANT-REFERENCE"; "&CONSTANT"; "VALUE-SPEC";
             "NUMERICAL-VALUE-SPECIFICATION"; "VALUE"] in
        match value_elem with
        | Some v => ret (text v)
        | None => ret None
        end
    end
  else
    (* AUTOSAR3: INIT-VALUE-REF elements are not standard references *)
    match find_child (ns_tag ld "INIT-VALUE-REF") signal_elem with
    | None => ret None
    | Some ref_elem =>
        let* literal_spec :=
          lift (_follow_arxml_reference ld signal_elem (text ref_elem)
                  (attrib_get "DEST" (attrib ref_elem))
                  (attrib_get "BASE" (attrib ref_elem))) in
        match literal_spec with
        | None => ret None  (* dangling reference... *)
        | Some spec =>
            match find_child (ns_tag ld "VALUE") spec with
            | None => ret None
            | Some literal_value => ret (text literal_value)
            end
        end
    end.

Definition _load_arxml_init_value_string (ld : SystemLoader)
           (i_signal system_signal : option Element) : M (option string) :=
  if is_ar4 ld then
    match i_signal with
    | None => ret None
    | Some e => _load_arxml_init_value_string_helper ld e
    end
  else
    match system_signal with
    | None => ret None
    | Some e => _load_arxml_init_value_string_helper ld e
    end.

(** The conversion of the initial value string in [_load_signal]. *)
Definition convert_initial (initial : string)
           (choices : option (gmap Z NamedSignalValue)) (is_float : bool)
           (factor offset : pynum) : result initial_value :=
  let initial_int :=
    match parse_int_string initial with
    | OK n => Some n
    | Err _ => None
    end in
  let chosen :=
    match choices, initial_int with
    | Some c, Some n => c !! n
    | _, _ => None
    end in
  match chosen with
  | Some c => OK (InitChoice c)
  | None =>
      if is_float then
        let! x := py_float initial in
        let! v := affine (PyFloat x) factor offset in
        OK (InitNum v)
      else if String.eqb (py_lower (py_strip initial)) "true" then OK (InitBool true)
      else if String.eqb (py_lower (py_strip initial)) "false" then OK (InitBool false)
      else
        match initial_int with
        | Some n => let! v := affine (PyInt n) factor offset in OK (InitNum v)
        | None => Err TypeError
        end
  end.

Definition _load_signal (ld : SystemLoader) (i_signal_to_i_pdu_mapping : Element)
  : M (option Signal) :=
  let mapping := Some i_signal_to_i_pdu_mapping in
  let* i_signal := _get_i_signal ld mapping in
  match i_signal with
  | None =>
      (* No I-SIGNAL found, i.e. this mapping is probably a i-signal group. *)
      ret None
  | Some _ =>
      let* system_signal := _get_unique_arxml_child ld i_signal ["&SYSTEM-SIGNAL"] in
      let is_group :=
        match system_signal with
        | Some s => negb (has_tag (ns_tag ld "SYSTEM-SIGNAL") s)
        | None => false
        end in
      if is_group then ret None
      else
        (* Default values. *)
        let decimal := mkSignalDecimal (decimal_of_int 1) (decimal_of_int 0) None None in
        let i_signal_spec := if is_ar4 ld then "&I-SIGNAL" else "&SIGNAL" in
        let* i_signal := _get_unique_arxml_child ld mapping [i_signal_spec] in
        (* Name, start position, length and byte order. *)
        let* name := _load_signal_name ld i_signal in
        let* start_position := _load_signal_start_position ld mapping in
        let* length := _load_signal_length ld i_signal system_signal in
        let* byte_order := _load_signal_byte_order ld mapping in
        (* Type. *)
        let* (is_signed, is_float) := _load_signal_type ld i_signal in
        let* ss :=
          match system_signal with
          | Some _ => _load_system_signal ld system_signal decimal is_float
          | None => ret (mkSystemSignalData None None (PyInt 1) (PyInt 0)
                           None None None decimal)
          end in
        let* initial := _load_arxml_init_value_string ld i_signal system_signal in
        let* initial :=
          match initial with
          | None => ret None
          | Some s =>
              let* v := lift (convert_initial s (ss_choices ss) is_float
                                (ss_factor ss) (ss_offset ss)) in
              ret (Some v)
          end in
        ret (Some (mkSignal name start_position length byte_order is_signed
                     (ss_factor ss) (ss_offset ss) initial
                     (ss_minimum ss) (ss_maximum ss) (ss_unit ss) (ss_choices ss)
                     (ss_comments ss) is_float (Some (ss_decimal ss))
                     false None None))
  end.

Definition _load_pdu_signals (ld : SystemLoader) (pdu : option Element)
  : M (list Signal) :=
  let first_location :=
    if is_ar4 ld
    then ["I-SIGNAL-TO-PDU-MAPPINGS"; "*&I-SIGNAL-TO-I-PDU-MAPPING"]
    else ["SIGNAL-TO-PDU-MAPPINGS"; "*&I-SIGNAL-TO-I-PDU-MAPPING"] in
  let* i_signal_to_i_pdu_mappings := _get_arxml_children ld pdu first_location in
  let* more :=
    _get_arxml_children ld pdu
      ["I-SIGNAL-TO-I-PDU-MAPPINGS"; "*&I-SIGNAL-TO-I-PDU-MAPPING"] in
  for_each (i_signal_to_i_pdu_mappings ++ more) []
    (fun i_signal_to_i_pdu_mapping signals =>
       let* signal := _load_signal ld i_signal_to_i_pdu_mapping in
       match signal with
       | Some s => ret (signals ++ [s])
       | None => ret signals
       end).

(* =================================================================== *)
(** * [SystemLoader]: PDUs *)
(* =================================================================== *)

(** [f'{n}'] for an integer. *)
Definition str_of_int (n : Z) : string := NilZero.string_of_int (Z.to_int n).

(** [f'{frame_name}_selector{next_selector_idx}'] *)
Definition selector_name (frame_name : option string) (next_selector_idx : Z) : string :=
  fmt frame_name +:+ "_selector" +:+ str_of_int next_selector_idx.

(** [Signal(name=..., start=..., length=..., byte_order=..., choices={},
    is_multiplexer=True)] *)
Definition new_selector_signal (name : string) (start length : Z)
           (byte_order : string) : Signal :=
  mkSignal (Some name) start (Some length) byte_order false (PyInt 1) (PyInt 0)
    None None None None (Some ∅) None false None true None None.

(** [l.remove(x)] where [x] is the first element of [l] satisfying [p]. *)
Fixpoint remove_first {A} (p : A -> bool) (l : list A) : list A :=
  match l with
  | [] => []
  | x :: l' => if p x then l' else x :: remove_first p l'
  end.

(** [d.update(other)] *)
Definition dict_update {V} (d other : gmap Z V) : gmap Z V := other ∪ d.

(** If a given signal is not already under the wings of a sub-multiplexer
    signal, the selector claims it. *)
Definition claim (selector : Signal) (dynalt_selector_value : Z) (sig : Signal) : Signal :=
  match multiplexer_signal sig with
  | None => set_multiplexer sig (name selector) [dynalt_selector_value]
  | Some _ => sig
  end.

(** What [_load_pdu] returns: [(next_selector_idx, bit_length, signals,
    cycle_time)]. *)
Definition PduResult : Type := (Z * option Z * list Signal * option Z)%type.

(** The state of the loops of [_load_pdu_multiplexed_parts]: the counter,
    the selector signal (the head of [signals] in the source, updated in
    place) and the signals appended after it. *)
Definition MuxState : Type := (Z * Signal * list Signal)%type.

(** The selector value of a dynamic part alternative. *)
Definition dynalt_selector_value (ld : SystemLoader) (dynalt : Element) : M Z :=
  let* code_text := unique_child_text ld (Some dynalt) ["SELECTOR-FIELD-CODE"] in
  lift (parse_int_text code_text).

(** Whether a dynamic part alternative is flagged initial. *)
Definition dynalt_is_initial (ld : SystemLoader) (dynalt : Element) : M bool :=
  let* is_initial := _get_unique_arxml_child ld (Some dynalt) ["INITIAL-DYNAMIC-PART"] in
  match is_initial with
  | Some e => ret (bool_decide (text e = Some "true"))
  | None => ret false
  end.

(** What one turn of the loop over the alternatives does once it has read
    the alternative and decomposed its PDU: the selector signal takes the
    initial value and the choices, its duplicate is removed from the
    signals of the alternative and the other signals are claimed. *)
Definition merge_dynalt (selector_pos selector_len : Z) (selector_signal : Signal)
           (dynalt_selector_value : Z) (is_initial : bool)
           (dynalt_signals : list Signal) : result (Signal * list Signal) :=
  let! selector_signal :=
    if is_initial then
      let! _ := py_assert (bool_decide (initial selector_signal = None)) in
      OK (set_initial selector_signal (Some (InitNum (PyInt dynalt_selector_value))))
    else OK selector_signal in
  (* remove the selector signal from the dynamic part *)
  let at_selector := fun x : Signal => start x =? selector_pos in
  let dynalt_selector_signals := List.filter at_selector dynalt_signals in
  match dynalt_selector_signals with
  | [dup] =>
      let! _ := py_assert (start dup =? selector_pos) in
      let! _ := py_assert (bool_decide (length dup = Some selector_len)) in
      let! selector_signal :=
        match choices dup with
        | Some c =>
            let! mine := attr_of (choices selector_signal) in
            OK (set_choices selector_signal (Some (dict_update mine c)))
        | None => OK selector_signal
        end in
      let dynalt_signals := remove_first at_selector dynalt_signals in
      (* copy the non-selector signals into the list of signals for the PDU *)
      OK (selector_signal,
          map (claim selector_signal dynalt_selector_value) dynalt_signals)
  | _ => Err AssertionError
  end.

(** One turn of the loop over the dynamic part alternatives. *)
Definition load_dynalt (load_pdu : option Element -> option string -> Z -> M PduResult)
           (ld : SystemLoader) (frame_name : option string)
           (selector_pos selector_len : Z) (dynalt : Element) (st : MuxState)
  : M MuxState :=
  let '(next_selector_idx, selector_signal, signals) := st in
  let* dynalt_selector_value := dynalt_selector_value ld dynalt in
  let* dynalt_pdu := _get_unique_arxml_child ld (Some dynalt) ["&I-PDU"] in
  let* (next_selector_idx, dynalt_bit_length, dynalt_signals, dynalt_cycle_time) :=
    load_pdu dynalt_pdu frame_name next_selector_idx in
  let* is_initial := dynalt_is_initial ld dynalt in
  let* (selector_signal, dynalt_signals) :=
    lift (merge_dynalt selector_pos selector_len selector_signal
            dynalt_selector_value is_initial dynalt_signals) in
  ret (next_selector_idx, selector_signal, signals ++ dynalt_signals).

(** One turn of the loop over the static parts. *)
Definition load_static (load_pdu : option Element -> option string -> Z -> M PduResult)
           (frame_name : option string) (static_pdu : Element) (st : MuxState)
  : M MuxState :=
  let '(next_selector_idx, selector_signal, signals) := st in
  let* (next_selector_idx, bit_length, static_signals, _) :=
    load_pdu (Some static_pdu) frame_name next_selector_idx in
  ret (next_selector_idx, selector_signal, signals ++ static_signals).

Definition dynpart_spec (ld : SystemLoader) : list string :=
  if is_ar4 ld
  then ["DYNAMIC-PARTS"; "*DYNAMIC-PART"; "DYNAMIC-PART-ALTERNATIVES";
        "*DYNAMIC-PART-ALTERNATIVE"]
  else ["DYNAMIC-PART"; "DYNAMIC-PART-ALTERNATIVES"; "*DYNAMIC-PART-ALTERNATIVE"].

Definition static_pdus_spec (ld : SystemLoader) : list string :=
  if is_ar4 ld then ["STATIC-PARTS"; "*STATIC-PART"; "&I-PDU"]
  else ["STATIC-PART"; "&I-PDU"].

(** The position and the length of the selector field of a multiplexed
    PDU. *)
Definition selector_field (ld : SystemLoader) (pdu : option Element) : M (Z * Z) :=
  let* pos_text := unique_child_text ld pdu ["SELECTOR-FIELD-START-POSITION"] in
  let* selector_pos := lift (parse_int_text pos_text) in
  let* len_text := unique_child_text ld pdu ["SELECTOR-FIELD-LENGTH"] in
  let* selector_len := lift (parse_int_text len_text) in
  ret (selector_pos, selector_len).

(** [_load_pdu_multiplexed_parts(pdu, frame_name, next_selector_idx)];
    [load_pdu] stands for the recursive calls of [_load_pdu].  Returns
    the list [signals] alone, as the source does. *)
Definition _load_pdu_multiplexed_parts
           (load_pdu : option Element -> option string -> Z -> M PduResult)
           (ld : SystemLoader) (pdu : option Element) (frame_name : option string)
           (next_selector_idx : Z) : M (list Signal) :=
  let* (selector_pos, selector_len) := selector_field ld pdu in
  let* selector_byte_order := _get_unique_arxml_child ld pdu ["SELECTOR-FIELD-BYTE-ORDER"] in
  let* selector_byte_order :=
    match selector_byte_order with
    | Some e =>
        if bool_decide (text e = Some "MOST-SIGNIFICANT-BYTE-FIRST") then ret "big_endian"
        else
          let* _ := lift (py_assert (bool_decide (text e = Some "MOST-SIGNIFICANT-BYTE-LAST"))) in
          ret "little_endian"
    | None => ret "little_endian"
    end in
  let selector_signal :=
    new_selector_signal (selector_name frame_name next_selector_idx)
      selector_pos selector_len selector_byte_order in
  let next_selector_idx := next_selector_idx + 1 in
  let* dynalts := _get_arxml_children ld pdu (dynpart_spec ld) in
  let* st :=
    for_each dynalts (next_selector_idx, selector_signal, [])
      (load_dynalt load_pdu ld frame_name selector_pos selector_len) in
  (* the static part of the multiplexed PDU *)
  let* static_pdus := _get_arxml_children ld pdu (static_pdus_spec ld) in
  let* (_, selector_signal, signals) :=
    for_each static_pdus st (load_static load_pdu frame_name) in
  ret (selector_signal :: signals).

Definition time_period_location (ld : SystemLoader) : list string :=
  if is_ar4 ld
  then ["I-PDU-TIMING-SPECIFICATIONS"; "I-PDU-TIMING"; "TRANSMISSION-MODE-DECLARATION";
        "TRANSMISSION-MODE-TRUE-TIMING"; "CYCLIC-TIMING"; "TIME-PERIOD"; "VALUE"]
  else ["I-PDU-TIMING-SPECIFICATION"; "CYCLIC-TIMING"; "REPEATING-TIME"; "VALUE"].

(** [int(float(text) * 1000)] *)
Definition milliseconds (t : option string) : result Z :=
  let! x := py_float_of t in
  let! k := float_of_int 1000 in
  int_of_float (float_mul x k).

(** [_load_pdu(pdu, frame_name, next_selector_idx)].  A PDU nests the
    PDUs its parts refer to, and references can form a cycle; [depth]
    bounds the nesting of the calls as Python's recursion limit does. *)
Fixpoint _load_pdu (depth : nat) (ld : SystemLoader) (pdu : option Element)
         (frame_name : option string) (next_selector_idx : Z) : M PduResult :=
  match depth with
  | O => raise RecursionError
  | S depth' =>
      let* bit_length := _get_unique_arxml_child ld pdu ["LENGTH"] in
      let* bit_length :=
        match bit_length with
        | Some e => let* n := lift (parse_int_text (text e)) in ret (Some n)
        | None => ret None
        end in
      let* time_period := _get_unique_arxml_child ld pdu (time_period_location ld) in
      let* cycle_time :=
        match time_period with
        | Some e => let* n := lift (milliseconds (text e)) in ret (Some n)
        | None => ret None
        end in
      (* ordinary non-multiplexed message *)
      let* signals := _load_pdu_signals ld pdu in
      let* tag := lift (let! e := attr_of pdu in OK (tag e)) in
      let* signals :=
        if String.eqb tag (ns_tag ld "MULTIPLEXED-I-PDU") then
          (* multiplexed signals *)
          let* more := _load_pdu_multiplexed_parts (_load_pdu depth' ld) ld pdu
                         frame_name next_selector_idx in
          ret (signals ++ more)
        else ret signals in
      ret (next_selector_idx, bit_length, signals, cycle_time)
  end.

(* =================================================================== *)
(** * [SystemLoader]: messages and the load *)
(* =================================================================== *)

Definition _get_can_frame (ld : SystemLoader) (can_frame_triggering : option Element)
  : M (option Element) :=
  _get_unique_arxml_child ld can_frame_triggering ["&FRAME"].

Definition _get_pdu (ld : SystemLoader) (can_frame : option Element) : M (option Element) :=
  _get_unique_arxml_child ld can_frame
    ["PDU-TO-FRAME-MAPPINGS"; "&PDU-TO-FRAME-MAPPING"; "&PDU"].

Definition _load_message_name (ld : SystemLoader) (can_frame : option Element)
  : M (option string) :=
  unique_child_text ld can_frame ["SHORT-NAME"].

Definition _load_message_frame_id (ld : SystemLoader) (can_frame_triggering : option Element)
  : M Z :=
  let* t := unique_child_text ld can_frame_triggering ["IDENTIFIER"] in
  lift (parse_int_text t).

Definition _load_message_length (ld : SystemLoader) (can_frame : option Element) : M Z :=
  let* t := unique_child_text ld can_frame ["FRAME-LENGTH"] in
  lift (parse_int_text t).

Definition _load_message_is_extended_frame (ld : SystemLoader)
           (can_frame_triggering : option Element) : M bool :=
  let* can_addressing_mode :=
    _get_unique_arxml_child ld can_frame_triggering ["CAN-ADDRESSING-MODE"] in
  match can_addressing_mode with
  | None => ret false
  | Some e => ret (bool_decide (text e = Some "EXTENDED"))
  end.

(** The nesting depth allowed to [_load_pdu]; Python's default recursion
    limit is 1000 frames. *)
Definition recursion_limit : nat := 1000.

Definition _load_message (ld : SystemLoader) (can_frame_triggering : Element)
  : M Message :=
  let triggering := Some can_frame_triggering in
  let* can_frame := _get_can_frame ld triggering in
  (* Name, frame id, length, is_extended_frame and comment. *)
  let* name := _load_message_name ld can_frame in
  let* frame_id := _load_message_frame_id ld triggering in
  let* length := _load_message_length ld can_frame in
  let* is_extended_frame := _load_message_is_extended_frame ld triggering in
  let* comments := _load_comments ld can_frame in
  let* pdu := _get_pdu ld can_frame in
  let* _ := lift (py_assert (bool_decide (is_Some pdu))) in
  let* (_, _, signals, cycle_time) := _load_pdu recursion_limit ld pdu name 1 in
  ret (mkMessage frame_id is_extended_frame name length cycle_time signals
         comments (_strict ld)).

Definition frame_triggerings_spec (ld : SystemLoader) : list string :=
  if is_ar4 ld
  then ["ELEMENTS"; "*&CAN-CLUSTER"; "CAN-CLUSTER-VARIANTS"; "*&CAN-CLUSTER-CONDITIONAL";
        "PHYSICAL-CHANNELS"; "*&CAN-PHYSICAL-CHANNEL"; "FRAME-TRIGGERINGS";
        "*&CAN-FRAME-TRIGGERING"]
  else ["ELEMENTS"; "*&CAN-CLUSTER"; "PHYSICAL-CHANNELS"; "*&PHYSICAL-CHANNEL";
        (* the trailing 'S' is on purpose *)
        "FRAME-TRIGGERINGSS"; "*&CAN-FRAME-TRIGGERING"].

(** [_load_package_contents(package_elem, messages)]; the list
    [messages] it appends to is passed along. *)
Definition _load_package_contents (ld : SystemLoader) (package_elem : Element)
           (messages : list Message) : M (list Message) :=
  let* can_frame_triggerings :=
    _get_arxml_children ld (Some package_elem) (frame_triggerings_spec ld) in
  for_each can_frame_triggerings messages
    (fun can_frame_triggering messages =>
       let* m := _load_message ld can_frame_triggering in
       ret (messages ++ [m])).

(** The tag of the list of sub-packages of a package. *)
Definition sub_packages_tag (ld : SystemLoader) : string :=
  if is_ar4 ld then ns_tag ld "AR-PACKAGES" else ns_tag ld "SUB-PACKAGES".

(** [for package in package_list.iterfind('./ns:AR-PACKAGE'): f(package)],
    the list of messages being passed along. *)
Definition over_packages (ld : SystemLoader)
           (f : Element -> list Message -> M (list Message))
  : list Element -> list Message -> M (list Message) :=
  fix loop (l : list Element) (messages : list Message) : M (list Message) :=
    match l with
    | [] => ret messages
    | package :: l' =>
        if has_tag (ns_tag ld "AR-PACKAGE") package
        then let* messages := f package messages in loop l' messages
        else loop l' messages
    end.

(** [x = package.find(t)], then [f(x)] unless [x] is [None]. *)
Definition with_first_child {B} (t : string) (f : Element -> B) (otherwise : B)
  : list Element -> B :=
  fix loop (cs : list Element) : B :=
    match cs with
    | [] => otherwise
    | c :: cs' => if has_tag t c then f c else loop cs'
    end.

(** [handle_package_list(package_list)], local to [load]; the list
    [messages] of [load] is passed along. *)
Fixpoint handle_package_list (ld : SystemLoader) (package_list : Element)
         (messages : list Message) : M (list Message) :=
  over_packages ld
    (fun package messages =>
       (* deal with the package contents *)
       let* messages := _load_package_contents ld package messages in
       (* load all sub-packages *)
       with_first_child (sub_packages_tag ld)
         (fun sub_package_list => handle_package_list ld sub_package_list messages)
         (ret messages) (children package))
    (children package_list) messages.

(** [SystemLoader.load()] *)
Definition load (ld : SystemLoader) : M InternalDatabase :=
  let top :=
    if is_ar4 ld then find_child (ns_tag ld "AR-PACKAGES") (_root ld)
    else
      (* AUTOSAR3 puts the top level packages beneath the
         TOP-LEVEL-PACKAGES XML tag. *)
      find_child (ns_tag ld "TOP-LEVEL-PACKAGES") (_root ld) in
  let* package_list := lift (attr_of top) in
  let* messages := handle_package_list ld package_list [] in
  ret (mkInternalDatabase messages).

(* =================================================================== *)
(** * [EcuExtractLoader] *)
(* =================================================================== *)

(** The ARXML XML namespace for the EcuExtractLoader *)
Definition NAMESPACE : string := "http://autosar.org/schema/r4.0".

Definition ROOT_TAG : string := qname NAMESPACE "AUTOSAR".

Definition ecu_tag (name : string) : string := qname NAMESPACE name.

(** [''.join(e.itertext())] *)
Fixpoint itertext (e : Element) : string :=
  default "" (text e)
  +:+ (fix over_children (cs : list Element) : string :=
         match cs with
         | [] => ""
         | c :: cs' => itertext c +:+ default "" (tail c) +:+ over_children cs'
         end) (children e).

(** A step of an ElementTree path: [ns:NAME] or
    [ns:NAME/[ns:SHORT-NAME='value']]. *)
Inductive path_step : Type :=
  | Child (name : string)
  | ChildNamed (name : string) (short_name : string).

Definition has_short_name (value : string) (e : Element) : bool :=
  existsb (fun c => String.eqb (itertext c) value)
          (iterfind_child (ecu_tag "SHORT-NAME") e).

Definition select (st : path_step) (e : Element) : list Element :=
  match st with
  | Child name => iterfind_child (ecu_tag name) e
  | ChildNamed name value =>
      List.filter (has_short_name value) (iterfind_child (ecu_tag name) e)
  end.

(** [elem.iterfind(make_xpath(location), NAMESPACES)] *)
Fixpoint iterfind (location : list path_step) (context : list Element) : list Element :=
  match location with
  | [] => context
  | st :: rest => iterfind rest (flat_map (select st) context)
  end.

(** [elem.find(make_xpath(location), NAMESPACES)] *)
Definition find (location : list path_step) (e : Element) : option Element :=
  head (iterfind location [e]).

(** [xpath.split('/')[i]] for [i] 1 and -1. *)
Definition second_part (xpath : string) : result string :=
  match py_split "/" xpath with
  | _ :: p :: _ => OK p
  | _ => Err IndexError
  end.
Definition last_part (xpath : string) : string :=
  List.last (py_split "/" xpath) "".

(** A value pasted between single quotes into a path must not itself hold
    a single quote: the path would not be the predicate intended, and in
    general not a path at all. *)
Definition quoted (value : string) : result string :=
  if char_in "'" value then Err SyntaxError else OK value.

Definition ECUC_VALUE_COLLECTION_XPATH : list path_step :=
  [Child "AR-PACKAGES"; Child "AR-PACKAGE"; Child "ELEMENTS"; Child "ECUC-VALUE-COLLECTION"].
Definition ECUC_MODULE_CONFIGURATION_VALUES_REF_XPATH : list path_step :=
  [Child "ECUC-VALUES"; Child "ECUC-MODULE-CONFIGURATION-VALUES-REF-CONDITIONAL";
   Child "ECUC-MODULE-CONFIGURATION-VALUES-REF"].
Definition ECUC_REFERENCE_VALUE_XPATH : list path_step :=
  [Child "REFERENCE-VALUES"; Child "ECUC-REFERENCE-VALUE"].
Definition DEFINITION_REF_XPATH : list path_step := [Child "DEFINITION-REF"].
Definition VALUE_XPATH : list path_step := [Child "VALUE"].
Definition VALUE_REF_XPATH : list path_step := [Child "VALUE-REF"].
Definition SHORT_NAME_XPATH : list path_step := [Child "SHORT-NAME"].
Definition PARAMETER_VALUES_XPATH : list path_step := [Child "PARAMETER-VALUES"].
Definition REFERENCE_VALUES_XPATH : list path_step := [Child "REFERENCE-VALUES"].

Record EcuExtractLoader : Type :=
  mkEcuExtractLoader { ecu_root : Element; ecu_strict : bool }.

(** The Com module path down to the sub-containers of ComConfig. *)
Definition com_config_path (package : string) : list path_step :=
  [Child "AR-PACKAGES"; ChildNamed "AR-PACKAGE" package; Child "ELEMENTS";
   ChildNamed "ECUC-MODULE-CONFIGURATION-VALUES" "Com"; Child "CONTAINERS";
   ChildNamed "ECUC-CONTAINER-VALUE" "ComConfig"; Child "SUB-CONTAINERS"].

Definition find_com_config (self : EcuExtractLoader) (xpath : string)
  : result (option Element) :=
  let! package := second_part xpath in
  let! package := quoted package in
  OK (find (com_config_path package) (ecu_root self)).

Definition find_value (self : EcuExtractLoader) (xpath : string)
  : result (option Element) :=
  let! package := second_part xpath in
  let! package := quoted package in
  let! last := quoted (last_part xpath) in
  OK (find (com_config_path package ++ [ChildNamed "ECUC-CONTAINER-VALUE" last])
           (ecu_root self)).

(** One item of [iter_parameter_values] or [iter_reference_values]: the
    last part of the definition reference and the text of the value. *)
Definition value_item (value_xpath : list path_step) (parameter : Element)
  : result (string * option string) :=
  let! definition_ref := text_of (find DEFINITION_REF_XPATH parameter) in
  let! value := text_of (find value_xpath parameter) in
  let! definition_ref := attr_of definition_ref in
  OK (last_part definition_ref, value).

(** The elements [iter_parameter_values] iterates over. *)
Definition parameter_elements (param_conf_container : Element) : result (list Element) :=
  match find PARAMETER_VALUES_XPATH param_conf_container with
  | None => Err (ValueError NoParameterValues)
  | Some parameters => OK (children parameters)
  end.

(** The elements [iter_reference_values] iterates over. *)
Definition reference_elements (param_conf_container : Element) : result (list Element) :=
  match find REFERENCE_VALUES_XPATH param_conf_container with
  | None => Err (ValueError NoReferenceValues)
  | Some references => OK (children references)
  end.

(** [for name, value in items: if name == key: found = value; break]
    over a generator: the items after the first hit are never produced. *)
Fixpoint first_value (value_xpath : list path_step) (key : string)
         (items : list Element) : result (option string) :=
  match items with
  | [] => OK None
  | item :: rest =>
      let! (name, value) := value_item value_xpath item in
      if String.eqb name key then OK value
      else first_value value_xpath key rest
  end.

(** The CanIf containers [find_can_if_rx_tx_pdu_cfg] searches. *)
Definition can_if_path (package : string) : list path_step :=
  [Child "AR-PACKAGES"; ChildNamed "AR-PACKAGE" package; Child "ELEMENTS";
   ChildNamed "ECUC-MODULE-CONFIGURATION-VALUES" "CanIf"; Child "CONTAINERS";
   ChildNamed "ECUC-CONTAINER-VALUE" "CanIfInitCfg"; Child "SUB-CONTAINERS";
   Child "ECUC-CONTAINER-VALUE"].

(** [for reference, value in iter_reference_values(message):
       if reference == expected and value == com_pdu_id_ref: return message] *)
Fixpoint refers_to (expected_reference com_pdu_id_ref : string)
         (items : list Element) : result bool :=
  match items with
  | [] => OK false
  | item :: rest =>
      let! (reference, value) := value_item VALUE_REF_XPATH item in
      if String.eqb reference expected_reference
         && bool_decide (value = Some com_pdu_id_ref)
      then OK true
      else refers_to expected_reference com_pdu_id_ref rest
  end.

Fixpoint search_can_if (com_pdu_id_ref : string) (messages : list Element)
  : result (option Element) :=
  match messages with
  | [] => OK None
  | message :: rest =>
      let! definition_ref := text_of (find DEFINITION_REF_XPATH message) in
      let! definition_ref := attr_of definition_ref in
      let expected_reference :=
        if py_endswith "CanIfTxPduCfg" definition_ref then Some "CanIfTxPduRef"
        else if py_endswith "CanIfRxPduCfg" definition_ref then Some "CanIfRxPduRef"
        else None in
      match expected_reference with
      | None => search_can_if com_pdu_id_ref rest
      | Some expected =>
          let! references := reference_elements message in
          let! hit := refers_to expected com_pdu_id_ref references in
          if hit then OK (Some message) else search_can_if com_pdu_id_ref rest
      end
  end.

Definition find_can_if_rx_tx_pdu_cfg (self : EcuExtractLoader) (com_pdu_id_ref : string)
  : result (option Element) :=
  let! package := second_part com_pdu_id_ref in
  let! package := quoted package in
  search_can_if com_pdu_id_ref (iterfind (can_if_path package) [ecu_root self]).

(** The three values [load_message_rx_tx] collects. *)
Definition CanIfData : Type := (option Z * option Z * option bool)%type.

Fixpoint collect_can_if (parameter_can_id parameter_dlc parameter_can_id_type : string)
         (items : list Element) (acc : CanIfData) : result CanIfData :=
  match items with
  | [] => OK acc
  | item :: rest =>
      let '(frame_id, length, is_extended_frame) := acc in
      let! (parameter, value) := value_item VALUE_XPATH item in
      let! acc :=
        if String.eqb parameter parameter_can_id then
          let! n := py_int_of value in OK (Some n, length, is_extended_frame)
        else if String.eqb parameter parameter_dlc then
          let! n := py_int_of value in OK (frame_id, Some n, is_extended_frame)
        else if String.eqb parameter parameter_can_id_type then
          OK (frame_id, length, Some (bool_decide (value = Some "EXTENDED_CAN")))
        else OK acc in
      collect_can_if parameter_can_id parameter_dlc parameter_can_id_type rest acc
  end.

Definition load_message_rx_tx (self : EcuExtractLoader) (com_pdu_id_ref : string)
           (parameter_can_id parameter_dlc parameter_can_id_type : string)
  : result CanIfData :=
  let! can_if_tx_pdu_cfg := find_can_if_rx_tx_pdu_cfg self com_pdu_id_ref in
  match can_if_tx_pdu_cfg with
  | Some cfg =>
      let! parameters := parameter_elements cfg in
      collect_can_if parameter_can_id parameter_dlc parameter_can_id_type
        parameters (None, None, None)
  | None => OK (None, None, None)
  end.

Definition load_message_tx (self : EcuExtractLoader) (com_pdu_id_ref : string)
  : result CanIfData :=
  load_message_rx_tx self com_pdu_id_ref
    "CanIfTxPduCanId" "CanIfTxPduDlc" "CanIfTxPduCanIdType".

Definition load_message_rx (self : EcuExtractLoader) (com_pdu_id_ref : string)
  : result CanIfData :=
  load_message_rx_tx self com_pdu_id_ref
    "CanIfRxPduCanId" "CanIfRxPduDlc" "CanIfRxPduCanIdType".

(** The attributes the loop of [load_signal] collects: bit position,
    length, byte order, signedness and floatness. *)
Definition EcuSignalData : Type :=
  (option Z * option Z * option string * bool * bool)%type.

Definition string_in (l : list string) (o : option string) : bool :=
  match o with
  | Some s => existsb (String.eqb s) l
  | None => false
  end.

Fixpoint collect_signal (items : list Element) (acc : EcuSignalData)
  : result EcuSignalData :=
  match items with
  | [] => OK acc
  | item :: rest =>
      let '(bit_position, length, byte_order, is_signed, is_float) := acc in
      let! (parameter, value) := value_item VALUE_XPATH item in
      let! acc :=
        if String.eqb parameter "ComBitPosition" then
          let! n := py_int_of value in OK (Some n, length, byte_order, is_signed, is_float)
        else if String.eqb parameter "ComBitSize" then
          let! n := py_int_of value in OK (bit_position, Some n, byte_order, is_signed, is_float)
        else if String.eqb parameter "ComSignalEndianness" then
          let! v := attr_of value in
          OK (bit_position, length, Some (py_lower v), is_signed, is_float)
        else if String.eqb parameter "ComSignalType" then
          if string_in ["SINT8"; "SINT16"; "SINT32"] value
          then OK (bit_position, length, byte_order, true, is_float)
          else if string_in ["FLOAT32"; "FLOAT64"] value
          then OK (bit_position, length, byte_order, is_signed, true)
          else OK acc
        else OK acc in
      collect_signal rest acc
  end.

Definition load_signal (self : EcuExtractLoader) (xpath : option string)
  : result (option Signal) :=
  let! xpath := attr_of xpath in
  let! ecuc_container_value := find_value self xpath in
  match ecuc_container_value with
  | None => OK None
  | Some container =>
      let! name := text_of (find SHORT_NAME_XPATH container) in
      (* Default values. *)
      let decimal := mkSignalDecimal (decimal_of_int 1) (decimal_of_int 0) None None in
      (* Bit position, length, byte order, is_signed and is_float. *)
      let! parameters := parameter_elements container in
      let! (bit_position, length, byte_order, is_signed, is_float) :=
        collect_signal parameters (None, None, None, false, false) in
      match bit_position, length, byte_order with
      | None, _, _ => OK None        (* No bit position found *)
      | Some _, None, _ => OK None   (* No bit size found *)
      | Some _, Some _, None => OK None  (* No endianness found *)
      | Some bit_position, Some length, Some byte_order =>
          OK (Some (mkSignal name bit_position (Some length) byte_order is_signed
                      (PyInt 1) (PyInt 0) None None None None None None is_float
                      (Some decimal) false None None))
      end
  end.

(** The loop of [load_message] over the [ECUC-REFERENCE-VALUE]s. *)
Fixpoint load_message_signals (self : EcuExtractLoader) (values : list Element)
         (signals : list Signal) : result (list Signal) :=
  match values with
  | [] => OK signals
  | value :: rest =>
      let! definition_ref := text_of (find DEFINITION_REF_XPATH value) in
      let! definition_ref := attr_of definition_ref in
      if negb (py_endswith "ComIPduSignalRef" definition_ref)
      then load_message_signals self rest signals
      else
        let! value_ref := text_of (find VALUE_REF_XPATH value) in
        let! signal := load_signal self value_ref in
        match signal with
        | Some s => load_message_signals self rest (signals ++ [s])
        | None => load_message_signals self rest signals
        end
  end.

(** The first part of [load_message]: the name, the direction and the
    reference to the CanIf entry, then the CAN id, the length and the
    addressing mode read from that entry. *)
Definition load_message_can_if (self : EcuExtractLoader) (com_i_pdu : Element)
  : result (option string * CanIfData) :=
  (* Name, frame id, length and is_extended_frame. *)
  let! name := text_of (find SHORT_NAME_XPATH com_i_pdu) in
  let! parameters := parameter_elements com_i_pdu in
  let! direction := first_value VALUE_XPATH "ComIPduDirection" parameters in
  let! references := reference_elements com_i_pdu in
  let! com_pdu_id_ref := first_value VALUE_REF_XPATH "ComPduIdRef" references in
  match com_pdu_id_ref with
  | None => Err (ValueError NoComPduIdRef)
  | Some com_pdu_id_ref =>
      let! data :=
        if bool_decide (direction = Some "SEND") then load_message_tx self com_pdu_id_ref
        else if bool_decide (direction = Some "RECEIVE") then load_message_rx self com_pdu_id_ref
        else Err (NotImplementedError direction) in
      OK (name, data)
  end.

(** [load_message(com_i_pdu)]: [None] is the skipped message, after a
    warning has been logged. *)
Definition load_message (self : EcuExtractLoader) (com_i_pdu : Element)
  : result (option Message) :=
  let! (name, data) := load_message_can_if self com_i_pdu in
  let '(frame_id, length, is_extended_frame) := data in
  match frame_id, is_extended_frame, length with
  | None, _, _ => OK None              (* No frame id found *)
  | Some _, None, _ => OK None         (* No frame type found *)
  | Some _, Some _, None => OK None    (* No length found *)
  | Some frame_id, Some is_extended_frame, Some length =>
      (* Find all signals in this message. *)
      let! signals :=
        load_message_signals self (iterfind ECUC_REFERENCE_VALUE_XPATH [com_i_pdu]) [] in
      OK (Some (mkMessage frame_id is_extended_frame name length None signals
                  None (ecu_strict self)))
  end.

(** [definition_ref.endswith('ComIPdu')] for a container of ComConfig *)
Definition is_com_i_pdu (ecuc_container_value : Element) : result bool :=
  let! definition_ref := text_of (find DEFINITION_REF_XPATH ecuc_container_value) in
  let! definition_ref := attr_of definition_ref in
  OK (py_endswith "ComIPdu" definition_ref).

(** The loop of [load] over the containers of ComConfig. *)
Fixpoint load_containers (self : EcuExtractLoader) (containers : list Element)
         (messages : list Message) : result (list Message) :=
  match containers with
  | [] => OK messages
  | ecuc_container_value :: rest =>
      let! com_i_pdu := is_com_i_pdu ecuc_container_value in
      if negb com_i_pdu then load_containers self rest messages
      else
        let! message := load_message self ecuc_container_value in
        match message with
        | Some m => load_containers self rest (messages ++ [m])
        | None => load_containers self rest messages
        end
  end.

(** The containers of ComConfig that [load] iterates over. *)
Definition com_containers (self : EcuExtractLoader) : result (list Element) :=
  let! ecuc_value_collection :=
    attr_of (find ECUC_VALUE_COLLECTION_XPATH (ecu_root self)) in
  let values_refs :=
    iterfind ECUC_MODULE_CONFIGURATION_VALUES_REF_XPATH [ecuc_value_collection] in
  let! com_xpaths :=
    (fix comprehension (l : list Element) : result (list string) :=
       match l with
       | [] => OK []
       | value_ref :: l' =>
           let! t := attr_of (text value_ref) in
           let! r := comprehension l' in
           if py_endswith "/Com" t then OK (t :: r) else OK r
       end) values_refs in
  match com_xpaths with
  | [com_xpath] =>
      let! com_config := find_com_config self (com_xpath +:+ "/ComConfig") in
      match com_config with
      | Some c => OK (children c)
      | None => Err TypeError
      end
  | _ => Err (ValueError (ComCount (List.length com_xpaths)))
  end.

(** [EcuExtractLoader.load()] *)
Definition ecu_load (self : EcuExtractLoader) : result InternalDatabase :=
  let! containers := com_containers self in
  let! messages := load_containers self containers [] in
  OK (mkInternalDatabase messages).

End Loader.

(* ===================================================================== *)
(** * Notions used in the statements *)
(* ===================================================================== *)

(** The number a run of digits denotes in a base, most significant digit
    first, continuing from [acc]. *)
Fixpoint digits_from (base acc : Z) (s : string) : Z :=
  match s with
  | EmptyString => acc
  | String c s' => digits_from base (acc * base + default 0 (digit_value c)) s'
  end.

Definition digits_value (base : Z) (s : string) : Z := digits_from base 0 s.

(** The elements of a document, the root first. *)
Fixpoint nodes (e : Element) : list Element :=
  e :: flat_map nodes (children e).

Definition ids (e : Element) : list (list nat) := map eid (nodes e).

(** An element is named when it has a [SHORT-NAME] child. *)
Definition named (ns : string) (n : Element) : Prop :=
  is_Some (find_child (qname ns "SHORT-NAME") n).

(** What a traversal that takes the dictionaries from [d] to [d'] has done
    when the elements it visited are those of [visited]: no mapping of a
    path was lost or changed; a path mapped anew leads to a visited
    element that is mapped back to the path; the path of an element that
    was not visited is unchanged; every visited element has a path, and a
    named one is found under its path. *)
Record indexed (ns : string) (visited : list Element) (d d' : RefDicts) : Prop :=
  mkIndexed {
    kept : forall p n,
      _arxml_path_to_node d !! p = Some n -> _arxml_path_to_node d' !! p = Some n;
    added : forall p n,
      _arxml_path_to_node d' !! p = Some n ->
      _arxml_path_to_node d !! p = Some n
      \/ (n ∈ visited /\ _node_to_arxml_path d' !! eid n = Some p);
    untouched : forall i,
      i ∉ eid <$> visited -> _node_to_arxml_path d' !! i = _node_to_arxml_path d !! i;
    registered : forall n,
      n ∈ visited ->
      exists p, _node_to_arxml_path d' !! eid n = Some p
                /\ (named ns n -> _arxml_path_to_node d' !! p = Some n) }.

(* ===================================================================== *)
(** * A reference interpretation of the numbers, and sample documents *)
(* ===================================================================== *)

(** Exact rational arithmetic as an interpretation of [PyNumerics]: no
    rounding, no special values.  Literals are an optional sign, digits and
    an optional fraction.  It serves to run the loader on sample documents;
    no theorem depends on it. *)
Definition rational_literal (text : string) : option Q :=
  let s := py_strip text in
  let '(negative, s) := split_sign s in
  let '(whole, r) := span_chars py_isdigit s in
  let '(frac, r) :=
    match r with
    | String c r' => if is_dot c then span_chars py_isdigit r' else (EmptyString, r)
    | EmptyString => (EmptyString, r)
    end in
  match r, (String.length whole + String.length frac)%nat with
  | EmptyString, S _ =>
      let n := digits_value 10 (whole +:+ frac) in
      let q := Qred (Qmake n (Z.to_pos (10 ^ Z.of_nat (String.length frac)))) in
      Some (if negative then Qopp q else q)
  | _, _ => None
  end.

Definition rational_of_text (text : string) : result Q :=
  match rational_literal text with
  | Some q => OK q
  | None => Err (ValueError (InvalidFloatLiteral text))
  end.

Definition rational_numerics : PyNumerics :=
  {| pyfloat := Q;
     pydecimal := Q;
     py_float := rational_of_text;
     float_of_int := fun n => OK (inject_Z n);
     float_zero := 0%Q;
     float_one := 1%Q;
     float_mul := fun a b => Qred (Qmult a b);
     float_add := fun a b => Qred (Qplus a b);
     float_lt := fun a b => negb (Qle_bool b a);
     int_lt_float := fun n b => negb (Qle_bool b (inject_Z n));
     float_lt_int := fun a n => negb (Qle_bool (inject_Z n) a);
     int_of_float := fun a => OK (Z.quot (Qnum a) (Zpos (Qden a)));
     py_decimal := rational_of_text;
     decimal_of_int := inject_Z;
     decimal_of_float := fun a => a;
     decimal_div := fun a b =>
       if Qeq_bool b 0 then Err DecimalException else OK (Qred (Qdiv a b));
     float_of_decimal := fun a => OK a |}.

(** Elements of the AUTOSAR 4 namespace without attributes. *)
Definition elem (name : string) (children : list Xml) : Xml :=
  XmlElem (qname NAMESPACE name) [] None children None.
Definition leaf (name text : string) : Xml :=
  XmlElem (qname NAMESPACE name) [] (Some text) [] None.

(** A signal mapped at a bit position, and the signal itself. *)
Definition mapping_of (signal : string) (position : string) : Xml :=
  elem "I-SIGNAL-TO-I-PDU-MAPPING"
    [leaf "I-SIGNAL-REF" ("/P/" +:+ signal); leaf "START-POSITION" position].
Definition i_signal (name : string) : Xml :=
  elem "I-SIGNAL" [leaf "SHORT-NAME" name; leaf "LENGTH" "8"].
Definition i_signal_i_pdu (name : string) (mappings : list Xml) : Xml :=
  elem "I-SIGNAL-I-PDU"
    [leaf "SHORT-NAME" name; elem "I-SIGNAL-TO-PDU-MAPPINGS" mappings].

Definition alternative (code pdu : string) (more : list Xml) : Xml :=
  elem "DYNAMIC-PART-ALTERNATIVE"
    ([leaf "SELECTOR-FIELD-CODE" code; leaf "I-PDU-REF" ("/P/" +:+ pdu)] ++ more).

Definition multiplexed_i_pdu (name position : string)
           (alternatives : list Xml) (static : list Xml) : Xml :=
  elem "MULTIPLEXED-I-PDU"
    ([leaf "SHORT-NAME" name;
      leaf "SELECTOR-FIELD-START-POSITION" position;
      leaf "SELECTOR-FIELD-LENGTH" "8";
      elem "DYNAMIC-PARTS"
        [elem "DYNAMIC-PART" [elem "DYNAMIC-PART-ALTERNATIVES" alternatives]]]
     ++ static).

Definition static_part (pdu : string) : Xml :=
  elem "STATIC-PARTS" [elem "STATIC-PART" [leaf "I-PDU-REF" ("/P/" +:+ pdu)]].

(** A frame triggering of a frame, a CAN cluster with its frame
    triggerings, and a frame that carries a PDU. *)
Definition triggering (name frame : string) : Xml :=
  elem "CAN-FRAME-TRIGGERING"
    [leaf "SHORT-NAME" name; leaf "IDENTIFIER" "0x10"; leaf "FRAME-REF" ("/P/" +:+ frame)].
Definition can_cluster (triggerings : list Xml) : Xml :=
  elem "CAN-CLUSTER"
    [leaf "SHORT-NAME" "Cluster";
     elem "CAN-CLUSTER-VARIANTS"
       [elem "CAN-CLUSTER-CONDITIONAL"
          [elem "PHYSICAL-CHANNELS"
             [elem "CAN-PHYSICAL-CHANNEL"
                [leaf "SHORT-NAME" "Channel"; elem "FRAME-TRIGGERINGS" triggerings]]]]].
Definition can_frame (name pdu : string) : Xml :=
  elem "CAN-FRAME"
    [leaf "SHORT-NAME" name;
     leaf "FRAME-LENGTH" "8";
     elem "PDU-TO-FRAME-MAPPINGS"
       [elem "PDU-TO-FRAME-MAPPING"
          [leaf "SHORT-NAME" (name +:+ "Mapping"); leaf "PDU-REF" ("/P/" +:+ pdu)]]].

(** A document with the one package [P]. *)
Definition autosar (elements : list Xml) : Xml :=
  elem "AUTOSAR"
    [elem "AR-PACKAGES"
       [elem "AR-PACKAGE" [leaf "SHORT-NAME" "P"; elem "ELEMENTS" elements]]].

(** A document with one frame triggering of the frame [F], which carries
    the PDU [top], and the further elements [more]. *)
Definition document (top : string) (more : list Xml) : Xml :=
  autosar ([can_cluster [triggering "Triggering" "F"]; can_frame "F" top] ++ more).

(** Two frames: the first carries a PDU with one signal, the second refers
    to a PDU that does not exist. *)
Definition dangling_pdu_reference : Xml :=
  autosar [can_cluster [triggering "First" "F"; triggering "Second" "G"];
           can_frame "F" "Plain"; can_frame "G" "Missing";
           i_signal_i_pdu "Plain" [mapping_of "Data" "0"];
           i_signal "Data"].

(** A multiplexed PDU [Top] whose two alternatives are multiplexed PDUs
    themselves.  Each nested PDU has its selector at bit 8, one alternative
    and, as its static part, the PDU that repeats the selector of [Top]. *)
Definition nested_multiplexers : Xml :=
  document "Top"
    [multiplexed_i_pdu "Top" "0"
       [alternative "0" "SubA" []; alternative "1" "SubB" []] [];
     multiplexed_i_pdu "SubA" "8" [alternative "0" "LeafA" []] [static_part "Static"];
     multiplexed_i_pdu "SubB" "8" [alternative "0" "LeafB" []] [static_part "Static"];
     i_signal_i_pdu "Static" [mapping_of "TopSelector" "0"];
     i_signal_i_pdu "LeafA" [mapping_of "SubSelector" "8"; mapping_of "DataA" "16"];
     i_signal_i_pdu "LeafB" [mapping_of "SubSelector" "8"; mapping_of "DataB" "16"];
     i_signal "TopSelector"; i_signal "SubSelector"; i_signal "DataA"; i_signal "DataB"].

(** [SystemLoader(root, strict).load()] *)
Definition load_document `{PyNumerics} (root : Element) (strict : bool)
  : M InternalDatabase :=
  let* ld := lift (SystemLoader_init root strict) in
  load ld.

(** A named element, and dictionaries in which its path is taken. *)
Definition element_A : Element := fromstring (elem "ECU" [leaf "SHORT-NAME" "A"]).
Definition dicts_with_A : RefDicts := mkRefDicts ∅ {["/A" := element_A]} ∅ ∅.

(** A document with one package and nothing in it. *)
Definition one_package : Xml :=
  elem "AUTOSAR" [elem "AR-PACKAGES" [elem "AR-PACKAGE" [leaf "SHORT-NAME" "P"]]].

(** A run keeps to the rule of the child locator when every reference its
    journal shows as unresolved is the one the run has raised the
    dangling-reference error for. *)
Definition aborts_on_dangling {A} (m : M A) : Prop :=
  forall ev,
    ev ∈ journal m -> ref_target ev = None ->
    outcome m = Err (ValueError (DanglingReference (ref_tag ev) (ref_text ev))).

(** The loader of a document whose index can be built. *)
Definition loader_of (doc : Xml) : SystemLoader :=
  match SystemLoader_init (fromstring doc) true with
  | OK ld => ld
  | Err _ => mkSystemLoader (fromstring doc) true "" (mkVersion 0 0 0) empty_dicts
  end.

(** The names of the selector signals of each message a load returns. *)
Definition selector_names `{PyNumerics} (run : M InternalDatabase)
  : result (list (list (option string))) :=
  let! db := outcome run in
  OK (map (fun msg => map name (List.filter is_multiplexer (signals msg))) (messages db)).

(** What the loop over the alternatives uses of one alternative: its
    selector value, whether it is flagged initial, and the choices of the
    duplicate of the selector signal among its signals. *)
Record Alternative `{PyNumerics} : Type :=
  mkAlternative { alt_value : Z;
                  alt_initial : bool;
                  alt_choices : option (gmap Z NamedSignalValue) }.
Arguments mkAlternative {_} _ _ _.

(** The alternative [alt] is what the loader reads from the element
    [dynalt]: the selector value, the flag, and the choices of the one
    signal at the selector position among the signals of the PDU of the
    alternative. *)
Definition reads_alternative `{PyNumerics}
           (load_pdu : option Element -> option string -> Z -> M PduResult)
           (ld : SystemLoader) (frame_name : option string) (selector_pos : Z)
           (dynalt : Element) (alt : Alternative) : Prop :=
  outcome (dynalt_selector_value ld dynalt) = OK (alt_value alt)
  /\ outcome (dynalt_is_initial ld dynalt) = OK (alt_initial alt)
  /\ exists dynalt_pdu idx idx' bit_length dynalt_signals cycle_time dup,
      outcome (_get_unique_arxml_child ld (Some dynalt) ["&I-PDU"]) = OK dynalt_pdu
      /\ outcome (load_pdu dynalt_pdu frame_name idx)
         = OK (idx', bit_length, dynalt_signals, cycle_time)
      /\ List.filter (fun x : Signal => start x =? selector_pos) dynalt_signals = [dup]
      /\ choices dup = alt_choices alt.

(** The choices of the selector once the alternatives are merged into
    [table], in their order: [table.update(...)] for each alternative whose
    duplicate has choices. *)
Definition merged_choices `{PyNumerics} (alts : list Alternative)
           (table : gmap Z NamedSignalValue) : gmap Z NamedSignalValue :=
  fold_left (fun table alt =>
               match alt_choices alt with
               | Some c => dict_update table c
               | None => table
               end) alts table.

(** The alternatives flagged initial. *)
Definition flagged `{PyNumerics} (alts : list Alternative) : list Alternative :=
  List.filter alt_initial alts.

(** A multiplexed PDU with one alternative, whose signals are the
    duplicate of the selector and one more signal; no signal has a
    computation method, hence none has choices. *)
Definition one_alternative : Xml :=
  document "Mux"
    [multiplexed_i_pdu "Mux" "0" [alternative "0" "Leaf" []] [];
     i_signal_i_pdu "Leaf" [mapping_of "Selector" "0"; mapping_of "Data" "8"];
     i_signal "Selector"; i_signal "Data"].

(** The same with two alternatives, both flagged initial. *)
Definition two_initial_alternatives : Xml :=
  document "Mux"
    [multiplexed_i_pdu "Mux" "0"
       [alternative "0" "Leaf" [leaf "INITIAL-DYNAMIC-PART" "true"];
        alternative "1" "Leaf" [leaf "INITIAL-DYNAMIC-PART" "true"]] [];
     i_signal_i_pdu "Leaf" [mapping_of "Selector" "0"; mapping_of "Data" "8"];
     i_signal "Selector"; i_signal "Data"].

(** The PDU [/P/Mux] of a sample document. *)
Definition mux_of (doc : Xml) : option Element :=
  _arxml_path_to_node (dicts (loader_of doc)) !! "/P/Mux".

(** The decomposition of the PDU [/P/Mux] of a sample document, for the
    frame name [F] and the counter 1, and the alternatives of that PDU. *)
Definition sample_decomposition (doc : Xml) : result (list (@Signal rational_numerics)) :=
  outcome (_load_pdu_multiplexed_parts (_load_pdu 10 (loader_of doc)) (loader_of doc)
             (mux_of doc) (Some "F") 1).
Definition sample_alternatives (doc : Xml) : result (list Element) :=
  outcome (_get_arxml_children (loader_of doc) (mux_of doc) (dynpart_spec (loader_of doc))).

(** Observations of a result. *)
Definition is_ok {A} (r : result A) : bool :=
  match r with OK _ => true | Err _ => false end.
Definition count_of {A} (r : result (list A)) : option nat :=
  match r with OK l => Some (List.length l) | Err _ => None end.
Definition selector_choices_size `{PyNumerics} (r : result (list Signal)) : option nat :=
  match r with
  | OK (sel :: _) => size <$> choices sel
  | _ => None
  end.

Definition initial_flags (ld : SystemLoader) (r : result (list Element))
  : option (list (result bool)) :=
  match r with
  | OK l => Some (map (fun dynalt => outcome (dynalt_is_initial ld dynalt)) l)
  | Err _ => None
  end.

(** [sd] is what the loop of [_load_scale_linear_and_texttable] reads from
    the element [compu_scale]. *)
Definition reads_scale `{PyNumerics} (ld : SystemLoader) (compu_scale : Element)
           (sd : ScaleData) : Prop :=
  exists decimal decimal',
    outcome (read_compu_scale ld compu_scale decimal) = OK (sd, decimal').

(** The coefficients of the last scale that has coefficients. *)
Definition last_linear `{PyNumerics} (sds : list ScaleData) : option (pyfloat * pyfloat) :=
  fold_left (fun found sd =>
               match sd_coeffs sd with
               | Some c => Some c
               | None => found
               end) sds None.

(** The choices the named scales make, in document order. *)
Definition named_entries `{PyNumerics} (sds : list ScaleData)
           (table : gmap Z NamedSignalValue) : gmap Z NamedSignalValue :=
  fold_left (fun table sd =>
               match sd_vt sd, sd_lower sd with
               | Some vt, Some value =>
                   <[value := mkNamedSignalValue value (text vt) (sd_comments sd)]> table
               | _, _ => table
               end) sds table.

(** The physical values of the limits the scales have: [vals] lists
    [limit*factor_scale + offset_scale] for the scales with a limit. *)
Definition physical_bounds `{PyNumerics} (limit : ScaleData -> option Z)
           (sds : list ScaleData) (vals : list pynum) : Prop :=
  Forall2 (fun sd v => physical sd (limit sd) = OK v)
          (List.filter (fun sd => bool_decide (is_Some (limit sd))) sds) vals.

(** [pick] folded over the values, from the first one on; [None] when
    there is none. *)
Definition aggregate {A} (pick : A -> A -> A) (bound : option A) (vals : list A)
  : option A :=
  match bound, vals with
  | Some b, _ => Some (fold_left pick vals b)
  | None, v :: vs => Some (fold_left pick vs v)
  | None, [] => None
  end.

(** The loop of [_load_scale_linear_and_texttable] on what it reads. *)
Fixpoint fold_scales `{PyNumerics} (acc : ScaleAcc) (sds : list ScaleData)
  : result ScaleAcc :=
  match sds with
  | [] => OK acc
  | sd :: sds' => let! acc := scale_step acc sd in fold_scales acc sds'
  end.

Definition compu_scales_location : list string :=
  ["&COMPU-INTERNAL-TO-PHYS"; "COMPU-SCALES"; "*&COMPU-SCALE"].

(** A COMPU-SCALE with linear coefficients [offset] and [factor] over a
    denominator of 1, and a named single-point scale. *)
Definition linear_scale (lower upper offset factor : string) : Xml :=
  elem "COMPU-SCALE"
    [leaf "LOWER-LIMIT" lower; leaf "UPPER-LIMIT" upper;
     elem "COMPU-RATIONAL-COEFFS"
       [elem "COMPU-NUMERATOR" [leaf "V" offset; leaf "V" factor];
        elem "COMPU-DENOMINATOR" [leaf "V" "1"]]].
Definition named_scale (value vt : string) : Xml :=
  elem "COMPU-SCALE"
    [leaf "LOWER-LIMIT" value; leaf "UPPER-LIMIT" value;
     elem "COMPU-CONST" [leaf "VT" vt]].

(** A computation method with two linear scales of differing coefficients
    and one named scale. *)
Definition mixed_scaling : Xml :=
  autosar
    [elem "COMPU-METHOD"
       [leaf "SHORT-NAME" "CM";
        leaf "CATEGORY" "SCALE_LINEAR_AND_TEXTTABLE";
        elem "COMPU-INTERNAL-TO-PHYS"
          [elem "COMPU-SCALES"
             [linear_scale "0" "10" "1" "2";
              linear_scale "11" "20" "3" "4";
              named_scale "255" "invalid"]]]].

(** The loading of the computation method [/P/CM] of [mixed_scaling], and
    the factor, offset, minimum and maximum it returns. *)
Definition mixed_scaling_run :=
  outcome (_load_scale_linear_and_texttable (H := rational_numerics)
             (loader_of mixed_scaling)
             (_arxml_path_to_node (dicts (loader_of mixed_scaling)) !! "/P/CM")
             (mkSignalDecimal (decimal_of_int 1) (decimal_of_int 0) None None) false).

Definition rational_of (a : @pynum rational_numerics) : Q :=
  match a with
  | PyInt n => inject_Z n
  | PyFloat x => x
  end.

Definition mixed_scaling_numbers : option (Q * Q * option Q * option Q * list Z) :=
  match mixed_scaling_run with
  | OK (mn, mx, factor, offset, table, _) =>
      Some (rational_of factor, rational_of offset,
            rational_of <$> mn, rational_of <$> mx, (map fst (map_to_list table)))
  | Err _ => None
  end.

(** A container of ComConfig that is a ComIPdu. *)
Definition is_pdu_container (c : Element) : bool :=
  match is_com_i_pdu c with
  | OK true => true
  | _ => false
  end.

(** No parameter of the list has the name [key]. *)
Definition lacks (key : string) (items : list Element) : Prop :=
  Forall (fun item => forall name value,
              value_item VALUE_XPATH item = OK (name, value) -> name <> key) items.

(** An ECU extract: parameters, references and containers. *)
Definition parameter (name value : string) : Xml :=
  elem "ECUC-NUMERICAL-PARAM-VALUE"
    [leaf "DEFINITION-REF" ("/AUTOSAR/Defs/" +:+ name); leaf "VALUE" value].
Definition reference (name target : string) : Xml :=
  elem "ECUC-REFERENCE-VALUE"
    [leaf "DEFINITION-REF" ("/AUTOSAR/Defs/" +:+ name); leaf "VALUE-REF" target].
Definition container (name definition : string) (parameters references : list Xml) : Xml :=
  elem "ECUC-CONTAINER-VALUE"
    [leaf "SHORT-NAME" name;
     leaf "DEFINITION-REF" ("/AUTOSAR/Defs/" +:+ definition);
     elem "PARAMETER-VALUES" parameters;
     elem "REFERENCE-VALUES" references].
Definition module (name config : string) (containers : list Xml) : Xml :=
  elem "ECUC-MODULE-CONFIGURATION-VALUES"
    [leaf "SHORT-NAME" name;
     elem "CONTAINERS"
       [elem "ECUC-CONTAINER-VALUE"
          [leaf "SHORT-NAME" config; elem "SUB-CONTAINERS" containers]]].

(** Two messages to send; the CanIf entry of the second has no CAN id. *)
Definition ecu_extract : Xml :=
  elem "AUTOSAR"
    [elem "AR-PACKAGES"
       [elem "AR-PACKAGE"
          [leaf "SHORT-NAME" "Ecu";
           elem "ELEMENTS"
             [elem "ECUC-VALUE-COLLECTION"
                [elem "ECUC-VALUES"
                   [elem "ECUC-MODULE-CONFIGURATION-VALUES-REF-CONDITIONAL"
                      [leaf "ECUC-MODULE-CONFIGURATION-VALUES-REF" "/Ecu/Com"]]];
              module "Com" "ComConfig"
                [container "Message1" "ComIPdu"
                   [parameter "ComIPduDirection" "SEND"]
                   [reference "ComPduIdRef" "/Ecu/EcuC/Pdu1"];
                 container "Message2" "ComIPdu"
                   [parameter "ComIPduDirection" "SEND"]
                   [reference "ComPduIdRef" "/Ecu/EcuC/Pdu2"]];
              module "CanIf" "CanIfInitCfg"
                [container "Tx1" "CanIfTxPduCfg"
                   [parameter "CanIfTxPduCanId" "16"; parameter "CanIfTxPduDlc" "8";
                    parameter "CanIfTxPduCanIdType" "STANDARD_CAN"]
                   [reference "CanIfTxPduRef" "/Ecu/EcuC/Pdu1"];
                 container "Tx2" "CanIfTxPduCfg"
                   [parameter "CanIfTxPduDlc" "8";
                    parameter "CanIfTxPduCanIdType" "STANDARD_CAN"]
                   [reference "CanIfTxPduRef" "/Ecu/EcuC/Pdu2"]]]]]].

Definition ecu_extract_loader : EcuExtractLoader :=
  mkEcuExtractLoader (fromstring ecu_extract) true.

(** The path under which [add_sub_references] registers an element that
    it visits with the path [elem_path] of the parent: a named element
    appends its short name, an element without a name keeps the path. *)
Definition path_below (ns elem_path : string) (e : Element) : string :=
  match find_child (qname ns "SHORT-NAME") e with
  | Some short_name => elem_path +:+ "/" +:+ fmt (text short_name)
  | None => elem_path
  end.

(** The paths of the children of the elements of [N] follow from the path
    of their parent. *)
Definition settled (ns : string) (N : list Element) (d : RefDicts) : Prop :=
  forall e c p,
    e ∈ N -> c ∈ children e ->
    _node_to_arxml_path d !! eid e = Some p ->
    _node_to_arxml_path d !! eid c = Some (path_below ns p c).

(** A path is rooted when it is empty or starts with a slash. *)
Definition rooted (p : string) : Prop := p = "" \/ py_startswith "/" p = true.

(** A package with a default reference base. *)
Definition package_with_refbase : Xml :=
  elem "AUTOSAR"
    [elem "AR-PACKAGES"
       [elem "AR-PACKAGE"
          [leaf "SHORT-NAME" "P";
           elem "REFERENCE-BASES"
             [elem "REFERENCE-BASE"
                [leaf "SHORT-LABEL" "base"; leaf "IS-DEFAULT" "true";
                 leaf "PACKAGE-REF" "/Q"]]]]].

(** The reference bases recorded in [d] are still recorded in [d']. *)
Definition refbases_kept (d d' : RefDicts) : Prop :=
  (forall cur bases label ref,
      _package_refbase_paths d !! cur = Some bases -> bases !! label = Some ref ->
      exists bases', _package_refbase_paths d' !! cur = Some bases'
                     /\ bases' !! label = Some ref)
  /\ (forall cur ref,
         _package_default_refbase_path d !! cur = Some ref ->
         _package_default_refbase_path d' !! cur = Some ref).

(** A document with one frame, whose PDU has one signal. *)
Definition plain_frame : Xml :=
  document "Plain" [i_signal_i_pdu "Plain" [mapping_of "Data" "0"]; i_signal "Data"].

(** The packages below a package list, in the order in which
    [handle_package_list] deals with them: each package before the
    packages of its list of sub-packages, and those before the package
    that follows. *)
Fixpoint packages_below (ld : SystemLoader) (package_list : Element) : list Element :=
  flat_map
    (fun package =>
       if has_tag (ns_tag ld "AR-PACKAGE") package
       then package :: with_first_child (sub_packages_tag ld) (packages_below ld) []
                         (children package)
       else [])
    (children package_list).

(** [messages] holds one message for each frame triggering of each of the
    [packages], in that order. *)
Definition messages_of `{PyNumerics} (ld : SystemLoader) (packages : list Element)
           (messages : list Message) : Prop :=
  exists triggerings,
    Forall2 (fun package ts =>
               outcome (_get_arxml_children ld (Some package) (frame_triggerings_spec ld))
               = OK ts) packages triggerings
    /\ Forall2 (fun t m => outcome (_load_message ld t) = OK m)
               (concat triggerings) messages.

(** The list of the top-level packages. *)
Definition top_level_packages (ld : SystemLoader) : option Element :=
  find_child (ns_tag ld (if is_ar4 ld then "AR-PACKAGES" else "TOP-LEVEL-PACKAGES"))
             (_root ld).

(** The mappings of a PDU to its signals, in the order [_load_pdu_signals]
    goes through them. *)
Definition signal_mappings (ld : SystemLoader) (pdu : option Element)
           (mappings : list Element) : Prop :=
  exists first more,
    outcome (_get_arxml_children ld pdu
               [if is_ar4 ld then "I-SIGNAL-TO-PDU-MAPPINGS" else "SIGNAL-TO-PDU-MAPPINGS";
                "*&I-SIGNAL-TO-I-PDU-MAPPING"]) = OK first
    /\ outcome (_get_arxml_children ld pdu
                  ["I-SIGNAL-TO-I-PDU-MAPPINGS"; "*&I-SIGNAL-TO-I-PDU-MAPPING"]) = OK more
    /\ mappings = first ++ more.

(** The number of messages of a load. *)
Definition message_count `{PyNumerics} (run : M InternalDatabase) : option nat :=
  match outcome run with
  | OK db => Some (List.length (messages db))
  | Err _ => None
  end.

(** The texts of the module references of an ECU extract that name a
    [/Com] module, as the comprehension of [load] collects them. *)
Definition com_xpaths_of (values_refs : list Element) : list string :=
  omap (fun value_ref =>
          match text value_ref with
          | Some t => if py_endswith "/Com" t then Some t else None
          | None => None
          end) values_refs.

(** A reference value is a reference to a signal of the message. *)
Definition is_signal_reference (value : Element) : bool :=
  match text_of (find DEFINITION_REF_XPATH value) with
  | OK (Some definition_ref) => py_endswith "ComIPduSignalRef" definition_ref
  | _ => false
  end.

(** An ECU extract whose only ComIPdu container has no reference to a
    PDU. *)
Definition ecu_extract_without_reference : Xml :=
  elem "AUTOSAR"
    [elem "AR-PACKAGES"
       [elem "AR-PACKAGE"
          [leaf "SHORT-NAME" "Ecu";
           elem "ELEMENTS"
             [elem "ECUC-VALUE-COLLECTION"
                [elem "ECUC-VALUES"
                   [elem "ECUC-MODULE-CONFIGURATION-VALUES-REF-CONDITIONAL"
                      [leaf "ECUC-MODULE-CONFIGURATION-VALUES-REF" "/Ecu/Com"]]];
              module "Com" "ComConfig"
                [container "Message1" "ComIPdu"
                   [parameter "ComIPduDirection" "SEND"] []]]]]].

(** An ECU extract with one message that refers to two signals, the second
    of which has no bit size. *)
Definition ecu_extract_with_signals : Xml :=
  elem "AUTOSAR"
    [elem "AR-PACKAGES"
       [elem "AR-PACKAGE"
          [leaf "SHORT-NAME" "Ecu";
           elem "ELEMENTS"
             [elem "ECUC-VALUE-COLLECTION"
                [elem "ECUC-VALUES"
                   [elem "ECUC-MODULE-CONFIGURATION-VALUES-REF-CONDITIONAL"
                      [leaf "ECUC-MODULE-CONFIGURATION-VALUES-REF" "/Ecu/Com"]]];
              module "Com" "ComConfig"
                [container "Message1" "ComIPdu"
                   [parameter "ComIPduDirection" "SEND"]
                   [reference "ComPduIdRef" "/Ecu/EcuC/Pdu1";
                    reference "ComIPduSignalRef" "/Ecu/Com/ComConfig/Signal1";
                    reference "ComIPduSignalRef" "/Ecu/Com/ComConfig/Signal2"];
                 container "Signal1" "ComSignal"
                   [parameter "ComBitPosition" "0"; parameter "ComBitSize" "8";
                    parameter "ComSignalEndianness" "BIG_ENDIAN";
                    parameter "ComSignalType" "SINT8"] [];
                 container "Signal2" "ComSignal"
                   [parameter "ComBitPosition" "8";
                    parameter "ComSignalEndianness" "BIG_ENDIAN"] []];
              module "CanIf" "CanIfInitCfg"
                [container "Tx1" "CanIfTxPduCfg"
                   [parameter "CanIfTxPduCanId" "16"; parameter "CanIfTxPduDlc" "8";
                    parameter "CanIfTxPduCanIdType" "STANDARD_CAN"]
                   [reference "CanIfTxPduRef" "/Ecu/EcuC/Pdu1"]]]]]].

(** The numbers of signals of the messages of a load. *)
Definition signal_counts `{PyNumerics} (r : result InternalDatabase) : option (list nat) :=
  match r with
  | OK db => Some (map (fun m => List.length (signals m)) (messages db))
  | Err _ => None
  end.

(** The error of a result. *)
Definition error_of {A} (r : result A) : option exn :=
  match r with OK _ => None | Err e => Some e end.

(** An ECU extract whose value collection names no [/Com] module. *)
Definition ecu_extract_without_com : Xml :=
  elem "AUTOSAR"
    [elem "AR-PACKAGES"
       [elem "AR-PACKAGE"
          [leaf "SHORT-NAME" "Ecu";
           elem "ELEMENTS"
             [elem "ECUC-VALUE-COLLECTION"
                [elem "ECUC-VALUES"
                   [elem "ECUC-MODULE-CONFIGURATION-VALUES-REF-CONDITIONAL"
                      [leaf "ECUC-MODULE-CONFIGURATION-VALUES-REF" "/Ecu/CanIf"]]]]]]].

(** The reference a CanIf container is searched for: [CanIfTxPduRef] in a
    transmit configuration, [CanIfRxPduRef] in a receive configuration. *)
Definition expected_reference (definition_ref : string) : option string :=
  if py_endswith "CanIfTxPduCfg" definition_ref then Some "CanIfTxPduRef"
  else if py_endswith "CanIfRxPduCfg" definition_ref then Some "CanIfRxPduRef"
  else None.

(** What the loop of [_load_texttable] reads from one [COMPU-SCALE]: the
    limits as numbers and, for a named scale, its entry of the choices. *)
Record TextScale `{PyNumerics} : Type :=
  mkTextScale { tx_lower : option pynum;
                tx_upper : option pynum;
                tx_entry : option NamedSignalValue }.
Arguments mkTextScale {_} _ _ _.

Definition reads_text_scale `{PyNumerics} (ld : SystemLoader) (is_float : bool)
           (compu_scale : Element) (ts : TextScale) : Prop :=
  exists lower_limit upper_limit vt comments,
    outcome (_get_unique_arxml_child ld (Some compu_scale) ["LOWER-LIMIT"]) = OK lower_limit
    /\ outcome (_get_unique_arxml_child ld (Some compu_scale) ["UPPER-LIMIT"]) = OK upper_limit
    /\ outcome (_get_unique_arxml_child ld (Some compu_scale) ["&COMPU-CONST"; "VT"]) = OK vt
    /\ outcome (_load_comments ld (Some compu_scale)) = OK comments
    /\ (if is_float then float_limit else int_limit) lower_limit = OK (tx_lower ts)
    /\ (if is_float then float_limit else int_limit) upper_limit = OK (tx_upper ts)
    /\ match vt with
       | Some vt =>
           exists lower value,
             lower_limit = Some lower
             /\ parse_int_text (text lower) = OK value
             /\ tx_entry ts = Some (mkNamedSignalValue value (text vt) comments)
       | None => tx_entry ts = None
       end.

(** The choices the named scales of a text table make, in document
    order. *)
Definition text_entries `{PyNumerics} (tss : list TextScale)
           (table : gmap Z NamedSignalValue) : gmap Z NamedSignalValue :=
  fold_left (fun table ts =>
               match tx_entry ts with
               | Some entry => <[nsv_value entry := entry]> table
               | None => table
               end) tss table.

(** A COMPU-METHOD of category TEXTTABLE with three scales, two of them
    named. *)
Definition text_table : Xml :=
  autosar
    [elem "COMPU-METHOD"
       [leaf "SHORT-NAME" "Method"; leaf "CATEGORY" "TEXTTABLE";
        elem "COMPU-INTERNAL-TO-PHYS"
          [elem "COMPU-SCALES"
             [named_scale "0" "off"; named_scale "1" "on";
              elem "COMPU-SCALE" [leaf "LOWER-LIMIT" "2"; leaf "UPPER-LIMIT" "7"]]]]].

(** A COMPU-METHOD of category LINEAR: the physical value is twice the
    internal value plus three. *)
Definition linear_method : Xml :=
  autosar
    [elem "COMPU-METHOD"
       [leaf "SHORT-NAME" "Method"; leaf "CATEGORY" "LINEAR";
        elem "COMPU-INTERNAL-TO-PHYS"
          [elem "COMPU-SCALES" [linear_scale "0" "10" "3" "2"]]]].

(** The COMPU-METHOD [/P/Method] of a sample document. *)
Definition method_of (doc : Xml) : option Element :=
  _arxml_path_to_node (dicts (loader_of doc)) !! "/P/Method".

(** The numbers of a text table and of a linear method: the bounds, the
    names of the choices for 0, 1 and 2, the factor and the offset. *)
Definition text_table_numbers
  : option (option Q * option Q * list (option (option string))) :=
  match outcome (_load_texttable (H := rational_numerics) (loader_of text_table)
                   (method_of text_table)
                   (mkSignalDecimal (decimal_of_int 1) (decimal_of_int 0) None None) false) with
  | OK (mn, mx, table, _) =>
      Some (rational_of <$> mn, rational_of <$> mx,
            (fun k => nsv_name <$> table !! k) <$> [0; 1; 2])
  | Err _ => None
  end.
Definition linear_method_numbers : option (option Q * option Q * Q * Q) :=
  match outcome (_load_linear (H := rational_numerics) (loader_of linear_method)
                   (method_of linear_method)
                   (mkSignalDecimal (decimal_of_int 1) (decimal_of_int 0) None None) false) with
  | OK (mn, mx, factor, offset, _) =>
      Some (rational_of <$> mn, rational_of <$> mx, rational_of factor, rational_of offset)
  | Err _ => None
  end.

(** The coefficients of a [COMPU-SCALE] as decimals, scale and offset:
    the second numerator and the first numerator, each over the
    denominator. *)
Definition rational_coefficients `{PyNumerics} (ld : SystemLoader)
           (compu_scale : option Element) (coeffs : option (pydecimal * pydecimal)) : Prop :=
  exists compu_rational_coeffs,
    outcome (_get_unique_arxml_child ld compu_scale ["&COMPU-RATIONAL-COEFFS"])
    = OK compu_rational_coeffs
    /\ match compu_rational_coeffs with
       | None => coeffs = None
       | Some _ =>
           exists n0 n1 d0 denominator numerator0 numerator1 dscale doffset,
             outcome (_get_arxml_children ld compu_rational_coeffs
                        ["&COMPU-NUMERATOR"; "*&V"]) = OK [n0; n1]
             /\ outcome (_get_arxml_children ld compu_rational_coeffs
                           ["&COMPU-DENOMINATOR"; "*&V"]) = OK [d0]
             /\ py_decimal_of (text d0) = OK denominator
             /\ py_decimal_of (text n1) = OK numerator1
             /\ decimal_div numerator1 denominator = OK dscale
             /\ py_decimal_of (text n0) = OK numerator0
             /\ decimal_div numerator0 denominator = OK doffset
             /\ coeffs = Some (dscale, doffset)
       end.

(** A COMPU-SCALE with three numerators. *)
Definition three_numerators : Xml :=
  autosar
    [elem "COMPU-SCALE"
       [leaf "SHORT-NAME" "Method";
        elem "COMPU-RATIONAL-COEFFS"
          [elem "COMPU-NUMERATOR" [leaf "V" "0"; leaf "V" "1"; leaf "V" "2"];
           elem "COMPU-DENOMINATOR" [leaf "V" "1"]]]].

(** The language of an [L-2] element: its attribute [L], [EN] when it has
    none. *)
Definition language (l_2 : Element) : string :=
  default "EN" (attrib_get "L" (attrib l_2)).

(** A frame with a description in two languages, one of them given
    twice. *)
Definition described_frame : Xml :=
  autosar
    [elem "CAN-FRAME"
       [leaf "SHORT-NAME" "F";
        elem "DESC"
          [XmlElem (qname NAMESPACE "L-2") [("L", "DE")] (Some "alt") [] None;
           leaf "L-2" "a frame";
           XmlElem (qname NAMESPACE "L-2") [("L", "DE")] (Some "ein Rahmen") [] None]]].

(** The comments of the frame [/P/F] of a sample document, for the
    languages [EN], [DE] and [FR]. *)
Definition sample_comments (doc : Xml)
  : option (list (option (option string))) :=
  match outcome (_load_comments (loader_of doc)
                   (_arxml_path_to_node (dicts (loader_of doc)) !! "/P/F")) with
  | OK (Some comments) => Some ((fun lang => comments !! lang) <$> ["EN"; "DE"; "FR"])
  | _ => None
  end.
(** A signal whose base type names no encoding, and a signal whose base
    type is a two's complement one. *)
Definition typed_i_signal (name base_type : string) : Xml :=
  elem "I-SIGNAL"
    [leaf "SHORT-NAME" name; leaf "LENGTH" "8";
     elem "NETWORK-REPRESENTATION-PROPS"
       [elem "SW-DATA-DEF-PROPS-VARIANTS"
          [elem "SW-DATA-DEF-PROPS-CONDITIONAL"
             [leaf "BASE-TYPE-REF" ("/P/" +:+ base_type)]]]].
Definition base_types : Xml :=
  document "Plain"
    [i_signal_i_pdu "Plain" [mapping_of "Data" "0"; mapping_of "Speed" "8"];
     typed_i_signal "Data" "Bare";
     typed_i_signal "Speed" "Signed";
     elem "SW-BASE-TYPE" [leaf "SHORT-NAME" "Bare"];
     elem "SW-BASE-TYPE" [leaf "SHORT-NAME" "Signed"; leaf "BASE-TYPE-ENCODING" "2C"]].

(** The element of a sample document at a path. *)
Definition node_at (doc : Xml) (path : string) : option Element :=
  _arxml_path_to_node (dicts (loader_of doc)) !! path.
(** A PDU that maps a signal, then a signal group, then a signal whose
    system signal reference leads to a group of system signals. *)
Definition signals_and_groups : Xml :=
  document "Plain"
    [i_signal_i_pdu "Plain"
       [mapping_of "Data" "0";
        elem "I-SIGNAL-TO-I-PDU-MAPPING"
          [leaf "I-SIGNAL-GROUP-REF" "/P/Group"; leaf "START-POSITION" "8"];
        mapping_of "Grouped" "16"];
     i_signal "Data";
     elem "I-SIGNAL-GROUP" [leaf "SHORT-NAME" "Group"];
     elem "I-SIGNAL"
       [leaf "SHORT-NAME" "Grouped"; leaf "LENGTH" "8";
        leaf "SYSTEM-SIGNAL-REF" "/P/Systems"];
     elem "SYSTEM-SIGNAL-GROUP" [leaf "SHORT-NAME" "Systems"]].

(** The signal mappings of the PDU [/P/Plain] of a sample document. *)
Definition sample_mappings (doc : Xml) : list Element :=
  match outcome (_get_arxml_children (loader_of doc) (node_at doc "/P/Plain")
                   ["I-SIGNAL-TO-PDU-MAPPINGS"; "*&I-SIGNAL-TO-I-PDU-MAPPING"]) with
  | OK mappings => mappings
  | Err _ => []
  end.

(* ===================================================================== *)
(** * [load_string] *)
(* ===================================================================== *)

(** The patterns [load_string] matches with [re.match] are not anchored at
    their end, and their dots are not escaped: a [.] stands for any
    character but the newline. *)
Inductive atom : Type :=
  | Lit (c : ascii)
  | AnyChar.

Definition literally (s : string) : list atom :=
  Lit <$> list_ascii_of_string s.

(** A run of atoms matched at the head of a text: what follows the match. *)
Fixpoint match_atoms (pattern : list atom) (s : string) : option string :=
  match pattern, s with
  | [], _ => Some s
  | _ :: _, EmptyString => None
  | Lit a :: pattern', String c s' =>
      if ascii_eqb a c then match_atoms pattern' s' else None
  | AnyChar :: pattern', String c s' =>
      if is_newline c then None else match_atoms pattern' s'
  end.

(** A greedy group of any characters but the newline, followed by what
    [follows] accepts, matched at the head of a text: the group, which is
    the longest run without a newline that [follows] accepts the rest
    of. *)
Fixpoint greedy_group (follows : string -> bool) (s : string) : option string :=
  let here := if follows s then Some EmptyString else None in
  match s with
  | EmptyString => here
  | String c s' =>
      if is_newline c then here
      else
        match greedy_group follows s' with
        | Some g => Some (String c g)
        | None => here
        end
  end.

(** [re.match] of the root tag against an opening brace, a greedy group,
    and [}AUTOSAR]: the group. *)
Definition match_braced_autosar (t : string) : option string :=
  match strip_prefix "{" t with
  | Some r => greedy_group (py_startswith "}AUTOSAR") r
  | None => None
  end.

(** The literal [.DAI.] and a digit at the head of a text. *)
Definition dai_digit (s : string) : bool :=
  match strip_prefix ".DAI." s with
  | Some (String d _) => py_isdigit d
  | _ => false
  end.

(** The three patterns a namespace is recognized by. *)
Definition recognized_namespace (xml_namespace : string) : bool :=
  bool_decide (is_Some (match_atoms (literally "http://autosar" ++ [AnyChar]
                                       ++ literally "org/schema/r4")
                          xml_namespace))
  || bool_decide (is_Some (match_atoms (literally "http://autosar" ++ [AnyChar]
                                          ++ literally "org/3")
                             xml_namespace))
  || match match_atoms (literally "http://autosar" ++ [AnyChar] ++ literally "org/")
             xml_namespace with
     | Some r => bool_decide (is_Some (greedy_group dai_digit r))
     | None => false
     end.

Definition is_ecu_extract (root : Element) : bool :=
  bool_decide (is_Some (find ECUC_VALUE_COLLECTION_XPATH root)).

(** The [ValueError]s [load_string] raises itself. *)
Inductive load_string_error : Type :=
  | NoNamespace (tag : string)
  | UnrecognizedXmlNamespace (xml_namespace : string)
  | UnexpectedRootTag (tag : string).

(** [load_string(string, strict)], from the parsed text on: one of its own
    errors, or what the loader it chooses does. *)
Definition load_string `{PyNumerics} (string : Xml) (strict : bool)
  : load_string_error + M InternalDatabase :=
  let root := fromstring string in
  match match_braced_autosar (tag root) with
  | None => inl (NoNamespace (tag root))
  | Some xml_namespace =>
      (* Should be replaced with a validation using the XSD file. *)
      if negb (recognized_namespace xml_namespace)
      then inl (UnrecognizedXmlNamespace xml_namespace)
      else if is_ecu_extract root then
        if negb (String.eqb (tag root) ROOT_TAG)
        then inl (UnexpectedRootTag (tag root))
        else inr (lift (ecu_load (mkEcuExtractLoader root strict)))
      else
        inr (let* ld := lift (SystemLoader_init root strict) in load ld)
  end.

(** A frame triggering whose frame carries no PDU. *)
Definition frame_without_pdu : Xml :=
  autosar [can_cluster [triggering "Triggering" "F"];
           elem "CAN-FRAME" [leaf "SHORT-NAME" "F"; leaf "FRAME-LENGTH" "8"]].

(** The frame triggerings of the package [/P] of a sample document. *)
Definition sample_triggerings (doc : Xml) : list Element :=
  match outcome (_get_arxml_children (loader_of doc) (node_at doc "/P")
                   (frame_triggerings_spec (loader_of doc))) with
  | OK triggerings => triggerings
  | Err _ => []
  end.

(** What holds of every signal the system loader makes: its byte order is
    one of the two there are; it is not both signed and a float; it is
    under no multiplexer, or under one with one multiplexer id; and a
    multiplexer, a selector signal that is, is an unsigned, unscaled
    integer with choices. *)
Definition well_formed `{PyNumerics} (s : Signal) : Prop :=
  (byte_order s = "big_endian" \/ byte_order s = "little_endian")
  /\ is_signed s && is_float s = false
  /\ match multiplexer_signal s, multiplexer_ids s with
     | None, None => True
     | Some _, Some [_] => True
     | _, _ => False
     end
  /\ (is_multiplexer s = true ->
      is_signed s = false /\ is_float s = false
      /\ scale s = PyInt 1 /\ offset s = PyInt 0 /\ is_Some (choices s)).

(** The selector signal while the parts of its PDU are gone through: it
    is well formed, it has a name, and it is a multiplexer. *)
Definition selector_ok `{PyNumerics} (sel : Signal) : Prop :=
  well_formed sel /\ is_Some (name sel) /\ is_multiplexer sel = true.

(** An ECU extract whose root element is in another namespace than its
    contents: the namespace of AUTOSAR 4.2.1. *)
Definition ecu_extract_with_another_root : Xml :=
  XmlElem (qname "http://autosar.org/schema/r4.2.1" "AUTOSAR") [] None
    [elem "AR-PACKAGES"
       [elem "AR-PACKAGE"
          [leaf "SHORT-NAME" "Ecu";
           elem "ELEMENTS"
             [elem "ECUC-VALUE-COLLECTION"
                [elem "ECUC-VALUES"
                   [elem "ECUC-MODULE-CONFIGURATION-VALUES-REF-CONDITIONAL"
                      [leaf "ECUC-MODULE-CONFIGURATION-VALUES-REF" "/Ecu/Com"]]]]]]]
    None.

(** The name of a parameter of a container: the last part of its
    definition reference. *)
Definition parameter_name (item : Element) : option string :=
  match find DEFINITION_REF_XPATH item with
  | Some definition_ref => last_part <$> text definition_ref
  | None => None
  end.

(** A container has a parameter of the name [key] among the children of
    its [PARAMETER-VALUES] element. *)
Definition has_parameter (key : string) (container : Element) : bool :=
  match find PARAMETER_VALUES_XPATH container with
  | Some parameters =>
      existsb (fun item => bool_decide (parameter_name item = Some key))
              (children parameters)
  | None => false
  end.

(** The names of the parameters a CanIf entry is asked for the CAN id, the
    length and the addressing mode, by the direction of the message. *)
Definition direction_keys (direction : option string) : option (string * string * string) :=
  if bool_decide (direction = Some "SEND")
  then Some ("CanIfTxPduCanId", "CanIfTxPduDlc", "CanIfTxPduCanIdType")
  else if bool_decide (direction = Some "RECEIVE")
  then Some ("CanIfRxPduCanId", "CanIfRxPduDlc", "CanIfRxPduCanIdType")
  else None.

(** What there is to read of a ComIPdu container before its CanIf entry is
    looked into: its name, its direction, which is [SEND] or [RECEIVE],
    and the PDU it refers to; with them the CanIf entry that refers to
    this PDU, if one does, and the names of the parameters asked of it. *)
Definition can_if_entry_of (self : EcuExtractLoader) (com_i_pdu : Element)
  : option (option string * option Element * (string * string * string)) :=
  match text_of (find SHORT_NAME_XPATH com_i_pdu),
        parameter_elements com_i_pdu, reference_elements com_i_pdu with
  | OK name, OK parameters, OK references =>
      match first_value VALUE_XPATH "ComIPduDirection" parameters,
            first_value VALUE_REF_XPATH "ComPduIdRef" references with
      | OK direction, OK (Some com_pdu_id_ref) =>
          match direction_keys direction,
                find_can_if_rx_tx_pdu_cfg self com_pdu_id_ref with
          | Some keys, OK entry => Some (name, entry, keys)
          | _, _ => None
          end
      | _, _ => None
      end
  | _, _, _ => None
  end.

(** A CanIf entry has the three parameters: the CAN id, the length and the
    addressing mode. *)
Definition complete (keys : string * string * string) (entry : Element) : bool :=
  let '(can_id, dlc, id_type) := keys in
  has_parameter can_id entry && has_parameter dlc entry && has_parameter id_type entry.

(** A parameter of a CanIf entry can be read: it has a definition
    reference with a text and a value element, and a CAN id or a length is
    an integer. *)
Definition readable_parameter (keys : string * string * string) (item : Element) : bool :=
  let '(can_id, dlc, id_type) := keys in
  match value_item VALUE_XPATH item with
  | OK (name, value) =>
      if String.eqb name can_id || String.eqb name dlc
      then is_ok (py_int_of value) else true
  | Err _ => false
  end.

(** The parameters of a CanIf entry can be read: the entry has a
    [PARAMETER-VALUES] element, and every parameter in it can be read. *)
Definition readable_entry (keys : string * string * string) (entry : Element) : bool :=
  match find PARAMETER_VALUES_XPATH entry with
  | Some parameters => forallb (readable_parameter keys) (children parameters)
  | None => false
  end.

(** A ComIPdu container that is to be skipped: no CanIf entry refers to
    its PDU, or the entry that does can be read and lacks the CAN id, the
    length or the addressing mode. *)
Definition to_be_skipped (self : EcuExtractLoader) (com_i_pdu : Element) : bool :=
  match can_if_entry_of self com_i_pdu with
  | Some (_, None, _) => true
  | Some (_, Some entry, keys) => readable_entry keys entry && negb (complete keys entry)
  | None => false
  end.

(** An ECU extract with one message to send, whose CanIf entry has no
    [PARAMETER-VALUES] element, and so neither CAN id nor length nor
    addressing mode. *)
Definition ecu_extract_without_parameters : Xml :=
  elem "AUTOSAR"
    [elem "AR-PACKAGES"
       [elem "AR-PACKAGE"
          [leaf "SHORT-NAME" "Ecu";
           elem "ELEMENTS"
             [elem "ECUC-VALUE-COLLECTION"
                [elem "ECUC-VALUES"
                   [elem "ECUC-MODULE-CONFIGURATION-VALUES-REF-CONDITIONAL"
                      [leaf "ECUC-MODULE-CONFIGURATION-VALUES-REF" "/Ecu/Com"]]];
              module "Com" "ComConfig"
                [container "Message1" "ComIPdu"
                   [parameter "ComIPduDirection" "SEND"]
                   [reference "ComPduIdRef" "/Ecu/EcuC/Pdu1"]];
              module "CanIf" "CanIfInitCfg"
                [elem "ECUC-CONTAINER-VALUE"
                   [leaf "SHORT-NAME" "Tx1";
                    leaf "DEFINITION-REF" "/AUTOSAR/Defs/CanIfTxPduCfg";
                    elem "REFERENCE-VALUES"
                      [reference "CanIfTxPduRef" "/Ecu/EcuC/Pdu1"]]]]]]].

(** The same with parameters, where the length is not a number and the
    CAN id is missing. *)
Definition ecu_extract_with_unreadable_length : Xml :=
  elem "AUTOSAR"
    [elem "AR-PACKAGES"
       [elem "AR-PACKAGE"
          [leaf "SHORT-NAME" "Ecu";
           elem "ELEMENTS"
             [elem "ECUC-VALUE-COLLECTION"
                [elem "ECUC-VALUES"
                   [elem "ECUC-MODULE-CONFIGURATION-VALUES-REF-CONDITIONAL"
                      [leaf "ECUC-MODULE-CONFIGURATION-VALUES-REF" "/Ecu/Com"]]];
              module "Com" "ComConfig"
                [container "Message1" "ComIPdu"
                   [parameter "ComIPduDirection" "SEND"]
                   [reference "ComPduIdRef" "/Ecu/EcuC/Pdu1"]];
              module "CanIf" "CanIfInitCfg"
                [container "Tx1" "CanIfTxPduCfg"
                   [parameter "CanIfTxPduDlc" "eight";
                    parameter "CanIfTxPduCanIdType" "STANDARD_CAN"]
                   [reference "CanIfTxPduRef" "/Ecu/EcuC/Pdu1"]]]]]].

(** The first container of the Com module of a sample ECU extract. *)
Definition first_container (doc : Xml) : option Element :=
  match com_containers (mkEcuExtractLoader (fromstring doc) true) with
  | OK (c :: _) => Some c
  | _ => None
  end.

(* ===================================================================== *)
(** * Results and the loader monad *)
(* ===================================================================== *)

Lemma rbind_ok {A B} (r : result A) (k : A -> result B) (b : B) :
  rbind r k = OK b -> exists a, r = OK a /\ k a = OK b.
Proof. destruct r as [a|e]; simpl; intros Hk; [eauto | discriminate]. Qed.

Lemma outcome_ret {A} (a : A) : outcome (ret a) = OK a.
Proof. reflexivity. Qed.

Lemma outcome_lift {A} (r : result A) : outcome (lift r) = r.
Proof. reflexivity. Qed.

Lemma outcome_bind_ok {A B} (m : M A) (k : A -> M B) (b : B) :
  outcome (bind m k) = OK b ->
  exists a, outcome m = OK a /\ outcome (k a) = OK b.
Proof.
  destruct m as [j [a|e]]; unfold outcome, bind; simpl.
  - destruct (k a) as [j' r] eqn:Hk. simpl. intros ->. exists a. rewrite Hk. auto.
  - discriminate.
Qed.

Lemma outcome_bind {A B} (m : M A) (k : A -> M B) (a : A) :
  outcome m = OK a -> outcome (bind m k) = outcome (k a).
Proof.
  destruct m as [j r]; unfold outcome, bind; simpl. intros ->.
  destruct (k a); reflexivity.
Qed.

Lemma outcome_bind_err {A B} (m : M A) (k : A -> M B) (e : exn) :
  outcome m = Err e -> outcome (bind m k) = Err e.
Proof. destruct m as [j r]; unfold outcome, bind; simpl. intros ->. reflexivity. Qed.

(* ===================================================================== *)
(** * The version comparison *)
(* ===================================================================== *)

(** C6. Queried with the major component alone, [autosar_version_newer]
    answers whether the detected major version is at least the queried
    one, whatever the detected minor and patch versions are. *)
Theorem autosar_version_newer_major_only :
  forall (major' minor' patch' m : Z),
    autosar_version_newer (mkVersion major' minor' patch') m None None = true
    <-> major' >= m.
Proof.
  intros major' minor' patch' m. unfold autosar_version_newer. simpl.
  destruct (Z.gtb_spec major' m) as [Hgt|Hle].
  - split; [lia | reflexivity].
  - destruct (Z.ltb_spec major' m) as [Hlt|Hge].
    + split; [discriminate | lia].
    + split; [lia | reflexivity].
Qed.

(* ===================================================================== *)
(** * [parse_int_string] *)
(* ===================================================================== *)

Lemma ascii_eqb_false_of (P : ascii -> bool) (c d : ascii) :
  P c = true -> P d = false -> ascii_eqb c d = false.
Proof.
  intros Hc Hd. unfold ascii_eqb. destruct (Ascii.eqb c d) eqn:E; [|reflexivity].
  apply Ascii.eqb_eq in E. subst. congruence.
Qed.

Lemma lstrip_all (ws : ascii -> bool) (s : string) :
  all_chars ws s = true -> lstrip ws s = "".
Proof.
  induction s as [|c s IH]; simpl; [reflexivity|].
  intros Hall. apply andb_true_iff in Hall as [Hc Hs]. rewrite Hc. auto.
Qed.

Lemma strip_whitespace (s : string) :
  all_chars py_isspace s = true -> py_strip s = "".
Proof. intros Hall. unfold py_strip. rewrite lstrip_all by assumption. reflexivity. Qed.

Lemma digit_is_not_underscore (base : Z) (c : ascii) :
  is_digit_in base c = true -> ascii_eqb c "_" = false.
Proof. intros Hc. apply (ascii_eqb_false_of (is_digit_in base)); [assumption | reflexivity]. Qed.

Lemma digit_is_not_space (base : Z) (c : ascii) :
  is_digit_in base c = true -> c_isspace c = false.
Proof.
  unfold is_digit_in, digit_value.
  intros Hc. destruct (c_isspace c) eqn:E; [|reflexivity]. unfold c_isspace in E.
  exfalso.
  repeat match type of Hc with
         | context [if ?b then _ else _] => destruct b eqn:?
         end; try discriminate; lia.
Qed.

(** On a run of digits of the base the digit loop reads all of it. *)
Lemma scan_digits_all (base : Z) (body : string) (acc : Z) (n : nat) :
  all_chars (is_digit_in base) body = true ->
  scan_digits base body false acc n
  = Some (digits_from base acc body, (n + String.length body)%nat, "").
Proof.
  revert acc n. induction body as [|c body IH]; intros acc n Hall; simpl.
  - rewrite Nat.add_0_r. reflexivity.
  - apply andb_true_iff in Hall as [Hc Hbody].
    rewrite (digit_is_not_underscore base c Hc).
    unfold is_digit_in in Hc. destruct (digit_value c) as [d|]; [|discriminate].
    rewrite Hc. simpl. rewrite IH by assumption. do 3 f_equal. lia.
Qed.

(** What [int] makes of a run of digits of a base [b] that follows what is
    left of the text once surrounding space, sign and prefix are gone. *)
Lemma scan_to_value (b : Z) (body : string) :
  body <> "" -> all_chars (is_digit_in b) body = true ->
  exists n, scan_digits b body false 0 O = Some (digits_value b body, S n, "").
Proof.
  intros Hne Hall. rewrite scan_digits_all by assumption.
  destruct body as [|c body]; [congruence|]. simpl. eauto.
Qed.


Lemma digit_no_sign (base : Z) (c : ascii) (s : string) :
  is_digit_in base c = true -> split_sign (String c s) = (false, String c s).
Proof.
  intros Hc. unfold split_sign.
  rewrite !(ascii_eqb_false_of (is_digit_in base) c) by (assumption || reflexivity).
  reflexivity.
Qed.

Lemma lstrip_digit (base : Z) (c : ascii) (s : string) :
  is_digit_in base c = true -> lstrip c_isspace (String c s) = String c s.
Proof. intros Hc. simpl. rewrite (digit_is_not_space base c Hc). reflexivity. Qed.

(** The digits: a non-empty run of digits of the base is read as the
    number it denotes. *)
Lemma read_digits_all (text : string) (b : Z) (body : string) :
  body <> "" -> all_chars (is_digit_in b) body = true ->
  read_digits text false b false body = OK (digits_value b body).
Proof.
  intros Hne Hall. destruct (scan_to_value b body Hne Hall) as [n Hscan].
  destruct body as [|c body]; [congruence|].
  unfold read_digits. rewrite Hscan.
  simpl in Hall. apply andb_true_iff in Hall as [Hc _].
  rewrite (digit_is_not_underscore b c Hc). reflexivity.
Qed.

Lemma py_int_octal (body : string) :
  body <> "" -> all_chars (is_digit_in 8) body = true ->
  py_int (String "0" body) 8 = OK (digits_value 8 body).
Proof.
  intros Hne Hall.
  assert (Hzero : all_chars (is_digit_in 8) (String "0" body) = true)
    by (simpl; rewrite Hall; reflexivity).
  unfold py_int. rewrite (lstrip_digit 8), (digit_no_sign 8) by reflexivity.
  change (detect_base 8 (String "0" body)) with (8, false). cbv iota beta.
  assert (Hskip : skip_prefix 8 (String "0" body) = String "0" body).
  { unfold skip_prefix. destruct body as [|c body]; [congruence|].
    simpl in Hall. apply andb_true_iff in Hall as [Hc _]. simpl.
    rewrite !(ascii_eqb_false_of (is_digit_in 8) c) by (assumption || reflexivity).
    reflexivity. }
  rewrite Hskip, read_digits_all by (assumption || discriminate).
  reflexivity.
Qed.

Lemma py_int_prefixed (x : ascii) (letters : string) (b : Z) (body : string) :
  detect_base 0 (String "0" (String x body)) = (b, false) ->
  skip_prefix b (String "0" (String x body)) = body ->
  body <> "" -> all_chars (is_digit_in b) body = true ->
  py_int (String "0" (String x body)) 0 = OK (digits_value b body).
Proof.
  intros Hbase Hskip Hne Hall.
  unfold py_int. rewrite (lstrip_digit 8), (digit_no_sign 8) by reflexivity.
  rewrite Hbase. cbv iota beta. rewrite Hskip. apply read_digits_all; assumption.
Qed.

Lemma skip_prefix_body (b : Z) (x : ascii) (body : string) :
  body <> "" -> all_chars (is_digit_in b) body = true ->
  starts_with_zero (String "0" (String x body))
  && (((b =? 16) && second_char_in "xX" (String "0" (String x body)))
      || ((b =? 8) && second_char_in "oO" (String "0" (String x body)))
      || ((b =? 2) && second_char_in "bB" (String "0" (String x body)))) = true ->
  skip_prefix b (String "0" (String x body)) = body.
Proof.
  intros Hne Hall Hpre. unfold skip_prefix. rewrite Hpre.
  destruct body as [|c body]; [congruence|]. simpl.
  simpl in Hall. apply andb_true_iff in Hall as [Hc _].
  rewrite (digit_is_not_underscore b c Hc). reflexivity.
Qed.

Lemma py_int_hex (body : string) :
  body <> "" -> all_chars (is_digit_in 16) body = true ->
  py_int (String "0" (String "x" body)) 0 = OK (digits_value 16 body).
Proof.
  intros Hne Hall. apply (py_int_prefixed "x" "xX"); try assumption; try reflexivity.
  apply skip_prefix_body; try assumption. reflexivity.
Qed.

Lemma py_int_0o (body : string) :
  body <> "" -> all_chars (is_digit_in 8) body = true ->
  py_int (String "0" (String "o" body)) 0 = OK (digits_value 8 body).
Proof.
  intros Hne Hall. apply (py_int_prefixed "o" "oO"); try assumption; try reflexivity.
  apply skip_prefix_body; try assumption. reflexivity.
Qed.

Lemma py_int_decimal (c : ascii) (body : string) :
  ascii_eqb c "0" = false -> all_chars (is_digit_in 10) (String c body) = true ->
  py_int (String c body) 0 = OK (digits_value 10 (String c body)).
Proof.
  intros Hnz Hall. pose proof Hall as Hall'. simpl in Hall'.
  apply andb_true_iff in Hall' as [Hc _].
  unfold py_int. rewrite (lstrip_digit 10), (digit_no_sign 10) by assumption.
  assert (Hbase : detect_base 0 (String c body) = (10, false)).
  { unfold detect_base. simpl. rewrite Hnz. reflexivity. }
  assert (Hskip : skip_prefix 10 (String c body) = String c body).
  { unfold skip_prefix. simpl. rewrite Hnz. reflexivity. }
  rewrite Hbase. cbv iota beta. rewrite Hskip.
  apply read_digits_all; [discriminate | assumption].
Qed.

(** C10. [parse_int_string] returns 0 for an empty or whitespace-only
    string instead of raising; a stripped text that starts with a zero
    followed by a digit is handed to [int] with base 8, so that a zero
    followed by octal digits is the octal number they denote; any other
    non-empty text is handed to [int] with base 0, which detects the base:
    [0x] announces hexadecimal digits, [0o] octal digits, and digits that
    do not start with a zero are decimal. *)
Theorem parse_int_string_spec :
  (forall s, all_chars py_isspace s = true -> parse_int_string s = OK 0)
  /\ (forall s, zero_then_digit (py_strip s) = true ->
        parse_int_string s = py_int (py_strip s) 8)
  /\ (forall s body, py_strip s = String "0" body -> body <> "" ->
        all_chars (is_digit_in 8) body = true ->
        parse_int_string s = OK (digits_value 8 body))
  /\ (forall s, py_strip s <> "" -> zero_then_digit (py_strip s) = false ->
        parse_int_string s = py_int (py_strip s) 0)
  /\ (forall s body, py_strip s = String "0" (String "x" body) -> body <> "" ->
        all_chars (is_digit_in 16) body = true ->
        parse_int_string s = OK (digits_value 16 body))
  /\ (forall s body, py_strip s = String "0" (String "o" body) -> body <> "" ->
        all_chars (is_digit_in 8) body = true ->
        parse_int_string s = OK (digits_value 8 body))
  /\ (forall s c body, py_strip s = String c body -> ascii_eqb c "0" = false ->
        all_chars (is_digit_in 10) (String c body) = true ->
        parse_int_string s = OK (digits_value 10 (String c body))).
Proof.
  repeat split.
  - intros s Hall. unfold parse_int_string. rewrite strip_whitespace by assumption.
    reflexivity.
  - intros s Hzd. unfold parse_int_string.
    destruct (py_strip s); [discriminate|]. rewrite Hzd. reflexivity.
  - intros s body Hs Hne Hall. unfold parse_int_string. rewrite Hs.
    assert (Hzd : zero_then_digit (String "0" body) = true).
    { destruct body as [|c body]; [congruence|]. simpl in Hall.
      apply andb_true_iff in Hall as [Hc _]. simpl.
      unfold is_digit_in, digit_value in Hc. unfold py_isdigit.
      destruct ((48 <=? code c) && (code c <=? 57)); [reflexivity|].
      exfalso. repeat match type of Hc with
                      | context [if ?b then _ else _] => destruct b eqn:?
                      end; try discriminate; lia. }
    rewrite Hzd. apply py_int_octal; assumption.
  - intros s Hne Hzd. unfold parse_int_string.
    destruct (py_strip s); [congruence|]. rewrite Hzd. reflexivity.
  - intros s body Hs Hne Hall. unfold parse_int_string. rewrite Hs.
    change (zero_then_digit (String "0" (String "x" body))) with false.
    apply py_int_hex; assumption.
  - intros s body Hs Hne Hall. unfold parse_int_string. rewrite Hs.
    change (zero_then_digit (String "0" (String "o" body))) with false.
    apply py_int_0o; assumption.
  - intros s c body Hs Hnz Hall. unfold parse_int_string. rewrite Hs.
    assert (Hzd : zero_then_digit (String c body) = false).
    { unfold zero_then_digit. destruct body; [reflexivity|]. rewrite Hnz. reflexivity. }
    rewrite Hzd. apply py_int_decimal; assumption.
Qed.

Lemma parse_int_string_spec_witness :
  parse_int_string "  " = OK 0
  /\ parse_int_string " 017 " = py_int "017" 8
  /\ parse_int_string " 017 " = OK 15
  /\ parse_int_string "42" = py_int "42" 0
  /\ parse_int_string "0x1F" = OK 31
  /\ parse_int_string "0o17" = OK 15
  /\ parse_int_string "42" = OK 42.
Proof.
  destruct parse_int_string_spec as (H1 & H2 & H3 & H4 & H5 & H6 & H7).
  split; [apply (H1 "  "); reflexivity|].
  split; [apply (H2 " 017 "); reflexivity|].
  split; [apply (H3 " 017 " "17"); [reflexivity | discriminate | reflexivity]|].
  split; [apply (H4 "42"); [discriminate | reflexivity]|].
  split; [apply (H5 "0x1F" "1F"); [reflexivity | discriminate | reflexivity]|].
  split; [apply (H6 "0o17" "17"); [reflexivity | discriminate | reflexivity]|].
  apply (H7 "42" "4"%char "2"); reflexivity.
Defined.

(** [parse_int_string] on sample texts. *)
Example parse_int_examples :
  map parse_int_string ["  "; "017"; "0x1F"; " 42 "; "0o17"; "-5"; "0"; "1_000"]
  = map OK [0; 15; 31; 42; 15; -5; 0; 1000].
Proof. vm_compute. reflexivity. Qed.

Example parse_int_errors :
  map parse_int_string ["09"; "-017"; "abc"; "1__0"; "0x"]
  = map (fun s => Err (ValueError (InvalidIntLiteral s))) ["09"; "-017"; "abc"; "1__0"; "0x"].
Proof. vm_compute. reflexivity. Qed.

(* ===================================================================== *)
(** * Version detection *)
(* ===================================================================== *)

Lemma py_startswith_split (p s : string) :
  py_startswith p s = true -> s = p +:+ drop_chars (String.length p) s.
Proof.
  revert s. induction p as [|a p IH]; intros s; [reflexivity|].
  destruct s as [|b s]; cbn [py_startswith]; [discriminate|].
  intros Hab. apply andb_true_iff in Hab as [Hab Hp].
  apply Ascii.eqb_eq in Hab. subst b.
  cbn [String.length drop_chars].
  change (String a s = String a (p +:+ drop_chars (String.length p) s)).
  f_equal. apply IH. assumption.
Qed.

Lemma strip_prefix_split (p s r : string) :
  strip_prefix p s = Some r -> s = p +:+ r.
Proof.
  unfold strip_prefix. destruct (py_startswith p s) eqn:Hp; [|discriminate].
  intros [= <-]. apply py_startswith_split. assumption.
Qed.

Lemma match_autosar4_shape (ns g : string) :
  match_autosar4 ns = Some g -> exists w, g = String "4" (String "." w).
Proof.
  unfold match_autosar4.
  destruct (strip_prefix _ (chomp ns)) as [g'|]; [|discriminate].
  destruct (strip_prefix "4." g') as [w|] eqn:Hw; [|discriminate].
  destruct (all_chars digit_or_dot w); [|discriminate].
  intros [= <-]. exists w. apply (strip_prefix_split "4."). assumption.
Qed.

(** The first group of the version pattern, for a version string of
    AUTOSAR 4. *)
Lemma match_version_4 (w g1 : string) (g2 g3 : option string) :
  match_version (String "4" (String "." w)) = Some (g1, g2, g3) -> g1 = "4".
Proof.
  unfold match_version.
  assert (Hspan : exists r, span_chars py_isdigit (chomp (String "4" (String "." w)))
                            = ("4", r)).
  { simpl. destruct w; simpl; eauto. }
  destruct Hspan as [r ->].
  destruct (dot_digits r) as [g2' r2]. destruct (dot_digits r2) as [g3' r3].
  destruct r3; [|discriminate]. congruence.
Qed.

(** C5, as the code has it. For every AUTOSAR 4 document the detected
    major version is 4, and the minor and patch versions are the numbers
    the namespace URI carries after it (0 where the URI has none): they
    are not normalized.  For the namespace [http://autosar.org/schema/r4.0]
    the detected triple is (4, 0, 0). *)
Theorem detect_version_autosar4 :
  forall (root_tag ns g : string) (v : AutosarVersion),
    detect_version root_tag = OK (ns, v) ->
    match_autosar4 ns = Some g ->
    autosar_version_major v = 4
    /\ (exists g1 g2 g3,
           match_version g = Some (g1, g2, g3)
           /\ version_part g2 = OK (autosar_version_minor v)
           /\ version_part g3 = OK (autosar_version_patch v))
    /\ (ns = NAMESPACE -> v = mkVersion 4 0 0).
Proof.
  intros root_tag ns g v Hdetect Hns.
  unfold detect_version in Hdetect.
  destruct (match_root_tag root_tag) as [ns'|]; [|discriminate].
  apply rbind_ok in Hdetect as (vs & Hvs & Hdetect).
  destruct (match_version vs) as [[[g1 g2] g3]|] eqn:Hmv; [|discriminate].
  apply rbind_ok in Hdetect as (major & Hmajor & Hdetect).
  apply rbind_ok in Hdetect as (minor & Hminor & Hdetect).
  apply rbind_ok in Hdetect as (patch & Hpatch & Hdetect).
  destruct (negb (major =? 4) && negb (major =? 3)); [discriminate|].
  injection Hdetect as -> <-. rewrite Hns in Hvs. injection Hvs as <-.
  destruct (match_autosar4_shape _ _ Hns) as [w ->].
  pose proof (match_version_4 _ _ _ _ Hmv) as ->.
  assert (major = 4) as -> by (vm_compute in Hmajor; congruence).
  simpl. split; [reflexivity|]. split; [eauto 6|].
  intros ->. vm_compute in Hns. injection Hns as <-.
  vm_compute in Hmv. injection Hmv as <- <-.
  vm_compute in Hminor, Hpatch. congruence.
Qed.

Lemma detect_version_autosar4_witness :
  autosar_version_major (mkVersion 4 2 1) = 4
  /\ (exists g1 g2 g3,
         match_version "4.2.1" = Some (g1, g2, g3)
         /\ version_part g2 = OK (autosar_version_minor (mkVersion 4 2 1))
         /\ version_part g3 = OK (autosar_version_patch (mkVersion 4 2 1)))
  /\ ("http://autosar.org/schema/r4.2.1" = NAMESPACE -> mkVersion 4 2 1 = mkVersion 4 0 0).
Proof.
  apply (detect_version_autosar4 "{http://autosar.org/schema/r4.2.1}AUTOSAR");
    vm_compute; reflexivity.
Defined.

(** C5, as stated, fails: the namespace
    [http://autosar.org/schema/r4.2.1] matches the AUTOSAR 4 pattern and
    the detected version is (4, 2, 1). *)
Lemma detect_version_not_normalized :
  ~ (forall (root_tag ns g : string) (v : AutosarVersion),
        detect_version root_tag = OK (ns, v) ->
        match_autosar4 ns = Some g ->
        v = mkVersion 4 0 0).
Proof.
  intros Hclaim.
  specialize (Hclaim "{http://autosar.org/schema/r4.2.1}AUTOSAR"
                     "http://autosar.org/schema/r4.2.1" "4.2.1" (mkVersion 4 2 1)).
  discriminate Hclaim; vm_compute; reflexivity.
Qed.

(** [detect_version] on sample root tags. *)
Example detect_version_examples :
  map detect_version
      ["{http://autosar.org/schema/r4.0}AUTOSAR";
       "{http://autosar.org/schema/r4.2.1}AUTOSAR";
       "{http://autosar.org/3.2.3}AUTOSAR";
       "{http://autosar.org/3.1.4.DAI.4}AUTOSAR"]
  = [OK ("http://autosar.org/schema/r4.0", mkVersion 4 0 0);
     OK ("http://autosar.org/schema/r4.2.1", mkVersion 4 2 1);
     OK ("http://autosar.org/3.2.3", mkVersion 3 2 3);
     OK ("http://autosar.org/3.1.4.DAI.4", mkVersion 3 1 4)].
Proof. vm_compute. reflexivity. Qed.

(* ===================================================================== *)
(** * The reference index *)
(* ===================================================================== *)

(** Induction on a document: a property of an element follows from the
    property of its children. *)
Lemma Element_children_ind (P : Element -> Prop) :
  (forall i t a tx cs tl, Forall P cs -> P (mkElement i t a tx cs tl)) ->
  forall e, P e.
Proof.
  intros Hstep. fix IH 1. intros [i t a tx cs tl]. apply Hstep.
  induction cs as [|c cs IHcs]; constructor; [apply IH | exact IHcs].
Qed.

Lemma Xml_children_ind (P : Xml -> Prop) :
  (forall t a tx cs tl, Forall P cs -> P (XmlElem t a tx cs tl)) ->
  forall x, P x.
Proof.
  intros Hstep. fix IH 1. intros [t a tx cs tl]. apply Hstep.
  induction cs as [|c cs IHcs]; constructor; [apply IH | exact IHcs].
Qed.

Lemma nodes_unfold (e : Element) : nodes e = e :: flat_map nodes (children e).
Proof. destruct e. reflexivity. Qed.

Lemma add_sub_references_unfold ns elem elem_path cur_package_path d :
  add_sub_references ns elem elem_path cur_package_path d
  = let! (p, c, d1) := register_element ns elem elem_path cur_package_path d in
    over_children (fun child => add_sub_references ns child p c) (children elem) d1.
Proof. destruct elem. reflexivity. Qed.

(** ** Object identities *)

(** The identities [alloc] hands out below an address extend that
    address. *)
Lemma alloc_ids_extend (x : Xml) :
  forall pos i, i ∈ ids (alloc pos x) -> exists suffix, i = pos ++ suffix.
Proof.
  induction x as [t a tx cs tl IH] using Xml_children_ind.
  intros pos i. unfold ids. rewrite nodes_unfold. cbn [alloc children].
  change (map eid ?l) with (eid <$> l).
  rewrite fmap_cons, elem_of_cons. cbn [eid]. intros [->|Hi].
  { exists []. rewrite app_nil_r. reflexivity. }
  revert Hi. generalize O as k.
  induction IH as [|c cs Hc _ IHcs]; intros k; cbn [numbered flat_map].
  - rewrite fmap_nil, elem_of_nil. tauto.
  - rewrite fmap_app, elem_of_app. intros [Hi|Hi].
    + apply Hc in Hi as [suffix ->]. exists (k :: suffix).
      rewrite <- app_assoc. reflexivity.
    + eapply IHcs; eassumption.
Qed.

(** The identities below the children numbered from [k] on carry a child
    index that is at least [k]. *)
Lemma alloc_children_ids (pos : list nat) (cs : list Xml) :
  forall k i,
    i ∈ eid <$> flat_map nodes (numbered (fun j c => alloc (pos ++ [j]) c) k cs) ->
    exists j suffix, (k <= j)%nat /\ i = pos ++ j :: suffix.
Proof.
  induction cs as [|c cs IHcs]; intros k i; cbn [numbered flat_map].
  - rewrite fmap_nil, elem_of_nil. tauto.
  - rewrite fmap_app, elem_of_app. intros [Hi|Hi].
    + apply (alloc_ids_extend c) in Hi as [suffix ->]. exists k, suffix.
      rewrite <- app_assoc. split; [lia | reflexivity].
    + apply IHcs in Hi as (j & suffix & Hj & ->). exists j, suffix.
      split; [lia | reflexivity].
Qed.

(** [alloc] hands out pairwise distinct identities. *)
Lemma alloc_ids_NoDup (x : Xml) : forall pos, NoDup (ids (alloc pos x)).
Proof.
  induction x as [t a tx cs tl IH] using Xml_children_ind.
  intros pos. unfold ids. rewrite nodes_unfold. cbn [alloc children].
  change (map eid ?l) with (eid <$> l). rewrite fmap_cons. cbn [eid].
  apply NoDup_cons. split.
  - (* the address of the element is shorter than those below it *)
    intros Hin. apply alloc_children_ids in Hin as (j & suffix & _ & Heq).
    rewrite <- (app_nil_r pos) in Heq at 1.
    apply app_inv_head in Heq. discriminate.
  - (* the addresses below two children differ in the child index *)
    generalize O as k.
    induction IH as [|c cs Hc _ IHcs]; intros k; cbn [numbered flat_map].
    + rewrite fmap_nil. apply NoDup_nil_2.
    + rewrite fmap_app. apply NoDup_app. split; [apply Hc|]. split; [|apply IHcs].
      intros i Hi Hi'. apply (alloc_ids_extend c) in Hi as [suffix ->].
      apply alloc_children_ids in Hi' as (j & suffix' & Hj & Heq).
      rewrite <- app_assoc in Heq. apply app_inv_head in Heq.
      injection Heq as -> _. lia.
Qed.

Lemma fromstring_ids_NoDup (doc : Xml) : NoDup (ids (fromstring doc)).
Proof. apply alloc_ids_NoDup. Qed.

(** ** The traversal *)

Lemma indexed_nil ns d : indexed ns [] d d.
Proof.
  split; try tauto.
  - intros n Hn. apply elem_of_nil in Hn. tauto.
Qed.

(** Two traversals in a row, over elements of distinct identities. *)
Lemma indexed_app ns N1 N2 d d1 d2 :
  NoDup (eid <$> (N1 ++ N2)) ->
  indexed ns N1 d d1 -> indexed ns N2 d1 d2 -> indexed ns (N1 ++ N2) d d2.
Proof.
  rewrite fmap_app. intros Hnd [K1 A1 U1 R1] [K2 A2 U2 R2].
  apply NoDup_app in Hnd as (_ & Hdisj & _).
  assert (Hstay : forall n, n ∈ N1 ->
            _node_to_arxml_path d2 !! eid n = _node_to_arxml_path d1 !! eid n).
  { intros n Hn. apply U2, Hdisj, list_elem_of_fmap. eauto. }
  split.
  - auto.
  - intros p n Hp. apply A2 in Hp as [Hp|[Hn Hp]].
    + apply A1 in Hp as [Hp|[Hn Hp]]; [auto|].
      right. rewrite elem_of_app, Hstay by assumption. auto.
    + right. rewrite elem_of_app. auto.
  - intros i Hi. rewrite fmap_app in Hi. apply not_elem_of_app in Hi as [Hi1 Hi2].
    rewrite U2, U1 by assumption. reflexivity.
  - intros n Hn. apply elem_of_app in Hn as [Hn|Hn].
    + destruct (R1 n Hn) as (p & Hp & Hnamed). exists p.
      rewrite Hstay by assumption. auto.
    + auto.
Qed.

(** [add_reference_base] leaves the two path dictionaries alone. *)
Lemma add_reference_base_paths ns elem cur d d' :
  add_reference_base ns elem cur d = OK d' ->
  _node_to_arxml_path d' = _node_to_arxml_path d
  /\ _arxml_path_to_node d' = _arxml_path_to_node d.
Proof.
  unfold add_reference_base. intros H.
  repeat (apply rbind_ok in H as (? & ? & H)).
  repeat match type of H with
         | (if ?b then _ else _) = _ => destruct b
         | rbind _ _ = _ => apply rbind_ok in H as (? & ? & H)
         end; try discriminate.
  repeat match goal with
         | H : (if ?b then _ else _) = OK _ |- _ => destruct b; try discriminate
         | H : match ?o with Some _ => _ | None => _ end = OK _ |- _ =>
             destruct o; try discriminate
         | H : OK _ = OK _ |- _ => injection H as <-
         end; simpl; auto.
Qed.

(** What registering one element does to the path dictionaries. *)
Lemma register_element_paths ns elem elem_path cur d p c d1 :
  register_element ns elem elem_path cur d = OK (p, c, d1) ->
  _node_to_arxml_path d1 = <[eid elem := p]> (_node_to_arxml_path d)
  /\ match find_child (qname ns "SHORT-NAME") elem with
     | Some sn =>
         p = elem_path +:+ "/" +:+ fmt (text sn)
         /\ _arxml_path_to_node d !! p = None
         /\ _arxml_path_to_node d1 = <[p := elem]> (_arxml_path_to_node d)
     | None => p = elem_path /\ _arxml_path_to_node d1 = _arxml_path_to_node d
     end.
Proof.
  unfold register_element. intros H.
  apply rbind_ok in H as ([p' d0] & Hreg & H).
  apply rbind_ok in H as (d2 & Hbase & H). injection H as <- _ <-.
  assert (Hd2 : _node_to_arxml_path d2 = <[eid elem := p']> (_node_to_arxml_path d0)
                /\ _arxml_path_to_node d2 = _arxml_path_to_node d0).
  { destruct (has_tag (qname ns "REFERENCE-BASE") elem).
    - apply add_reference_base_paths in Hbase. exact Hbase.
    - injection Hbase as <-. auto. }
  destruct Hd2 as [-> ->].
  destruct (find_child (qname ns "SHORT-NAME") elem) as [sn|].
  - destruct (bool_decide _) eqn:Hdup in Hreg; [discriminate|].
    injection Hreg as <- <-. simpl. apply bool_decide_eq_false in Hdup.
    rewrite <- eq_None_not_Some in Hdup. auto.
  - injection Hreg as <- <-. auto.
Qed.

Lemma indexed_register ns elem elem_path cur d p c d1 :
  register_element ns elem elem_path cur d = OK (p, c, d1) ->
  indexed ns [elem] d d1.
Proof.
  intros H. apply register_element_paths in H as [Hn2p Hp2n].
  unfold named. split.
  - intros q n Hq. destruct (find_child _ elem).
    + destruct Hp2n as (_ & Hfree & ->).
      rewrite lookup_insert_ne; [assumption | congruence].
    + destruct Hp2n as [_ ->]. assumption.
  - intros q n Hq. rewrite Hn2p. destruct (find_child _ elem).
    + destruct Hp2n as (_ & Hfree & Hd1). rewrite Hd1 in Hq.
      destruct (decide (p = q)) as [<-|Hne].
      * rewrite lookup_insert_eq in Hq. injection Hq as <-. right.
        rewrite list_elem_of_singleton, lookup_insert_eq. auto.
      * rewrite lookup_insert_ne in Hq by assumption. auto.
    + destruct Hp2n as [_ Hd1]. rewrite Hd1 in Hq. auto.
  - intros i Hi. rewrite Hn2p. apply lookup_insert_ne. intros <-. apply Hi.
    rewrite fmap_cons. apply elem_of_cons. auto.
  - intros n Hn. apply list_elem_of_singleton in Hn as ->. exists p.
    rewrite Hn2p, lookup_insert_eq. split; [reflexivity|].
    intros [sn Hsn]. rewrite Hsn in Hp2n. destruct Hp2n as (_ & _ & ->).
    apply lookup_insert_eq.
Qed.

(** The traversal of an element indexes the elements below it. *)
Lemma add_sub_references_indexed ns (elem : Element) :
  forall elem_path cur d d',
    NoDup (ids elem) ->
    add_sub_references ns elem elem_path cur d = OK d' ->
    indexed ns (nodes elem) d d'.
Proof.
  induction elem as [i t a tx cs tl IH] using Element_children_ind.
  intros elem_path cur d d' Hnd H. rewrite add_sub_references_unfold in H.
  apply rbind_ok in H as ([[p c] d1] & Hreg & H). cbn [children] in H.
  unfold ids in Hnd. rewrite nodes_unfold in *. cbn [children] in *.
  change (map eid ?l) with (eid <$> l) in Hnd.
  apply (indexed_app ns [_] _ d d1 d'); [assumption | |].
  { eapply indexed_register. eassumption. }
  rewrite fmap_cons in Hnd. apply NoDup_cons in Hnd as [_ Hnd].
  clear Hreg d. revert d1 H Hnd.
  induction IH as [|child cs Hchild _ IHcs]; intros d1 H Hnd.
  - injection H as <-. apply indexed_nil.
  - cbn [over_children] in H. apply rbind_ok in H as (d2 & Hc & H).
    cbn [flat_map] in *. apply indexed_app with (d1 := d2); [assumption | |].
    + eapply Hchild; [|eassumption].
      rewrite fmap_app in Hnd. apply NoDup_app in Hnd as [Hnd _]. exact Hnd.
    + apply IHcs; [assumption|].
      rewrite fmap_app in Hnd. apply NoDup_app in Hnd as (_ & _ & Hnd). exact Hnd.
Qed.

(** The index of a loaded document. *)
Lemma loader_indexed (root : Element) (strict : bool) (ld : SystemLoader) :
  NoDup (ids root) ->
  SystemLoader_init root strict = OK ld ->
  _root ld = root /\ indexed (xml_namespace ld) (nodes root) empty_dicts (dicts ld).
Proof.
  intros Hnd H. unfold SystemLoader_init in H.
  apply rbind_ok in H as ([ns v] & _ & H).
  apply rbind_ok in H as (d & Hd & H). injection H as <-. simpl.
  split; [reflexivity|]. eapply add_sub_references_indexed; eassumption.
Qed.

(** A traversal never drops or changes the node a path is mapped to. *)
Lemma add_sub_references_kept ns (elem : Element) :
  forall elem_path cur d d' p n,
    add_sub_references ns elem elem_path cur d = OK d' ->
    _arxml_path_to_node d !! p = Some n -> _arxml_path_to_node d' !! p = Some n.
Proof.
  induction elem as [i t a tx cs tl IH] using Element_children_ind.
  intros elem_path cur d d' p n H Hp. rewrite add_sub_references_unfold in H.
  apply rbind_ok in H as ([[q c] d1] & Hreg & H). cbn [children] in H.
  apply indexed_register in Hreg. apply (kept _ _ _ _ Hreg) in Hp.
  clear Hreg d. revert d1 H Hp.
  induction IH as [|child cs Hchild _ IHcs]; intros d1 H Hp.
  - injection H as <-. assumption.
  - cbn [over_children] in H. apply rbind_ok in H as (d2 & Hc & H).
    eapply IHcs; [eassumption|]. eapply Hchild; eassumption.
Qed.

(** Registering an element whose path is taken raises at once. *)
Lemma add_sub_references_duplicate ns elem elem_path cur d sn other :
  find_child (qname ns "SHORT-NAME") elem = Some sn ->
  _arxml_path_to_node d !! (elem_path +:+ "/" +:+ fmt (text sn)) = Some other ->
  add_sub_references ns elem elem_path cur d
  = Err (ValueError (DuplicatePath (elem_path +:+ "/" +:+ fmt (text sn)))).
Proof.
  intros Hsn Hother. rewrite add_sub_references_unfold.
  unfold register_element. rewrite Hsn. cbn beta iota zeta.
  rewrite bool_decide_eq_true_2 by (rewrite Hother; eauto). reflexivity.
Qed.

(** C7. Once the index of a document is built, the path-to-node and
    node-to-path maps are inverse to each other on the indexed nodes: a
    node registered under a path is an element of the document that the
    node-to-path map sends back to that path; and every element of the
    document has a path, under which it is found again when it is named (has
    a SHORT-NAME). *)
Theorem path_node_round_trip :
  forall (doc : Xml) (strict : bool) (ld : SystemLoader),
    SystemLoader_init (fromstring doc) strict = OK ld ->
    (forall p n,
        _arxml_path_to_node (dicts ld) !! p = Some n ->
        n ∈ nodes (fromstring doc)
        /\ _node_to_arxml_path (dicts ld) !! eid n = Some p)
    /\ (forall n,
           n ∈ nodes (fromstring doc) ->
           exists p, _node_to_arxml_path (dicts ld) !! eid n = Some p
                     /\ (named (xml_namespace ld) n ->
                         _arxml_path_to_node (dicts ld) !! p = Some n)).
Proof.
  intros doc strict ld Hinit.
  destruct (loader_indexed _ _ _ (fromstring_ids_NoDup doc) Hinit) as [_ [K A U R]].
  split.
  - intros p n Hp. apply A in Hp as [Hp|Hp]; [|exact Hp].
    simpl in Hp. rewrite lookup_empty in Hp. discriminate.
  - exact R.
Qed.

(** C4. While the index is built, an element whose path is already
    registered makes the traversal raise the duplicate-path error at once;
    a traversal that returns has kept every mapping it started with; and a
    document whose index could be built has no two named elements with the
    same path. *)
Theorem duplicate_path_is_fatal :
  (forall ns elem elem_path cur d sn other,
      find_child (qname ns "SHORT-NAME") elem = Some sn ->
      _arxml_path_to_node d !! (elem_path +:+ "/" +:+ fmt (text sn)) = Some other ->
      add_sub_references ns elem elem_path cur d
      = Err (ValueError (DuplicatePath (elem_path +:+ "/" +:+ fmt (text sn)))))
  /\ (forall ns elem elem_path cur d d' p n,
         add_sub_references ns elem elem_path cur d = OK d' ->
         _arxml_path_to_node d !! p = Some n ->
         _arxml_path_to_node d' !! p = Some n)
  /\ (forall (doc : Xml) (strict : bool) (ld : SystemLoader),
         SystemLoader_init (fromstring doc) strict = OK ld ->
         forall n1 n2 p,
           n1 ∈ nodes (fromstring doc) -> n2 ∈ nodes (fromstring doc) ->
           named (xml_namespace ld) n1 -> named (xml_namespace ld) n2 ->
           _node_to_arxml_path (dicts ld) !! eid n1 = Some p ->
           _node_to_arxml_path (dicts ld) !! eid n2 = Some p ->
           n1 = n2).
Proof.
  split; [|split].
  - intros. apply add_sub_references_duplicate with (other := other); assumption.
  - intros. eapply add_sub_references_kept; eassumption.
  - intros doc strict ld Hinit n1 n2 p Hn1 Hn2 Hnamed1 Hnamed2 Hp1 Hp2.
    destruct (loader_indexed _ _ _ (fromstring_ids_NoDup doc) Hinit) as [_ [K A U R]].
    destruct (R n1 Hn1) as (p1 & Hq1 & Hback1).
    destruct (R n2 Hn2) as (p2 & Hq2 & Hback2).
    rewrite Hp1 in Hq1. rewrite Hp2 in Hq2.
    injection Hq1 as <-. injection Hq2 as <-.
    specialize (Hback1 Hnamed1). specialize (Hback2 Hnamed2). congruence.
Qed.

Lemma path_node_round_trip_witness :
  exists ld,
    SystemLoader_init (fromstring one_package) true = OK ld
    /\ (forall p n,
           _arxml_path_to_node (dicts ld) !! p = Some n ->
           n ∈ nodes (fromstring one_package)
           /\ _node_to_arxml_path (dicts ld) !! eid n = Some p)
    /\ (forall n,
           n ∈ nodes (fromstring one_package) ->
           exists p, _node_to_arxml_path (dicts ld) !! eid n = Some p
                     /\ (named (xml_namespace ld) n ->
                         _arxml_path_to_node (dicts ld) !! p = Some n)).
Proof.
  destruct (SystemLoader_init (fromstring one_package) true) as [ld|e] eqn:Hinit.
  - exists ld. split; [reflexivity|].
    apply (path_node_round_trip one_package true ld Hinit).
  - vm_compute in Hinit. discriminate Hinit.
Defined.

Lemma duplicate_path_is_fatal_witness :
  add_sub_references NAMESPACE element_A "" "" dicts_with_A
  = Err (ValueError (DuplicatePath "/A"))
  /\ (exists d', add_sub_references NAMESPACE element_A "/B" "" dicts_with_A = OK d'
                 /\ _arxml_path_to_node d' !! "/A" = Some element_A)
  /\ (exists ld n1 n2,
         SystemLoader_init (fromstring one_package) true = OK ld
         /\ nodes (fromstring one_package) !! 2%nat = Some n1
         /\ _arxml_path_to_node (dicts ld) !! "/P" = Some n2
         /\ n1 = n2).
Proof.
  destruct duplicate_path_is_fatal as (Hraise & Hkept & Hinj).
  split; [|split].
  - apply (Hraise NAMESPACE element_A "" "" dicts_with_A
                  (alloc [O] (leaf "SHORT-NAME" "A")) element_A).
    + vm_compute. reflexivity.
    + vm_compute. reflexivity.
  - destruct (add_sub_references NAMESPACE element_A "/B" "" dicts_with_A)
      as [d'|e] eqn:Hd'.
    + exists d'. split; [reflexivity|].
      apply (Hkept NAMESPACE element_A "/B" "" dicts_with_A d' "/A" element_A Hd').
      vm_compute. reflexivity.
    + vm_compute in Hd'. discriminate Hd'.
  - destruct (SystemLoader_init (fromstring one_package) true) as [ld|e] eqn:Hinit;
      [|vm_compute in Hinit; discriminate Hinit].
    pose proof Hinit as Hld. vm_compute in Hld. injection Hld as Hld.
    set (pkg := alloc [O; O] (elem "AR-PACKAGE" [leaf "SHORT-NAME" "P"])).
    exists ld, pkg, pkg.
    assert (Hn : nodes (fromstring one_package) !! 2%nat = Some pkg) by reflexivity.
    assert (Hp : _arxml_path_to_node (dicts ld) !! "/P" = Some pkg)
      by (rewrite <- Hld; vm_compute; reflexivity).
    repeat (split; [reflexivity || assumption|]).
    apply (Hinj one_package true ld Hinit pkg pkg "/P").
    + eapply list_elem_of_lookup_2. exact Hn.
    + eapply list_elem_of_lookup_2. exact Hn.
    + rewrite <- Hld. vm_compute. eauto.
    + rewrite <- Hld. vm_compute. eauto.
    + rewrite <- Hld. vm_compute. reflexivity.
    + rewrite <- Hld. vm_compute. reflexivity.
Defined.

(* ===================================================================== *)
(** * Dangling references *)
(* ===================================================================== *)

Lemma dangling_ret {A} (a : A) : aborts_on_dangling (ret a).
Proof. intros ev Hev. apply elem_of_nil in Hev. tauto. Qed.

Lemma dangling_raise {A} (e : exn) : aborts_on_dangling (@raise A e).
Proof. intros ev Hev. apply elem_of_nil in Hev. tauto. Qed.

Lemma dangling_lift {A} (r : result A) : aborts_on_dangling (lift r).
Proof. intros ev Hev. apply elem_of_nil in Hev. tauto. Qed.

(** Sequencing: a computation that raised is not continued, so what it
    raised is what the sequence raises. *)
Lemma dangling_bind {A B} (m : M A) (k : A -> M B) :
  aborts_on_dangling m -> (forall a, aborts_on_dangling (k a)) ->
  aborts_on_dangling (bind m k).
Proof.
  intros Hm Hk ev. destruct m as [j [a|e]]; unfold journal, outcome, bind; simpl.
  - specialize (Hk a). destruct (k a) as [j' r] eqn:Hka. simpl.
    intros Hev Hnone. apply elem_of_app in Hev as [Hev|Hev].
    + specialize (Hm ev Hev Hnone). discriminate Hm.
    + exact (Hk ev Hev Hnone).
  - intros Hev Hnone. specialize (Hm ev Hev Hnone). unfold outcome in Hm.
    simpl in Hm. injection Hm as ->. reflexivity.
Qed.

Lemma dangling_for_each {A S} (body : A -> S -> M S) (xs : list A) :
  (forall x acc, aborts_on_dangling (body x acc)) ->
  forall acc, aborts_on_dangling (for_each xs acc body).
Proof.
  intros Hbody. induction xs as [|x xs IH]; intros acc; simpl.
  - apply dangling_ret.
  - apply dangling_bind; [apply Hbody | exact IH].
Qed.

Create HintDb dangling discriminated.

(** Splits a computation along its sequencing and its case distinctions. *)
Ltac dangling_step :=
  first
    [ solve [auto with dangling]
    | apply dangling_ret
    | apply dangling_raise
    | apply dangling_lift
    | apply dangling_for_each; intros
    | apply dangling_bind; [|intros]
    | progress cbv beta zeta
    | match goal with
      | |- aborts_on_dangling (match ?x with _ => _ end) => destruct x
      | |- aborts_on_dangling (if ?b then _ else _) => destruct b
      end ].
Ltac dangling := repeat dangling_step.

(** The child locator: the one place where a reference is followed and
    recorded; an unresolved reference is raised on the spot. *)
Lemma dangling_locate_child ld base_elem child_tag_name child_elem local_result :
  aborts_on_dangling (locate_child ld base_elem child_tag_name child_elem local_result).
Proof.
  unfold locate_child.
  destruct (has_tag _ child_elem); [apply dangling_ret|].
  destruct (has_tag _ child_elem); [|apply dangling_ret].
  destruct (_follow_arxml_reference _ _ _ _ _) as [[node|]|e];
    intros ev; unfold journal, outcome; simpl.
  - rewrite list_elem_of_singleton. intros -> Hnone. discriminate Hnone.
  - rewrite list_elem_of_singleton. intros -> _. reflexivity.
  - intros Hev. apply elem_of_nil in Hev. tauto.
Qed.
#[local] Hint Resolve dangling_locate_child : dangling.

Lemma dangling_locate ld children_location :
  forall base_elems, aborts_on_dangling (locate ld base_elems children_location).
Proof.
  induction children_location as [|atom rest IH]; intros base_elems; simpl.
  - apply dangling_ret.
  - destruct base_elems; [apply dangling_ret|].
    apply dangling_bind; [|exact IH].
    apply dangling_for_each. intros. unfold locate_in. dangling.
Qed.
#[local] Hint Resolve dangling_locate : dangling.

Lemma dangling_get_arxml_children ld base_elems children_location :
  aborts_on_dangling (_get_arxml_children ld base_elems children_location).
Proof. unfold _get_arxml_children. dangling. Qed.
#[local] Hint Resolve dangling_get_arxml_children : dangling.

Lemma dangling_get_unique_arxml_child ld base_elem child_location :
  aborts_on_dangling (_get_unique_arxml_child ld base_elem child_location).
Proof. unfold _get_unique_arxml_child. dangling. Qed.
#[local] Hint Resolve dangling_get_unique_arxml_child : dangling.

Lemma dangling_unique_child_text ld base_elem child_location :
  aborts_on_dangling (unique_child_text ld base_elem child_location).
Proof. unfold unique_child_text. dangling. Qed.
#[local] Hint Resolve dangling_unique_child_text : dangling.

Section Dangling.
Context `{PyNumerics}.

Lemma dangling_load_comments ld node : aborts_on_dangling (_load_comments ld node).
Proof. unfold _load_comments. dangling. Qed.
Hint Resolve dangling_load_comments : dangling.

Lemma dangling_load_system_signal_unit ld system_signal compu_method :
  aborts_on_dangling (_load_system_signal_unit ld system_signal compu_method).
Proof. unfold _load_system_signal_unit. dangling. Qed.
Hint Resolve dangling_load_system_signal_unit : dangling.

Lemma dangling_load_texttable ld compu_method decimal is_float :
  aborts_on_dangling (_load_texttable ld compu_method decimal is_float).
Proof. unfold _load_texttable. dangling. Qed.
Hint Resolve dangling_load_texttable : dangling.

Lemma dangling_load_linear_factor_and_offset ld compu_scale decimal :
  aborts_on_dangling (_load_linear_factor_and_offset ld compu_scale decimal).
Proof. unfold _load_linear_factor_and_offset. dangling. Qed.
Hint Resolve dangling_load_linear_factor_and_offset : dangling.

Lemma dangling_load_linear ld compu_method decimal is_float :
  aborts_on_dangling (_load_linear ld compu_method decimal is_float).
Proof. unfold _load_linear. dangling. Qed.
Hint Resolve dangling_load_linear : dangling.

Lemma dangling_read_compu_scale ld compu_scale decimal :
  aborts_on_dangling (read_compu_scale ld compu_scale decimal).
Proof. unfold read_compu_scale. dangling. Qed.
Hint Resolve dangling_read_compu_scale : dangling.

Lemma dangling_load_scale_linear_and_texttable ld compu_method decimal is_float :
  aborts_on_dangling (_load_scale_linear_and_texttable ld compu_method decimal is_float).
Proof. unfold _load_scale_linear_and_texttable. dangling. Qed.
Hint Resolve dangling_load_scale_linear_and_texttable : dangling.

Lemma dangling_get_compu_method ld system_signal :
  aborts_on_dangling (_get_compu_method ld system_signal).
Proof. unfold _get_compu_method. dangling. Qed.
Hint Resolve dangling_get_compu_method : dangling.

Lemma dangling_load_system_signal ld system_signal decimal is_float :
  aborts_on_dangling (_load_system_signal ld system_signal decimal is_float).
Proof. unfold _load_system_signal. dangling. Qed.
Hint Resolve dangling_load_system_signal : dangling.

Lemma dangling_load_signal_type ld i_signal :
  aborts_on_dangling (_load_signal_type ld i_signal).
Proof. unfold _load_signal_type, _get_sw_base_type. dangling. Qed.
Hint Resolve dangling_load_signal_type : dangling.

Lemma dangling_load_signal_length ld i_signal system_signal :
  aborts_on_dangling (_load_signal_length ld i_signal system_signal).
Proof. unfold _load_signal_length. dangling. Qed.
Hint Resolve dangling_load_signal_length : dangling.

Lemma dangling_load_arxml_init_value_string ld i_signal system_signal :
  aborts_on_dangling (_load_arxml_init_value_string ld i_signal system_signal).
Proof.
  unfold _load_arxml_init_value_string, _load_arxml_init_value_string_helper. dangling.
Qed.
Hint Resolve dangling_load_arxml_init_value_string : dangling.

Lemma dangling_load_signal ld i_signal_to_i_pdu_mapping :
  aborts_on_dangling (_load_signal ld i_signal_to_i_pdu_mapping).
Proof.
  unfold _load_signal, _get_i_signal, _load_signal_name, _load_signal_start_position,
    _load_signal_byte_order.
  dangling.
Qed.
Hint Resolve dangling_load_signal : dangling.

Lemma dangling_load_pdu_signals ld pdu : aborts_on_dangling (_load_pdu_signals ld pdu).
Proof. unfold _load_pdu_signals. dangling. Qed.
Hint Resolve dangling_load_pdu_signals : dangling.

Lemma dangling_load_pdu_multiplexed_parts load_pdu ld pdu frame_name next_selector_idx :
  (forall pdu frame_name idx, aborts_on_dangling (load_pdu pdu frame_name idx)) ->
  aborts_on_dangling
    (_load_pdu_multiplexed_parts load_pdu ld pdu frame_name next_selector_idx).
Proof.
  intros Hrec.
  unfold _load_pdu_multiplexed_parts, selector_field, load_dynalt, load_static,
    dynalt_selector_value, dynalt_is_initial.
  dangling.
Qed.

Lemma dangling_load_pdu depth ld :
  forall pdu frame_name next_selector_idx,
    aborts_on_dangling (_load_pdu depth ld pdu frame_name next_selector_idx).
Proof.
  induction depth as [|depth IH]; intros pdu frame_name idx; cbn [_load_pdu].
  - apply dangling_raise.
  - pose proof (fun pdu frame_name idx =>
                  dangling_load_pdu_multiplexed_parts (_load_pdu depth ld) ld
                    pdu frame_name idx IH) as Hmux.
    dangling.
Qed.
Hint Resolve dangling_load_pdu : dangling.

Lemma dangling_load_message ld can_frame_triggering :
  aborts_on_dangling (_load_message ld can_frame_triggering).
Proof.
  unfold _load_message, _get_can_frame, _load_message_name, _load_message_frame_id,
    _load_message_length, _load_message_is_extended_frame, _get_pdu.
  dangling.
Qed.
Hint Resolve dangling_load_message : dangling.

Lemma dangling_load_package_contents ld package_elem messages :
  aborts_on_dangling (_load_package_contents ld package_elem messages).
Proof. unfold _load_package_contents. dangling. Qed.
Hint Resolve dangling_load_package_contents : dangling.

Lemma dangling_over_packages ld f l :
  Forall (fun package => forall messages, aborts_on_dangling (f package messages)) l ->
  forall messages, aborts_on_dangling (over_packages ld f l messages).
Proof.
  induction 1 as [|package l Hp _ IH]; intros messages; simpl.
  - apply dangling_ret.
  - destruct (has_tag _ package); [|apply IH].
    apply dangling_bind; [apply Hp | exact IH].
Qed.

Lemma dangling_with_first_child {B} t (f : Element -> M B) otherwise cs :
  Forall (fun c => aborts_on_dangling (f c)) cs ->
  aborts_on_dangling otherwise ->
  aborts_on_dangling (with_first_child t f otherwise cs).
Proof.
  intros Hcs Hother. induction Hcs as [|c cs Hc _ IH]; simpl.
  - exact Hother.
  - destruct (has_tag t c); assumption.
Qed.

Lemma handle_package_list_unfold ld package_list messages :
  handle_package_list ld package_list messages
  = over_packages ld
      (fun package messages =>
         let* messages := _load_package_contents ld package messages in
         with_first_child (sub_packages_tag ld)
           (fun sub_package_list => handle_package_list ld sub_package_list messages)
           (ret messages) (children package))
      (children package_list) messages.
Proof. destruct package_list. reflexivity. Qed.

Lemma dangling_handle_package_list ld (package_list : Element) :
  forall messages, aborts_on_dangling (handle_package_list ld package_list messages).
Proof.
  assert (Hall : forall e : Element,
             (forall messages, aborts_on_dangling (handle_package_list ld e messages))
             /\ Forall (fun c => forall messages,
                           aborts_on_dangling (handle_package_list ld c messages))
                       (children e)).
  { induction e as [i t a tx cs tl IH] using Element_children_ind.
    assert (Hcs : Forall (fun c => forall messages,
                             aborts_on_dangling (handle_package_list ld c messages)) cs).
    { eapply Forall_impl; [exact IH|]. intros c [Hc _]. exact Hc. }
    split; [|exact Hcs].
    intros messages. rewrite handle_package_list_unfold. cbn [children].
    apply dangling_over_packages.
    eapply Forall_impl; [exact IH|]. intros package [_ Hsub] messages'.
    apply dangling_bind; [apply dangling_load_package_contents|].
    intros messages''. apply dangling_with_first_child; [|apply dangling_ret].
    eapply Forall_impl; [exact Hsub|]. intros c Hc. apply Hc. }
  apply Hall.
Qed.

Lemma dangling_load ld : aborts_on_dangling (load ld).
Proof.
  unfold load. apply dangling_bind; [apply dangling_lift|]. intros package_list.
  apply dangling_bind; [apply dangling_handle_package_list|]. intros. apply dangling_ret.
Qed.

End Dangling.

Section DanglingReference.
Context `{PyNumerics}.

(** C2. The child locator records each reference it follows, and a
    reference that resolves to no node makes it raise the
    dangling-reference error on the spot.  Whenever the run of a load has
    come across such a reference, the load as a whole has raised that very
    error: it returns no database, hence none of the messages it had
    constructed before. *)
Theorem dangling_reference_aborts_load :
  (forall ld base_elem child_tag_name child_elem local_result tmp,
      has_tag (ns_tag ld child_tag_name) child_elem = false ->
      has_tag (ns_tag ld (child_tag_name +:+ "-REF")) child_elem = true ->
      _follow_arxml_reference ld base_elem (text child_elem)
        (attrib_get "DEST" (attrib child_elem))
        (attrib_get "BASE" (attrib child_elem)) = OK tmp ->
      let run := locate_child ld base_elem child_tag_name child_elem local_result in
      journal run = [mkRefEvent child_tag_name (text child_elem) tmp]
      /\ (tmp = None ->
          outcome run
          = Err (ValueError (DanglingReference child_tag_name (text child_elem)))))
  /\ (forall (root : Element) (strict : bool) (ev : RefEvent),
         ev ∈ journal (load_document root strict) ->
         ref_target ev = None ->
         outcome (load_document root strict)
         = Err (ValueError (DanglingReference (ref_tag ev) (ref_text ev)))
         /\ forall db, outcome (load_document root strict) <> OK db).
Proof.
  split.
  - intros ld base_elem child_tag_name child_elem local_result tmp Hctt Hcttr Hfollow run.
    subst run. unfold locate_child. rewrite Hctt, Hcttr, Hfollow.
    split; [destruct tmp; reflexivity|]. intros ->. reflexivity.
  - intros root strict ev Hev Hnone.
    assert (Hrun : aborts_on_dangling (load_document root strict)).
    { unfold load_document. apply dangling_bind; [apply dangling_lift|].
      intros ld. apply dangling_load. }
    rewrite (Hrun ev Hev Hnone). split; [reflexivity | discriminate].
Qed.

End DanglingReference.

Lemma dangling_reference_aborts_load_witness :
  let ld := loader_of dangling_pdu_reference in
  let reference := alloc [O] (leaf "PDU-REF" "/P/Missing") in
  let step := locate_child ld (fromstring (elem "PDU-TO-FRAME-MAPPING" [])) "PDU"
                reference [] in
  let run := load_document (H := rational_numerics) (fromstring dangling_pdu_reference) true in
  (journal step = [mkRefEvent "PDU" (Some "/P/Missing") None]
   /\ outcome step = Err (ValueError (DanglingReference "PDU" (Some "/P/Missing"))))
  /\ journal run !! 5%nat = Some (mkRefEvent "PDU" (Some "/P/Missing") None)
  /\ outcome run = Err (ValueError (DanglingReference "PDU" (Some "/P/Missing")))
  /\ forall db, outcome run <> OK db.
Proof.
  intros ld reference step run.
  destruct (dangling_reference_aborts_load (H := rational_numerics)) as [Hstep Hload].
  split.
  - destruct (Hstep ld (fromstring (elem "PDU-TO-FRAME-MAPPING" [])) "PDU" reference []
                    None) as [Hjournal Hraise]; try (vm_compute; reflexivity).
    split; [exact Hjournal | apply Hraise; reflexivity].
  - assert (Hev : journal run !! 5%nat
                  = Some (mkRefEvent "PDU" (Some "/P/Missing") None))
      by (vm_compute; reflexivity).
    split; [exact Hev|].
    apply (Hload (fromstring dangling_pdu_reference) true
                 (mkRefEvent "PDU" (Some "/P/Missing") None)).
    + eapply list_elem_of_lookup_2. exact Hev.
    + reflexivity.
Defined.

(* ===================================================================== *)
(** * The selector counter *)
(* ===================================================================== *)

Section SelectorCounter.
Context `{PyNumerics}.

(** The counter [_load_pdu] returns is the one it was called with: what
    [_load_pdu_multiplexed_parts] counts is not handed back. *)
Lemma load_pdu_returns_its_counter depth ld pdu frame_name next_selector_idx
      idx' bit_length signals cycle_time :
  outcome (_load_pdu depth ld pdu frame_name next_selector_idx)
  = OK (idx', bit_length, signals, cycle_time) ->
  idx' = next_selector_idx.
Proof.
  destruct depth as [|depth]; cbn [_load_pdu]; [discriminate|].
  intros Hrun.
  repeat (apply outcome_bind_ok in Hrun as (? & _ & Hrun)).
  injection Hrun as <- _ _ _. reflexivity.
Qed.

End SelectorCounter.

(** C1, on the code as it is. In the document [nested_multiplexers] the
    multiplexed PDU of the frame [F] has two alternatives that are
    multiplexed PDUs themselves.  The load returns one message with three
    selector signals, and the two nested ones have the same name: the
    counter is 2 again when the second alternative is decomposed. *)
Theorem nested_selectors_share_a_name :
  selector_names (H := rational_numerics)
    (load_document (fromstring nested_multiplexers) true)
  = OK [[Some "F_selector1"; Some "F_selector2"; Some "F_selector2"]].
Proof. vm_compute. reflexivity. Qed.

(* ===================================================================== *)
(** * The selector of a multiplexed PDU *)
(* ===================================================================== *)

Section Selector.
Context `{PyNumerics}.

(** What merging one alternative does to the selector signal. *)
Lemma merge_dynalt_selector selector_pos selector_len sel v flag sigs sel' sigs' table :
  merge_dynalt selector_pos selector_len sel v flag sigs = OK (sel', sigs') ->
  choices sel = Some table ->
  exists dup,
    List.filter (fun x : Signal => start x =? selector_pos) sigs = [dup]
    /\ name sel' = name sel
    /\ is_multiplexer sel' = is_multiplexer sel
    /\ choices sel'
       = Some (match choices dup with Some c => dict_update table c | None => table end)
    /\ (if flag
        then initial sel = None /\ initial sel' = Some (InitNum (PyInt v))
        else initial sel' = initial sel).
Proof.
  unfold merge_dynalt. intros Hmerge Htable.
  apply rbind_ok in Hmerge as (sel1 & Hinit & Hmerge).
  assert (Hsel1 : name sel1 = name sel /\ is_multiplexer sel1 = is_multiplexer sel
                  /\ choices sel1 = Some table
                  /\ (if flag
                      then initial sel = None /\ initial sel1 = Some (InitNum (PyInt v))
                      else initial sel1 = initial sel)).
  { destruct flag.
    - apply rbind_ok in Hinit as ([] & Hassert & Hinit). injection Hinit as <-.
      unfold py_assert in Hassert.
      destruct (bool_decide (initial sel = None)) eqn:Hnone; [|discriminate].
      apply bool_decide_eq_true in Hnone. simpl. auto.
    - injection Hinit as <-. auto. }
  destruct Hsel1 as (Hname & Hmux & Hchoices & Hinitial).
  destruct (List.filter _ sigs) as [|dup [|]]; try discriminate.
  apply rbind_ok in Hmerge as ([] & _ & Hmerge).
  apply rbind_ok in Hmerge as ([] & _ & Hmerge).
  apply rbind_ok in Hmerge as (sel2 & Hupdate & Hmerge). injection Hmerge as <- _.
  exists dup. split; [reflexivity|].
  destruct (choices dup) as [c|].
  - rewrite Hchoices in Hupdate. simpl in Hupdate. injection Hupdate as <-. simpl.
    destruct flag; intuition congruence.
  - injection Hupdate as <-. destruct flag; intuition congruence.
Qed.

(** The loop over the alternatives. *)
Lemma load_dynalts_selector load_pdu ld frame_name selector_pos selector_len dynalts :
  forall idx sel sigs idx' sel' sigs' table,
    outcome (for_each dynalts (idx, sel, sigs)
               (load_dynalt load_pdu ld frame_name selector_pos selector_len))
    = OK (idx', sel', sigs') ->
    choices sel = Some table ->
    exists alts,
      Forall2 (reads_alternative load_pdu ld frame_name selector_pos) dynalts alts
      /\ name sel' = name sel
      /\ is_multiplexer sel' = is_multiplexer sel
      /\ choices sel' = Some (merged_choices alts table)
      /\ match initial sel with
         | None =>
             match flagged alts with
             | [] => initial sel' = None
             | [alt] => initial sel' = Some (InitNum (PyInt (alt_value alt)))
             | _ :: _ :: _ => False
             end
         | Some x => flagged alts = [] /\ initial sel' = Some x
         end.
Proof.
  induction dynalts as [|dynalt dynalts IH];
    intros idx sel sigs idx' sel' sigs' table Hrun Htable.
  - injection Hrun as <- <- <-. exists []. split; [constructor|].
    repeat split; try assumption. destruct (initial sel); simpl; auto.
  - cbn [for_each] in Hrun.
    apply outcome_bind_ok in Hrun as ([[idx1 sel1] sigs1] & Hstep & Hrun).
    unfold load_dynalt in Hstep.
    apply outcome_bind_ok in Hstep as (v & Hv & Hstep).
    apply outcome_bind_ok in Hstep as (dynalt_pdu & Hpdu & Hstep).
    apply outcome_bind_ok in Hstep as ([[[idx2 bl] dsigs] ct] & Hload & Hstep).
    apply outcome_bind_ok in Hstep as (flag & Hflag & Hstep).
    apply outcome_bind_ok in Hstep as ([sel2 dsigs'] & Hmerge & Hstep).
    injection Hstep as <- <- <-. rewrite outcome_lift in Hmerge.
    destruct (merge_dynalt_selector _ _ _ _ _ _ _ _ _ Hmerge Htable)
      as (dup & Hdup & Hname & Hmux & Hchoices & Hinitial).
    destruct (IH _ _ _ _ _ _ _ Hrun Hchoices)
      as (alts & Hreads & Hname' & Hmux' & Hchoices' & Hinitial').
    exists (mkAlternative v flag (choices dup) :: alts).
    split.
    { constructor; [|exact Hreads].
      split; [exact Hv|]. split; [exact Hflag|].
      exists dynalt_pdu, idx, idx2, bl, dsigs, ct, dup. auto. }
    split; [congruence|]. split; [congruence|]. split; [exact Hchoices'|].
    unfold flagged in *. cbn [List.filter alt_initial].
    destruct flag.
    + destruct Hinitial as [Hnone Hset]. rewrite Hnone. rewrite Hset in Hinitial'.
      destruct Hinitial' as [-> ->]. reflexivity.
    + rewrite Hinitial in Hinitial'. exact Hinitial'.
Qed.

(** The loop over the static parts leaves the selector signal alone. *)
Lemma load_statics_selector load_pdu frame_name static_pdus :
  forall idx sel sigs idx' sel' sigs',
    outcome (for_each static_pdus (idx, sel, sigs) (load_static load_pdu frame_name))
    = OK (idx', sel', sigs') ->
    sel' = sel.
Proof.
  induction static_pdus as [|static_pdu static_pdus IH];
    intros idx sel sigs idx' sel' sigs' Hrun.
  - injection Hrun as _ <- _. reflexivity.
  - cbn [for_each] in Hrun.
    apply outcome_bind_ok in Hrun as ([[idx1 sel1] sigs1] & Hstep & Hrun).
    unfold load_static in Hstep.
    apply outcome_bind_ok in Hstep as ([[[idx2 bl] ssigs] ct] & _ & Hstep).
    injection Hstep as _ <- _. eapply IH. exact Hrun.
Qed.

(** With one choice per alternative, under pairwise distinct keys, the
    merged table grows by one entry per alternative. *)
Lemma merged_choices_size (alts : list Alternative) (keys : list Z) :
  Forall2 (fun alt k => exists v, alt_choices alt = Some {[k := v]}) alts keys ->
  NoDup keys ->
  forall table,
    (forall k, k ∈ keys -> table !! k = None) ->
    size (merged_choices alts table) = (size table + List.length alts)%nat.
Proof.
  induction 1 as [|alt k alts keys [v Hv] _ IH]; intros Hnd table Hfree.
  - simpl. lia.
  - apply NoDup_cons in Hnd as [Hk Hnd].
    cbn [merged_choices fold_left]. rewrite Hv.
    change (fold_left _ alts ?t) with (merged_choices alts t).
    unfold dict_update. rewrite <- insert_union_singleton_l.
    rewrite IH; [|assumption|].
    + rewrite map_size_insert_None by (apply Hfree; apply elem_of_cons; auto).
      simpl. lia.
    + intros k' Hk'. rewrite lookup_insert_ne by (intros ->; contradiction).
      apply Hfree. apply elem_of_cons. auto.
Qed.

(** Two positions that are flagged make two flagged alternatives. *)
Lemma flagged_twice (alts : list Alternative) (i j : nat) (a b : Alternative) :
  (i < j)%nat -> alts !! i = Some a -> alts !! j = Some b ->
  alt_initial a = true -> alt_initial b = true ->
  exists x y rest, flagged alts = x :: y :: rest.
Proof.
  intros Hij Ha Hb Hfa Hfb.
  rewrite <- (take_drop_middle alts i a Ha). unfold flagged.
  assert (Hb' : drop (S i) alts !! (j - S i)%nat = Some b).
  { rewrite lookup_drop. rewrite <- Hb. f_equal. lia. }
  rewrite <- (take_drop_middle _ _ b Hb').
  rewrite List.filter_app. cbn [List.filter]. rewrite Hfa.
  rewrite List.filter_app. cbn [List.filter]. rewrite Hfb.
  destruct (List.filter alt_initial (take i alts)) as [|x [|y l]]; simpl.
  - destruct (List.filter alt_initial (take _ (drop _ alts))); simpl; eauto.
  - destruct (List.filter alt_initial (take _ (drop _ alts))); simpl; eauto.
  - eauto.
Qed.

End Selector.

Section SelectorTheorem.
Context `{PyNumerics}.

(** C3, as the code has it. When the decomposition of a multiplexed PDU
    returns, its result starts with the selector signal synthesized for
    this PDU, named after the frame and the counter.  The choices of the
    selector are the choices of the duplicates of the selector signal, one
    per alternative, merged in the order of the alternatives: the table has
    one entry per alternative when each duplicate carries one choice and
    the keys are pairwise distinct, and fewer otherwise.  The initial value
    of the selector is set if and only if exactly one alternative is
    flagged initial, and then to the selector value of that alternative.
    When two alternatives are flagged initial the decomposition does not
    return. *)
Theorem multiplexer_selector :
  (forall load_pdu ld pdu frame_name idx sigs,
      outcome (_load_pdu_multiplexed_parts load_pdu ld pdu frame_name idx) = OK sigs ->
      exists selector_pos selector_len dynalts alts sel rest,
        outcome (selector_field ld pdu) = OK (selector_pos, selector_len)
        /\ outcome (_get_arxml_children ld pdu (dynpart_spec ld)) = OK dynalts
        /\ Forall2 (reads_alternative load_pdu ld frame_name selector_pos) dynalts alts
        /\ sigs = sel :: rest
        /\ name sel = Some (selector_name frame_name idx)
        /\ is_multiplexer sel = true
        /\ choices sel = Some (merged_choices alts ∅)
        /\ (forall keys,
               Forall2 (fun alt k => exists v, alt_choices alt = Some {[k := v]}) alts keys ->
               NoDup keys ->
               size (merged_choices alts ∅) = List.length dynalts)
        /\ match flagged alts with
           | [] => initial sel = None
           | [alt] => initial sel = Some (InitNum (PyInt (alt_value alt)))
           | _ :: _ :: _ => False
           end)
  /\ (forall load_pdu ld pdu frame_name idx dynalts (i j : nat) a b,
         outcome (_get_arxml_children ld pdu (dynpart_spec ld)) = OK dynalts ->
         (i < j)%nat -> dynalts !! i = Some a -> dynalts !! j = Some b ->
         outcome (dynalt_is_initial ld a) = OK true ->
         outcome (dynalt_is_initial ld b) = OK true ->
         forall sigs,
           outcome (_load_pdu_multiplexed_parts load_pdu ld pdu frame_name idx) <> OK sigs).
Proof.
  assert (Hmain : forall load_pdu ld pdu frame_name idx sigs,
      outcome (_load_pdu_multiplexed_parts load_pdu ld pdu frame_name idx) = OK sigs ->
      exists selector_pos selector_len dynalts alts sel rest,
        outcome (selector_field ld pdu) = OK (selector_pos, selector_len)
        /\ outcome (_get_arxml_children ld pdu (dynpart_spec ld)) = OK dynalts
        /\ Forall2 (reads_alternative load_pdu ld frame_name selector_pos) dynalts alts
        /\ sigs = sel :: rest
        /\ name sel = Some (selector_name frame_name idx)
        /\ is_multiplexer sel = true
        /\ choices sel = Some (merged_choices alts ∅)
        /\ match flagged alts with
           | [] => initial sel = None
           | [alt] => initial sel = Some (InitNum (PyInt (alt_value alt)))
           | _ :: _ :: _ => False
           end).
  { intros load_pdu ld pdu frame_name idx sigs Hrun.
    unfold _load_pdu_multiplexed_parts in Hrun.
    apply outcome_bind_ok in Hrun as ([selector_pos selector_len] & Hfield & Hrun).
    apply outcome_bind_ok in Hrun as (bo & _ & Hrun).
    apply outcome_bind_ok in Hrun as (byte_order & _ & Hrun).
    apply outcome_bind_ok in Hrun as (dynalts & Hdynalts & Hrun).
    apply outcome_bind_ok in Hrun as ([[idx1 sel1] sigs1] & Hdyn & Hrun).
    apply outcome_bind_ok in Hrun as (static_pdus & _ & Hrun).
    apply outcome_bind_ok in Hrun as ([[idx2 sel2] sigs2] & Hstatic & Hrun).
    injection Hrun as <-.
    apply load_statics_selector in Hstatic as ->.
    eapply load_dynalts_selector in Hdyn; [|reflexivity].
    destruct Hdyn as (alts & Hreads & Hname & Hmux & Hchoices & Hinitial).
    exists selector_pos, selector_len, dynalts, alts, sel1, sigs2.
    repeat (split; [assumption || reflexivity|]). exact Hinitial. }
  split.
  - intros load_pdu ld pdu frame_name idx sigs Hrun.
    destruct (Hmain _ _ _ _ _ _ Hrun)
      as (selector_pos & selector_len & dynalts & alts & sel & rest
          & Hfield & Hdynalts & Hreads & Hsigs & Hname & Hmux & Hchoices & Hinitial).
    exists selector_pos, selector_len, dynalts, alts, sel, rest.
    repeat (split; [assumption|]). split; [|exact Hinitial].
    intros keys Hkeys Hnd.
    rewrite (merged_choices_size alts keys Hkeys Hnd ∅)
      by (intros; apply lookup_empty).
    rewrite map_size_empty. apply Forall2_length in Hreads. simpl. congruence.
  - intros load_pdu ld pdu frame_name idx dynalts i j a b Hdynalts Hij Ha Hb Hfa Hfb
           sigs Hrun.
    destruct (Hmain _ _ _ _ _ _ Hrun)
      as (selector_pos & selector_len & dynalts' & alts & sel & rest
          & _ & Hdynalts' & Hreads & _ & _ & _ & _ & Hinitial).
    rewrite Hdynalts in Hdynalts'. injection Hdynalts' as <-.
    destruct (Forall2_lookup_l _ _ _ _ _ Hreads Ha) as (x & Hx & _ & Hxf & _).
    destruct (Forall2_lookup_l _ _ _ _ _ Hreads Hb) as (y & Hy & _ & Hyf & _).
    rewrite Hfa in Hxf. rewrite Hfb in Hyf. injection Hxf as Hxf. injection Hyf as Hyf.
    destruct (flagged_twice alts i j x y Hij Hx Hy) as (x' & y' & rest' & Hflagged);
      try congruence.
    rewrite Hflagged in Hinitial. exact Hinitial.
Qed.

End SelectorTheorem.

Lemma is_ok_inv {A} (r : result A) : is_ok r = true -> exists a, r = OK a.
Proof. destruct r; [eauto | discriminate]. Qed.

(** C3, as stated, fails: the multiplexed PDU of [one_alternative] has one
    alternative, and the choices of its selector signal have no entry. *)
Lemma selector_choices_not_one_per_alternative :
  ~ (forall (H : PyNumerics) load_pdu ld pdu frame_name idx sigs dynalts,
        outcome (_load_pdu_multiplexed_parts load_pdu ld pdu frame_name idx) = OK sigs ->
        outcome (_get_arxml_children ld pdu (dynpart_spec ld)) = OK dynalts ->
        exists sel rest table,
          sigs = sel :: rest
          /\ choices sel = Some table
          /\ size table = List.length dynalts).
Proof.
  intros Hclaim.
  assert (Hok : is_ok (sample_decomposition one_alternative) = true)
    by (vm_compute; reflexivity).
  assert (Hsize : selector_choices_size (sample_decomposition one_alternative) = Some O)
    by (vm_compute; reflexivity).
  assert (Hcount : count_of (sample_alternatives one_alternative) = Some 1%nat)
    by (vm_compute; reflexivity).
  apply is_ok_inv in Hok as [sigs Hrun]. rewrite Hrun in Hsize.
  destruct (sample_alternatives one_alternative) as [dynalts|e] eqn:Hdyn;
    [|discriminate Hcount].
  unfold sample_decomposition in Hrun. unfold sample_alternatives in Hdyn.
  destruct (Hclaim _ _ _ _ _ _ _ _ Hrun Hdyn)
    as (sel & rest & table & -> & Hchoices & Hsize').
  simpl in Hsize, Hcount. rewrite Hchoices in Hsize. simpl in Hsize. congruence.
Qed.

Lemma multiplexer_selector_witness :
  (exists sigs selector_pos selector_len dynalts
          (alts : list (@Alternative rational_numerics)) sel rest,
      sample_decomposition one_alternative = OK sigs
      /\ outcome (selector_field (loader_of one_alternative) (mux_of one_alternative))
         = OK (selector_pos, selector_len)
      /\ sample_alternatives one_alternative = OK dynalts
      /\ Forall2 (reads_alternative (_load_pdu 10 (loader_of one_alternative))
                    (loader_of one_alternative) (Some "F") selector_pos) dynalts alts
      /\ sigs = sel :: rest
      /\ name sel = Some "F_selector1"
      /\ is_multiplexer sel = true
      /\ choices sel = Some (merged_choices alts ∅))
  /\ (forall sigs, sample_decomposition two_initial_alternatives <> OK sigs).
Proof.
  destruct (multiplexer_selector (H := rational_numerics)) as [Hsel Htwice].
  unfold sample_decomposition, sample_alternatives.
  split.
  - assert (Hok : is_ok (sample_decomposition one_alternative) = true)
      by (vm_compute; reflexivity).
    apply is_ok_inv in Hok as [sigs Hrun]. unfold sample_decomposition in Hrun.
    destruct (Hsel (_load_pdu 10 (loader_of one_alternative)) (loader_of one_alternative)
                   (mux_of one_alternative) (Some "F") 1 sigs Hrun)
      as (selector_pos & selector_len & dynalts & alts & sel & rest
          & Hfield & Hdynalts & Hreads & Hsigs & Hname & Hmux & Hchoices & _).
    exists sigs, selector_pos, selector_len, dynalts, alts, sel, rest.
    split; [exact Hrun|]. split; [exact Hfield|]. split; [exact Hdynalts|].
    split; [exact Hreads|]. split; [exact Hsigs|]. split; [exact Hname|].
    split; [exact Hmux | exact Hchoices].
  - assert (Hflags : initial_flags (loader_of two_initial_alternatives)
                       (sample_alternatives two_initial_alternatives)
                     = Some [OK true; OK true])
      by (vm_compute; reflexivity).
    unfold sample_alternatives in Hflags.
    destruct (outcome (_get_arxml_children (loader_of two_initial_alternatives)
                         (mux_of two_initial_alternatives)
                         (dynpart_spec (loader_of two_initial_alternatives))))
      as [dynalts|e] eqn:Hdyn; [|discriminate Hflags].
    destruct dynalts as [|a [|b [|c dynalts]]]; try discriminate Hflags.
    injection Hflags as Ha Hb.
    apply (Htwice (_load_pdu 10 (loader_of two_initial_alternatives))
                  (loader_of two_initial_alternatives) (mux_of two_initial_alternatives)
                  (Some "F") 1 [a; b] O (S O) a b Hdyn);
      [lia | reflexivity | reflexivity | exact Ha | exact Hb].
Defined.

(* ===================================================================== *)
(** * Mixed linear and text table scaling *)
(* ===================================================================== *)

Section MixedScaling.
Context `{PyNumerics}.

(** The loop reads the scales one by one and folds [scale_step] over what
    it reads. *)
Lemma scales_loop ld compu_scales :
  forall acc decimal acc' decimal',
    outcome (for_each compu_scales (acc, decimal)
               (fun compu_scale st =>
                  let '(acc, decimal) := st in
                  let* (sd, decimal) := read_compu_scale ld compu_scale decimal in
                  let* acc := lift (scale_step acc sd) in
                  ret (acc, decimal)))
    = OK (acc', decimal') ->
    exists sds, Forall2 (reads_scale ld) compu_scales sds /\ fold_scales acc sds = OK acc'.
Proof.
  induction compu_scales as [|compu_scale compu_scales IH];
    intros acc decimal acc' decimal' Hrun.
  - injection Hrun as <- <-. exists []. split; [constructor | reflexivity].
  - cbn [for_each] in Hrun.
    apply outcome_bind_ok in Hrun as ([acc1 decimal1] & Hstep & Hrun).
    apply outcome_bind_ok in Hstep as ([sd decimal2] & Hread & Hstep).
    apply outcome_bind_ok in Hstep as (acc2 & Hacc & Hstep).
    injection Hstep as <- <-. rewrite outcome_lift in Hacc.
    destruct (IH _ _ _ _ Hrun) as (sds & Hreads & Hfold).
    exists (sd :: sds). split.
    + constructor; [|exact Hreads]. exists decimal, decimal2. exact Hread.
    + cbn [fold_scales]. rewrite Hacc. exact Hfold.
Qed.

(** What one turn of the loop does to each accumulator. *)
Lemma scale_step_spec acc sd acc' :
  scale_step acc sd = OK acc' ->
  acc_factor acc' = match sd_coeffs sd with Some (f, _) => PyFloat f | None => acc_factor acc end
  /\ acc_offset acc' = match sd_coeffs sd with Some (_, o) => PyFloat o | None => acc_offset acc end
  /\ widen py_min sd (acc_minimum acc) (sd_lower sd) = OK (acc_minimum acc')
  /\ widen py_max sd (acc_maximum acc) (sd_upper sd) = OK (acc_maximum acc')
  /\ acc_choices acc' = named_entries [sd] (acc_choices acc)
  /\ (forall vt, sd_vt sd = Some vt ->
        exists v, sd_lower sd = Some v /\ sd_upper sd = Some v).
Proof.
  unfold scale_step. intros Hstep.
  apply rbind_ok in Hstep as (mn & Hmn & Hstep).
  apply rbind_ok in Hstep as (mx & Hmx & Hstep).
  unfold named_entries. cbn [fold_left].
  destruct (sd_vt sd) as [vt|].
  - destruct (sd_lower sd) as [v|]; [|discriminate].
    apply rbind_ok in Hstep as ([] & Hassert & Hstep). injection Hstep as <-.
    unfold py_assert in Hassert.
    destruct (bool_decide (sd_upper sd = Some v)) eqn:Hup; [|discriminate].
    apply bool_decide_eq_true in Hup. simpl. repeat split; try assumption.
    intros vt' _. eauto.
  - injection Hstep as <-. simpl. repeat split; try assumption. discriminate.
Qed.

Lemma last_linear_from (sds : list ScaleData) (found : option (pyfloat * pyfloat)) :
  fold_left (fun found sd =>
               match sd_coeffs sd with Some c => Some c | None => found end) sds found
  = match last_linear sds with Some c => Some c | None => found end.
Proof.
  unfold last_linear. revert found.
  induction sds as [|sd sds IH] using rev_ind; intros found; [reflexivity|].
  rewrite !fold_left_app. cbn [fold_left].
  destruct (sd_coeffs sd); [reflexivity|]. apply IH.
Qed.

(** The bound after a turn, in terms of the physical value of the limit. *)
Lemma widen_aggregate pick sd bound limit bound' vals :
  widen pick sd bound limit = OK bound' ->
  exists v',
    (if bool_decide (is_Some limit) then physical sd limit = OK v' else True)
    /\ aggregate pick bound' vals
       = aggregate pick bound (if bool_decide (is_Some limit) then v' :: vals else vals).
Proof.
  unfold widen. destruct bound as [b|], limit as [l|]; intros Hw.
  - apply rbind_ok in Hw as (v & Hv & Hw). injection Hw as <-.
    exists v. rewrite bool_decide_eq_true_2 by eauto. auto.
  - injection Hw as <-. exists b.
    rewrite bool_decide_eq_false_2 by (intros [? ?]; discriminate). auto.
  - apply rbind_ok in Hw as (v & Hv & Hw). injection Hw as <-.
    exists v. rewrite bool_decide_eq_true_2 by eauto. auto.
  - apply rbind_ok in Hw as (v & Hv & Hw). discriminate Hv.
Qed.

(** The loop, accumulator by accumulator. *)
Lemma fold_scales_spec (sds : list ScaleData) :
  forall acc acc',
    fold_scales acc sds = OK acc' ->
    acc_factor acc' = match last_linear sds with
                      | Some (f, _) => PyFloat f | None => acc_factor acc end
    /\ acc_offset acc' = match last_linear sds with
                         | Some (_, o) => PyFloat o | None => acc_offset acc end
    /\ acc_choices acc' = named_entries sds (acc_choices acc)
    /\ (forall sd vt, sd ∈ sds -> sd_vt sd = Some vt ->
          exists v, sd_lower sd = Some v /\ sd_upper sd = Some v)
    /\ (exists lows, physical_bounds sd_lower sds lows
                     /\ acc_minimum acc' = aggregate py_min (acc_minimum acc) lows)
    /\ (exists highs, physical_bounds sd_upper sds highs
                      /\ acc_maximum acc' = aggregate py_max (acc_maximum acc) highs).
Proof.
  induction sds as [|sd sds IH]; intros acc acc' Hfold.
  - injection Hfold as <-. repeat split.
    + intros sd vt Hsd. apply elem_of_nil in Hsd. tauto.
    + exists []. split; [constructor|]. destruct (acc_minimum acc); reflexivity.
    + exists []. split; [constructor|]. destruct (acc_maximum acc); reflexivity.
  - cbn [fold_scales] in Hfold. apply rbind_ok in Hfold as (acc1 & Hstep & Hfold).
    apply scale_step_spec in Hstep as (Hf & Ho & Hmn & Hmx & Hch & Hvt).
    destruct (IH _ _ Hfold) as (Hf' & Ho' & Hch' & Hvt' & (lows & Hlows & Hmn')
                                & (highs & Hhighs & Hmx')).
    unfold last_linear in *. cbn [fold_left].
    rewrite (last_linear_from sds (match sd_coeffs sd with Some c => Some c | None => None end)).
    unfold last_linear.
    split; [|split; [|split; [|split; [|split]]]].
    + rewrite Hf', Hf. destruct (fold_left _ sds None) as [[? ?]|]; [reflexivity|].
      destruct (sd_coeffs sd) as [[? ?]|]; reflexivity.
    + rewrite Ho', Ho. destruct (fold_left _ sds None) as [[? ?]|]; [reflexivity|].
      destruct (sd_coeffs sd) as [[? ?]|]; reflexivity.
    + rewrite Hch', Hch. reflexivity.
    + intros sd' vt Hsd' Hnamed. apply elem_of_cons in Hsd' as [->|Hsd']; eauto.
    + destruct (widen_aggregate _ _ _ _ _ lows Hmn) as (v & Hv & Hagg).
      unfold physical_bounds. cbn [List.filter].
      destruct (bool_decide (is_Some (sd_lower sd))).
      * exists (v :: lows). split; [constructor; assumption|]. congruence.
      * exists lows. split; [assumption|]. congruence.
    + destruct (widen_aggregate _ _ _ _ _ highs Hmx) as (v & Hv & Hagg).
      unfold physical_bounds. cbn [List.filter].
      destruct (bool_decide (is_Some (sd_upper sd))).
      * exists (v :: highs). split; [constructor; assumption|]. congruence.
      * exists highs. split; [assumption|]. congruence.
Qed.

(** A named scale leaves an entry under its value, whatever follows. *)
Lemma named_entries_present (sds : list ScaleData) :
  forall table sd vt v,
    sd ∈ sds -> sd_vt sd = Some vt -> sd_lower sd = Some v ->
    exists entry, named_entries sds table !! v = Some entry /\ nsv_value entry = v.
Proof.
  assert (Hkeep : forall sds table v entry,
             table !! v = Some entry -> nsv_value entry = v ->
             exists entry', named_entries sds table !! v = Some entry'
                            /\ nsv_value entry' = v).
  { clear sds. induction sds as [|sd sds IH]; intros table v entry Hentry Hvalue.
    - eauto.
    - unfold named_entries. cbn [fold_left].
      change (fold_left _ sds ?t) with (named_entries sds t).
      destruct (sd_vt sd) as [vt|]; [|eauto]. destruct (sd_lower sd) as [w|]; [|eauto].
      destruct (decide (w = v)) as [->|Hne].
      + eapply IH; [apply lookup_insert_eq | reflexivity].
      + eapply IH; [rewrite lookup_insert_ne by assumption; eassumption | assumption]. }
  induction sds as [|sd0 sds IH]; intros table sd vt v Hsd Hvt Hlow.
  - apply elem_of_nil in Hsd. tauto.
  - unfold named_entries. cbn [fold_left].
    change (fold_left _ sds ?t) with (named_entries sds t).
    apply elem_of_cons in Hsd as [<-|Hsd].
    + rewrite Hvt, Hlow. eapply Hkeep; [apply lookup_insert_eq | reflexivity].
    + eapply IH; eassumption.
Qed.

(** C8. For a COMPU-METHOD of category SCALE_LINEAR_AND_TEXTTABLE whose
    loading returns: every named scale is a single point and has an entry
    in the choices under its value, the choices being the entries of the
    named scales in document order; the factor and the offset are those of
    the last scale that carries linear coefficients (1 and 0 when no scale
    does); and the minimum and the maximum are [min] and [max] folded over
    the physical lower and upper limits of all the scales that have one. *)
Theorem scale_linear_and_texttable_spec :
  forall ld compu_method decimal is_float mn mx factor offset table decimal',
    outcome (_load_scale_linear_and_texttable ld compu_method decimal is_float)
    = OK (mn, mx, factor, offset, table, decimal') ->
    exists compu_scales sds lows highs,
      outcome (_get_arxml_children ld compu_method compu_scales_location) = OK compu_scales
      /\ Forall2 (reads_scale ld) compu_scales sds
      /\ table = named_entries sds ∅
      /\ (forall sd vt,
             sd ∈ sds -> sd_vt sd = Some vt ->
             exists v entry,
               sd_lower sd = Some v /\ sd_upper sd = Some v
               /\ table !! v = Some entry /\ nsv_value entry = v)
      /\ match last_linear sds with
         | Some (f, o) => factor = PyFloat f /\ offset = PyFloat o
         | None => factor = PyInt 1 /\ offset = PyInt 0
         end
      /\ physical_bounds sd_lower sds lows /\ mn = aggregate py_min None lows
      /\ physical_bounds sd_upper sds highs /\ mx = aggregate py_max None highs.
Proof.
  intros ld compu_method decimal is_float mn mx factor offset table decimal' Hrun.
  unfold _load_scale_linear_and_texttable in Hrun.
  apply outcome_bind_ok in Hrun as (compu_scales & Hscales & Hrun).
  apply outcome_bind_ok in Hrun as ([acc decimal1] & Hloop & Hrun).
  apply outcome_bind_ok in Hrun as (dmin & _ & Hrun).
  apply outcome_bind_ok in Hrun as (dmax & _ & Hrun).
  injection Hrun as <- <- <- <- <- _.
  apply scales_loop in Hloop as (sds & Hreads & Hfold).
  apply fold_scales_spec in Hfold
    as (Hf & Ho & Hch & Hvt & (lows & Hlows & Hmn) & (highs & Hhighs & Hmx)).
  cbn [acc_factor acc_offset acc_choices acc_minimum acc_maximum] in *.
  exists compu_scales, sds, lows, highs.
  split; [exact Hscales|]. split; [exact Hreads|]. split; [exact Hch|].
  split.
  { intros sd vt Hsd Hnamed. destruct (Hvt sd vt Hsd Hnamed) as (v & Hlow & Hup).
    destruct (named_entries_present sds ∅ sd vt v Hsd Hnamed Hlow) as (entry & He & Hv).
    exists v, entry. rewrite Hch. auto. }
  split.
  { destruct (last_linear sds) as [[f o]|]; auto. }
  auto.
Qed.

End MixedScaling.

Lemma scale_linear_and_texttable_spec_witness :
  mixed_scaling_numbers = Some (4%Q, 3%Q, Some 1%Q, Some 255%Q, [255])
  /\ exists mn mx factor offset table decimal' compu_scales
            (sds : list (@ScaleData rational_numerics)) lows highs,
      mixed_scaling_run = OK (mn, mx, factor, offset, table, decimal')
      /\ Forall2 (reads_scale (loader_of mixed_scaling)) compu_scales sds
      /\ table = named_entries sds ∅
      /\ match last_linear sds with
         | Some (f, o) => factor = PyFloat f /\ offset = PyFloat o
         | None => factor = PyInt 1 /\ offset = PyInt 0
         end
      /\ physical_bounds sd_lower sds lows /\ mn = aggregate py_min None lows
      /\ physical_bounds sd_upper sds highs /\ mx = aggregate py_max None highs.
Proof.
  split; [vm_compute; reflexivity|].
  assert (Hok : is_ok mixed_scaling_run = true) by (vm_compute; reflexivity).
  apply is_ok_inv in Hok as [[[[[[mn mx] factor] offset] table] decimal'] Hrun].
  pose proof Hrun as Hrun'. unfold mixed_scaling_run in Hrun'.
  destruct (scale_linear_and_texttable_spec _ _ _ _ _ _ _ _ _ _ Hrun')
    as (compu_scales & sds & lows & highs & _ & Hreads & Htable & _ & Hlast
        & Hlows & Hmn & Hhighs & Hmx).
  exists mn, mx, factor, offset, table, decimal', compu_scales, sds, lows, highs.
  split; [exact Hrun|]. split; [exact Hreads|]. split; [exact Htable|].
  split; [exact Hlast|]. split; [exact Hlows|]. split; [exact Hmn|].
  split; [exact Hhighs | exact Hmx].
Defined.

(* ===================================================================== *)
(** * Further properties: versions *)
(* ===================================================================== *)

(** X1. [autosar_version_newer] is the lexicographic order on version
    triples: with all three components given it holds exactly when the
    detected triple is at least the queried one; with the patch omitted it
    compares major and minor only; and with the minor omitted the patch
    argument is not looked at. *)
Theorem autosar_version_newer_lexicographic :
  forall (v : AutosarVersion) (major minor patch : Z),
    (autosar_version_newer v major (Some minor) (Some patch) = true <->
       autosar_version_major v > major
       \/ (autosar_version_major v = major
           /\ (autosar_version_minor v > minor
               \/ (autosar_version_minor v = minor
                   /\ autosar_version_patch v >= patch))))
    /\ (autosar_version_newer v major (Some minor) None = true <->
          autosar_version_major v > major
          \/ (autosar_version_major v = major /\ autosar_version_minor v >= minor))
    /\ autosar_version_newer v major None (Some patch)
       = autosar_version_newer v major None None
    /\ autosar_version_newer v (autosar_version_major v)
         (Some (autosar_version_minor v)) (Some (autosar_version_patch v)) = true.
Proof.
  intros [a b c] major minor patch. unfold autosar_version_newer. simpl.
  repeat split;
    repeat match goal with
           | |- context [?x >? ?y] => destruct (Z.gtb_spec x y)
           | |- context [?x <? ?y] => destruct (Z.ltb_spec x y)
           end; try reflexivity; try discriminate; try lia; intros; lia.
Qed.

Lemma take_drop_chars (n : nat) (s : string) :
  take_chars n s +:+ drop_chars n s = s.
Proof.
  revert s. induction n as [|n IH]; intros [|c s]; try reflexivity.
  cbn [take_chars drop_chars]. change (String c (take_chars n s +:+ drop_chars n s) = String c s).
  f_equal. apply IH.
Qed.

Lemma strip_suffix_split (p s g : string) :
  strip_suffix p s = Some g -> s = g +:+ p.
Proof.
  unfold strip_suffix, py_endswith.
  destruct (_ <=? _)%nat; [|discriminate]. cbn [andb].
  destruct (String.eqb_spec (drop_chars (String.length s - String.length p) s) p)
    as [Hp|]; [|discriminate].
  intros [= <-].
  rewrite <- (take_drop_chars (String.length s - String.length p) s) at 1.
  rewrite Hp. reflexivity.
Qed.

Lemma match_root_tag_shape (t ns : string) :
  match_root_tag t = Some ns -> chomp t = qname ns "AUTOSAR".
Proof.
  unfold match_root_tag.
  destruct (strip_prefix "{" (chomp t)) as [r|] eqn:Hr; [|discriminate].
  destruct (strip_suffix "}AUTOSAR" r) as [g|] eqn:Hg; [|discriminate].
  destruct (all_chars _ g); [|discriminate].
  intros [= <-]. apply strip_prefix_split in Hr. apply strip_suffix_split in Hg.
  rewrite Hr, Hg. reflexivity.
Qed.

Lemma detect_version_supported (root_tag ns : string) (v : AutosarVersion) :
  detect_version root_tag = OK (ns, v) ->
  match_root_tag root_tag = Some ns
  /\ (autosar_version_major v = 4 \/ autosar_version_major v = 3).
Proof.
  unfold detect_version.
  destruct (match_root_tag root_tag) as [ns'|]; [|discriminate].
  intros Hdetect.
  apply rbind_ok in Hdetect as (vs & _ & Hdetect).
  destruct (match_version vs) as [[[g1 g2] g3]|]; [|discriminate].
  apply rbind_ok in Hdetect as (major & _ & Hdetect).
  apply rbind_ok in Hdetect as (minor & _ & Hdetect).
  apply rbind_ok in Hdetect as (patch & _ & Hdetect).
  destruct (Z.eqb_spec major 4) as [->|]; cbn [negb andb] in Hdetect.
  - injection Hdetect as <- <-. auto.
  - destruct (Z.eqb_spec major 3) as [->|]; cbn [negb] in Hdetect; [|discriminate].
    injection Hdetect as <- <-. auto.
Qed.

(** X2. A loader that [SystemLoader.__init__] has built is for AUTOSAR 3
    or for AUTOSAR 4, and [autosar_version_newer(4)], by which the loader
    chooses between the two layouts everywhere, tells which; the root tag
    is the name [AUTOSAR] in the namespace the loader has recorded (up to
    a final newline). *)
Theorem loader_is_autosar_3_or_4 :
  forall (root : Element) (strict : bool) (ld : SystemLoader),
    SystemLoader_init root strict = OK ld ->
    _root ld = root /\ _strict ld = strict
    /\ chomp (tag root) = qname (xml_namespace ld) "AUTOSAR"
    /\ (is_ar4 ld = true /\ autosar_version_major (autosar_version ld) = 4
        \/ is_ar4 ld = false /\ autosar_version_major (autosar_version ld) = 3).
Proof.
  intros root strict ld Hinit. unfold SystemLoader_init in Hinit.
  apply rbind_ok in Hinit as ([ns v] & Hv & Hinit).
  apply rbind_ok in Hinit as (d & _ & Hinit). injection Hinit as <-.
  apply detect_version_supported in Hv as [Htag Hmajor].
  cbn [_root _strict xml_namespace autosar_version].
  split; [reflexivity|]. split; [reflexivity|].
  split; [apply match_root_tag_shape; assumption|].
  unfold is_ar4, autosar_version_newer. cbn [autosar_version].
  destruct Hmajor as [-> | ->]; [left | right]; split; reflexivity.
Qed.

Lemma loader_is_autosar_3_or_4_witness :
  exists ld,
    SystemLoader_init (fromstring one_package) true = OK ld
    /\ _root ld = fromstring one_package /\ _strict ld = true
    /\ chomp (tag (fromstring one_package)) = qname (xml_namespace ld) "AUTOSAR"
    /\ (is_ar4 ld = true /\ autosar_version_major (autosar_version ld) = 4
        \/ is_ar4 ld = false /\ autosar_version_major (autosar_version ld) = 3).
Proof.
  destruct (SystemLoader_init (fromstring one_package) true) as [ld|e] eqn:Hinit.
  - exists ld. split; [reflexivity|].
    apply (loader_is_autosar_3_or_4 (fromstring one_package) true ld Hinit).
  - vm_compute in Hinit. discriminate Hinit.
Defined.

(* ===================================================================== *)
(** * Further properties: the reference index *)
(* ===================================================================== *)

Lemma elem_of_flat_map {A B} (f : A -> list B) (l : list A) (x : B) :
  x ∈ flat_map f l <-> exists y, y ∈ l /\ x ∈ f y.
Proof.
  rewrite list_elem_of_In, in_flat_map. split; intros (y & Hy & Hx); exists y.
  - rewrite !list_elem_of_In. auto.
  - rewrite <- !list_elem_of_In. auto.
Qed.

Lemma children_nodes (e c : Element) : c ∈ children e -> c ∈ nodes e.
Proof.
  intros Hc. rewrite nodes_unfold. apply elem_of_cons. right.
  apply elem_of_flat_map. exists c. split; [assumption|].
  rewrite nodes_unfold. apply elem_of_cons. auto.
Qed.

Lemma nodes_trans (e n m : Element) : n ∈ nodes e -> m ∈ nodes n -> m ∈ nodes e.
Proof.
  revert n m. induction e as [i t a tx cs tl IH] using Element_children_ind.
  intros n m Hn Hm. rewrite nodes_unfold in Hn. apply elem_of_cons in Hn as [->|Hn];
    [assumption|].
  rewrite nodes_unfold. apply elem_of_cons. right. cbn [children] in *.
  apply elem_of_flat_map in Hn as (c & Hc & Hn).
  apply elem_of_flat_map. exists c. split; [assumption|].
  rewrite Forall_forall in IH. apply (IH c Hc n m); assumption.
Qed.

Lemma nodes_children_closed (e n c : Element) :
  n ∈ nodes e -> c ∈ children n -> c ∈ nodes e.
Proof. intros Hn Hc. eapply nodes_trans; [eassumption|]. apply children_nodes, Hc. Qed.

(** The loop over the children touches the paths of the elements below
    the children only. *)
Lemma over_children_untouched ns p c (cs : list Element) :
  forall d d',
    NoDup (eid <$> flat_map nodes cs) ->
    over_children (fun child => add_sub_references ns child p c) cs d = OK d' ->
    forall i, i ∉ eid <$> flat_map nodes cs ->
              _node_to_arxml_path d' !! i = _node_to_arxml_path d !! i.
Proof.
  induction cs as [|child cs IH]; intros d d' Hnd H i Hi.
  - injection H as <-. reflexivity.
  - cbn [over_children] in H. apply rbind_ok in H as (d1 & Hchild & H).
    cbn [flat_map] in *. rewrite fmap_app in *.
    apply NoDup_app in Hnd as (Hnd1 & _ & Hnd2).
    apply not_elem_of_app in Hi as [Hi1 Hi2].
    rewrite (IH d1 d' Hnd2 H i Hi2).
    apply (add_sub_references_indexed ns child p c d d1 Hnd1) in Hchild.
    apply (untouched _ _ _ _ Hchild). assumption.
Qed.

(** The traversal of an element leaves the paths in the shape of the
    tree. *)
Lemma add_sub_references_settled ns (elem : Element) :
  forall elem_path cur d d',
    NoDup (ids elem) ->
    add_sub_references ns elem elem_path cur d = OK d' ->
    _node_to_arxml_path d' !! eid elem = Some (path_below ns elem_path elem)
    /\ settled ns (nodes elem) d'.
Proof.
  induction elem as [i t a tx cs tl IH] using Element_children_ind.
  intros elem_path cur d d' Hnd H. rewrite add_sub_references_unfold in H.
  apply rbind_ok in H as ([[p c] d1] & Hreg & H). cbn [children] in H.
  apply register_element_paths in Hreg as [Hn2p Hp].
  unfold ids in Hnd. rewrite nodes_unfold in Hnd. cbn [children] in Hnd.
  change (map eid ?l) with (eid <$> l) in Hnd. rewrite fmap_cons in Hnd.
  apply NoDup_cons in Hnd as [Hself Hnd]. cbn [eid] in Hself.
  pose proof Hnd as Hnd0.
  assert (Hloop : Forall (fun child =>
                            _node_to_arxml_path d' !! eid child
                            = Some (path_below ns p child)
                            /\ settled ns (nodes child) d') cs).
  { clear Hn2p Hp Hself Hnd0. revert d1 H Hnd.
    induction IH as [|child cs Hchild _ IHcs]; intros d1 H Hnd; [constructor|].
    cbn [over_children] in H. apply rbind_ok in H as (d2 & Hc & H).
    cbn [flat_map] in Hnd. rewrite fmap_app in Hnd.
    pose proof Hnd as Hnd'. apply NoDup_app in Hnd' as (Hnd1 & Hdisj & Hnd2).
    constructor; [|eapply IHcs; eassumption].
    destruct (Hchild p c d1 d2 Hnd1 Hc) as [Hroot Hsettled].
    assert (Hstay : forall n, n ∈ nodes child ->
              _node_to_arxml_path d' !! eid n = _node_to_arxml_path d2 !! eid n).
    { intros n Hn. apply (over_children_untouched ns p c cs d2 d' Hnd2 H).
      apply Hdisj, list_elem_of_fmap. eauto. }
    split.
    - rewrite Hstay; [assumption|]. rewrite nodes_unfold. apply elem_of_cons. auto.
    - intros e x q He Hx Hq. rewrite Hstay in Hq by assumption.
      rewrite Hstay by (eapply nodes_children_closed; eassumption).
      eapply Hsettled; eassumption. }
  assert (Hroot : _node_to_arxml_path d' !! eid (mkElement i t a tx cs tl) = Some p).
  { rewrite (over_children_untouched ns p c cs d1 d' Hnd0 H) by assumption.
    rewrite Hn2p. apply lookup_insert_eq. }
  assert (Hpath : p = path_below ns elem_path (mkElement i t a tx cs tl)).
  { unfold path_below. destruct (find_child _ _); tauto. }
  split; [rewrite Hroot, Hpath; reflexivity|].
  intros e x q He Hx Hq. rewrite nodes_unfold in He. cbn [children] in He.
  rewrite Forall_forall in Hloop.
  apply elem_of_cons in He as [->|He].
  - cbn [children] in Hx. rewrite Hroot in Hq. injection Hq as <-.
    apply Hloop. assumption.
  - apply elem_of_flat_map in He as (child & Hchild & He).
    destruct (Hloop child Hchild) as [_ Hsettled].
    apply (Hsettled e x q); assumption.
Qed.

Lemma rooted_below ns p e : rooted p -> rooted (path_below ns p e).
Proof.
  unfold path_below. destruct (find_child _ e) as [sn|]; [|tauto].
  intros [-> | Hp]; right; [reflexivity|].
  destruct p as [|a p]; [reflexivity|]. exact Hp.
Qed.

(** In settled dictionaries the paths below an element with a rooted path
    are rooted. *)
Lemma settled_rooted ns d (elem : Element) :
  forall N q,
    settled ns N d -> (forall n, n ∈ nodes elem -> n ∈ N) ->
    _node_to_arxml_path d !! eid elem = Some q -> rooted q ->
    forall n p, n ∈ nodes elem -> _node_to_arxml_path d !! eid n = Some p -> rooted p.
Proof.
  induction elem as [i t a tx cs tl IH] using Element_children_ind.
  intros N q Hsettled Hsub Hq Hrooted n p Hn Hp.
  rewrite nodes_unfold in Hn. cbn [children] in Hn.
  apply elem_of_cons in Hn as [->|Hn]; [congruence|].
  apply elem_of_flat_map in Hn as (child & Hchild & Hn).
  rewrite Forall_forall in IH.
  apply (IH child Hchild N (path_below ns q child)) with (n := n); try assumption.
  - intros m Hm. apply Hsub. eapply nodes_trans; [|eassumption].
    apply children_nodes. assumption.
  - apply (Hsettled (mkElement i t a tx cs tl) child q); try assumption.
    apply Hsub. rewrite nodes_unfold. apply elem_of_cons. auto.
  - apply rooted_below. assumption.
Qed.

(** The paths of a loaded document are settled. *)
Lemma loader_settled (doc : Xml) (strict : bool) (ld : SystemLoader) :
  SystemLoader_init (fromstring doc) strict = OK ld ->
  _node_to_arxml_path (dicts ld) !! eid (fromstring doc)
  = Some (path_below (xml_namespace ld) "" (fromstring doc))
  /\ settled (xml_namespace ld) (nodes (fromstring doc)) (dicts ld).
Proof.
  intros Hinit. unfold SystemLoader_init in Hinit.
  apply rbind_ok in Hinit as ([ns v] & _ & Hinit).
  apply rbind_ok in Hinit as (d & Hd & Hinit). injection Hinit as <-.
  cbn [dicts xml_namespace].
  exact (add_sub_references_settled ns _ _ _ _ _ (fromstring_ids_NoDup doc) Hd).
Qed.

Lemma loader_rooted (doc : Xml) (strict : bool) (ld : SystemLoader) n p :
  SystemLoader_init (fromstring doc) strict = OK ld ->
  n ∈ nodes (fromstring doc) ->
  _node_to_arxml_path (dicts ld) !! eid n = Some p -> rooted p.
Proof.
  intros Hinit Hn Hp. destruct (loader_settled doc strict ld Hinit) as [Hroot Hsettled].
  apply (settled_rooted (xml_namespace ld) (dicts ld) (fromstring doc) _ _ Hsettled
           (fun n H => H) Hroot) with (n := n); try assumption.
  apply rooted_below. left. reflexivity.
Qed.

(** X3. The index gives every element the path the tree of the document
    dictates: the root has its own short name after a slash, or the empty
    path when it has none; a child has the path of its parent, followed by
    a slash and its short name when it has one.  Every path is empty or
    starts with a slash. *)
Theorem index_paths_follow_the_tree :
  forall (doc : Xml) (strict : bool) (ld : SystemLoader),
    SystemLoader_init (fromstring doc) strict = OK ld ->
    _node_to_arxml_path (dicts ld) !! eid (fromstring doc)
    = Some (path_below (xml_namespace ld) "" (fromstring doc))
    /\ (forall e c p,
           e ∈ nodes (fromstring doc) -> c ∈ children e ->
           _node_to_arxml_path (dicts ld) !! eid e = Some p ->
           _node_to_arxml_path (dicts ld) !! eid c
           = Some (path_below (xml_namespace ld) p c))
    /\ (forall n p,
           n ∈ nodes (fromstring doc) ->
           _node_to_arxml_path (dicts ld) !! eid n = Some p -> rooted p).
Proof.
  intros doc strict ld Hinit.
  destruct (loader_settled doc strict ld Hinit) as [Hroot Hsettled].
  split; [exact Hroot|]. split; [exact Hsettled|].
  intros n p Hn Hp. eapply loader_rooted; eassumption.
Qed.

Lemma index_paths_follow_the_tree_witness :
  exists ld,
    SystemLoader_init (fromstring one_package) true = OK ld
    /\ _node_to_arxml_path (dicts ld) !! eid (fromstring one_package)
       = Some (path_below (xml_namespace ld) "" (fromstring one_package))
    /\ (forall e c p,
           e ∈ nodes (fromstring one_package) -> c ∈ children e ->
           _node_to_arxml_path (dicts ld) !! eid e = Some p ->
           _node_to_arxml_path (dicts ld) !! eid c
           = Some (path_below (xml_namespace ld) p c))
    /\ (forall n p,
           n ∈ nodes (fromstring one_package) ->
           _node_to_arxml_path (dicts ld) !! eid n = Some p -> rooted p).
Proof.
  destruct (SystemLoader_init (fromstring one_package) true) as [ld|e] eqn:Hinit.
  - exists ld. split; [reflexivity|].
    apply (index_paths_follow_the_tree one_package true ld Hinit).
  - vm_compute in Hinit. discriminate Hinit.
Defined.

Lemma named_path_starts_with_slash ns p e :
  rooted p -> named ns e -> py_startswith "/" (path_below ns p e) = true.
Proof.
  unfold named, path_below. intros Hp [sn ->].
  destruct Hp as [-> | Hp]; [reflexivity|].
  destruct p as [|a p]; [reflexivity | exact Hp].
Qed.

(** The path of a named element starts with a slash. *)
Lemma named_path_absolute (doc : Xml) (strict : bool) (ld : SystemLoader) n p :
  SystemLoader_init (fromstring doc) strict = OK ld ->
  n ∈ nodes (fromstring doc) -> named (xml_namespace ld) n ->
  _node_to_arxml_path (dicts ld) !! eid n = Some p ->
  py_startswith "/" p = true.
Proof.
  intros Hinit Hn Hnamed Hp.
  destruct (loader_settled doc strict ld Hinit) as (Hroot & Hchild).
  pose proof (fun n p => loader_rooted doc strict ld n p Hinit) as Hrooted.
  (* the element is the root or the child of an element *)
  assert (Hcase : n = fromstring doc
                  \/ exists e, e ∈ nodes (fromstring doc) /\ n ∈ children e).
  { clear -Hn. revert Hn. generalize (fromstring doc) as root.
    induction root as [i t a tx cs tl IH] using Element_children_ind.
    intros Hn. rewrite nodes_unfold in Hn. cbn [children] in Hn.
    apply elem_of_cons in Hn as [->|Hn]; [auto|]. right.
    apply elem_of_flat_map in Hn as (c & Hc & Hn).
    rewrite Forall_forall in IH. destruct (IH c Hc Hn) as [-> | (e & He & Hne)].
    - exists (mkElement i t a tx cs tl). split; [|assumption].
      rewrite nodes_unfold. apply elem_of_cons. auto.
    - exists e. split; [|assumption].
      eapply nodes_trans; [|eassumption].
      apply (children_nodes (mkElement i t a tx cs tl)). assumption. }
  destruct Hcase as [-> | (e & He & Hne)].
  - rewrite Hroot in Hp. injection Hp as <-.
    apply named_path_starts_with_slash; [left; reflexivity | assumption].
  - destruct (loader_indexed _ _ _ (fromstring_ids_NoDup doc) Hinit) as [_ [_ _ _ R]].
    destruct (R e He) as (q & Hq & _).
    rewrite (Hchild e n q He Hne Hq) in Hp. injection Hp as <-.
    apply named_path_starts_with_slash; [|assumption].
    eapply Hrooted; eassumption.
Qed.

(** X4. A reference that spells out the path of a named element of the
    document resolves to that element, whatever the element it is followed
    from and whatever the reference base named; when the reference also
    names the kind of element it expects ([DEST]), the element is returned
    if it is of that kind, and nothing (a dangling reference) if it is
    not. *)
Theorem absolute_reference_resolves :
  forall (doc : Xml) (strict : bool) (ld : SystemLoader) (n base_elem : Element)
         (p : string) (refbase_name : option string),
    SystemLoader_init (fromstring doc) strict = OK ld ->
    n ∈ nodes (fromstring doc) -> named (xml_namespace ld) n ->
    _node_to_arxml_path (dicts ld) !! eid n = Some p ->
    _follow_arxml_reference ld base_elem (Some p) None refbase_name = OK (Some n)
    /\ forall dest,
         _follow_arxml_reference ld base_elem (Some p) (Some dest) refbase_name
         = OK (if has_tag (ns_tag ld dest) n then Some n else None).
Proof.
  intros doc strict ld n base_elem p refbase_name Hinit Hn Hnamed Hp.
  pose proof (named_path_absolute doc strict ld n p Hinit Hn Hnamed Hp) as Habs.
  destruct (loader_indexed _ _ _ (fromstring_ids_NoDup doc) Hinit) as [_ [_ _ _ R]].
  destruct (R n Hn) as (q & Hq & Hback). rewrite Hp in Hq. injection Hq as <-.
  specialize (Hback Hnamed).
  unfold _follow_arxml_reference. cbn [attr_of rbind]. rewrite Habs. cbn [negb rbind].
  rewrite Hback. split; [reflexivity|].
  intros dest. destruct (has_tag (ns_tag ld dest) n); reflexivity.
Qed.

Lemma absolute_reference_resolves_witness :
  exists ld package,
    SystemLoader_init (fromstring one_package) true = OK ld
    /\ nodes (fromstring one_package) !! 2%nat = Some package
    /\ _follow_arxml_reference ld (fromstring one_package) (Some "/P") None None
       = OK (Some package)
    /\ forall dest,
         _follow_arxml_reference ld (fromstring one_package) (Some "/P") (Some dest) None
         = OK (if has_tag (ns_tag ld dest) package then Some package else None).
Proof.
  destruct (SystemLoader_init (fromstring one_package) true) as [ld|e] eqn:Hinit;
    [|vm_compute in Hinit; discriminate Hinit].
  set (pkg := alloc [O; O] (elem "AR-PACKAGE" [leaf "SHORT-NAME" "P"])).
  exists ld, pkg. split; [reflexivity|]. split; [reflexivity|].
  pose proof Hinit as Hld. vm_compute in Hld. injection Hld as Hld.
  apply (absolute_reference_resolves one_package true ld pkg (fromstring one_package)
           "/P" None Hinit).
  - vm_compute. do 2 right. left.
  - rewrite <- Hld. vm_compute. eauto.
  - rewrite <- Hld. vm_compute. reflexivity.
Defined.

(** ** Reference bases *)

Lemma refbases_kept_refl d : refbases_kept d d.
Proof. split; eauto. Qed.

Lemma refbases_kept_trans d1 d2 d3 :
  refbases_kept d1 d2 -> refbases_kept d2 d3 -> refbases_kept d1 d3.
Proof.
  intros [B1 D1] [B2 D2]. split; [|auto].
  intros cur bases label ref Hb Hl.
  destruct (B1 _ _ _ _ Hb Hl) as (bases' & Hb' & Hl'). eauto.
Qed.

(** What [add_reference_base] has read and recorded when it returns. *)
Lemma add_reference_base_spec ns elem cur d d' :
  add_reference_base ns elem cur d = OK d' ->
  exists label ref is_default is_global,
    stripped_text_of (find_child (qname ns "SHORT-LABEL") elem) = OK label
    /\ stripped_text_of (find_child (qname ns "PACKAGE-REF") elem) = OK ref
    /\ flag_of (find_child (qname ns "IS-DEFAULT") elem) = OK is_default
    /\ flag_of (find_child (qname ns "IS-GLOBAL") elem) = OK is_global
    /\ truthy is_global = false
    /\ (truthy is_default = true ->
        _package_default_refbase_path d !! cur = None
        /\ _package_default_refbase_path d' !! cur = Some ref)
    /\ (exists bases, _package_refbase_paths d' !! cur = Some bases
                      /\ bases !! label = Some ref)
    /\ refbases_kept d d'.
Proof.
  unfold add_reference_base. intros H.
  apply rbind_ok in H as (label & Hlabel & H).
  apply rbind_ok in H as (ref & Href & H).
  apply rbind_ok in H as (is_default & Hdefault & H).
  apply rbind_ok in H as (d1 & Hd1 & H).
  apply rbind_ok in H as (is_global & Hglobal & H).
  destruct (truthy is_global) eqn:Hg; [discriminate|].
  apply rbind_ok in H as (bases & Hbases & H). injection H as <-.
  exists label, ref, is_default, is_global. cbn [_package_refbase_paths
    _package_default_refbase_path].
  do 5 (split; [assumption || reflexivity|]).
  assert (Hd1' : _package_refbase_paths d1 = _package_refbase_paths d
                 /\ (truthy is_default = true ->
                     _package_default_refbase_path d !! cur = None
                     /\ _package_default_refbase_path d1 !! cur = Some ref)
                 /\ (forall cur' ref',
                        _package_default_refbase_path d !! cur' = Some ref' ->
                        _package_default_refbase_path d1 !! cur' = Some ref')).
  { destruct (truthy is_default); cbn [andb] in Hd1.
    - destruct (bool_decide _) eqn:Htaken in Hd1; [discriminate|].
      apply bool_decide_eq_false in Htaken. rewrite <- eq_None_not_Some in Htaken.
      injection Hd1 as <-. cbn. split; [reflexivity|].
      split; [intros _; split; [assumption | apply lookup_insert_eq]|].
      intros cur' ref' Hcur'. rewrite lookup_insert_ne; [assumption | congruence].
    - injection Hd1 as <-. split; [reflexivity|]. split; [discriminate | auto]. }
  destruct Hd1' as (Hsame & Hdef & Hkeep). rewrite Hsame in Hbases.
  split; [exact Hdef|].
  split; [exists (<[label := ref]> bases); split; apply lookup_insert_eq|].
  split; [|exact Hkeep].
  intros cur' bases' label' ref' Hcur' Hlabel'. cbn [_package_refbase_paths].
  destruct (decide (cur = cur')) as [<-|Hne].
  - rewrite Hcur' in Hbases.
    destruct (bool_decide _) eqn:Hdup in Hbases; [discriminate|].
    injection Hbases as <-. apply bool_decide_eq_false in Hdup.
    rewrite <- eq_None_not_Some in Hdup.
    exists (<[label := ref]> bases'). rewrite lookup_insert_eq. split; [reflexivity|].
    rewrite lookup_insert_ne; [assumption | congruence].
  - exists bases'. rewrite lookup_insert_ne by assumption. rewrite Hsame. auto.
Qed.

Lemma register_element_refbases ns elem elem_path cur d p c d1 :
  register_element ns elem elem_path cur d = OK (p, c, d1) ->
  refbases_kept d d1
  /\ (has_tag (qname ns "REFERENCE-BASE") elem = true ->
      exists d0, add_reference_base ns elem c d0 = OK d1)
  /\ (has_tag (qname ns "REFERENCE-BASE") elem = false ->
      _package_refbase_paths d1 = _package_refbase_paths d
      /\ _package_default_refbase_path d1 = _package_default_refbase_path d).
Proof.
  unfold register_element. intros H.
  apply rbind_ok in H as ([p' d0] & Hreg & H).
  apply rbind_ok in H as (d2 & Hbase & H). injection H as <- <- <-.
  assert (Hd0 : _package_refbase_paths d0 = _package_refbase_paths d
                /\ _package_default_refbase_path d0 = _package_default_refbase_path d).
  { destruct (find_child (qname ns "SHORT-NAME") elem).
    - destruct (bool_decide _) in Hreg; [discriminate|]. injection Hreg as <- <-. auto.
    - injection Hreg as <- <-. auto. }
  destruct Hd0 as [Hb Hdf].
  set (d0' := mkRefDicts _ _ _ _) in Hbase.
  assert (Hkept0 : refbases_kept d d0').
  { unfold refbases_kept, d0'. cbn. rewrite Hb, Hdf. split; eauto. }
  destruct (has_tag (qname ns "REFERENCE-BASE") elem).
  - split; [|split; [eauto | discriminate]].
    apply add_reference_base_spec in Hbase as (? & ? & ? & ? & _ & _ & _ & _ & _ & _ & _ & Hk).
    eapply refbases_kept_trans; eassumption.
  - injection Hbase as <-. split; [assumption|]. split; [discriminate|].
    intros _. unfold d0'. cbn. auto.
Qed.

(** A traversal that returns has registered every element below the one
    it started from, and what an element has recorded about reference
    bases is there at the end. *)
Lemma add_sub_references_visits ns (elem : Element) :
  forall elem_path cur d d',
    add_sub_references ns elem elem_path cur d = OK d' ->
    refbases_kept d d'
    /\ forall n, n ∈ nodes elem ->
         exists p c d0 p' c' d1,
           register_element ns n p c d0 = OK (p', c', d1) /\ refbases_kept d1 d'.
Proof.
  induction elem as [i t a tx cs tl IH] using Element_children_ind.
  intros elem_path cur d d' H. rewrite add_sub_references_unfold in H.
  apply rbind_ok in H as ([[p c] d1] & Hreg & H). cbn [children] in H.
  assert (Hloop : refbases_kept d1 d'
                  /\ forall n, n ∈ flat_map nodes cs ->
                       exists p c d0 p' c' d2,
                         register_element ns n p c d0 = OK (p', c', d2)
                         /\ refbases_kept d2 d').
  { clear Hreg. revert d1 H.
    induction IH as [|child cs Hchild _ IHcs]; intros d1 H.
    - injection H as <-. split; [apply refbases_kept_refl|].
      intros n Hn. apply elem_of_nil in Hn. tauto.
    - cbn [over_children] in H. apply rbind_ok in H as (d2 & Hc & H).
      destruct (Hchild _ _ _ _ Hc) as [Hk1 Hv1].
      destruct (IHcs _ H) as [Hk2 Hv2].
      split; [eapply refbases_kept_trans; eassumption|].
      intros n Hn. cbn [flat_map] in Hn. apply elem_of_app in Hn as [Hn|Hn].
      + destruct (Hv1 n Hn) as (q & c0 & d0 & q' & c0' & d3 & Hr & Hk).
        exists q, c0, d0, q', c0', d3. split; [assumption|].
        eapply refbases_kept_trans; eassumption.
      + auto. }
  destruct Hloop as [Hk Hv].
  pose proof (register_element_refbases _ _ _ _ _ _ _ _ Hreg) as (Hk0 & _ & _).
  split; [eapply refbases_kept_trans; eassumption|].
  intros n Hn. rewrite nodes_unfold in Hn. cbn [children] in Hn.
  apply elem_of_cons in Hn as [->|Hn]; [|auto].
  exists elem_path, cur, d, p, c, d1. auto.
Qed.

(** X5. In a document whose index could be built every [REFERENCE-BASE]
    element is complete and canonical: it has a label and a package
    reference, it is not flagged global, and the index holds its package
    reference under its label for some package, and as the default
    reference base of that package when it is flagged default. *)
Theorem reference_bases_are_registered :
  forall (root : Element) (strict : bool) (ld : SystemLoader) (e : Element),
    SystemLoader_init root strict = OK ld ->
    e ∈ nodes root ->
    has_tag (ns_tag ld "REFERENCE-BASE") e = true ->
    exists label ref is_default is_global package bases,
      stripped_text_of (find_child (ns_tag ld "SHORT-LABEL") e) = OK label
      /\ stripped_text_of (find_child (ns_tag ld "PACKAGE-REF") e) = OK ref
      /\ flag_of (find_child (ns_tag ld "IS-DEFAULT") e) = OK is_default
      /\ flag_of (find_child (ns_tag ld "IS-GLOBAL") e) = OK is_global
      /\ truthy is_global = false
      /\ _package_refbase_paths (dicts ld) !! package = Some bases
      /\ bases !! label = Some ref
      /\ (truthy is_default = true ->
          _package_default_refbase_path (dicts ld) !! package = Some ref).
Proof.
  intros root strict ld e Hinit He Htag. unfold SystemLoader_init in Hinit.
  apply rbind_ok in Hinit as ([ns v] & _ & Hinit).
  apply rbind_ok in Hinit as (d & Hd & Hinit). injection Hinit as <-.
  unfold ns_tag in *. cbn [dicts xml_namespace] in *.
  apply add_sub_references_visits in Hd as [_ Hvisits].
  destruct (Hvisits e He) as (p & c & d0 & p' & c' & d1 & Hreg & [Hkb Hkd]).
  apply register_element_refbases in Hreg as (_ & Hbase & _).
  destruct (Hbase Htag) as [d2 Hadd].
  apply add_reference_base_spec in Hadd
    as (label & ref & is_default & is_global & Hl & Hr & Hdf & Hg & Hng & Hdefault
        & (bases & Hbases & Hlabel) & _).
  destruct (Hkb _ _ _ _ Hbases Hlabel) as (bases' & Hbases' & Hlabel').
  exists label, ref, is_default, is_global, c', bases'.
  do 7 (split; [assumption|]).
  intros Htrue. apply Hkd, Hdefault, Htrue.
Qed.

Lemma reference_bases_are_registered_witness :
  exists ld e,
    SystemLoader_init (fromstring package_with_refbase) true = OK ld
    /\ nodes (fromstring package_with_refbase) !! 5%nat = Some e
    /\ exists label ref is_default is_global package bases,
        stripped_text_of (find_child (ns_tag ld "SHORT-LABEL") e) = OK label
        /\ stripped_text_of (find_child (ns_tag ld "PACKAGE-REF") e) = OK ref
        /\ flag_of (find_child (ns_tag ld "IS-DEFAULT") e) = OK is_default
        /\ flag_of (find_child (ns_tag ld "IS-GLOBAL") e) = OK is_global
        /\ truthy is_global = false
        /\ _package_refbase_paths (dicts ld) !! package = Some bases
        /\ bases !! label = Some ref
        /\ (truthy is_default = true ->
            _package_default_refbase_path (dicts ld) !! package = Some ref).
Proof.
  destruct (SystemLoader_init (fromstring package_with_refbase) true) as [ld|err] eqn:Hinit;
    [|vm_compute in Hinit; discriminate Hinit].
  destruct (nodes (fromstring package_with_refbase) !! 5%nat) as [e|] eqn:He;
    [|vm_compute in He; discriminate He].
  exists ld, e. split; [reflexivity|]. split; [reflexivity|].
  apply (reference_bases_are_registered (fromstring package_with_refbase) true ld e Hinit).
  - eapply list_elem_of_lookup_2. exact He.
  - pose proof Hinit as Hld. vm_compute in Hld. injection Hld as <-.
    vm_compute in He. injection He as <-. vm_compute. reflexivity.
Defined.

(** A traversal of elements none of which is a reference base records no
    reference base. *)
Lemma add_sub_references_no_refbase ns (elem : Element) :
  forall elem_path cur d d',
    (forall n, n ∈ nodes elem -> has_tag (qname ns "REFERENCE-BASE") n = false) ->
    add_sub_references ns elem elem_path cur d = OK d' ->
    _package_refbase_paths d' = _package_refbase_paths d
    /\ _package_default_refbase_path d' = _package_default_refbase_path d.
Proof.
  induction elem as [i t a tx cs tl IH] using Element_children_ind.
  intros elem_path cur d d' Hnone H. rewrite add_sub_references_unfold in H.
  apply rbind_ok in H as ([[p c] d1] & Hreg & H). cbn [children] in H.
  apply register_element_refbases in Hreg as (_ & _ & Hsame).
  destruct Hsame as [<- <-].
  { apply Hnone. rewrite nodes_unfold. apply elem_of_cons. auto. }
  assert (Hbelow : forall n, n ∈ flat_map nodes cs ->
                             has_tag (qname ns "REFERENCE-BASE") n = false).
  { intros n Hn. apply Hnone. rewrite nodes_unfold. apply elem_of_cons. auto. }
  clear Hnone. revert d1 H Hbelow.
  induction IH as [|child cs Hchild _ IHcs]; intros d1 H Hbelow.
  - injection H as <-. auto.
  - cbn [over_children] in H. apply rbind_ok in H as (d2 & Hc & H).
    cbn [flat_map] in Hbelow.
    destruct (Hchild p c d1 d2) as [<- <-]; [|assumption|].
    { intros n Hn. apply Hbelow, elem_of_app. auto. }
    apply IHcs; [assumption|]. intros n Hn. apply Hbelow, elem_of_app. auto.
Qed.

Lemma find_refbase_none (ld : SystemLoader) base_path refbase_name :
  _package_refbase_paths (dicts ld) = ∅ ->
  _package_default_refbase_path (dicts ld) = ∅ ->
  forall i, find_refbase ld base_path refbase_name i = None.
Proof.
  intros Hb Hd i. induction i as [|i IH]; [reflexivity|].
  cbn [find_refbase]. rewrite Hb, Hd.
  destruct (_ !! _) as [n|]; [destruct (negb _)|];
    try assumption; destruct refbase_name; rewrite ?lookup_empty; assumption.
Qed.

(** X6. In a document without [REFERENCE-BASE] elements a relative
    reference, one that does not start with a slash, cannot be followed:
    from whatever element of the document, to whatever kind of element,
    [_follow_arxml_reference] raises the unknown-reference-base error. *)
Theorem relative_reference_needs_a_base :
  forall (doc : Xml) (strict : bool) (ld : SystemLoader) (base_elem : Element)
         (arxml_path : string) (dest_tag_name refbase_name : option string),
    SystemLoader_init (fromstring doc) strict = OK ld ->
    (forall n, n ∈ nodes (fromstring doc) ->
               has_tag (ns_tag ld "REFERENCE-BASE") n = false) ->
    base_elem ∈ nodes (fromstring doc) ->
    py_startswith "/" arxml_path = false ->
    _follow_arxml_reference ld base_elem (Some arxml_path) dest_tag_name refbase_name
    = Err (ValueError (UnknownRefbase refbase_name arxml_path)).
Proof.
  intros doc strict ld base_elem arxml_path dest_tag_name refbase_name
         Hinit Hnone Hbase Hrel.
  destruct (loader_indexed _ _ _ (fromstring_ids_NoDup doc) Hinit) as [_ [_ _ _ R]].
  destruct (R base_elem Hbase) as (p & Hp & _).
  assert (Hempty : _package_refbase_paths (dicts ld) = ∅
                   /\ _package_default_refbase_path (dicts ld) = ∅).
  { unfold SystemLoader_init in Hinit.
    apply rbind_ok in Hinit as ([ns v] & _ & Hinit).
    apply rbind_ok in Hinit as (d & Hd & Hinit). injection Hinit as <-.
    apply add_sub_references_no_refbase in Hd; [exact Hd | exact Hnone]. }
  destruct Hempty as [Hb Hd].
  unfold _follow_arxml_reference. cbn [attr_of rbind]. rewrite Hrel. cbn [negb].
  rewrite Hp, (find_refbase_none ld _ _ Hb Hd). reflexivity.
Qed.

Lemma relative_reference_needs_a_base_witness :
  exists ld,
    SystemLoader_init (fromstring one_package) true = OK ld
    /\ _follow_arxml_reference ld (fromstring one_package) (Some "Q/x") None None
       = Err (ValueError (UnknownRefbase None "Q/x")).
Proof.
  destruct (SystemLoader_init (fromstring one_package) true) as [ld|e] eqn:Hinit;
    [|vm_compute in Hinit; discriminate Hinit].
  exists ld. split; [reflexivity|].
  apply (relative_reference_needs_a_base one_package true ld (fromstring one_package)
           "Q/x" None None Hinit).
  - intros n Hn. pose proof Hinit as Hld. vm_compute in Hld. injection Hld as <-.
    vm_compute in Hn. unfold ns_tag. cbn [xml_namespace].
    repeat (apply elem_of_cons in Hn as [->|Hn]; [vm_compute; reflexivity|]).
    apply elem_of_nil in Hn. tauto.
  - rewrite nodes_unfold. apply elem_of_cons. auto.
  - reflexivity.
Defined.

(* ===================================================================== *)
(** * Further properties: the child locator *)
(* ===================================================================== *)

Lemma for_each_ext {A S} (xs : list A) (f g : A -> S -> M S) :
  (forall x acc, f x acc = g x acc) ->
  forall acc, for_each xs acc f = for_each xs acc g.
Proof.
  intros Hfg. induction xs as [|x xs IH]; intros acc; cbn [for_each]; [reflexivity|].
  rewrite Hfg. destruct (g x acc) as [j [a|e]]; cbn [bind]; [|reflexivity].
  rewrite IH. reflexivity.
Qed.

(** An invariant of the accumulator of a loop that returns. *)
Lemma for_each_invariant {A S} (P : S -> Prop) (xs : list A) (body : A -> S -> M S) :
  (forall x acc acc', x ∈ xs -> P acc -> outcome (body x acc) = OK acc' -> P acc') ->
  forall acc acc', P acc -> outcome (for_each xs acc body) = OK acc' -> P acc'.
Proof.
  induction xs as [|x xs IH]; intros Hbody acc acc' Hacc Hrun; cbn [for_each] in Hrun.
  - injection Hrun as <-. assumption.
  - apply outcome_bind_ok in Hrun as (acc1 & Hx & Hrun).
    apply (IH (fun y a a' Hy => Hbody y a a' (proj2 (elem_of_cons _ _ _) (or_intror Hy)))
              acc1 acc'); [|assumption].
    apply (Hbody x acc acc1); [apply elem_of_cons; auto | assumption | assumption].
Qed.

(** The locator looks at an atom for its tag name and for whether it
    denotes a node set, and at nothing else. *)
Lemma locate_atom_ext ld (a b : string) :
  atom_tag_name a = atom_tag_name b -> atom_is_nodeset a = atom_is_nodeset b ->
  forall before rest base_elems,
    locate ld base_elems (before ++ a :: rest) = locate ld base_elems (before ++ b :: rest).
Proof.
  intros Htag Hset before rest.
  assert (Hin : forall base_elem result,
             locate_in ld a base_elem result = locate_in ld b base_elem result).
  { intros base_elem result. unfold locate_in. rewrite Htag, Hset. reflexivity. }
  induction before as [|atom before IH]; intros base_elems; cbn [app locate].
  - destruct base_elems as [|e base_elems]; [reflexivity|].
    rewrite (for_each_ext _ _ _ Hin). reflexivity.
  - destruct base_elems as [|e base_elems]; [reflexivity|].
    destruct (for_each _ _ _) as [j [result|err]]; cbn [bind]; [|reflexivity].
    rewrite IH. reflexivity.
Qed.

Lemma plain_atom (name : string) :
  atom_allows_references name = false -> atom_is_nodeset name = false ->
  (atom_tag_name name = name /\ atom_is_nodeset name = false)
  /\ (atom_tag_name ("&" +:+ name) = name /\ atom_is_nodeset ("&" +:+ name) = false)
  /\ (atom_tag_name ("*" +:+ name) = name /\ atom_is_nodeset ("*" +:+ name) = true)
  /\ (atom_tag_name ("*&" +:+ name) = name /\ atom_is_nodeset ("*&" +:+ name) = true)
  /\ (atom_tag_name ("&*" +:+ name) = name /\ atom_is_nodeset ("&*" +:+ name) = true).
Proof.
  change ("&" +:+ name) with (String "&" name).
  change ("*" +:+ name) with (String "*" name).
  change ("*&" +:+ name) with (String "*" (String "&" name)).
  change ("&*" +:+ name) with (String "&" (String "*" name)).
  unfold atom_tag_name, atom_allows_references, atom_is_nodeset.
  destruct name as [|c name]; [repeat split; reflexivity|].
  cbn [take_chars char_in]. intros Hrefs Hset.
  apply orb_false_iff in Hrefs as [Hc1 Hd1]. apply orb_false_iff in Hset as [Hc2 Hd2].
  unfold ascii_eqb in *.
  change (Ascii.eqb "&" "*") with false. change (Ascii.eqb "*" "&") with false.
  change (Ascii.eqb "&" "&") with true. change (Ascii.eqb "*" "*") with true.
  rewrite Hc1, Hc2. cbn [orb drop_chars].
  destruct name as [|c' name]; cbn [take_chars char_in orb drop_chars] in *;
    [repeat split; reflexivity|].
  apply orb_false_iff in Hd1 as [Hd1 _]. apply orb_false_iff in Hd2 as [Hd2 _].
  rewrite ?Hd1, ?Hd2. cbn [orb drop_chars]. repeat split; reflexivity.
Qed.

(** X7. The marker [&] of a location atom, which is meant to permit
    references, makes no difference to what is located: a [NAME-REF]
    child is followed whether the atom is written [NAME] or [&NAME], and
    so for node sets, [*NAME], [*&NAME] and [&*NAME]. *)
Theorem reference_marker_makes_no_difference :
  forall (ld : SystemLoader) (base_elem : option Element)
         (before rest : list string) (name : string),
    atom_allows_references name = false -> atom_is_nodeset name = false ->
    _get_arxml_children ld base_elem (before ++ ("&" +:+ name) :: rest)
    = _get_arxml_children ld base_elem (before ++ name :: rest)
    /\ _get_arxml_children ld base_elem (before ++ ("*&" +:+ name) :: rest)
       = _get_arxml_children ld base_elem (before ++ ("*" +:+ name) :: rest)
    /\ _get_arxml_children ld base_elem (before ++ ("&*" +:+ name) :: rest)
       = _get_arxml_children ld base_elem (before ++ ("*" +:+ name) :: rest).
Proof.
  intros ld base_elem before rest name Hrefs Hset.
  destruct (plain_atom name Hrefs Hset)
    as ([T0 S0] & [T1 S1] & [T2 S2] & [T3 S3] & [T4 S4]).
  unfold _get_arxml_children. destruct base_elem as [e|]; [|auto].
  split; [|split]; apply locate_atom_ext; congruence.
Qed.

Lemma reference_marker_makes_no_difference_witness :
  _get_arxml_children (loader_of dangling_pdu_reference)
    (Some (fromstring dangling_pdu_reference)) (["AR-PACKAGES"] ++ ["&AR-PACKAGE"])
  = _get_arxml_children (loader_of dangling_pdu_reference)
      (Some (fromstring dangling_pdu_reference)) (["AR-PACKAGES"] ++ ["AR-PACKAGE"]).
Proof.
  apply (reference_marker_makes_no_difference (loader_of dangling_pdu_reference)
           (Some (fromstring dangling_pdu_reference)) ["AR-PACKAGES"] [] "AR-PACKAGE");
    reflexivity.
Defined.

(** A reference that resolves leads to a node of the index. *)
Lemma follow_in_index ld base_elem arxml_path dest_tag_name refbase_name node :
  _follow_arxml_reference ld base_elem arxml_path dest_tag_name refbase_name
  = OK (Some node) ->
  exists p, _arxml_path_to_node (dicts ld) !! p = Some node.
Proof.
  unfold _follow_arxml_reference. intros H.
  apply rbind_ok in H as (t & _ & H). apply rbind_ok in H as (p & _ & H).
  exists p. destruct (_arxml_path_to_node (dicts ld) !! p) as [r|]; [|destruct dest_tag_name; discriminate].
  destruct dest_tag_name as [dest|]; [destruct (negb _); [discriminate|]|]; congruence.
Qed.

Section Locator.
Variables (ld : SystemLoader) (inside : Element -> Prop).
Hypothesis inside_children : forall e c, inside e -> c ∈ children e -> inside c.
Hypothesis inside_index :
  forall p n, _arxml_path_to_node (dicts ld) !! p = Some n -> inside n.

Lemma locate_child_inside base_elem child_tag_name child_elem local_result local_result' :
  inside child_elem -> Forall inside local_result ->
  outcome (locate_child ld base_elem child_tag_name child_elem local_result)
  = OK local_result' ->
  Forall inside local_result'.
Proof.
  intros Hchild Hlocal. unfold locate_child.
  destruct (has_tag _ child_elem).
  { intros [= <-]. apply Forall_app. auto. }
  destruct (has_tag _ child_elem); [|intros [= <-]; assumption].
  intros H. apply outcome_bind_ok in H as (tmp & Hfollow & H).
  apply outcome_bind_ok in H as (? & _ & H).
  destruct tmp as [node|]; [|discriminate]. injection H as <-.
  apply follow_in_index in Hfollow as [p Hp].
  apply Forall_app. eauto.
Qed.

Lemma locate_in_inside atom base_elem result result' :
  inside base_elem -> Forall inside result ->
  outcome (locate_in ld atom base_elem result) = OK result' ->
  Forall inside result'.
Proof.
  intros Hbase Hresult H. unfold locate_in in H.
  apply outcome_bind_ok in H as (local_result & Hlocal & H).
  destruct (_ && _); [discriminate|]. injection H as <-.
  apply Forall_app. split; [assumption|].
  eapply (for_each_invariant (Forall inside)); [| |exact Hlocal]; [|constructor].
  intros child acc acc' Hchild Hacc. apply locate_child_inside; eauto.
Qed.

Lemma locate_inside children_location :
  forall base_elems result,
    Forall inside base_elems ->
    outcome (locate ld base_elems children_location) = OK result ->
    Forall inside result.
Proof.
  induction children_location as [|atom rest IH]; intros base_elems result Hbase H;
    cbn [locate] in H.
  - injection H as <-. assumption.
  - destruct base_elems as [|e base_elems]; [injection H as <-; constructor|].
    apply outcome_bind_ok in H as (found & Hfound & H).
    apply (IH found result); [|assumption].
    eapply (for_each_invariant (Forall inside)); [| |exact Hfound]; [|constructor].
    intros base acc acc' Hin Hacc. apply locate_in_inside; [|assumption].
    rewrite Forall_forall in Hbase. auto.
Qed.

End Locator.

(** X8. The child locator does not leave the document: whatever it
    locates from an element of the document, through children and through
    references, is an element of the document. *)
Theorem located_elements_are_in_the_document :
  forall (doc : Xml) (strict : bool) (ld : SystemLoader) (base_elem : Element)
         (children_location : list string) (result : list Element),
    SystemLoader_init (fromstring doc) strict = OK ld ->
    base_elem ∈ nodes (fromstring doc) ->
    outcome (_get_arxml_children ld (Some base_elem) children_location) = OK result ->
    forall node, node ∈ result -> node ∈ nodes (fromstring doc).
Proof.
  intros doc strict ld base_elem children_location result Hinit Hbase Hrun.
  destruct (loader_indexed _ _ _ (fromstring_ids_NoDup doc) Hinit) as [_ [_ A _ _]].
  apply Forall_forall.
  apply (locate_inside ld (fun n => n ∈ nodes (fromstring doc))) with (4 := Hrun).
  - intros e c He Hc. eapply nodes_children_closed; eassumption.
  - intros p n Hp. apply A in Hp as [Hp|[Hn _]]; [|exact Hn].
    cbn in Hp. rewrite lookup_empty in Hp. discriminate.
  - constructor; [assumption | constructor].
Qed.

(** The loader of a sample document. *)
Lemma loader_of_init (doc : Xml) :
  is_ok (SystemLoader_init (fromstring doc) true) = true ->
  SystemLoader_init (fromstring doc) true = OK (loader_of doc).
Proof.
  unfold loader_of. destruct (SystemLoader_init (fromstring doc) true);
    [reflexivity | discriminate].
Qed.

Lemma count_of_inv {A} (r : result (list A)) (k : nat) :
  count_of r = Some k -> exists l, r = OK l /\ List.length l = k.
Proof. destruct r as [l|e]; [|discriminate]. intros [= <-]. eauto. Qed.

Lemma located_elements_are_in_the_document_witness :
  exists result,
    SystemLoader_init (fromstring plain_frame) true = OK (loader_of plain_frame)
    /\ outcome (_get_arxml_children (loader_of plain_frame)
                  (Some (fromstring plain_frame))
                  ["AR-PACKAGES"; "AR-PACKAGE"; "ELEMENTS"; "*CAN-FRAME";
                   "PDU-TO-FRAME-MAPPINGS"; "PDU-TO-FRAME-MAPPING"; "PDU"]) = OK result
    /\ List.length result = 1%nat
    /\ forall node, node ∈ result -> node ∈ nodes (fromstring plain_frame).
Proof.
  assert (Hinit : SystemLoader_init (fromstring plain_frame) true
                  = OK (loader_of plain_frame))
    by (apply loader_of_init; vm_compute; reflexivity).
  assert (Hcount : count_of (outcome (_get_arxml_children (loader_of plain_frame)
                     (Some (fromstring plain_frame))
                     ["AR-PACKAGES"; "AR-PACKAGE"; "ELEMENTS"; "*CAN-FRAME";
                      "PDU-TO-FRAME-MAPPINGS"; "PDU-TO-FRAME-MAPPING"; "PDU"]))
                   = Some 1%nat) by (vm_compute; reflexivity).
  apply count_of_inv in Hcount as (result & Hrun & Hlen).
  exists result. split; [exact Hinit|]. split; [exact Hrun|]. split; [exact Hlen|].
  refine (located_elements_are_in_the_document plain_frame true (loader_of plain_frame)
            (fromstring plain_frame) _ result Hinit _ Hrun).
  rewrite nodes_unfold. apply elem_of_cons. auto.
Defined.

Lemma locate_child_length ld base_elem child_tag_name child_elem local_result local_result' :
  outcome (locate_child ld base_elem child_tag_name child_elem local_result)
  = OK local_result' ->
  (List.length local_result <= List.length local_result')%nat.
Proof.
  unfold locate_child.
  destruct (has_tag _ child_elem); [intros [= <-]; rewrite length_app; lia|].
  destruct (has_tag _ child_elem); [|intros [= <-]; lia].
  intros H. apply outcome_bind_ok in H as (tmp & _ & H).
  apply outcome_bind_ok in H as (? & _ & H).
  destruct tmp; [|discriminate]. injection H as <-. rewrite length_app. lia.
Qed.

(** One turn of the loop over the base elements adds at most one element
    for an atom that does not denote a node set. *)
Lemma locate_in_length ld atom base_elem result result' :
  atom_is_nodeset atom = false ->
  outcome (locate_in ld atom base_elem result) = OK result' ->
  (List.length result' <= S (List.length result))%nat.
Proof.
  intros Hset H. unfold locate_in in H. rewrite Hset in H. cbn [negb andb] in H.
  apply outcome_bind_ok in H as (local_result & _ & H).
  destruct (Nat.ltb_spec 1 (List.length local_result)); [discriminate|].
  injection H as <-. rewrite length_app. lia.
Qed.

Lemma locate_length ld children_location :
  Forall (fun atom => atom_is_nodeset atom = false) children_location ->
  forall base_elems result,
    outcome (locate ld base_elems children_location) = OK result ->
    (List.length result <= List.length base_elems)%nat.
Proof.
  induction 1 as [|atom rest Hatom _ IH]; intros base_elems result H; cbn [locate] in H.
  - injection H as <-. lia.
  - destruct base_elems as [|e base_elems]; [injection H as <-; simpl; lia|].
    apply outcome_bind_ok in H as (found & Hfound & H).
    apply IH in H. etransitivity; [exact H|].
    assert (Hloop : forall bs acc acc',
               outcome (for_each bs acc (locate_in ld atom)) = OK acc' ->
               (List.length acc' <= List.length acc + List.length bs)%nat).
    { clear -Hatom. induction bs as [|b bs IHbs]; intros acc acc' Hrun;
        cbn [for_each] in Hrun.
      - injection Hrun as <-. simpl. lia.
      - apply outcome_bind_ok in Hrun as (acc1 & Hb & Hrun).
        apply IHbs in Hrun. apply locate_in_length in Hb; [|assumption].
        simpl. lia. }
    apply Hloop in Hfound. simpl in Hfound. exact Hfound.
Qed.

(** X9. A location none of whose atoms denotes a node set locates at most
    one element, so that [_get_unique_arxml_child] has nothing to object
    to: when it raises on such a location, the error is one the locator
    itself raised (a child that ought to be unique and is not, or a
    dangling reference). *)
Theorem unique_location_locates_at_most_one :
  forall (ld : SystemLoader) (base_elem : option Element) (child_location : list string),
    Forall (fun atom => atom_is_nodeset atom = false) child_location ->
    (forall result,
        outcome (_get_arxml_children ld base_elem child_location) = OK result ->
        (List.length result <= 1)%nat
        /\ outcome (_get_unique_arxml_child ld base_elem child_location)
           = OK (head result))
    /\ (forall err,
           outcome (_get_unique_arxml_child ld base_elem child_location) = Err err ->
           outcome (_get_arxml_children ld base_elem child_location) = Err err).
Proof.
  intros ld base_elem child_location Hatoms.
  assert (Hone : forall result,
             outcome (_get_arxml_children ld base_elem child_location) = OK result ->
             (List.length result <= 1)%nat).
  { intros result H. unfold _get_arxml_children in H.
    destruct base_elem as [e|]; [|discriminate].
    apply (locate_length ld _ Hatoms) in H. simpl in H. exact H. }
  split.
  - intros result H. split; [auto|].
    unfold _get_unique_arxml_child. rewrite (outcome_bind _ _ _ H).
    specialize (Hone result H). destruct result as [|a [|b result]]; try reflexivity.
    simpl in Hone. lia.
  - intros err H. unfold _get_unique_arxml_child in H.
    destruct (outcome (_get_arxml_children ld base_elem child_location))
      as [result|err'] eqn:Hrun.
    + rewrite (outcome_bind _ _ _ Hrun) in H. specialize (Hone result eq_refl).
      destruct result as [|a [|b result]]; try discriminate. simpl in Hone. lia.
    + rewrite (outcome_bind_err _ _ _ Hrun) in H. injection H as <-. reflexivity.
Qed.

Lemma unique_location_locates_at_most_one_witness :
  exists result,
    outcome (_get_arxml_children (loader_of plain_frame) (Some (fromstring plain_frame))
               ["AR-PACKAGES"; "AR-PACKAGE"; "SHORT-NAME"]) = OK result
    /\ (List.length result <= 1)%nat
    /\ outcome (_get_unique_arxml_child (loader_of plain_frame)
                  (Some (fromstring plain_frame))
                  ["AR-PACKAGES"; "AR-PACKAGE"; "SHORT-NAME"]) = OK (head result).
Proof.
  assert (Hok : is_ok (outcome (_get_arxml_children (loader_of plain_frame)
                                  (Some (fromstring plain_frame))
                                  ["AR-PACKAGES"; "AR-PACKAGE"; "SHORT-NAME"])) = true)
    by (vm_compute; reflexivity).
  apply is_ok_inv in Hok as [result Hrun].
  exists result. split; [exact Hrun|].
  refine (proj1 (unique_location_locates_at_most_one (loader_of plain_frame)
                   (Some (fromstring plain_frame))
                   ["AR-PACKAGES"; "AR-PACKAGE"; "SHORT-NAME"] _) result Hrun).
  repeat constructor.
Defined.

(** X10. Where no child of an element is a reference to a [NAME], the
    node set [*NAME] of the element is the list of its children with the
    tag [NAME], in document order, and no reference is followed. *)
Theorem node_set_of_plain_children :
  forall (ld : SystemLoader) (base_elem : Element) (name : string),
    atom_allows_references name = false -> atom_is_nodeset name = false ->
    (forall c, c ∈ children base_elem ->
               has_tag (ns_tag ld (name +:+ "-REF")) c = false) ->
    _get_arxml_children ld (Some base_elem) ["*" +:+ name]
    = ret (iterfind_child (ns_tag ld name) base_elem).
Proof.
  intros ld base_elem name Hrefs Hset Hplain.
  destruct (plain_atom name Hrefs Hset) as (_ & _ & [Htag Hnodeset] & _).
  unfold _get_arxml_children, iterfind_child. cbn [locate for_each].
  unfold locate_in. rewrite Htag, Hnodeset. cbn [negb andb].
  assert (Hloop : forall cs acc,
             (forall c, c ∈ cs -> has_tag (ns_tag ld (name +:+ "-REF")) c = false) ->
             for_each cs acc (locate_child ld base_elem name)
             = ret (acc ++ List.filter (has_tag (ns_tag ld name)) cs)).
  { induction cs as [|c cs IH]; intros acc Hcs; cbn [for_each List.filter].
    - rewrite app_nil_r. reflexivity.
    - unfold locate_child at 1.
      destruct (has_tag (ns_tag ld name) c) eqn:Hc.
      + cbn [bind ret]. rewrite IH by (intros; apply Hcs, elem_of_cons; auto).
        cbn [ret app]. rewrite <- app_assoc. reflexivity.
      + rewrite (Hcs c) by (apply elem_of_cons; auto).
        cbn [bind ret]. rewrite IH by (intros; apply Hcs, elem_of_cons; auto).
        reflexivity. }
  rewrite (Hloop _ [] Hplain). reflexivity.
Qed.

Lemma node_set_of_plain_children_witness :
  _get_arxml_children (loader_of plain_frame) (Some (fromstring plain_frame))
    ["*" +:+ "AR-PACKAGES"]
  = ret (iterfind_child (ns_tag (loader_of plain_frame) "AR-PACKAGES")
           (fromstring plain_frame)).
Proof.
  apply (node_set_of_plain_children (loader_of plain_frame) (fromstring plain_frame)
           "AR-PACKAGES"); [reflexivity | reflexivity |].
  intros c Hc. cbn in Hc. apply list_elem_of_singleton in Hc as ->.
  vm_compute. reflexivity.
Defined.

(* ===================================================================== *)
(** * Further properties: messages and signals of a system description *)
(* ===================================================================== *)

Lemma packages_below_unfold ld package_list :
  packages_below ld package_list
  = flat_map
      (fun package =>
         if has_tag (ns_tag ld "AR-PACKAGE") package
         then package :: with_first_child (sub_packages_tag ld) (packages_below ld) []
                           (children package)
         else [])
      (children package_list).
Proof. destruct package_list. reflexivity. Qed.

Section Messages.
Context `{PyNumerics}.

Lemma messages_of_nil ld : messages_of ld [] [].
Proof. exists []. split; constructor. Qed.

Lemma messages_of_app ld packages1 packages2 messages1 messages2 :
  messages_of ld packages1 messages1 -> messages_of ld packages2 messages2 ->
  messages_of ld (packages1 ++ packages2) (messages1 ++ messages2).
Proof.
  intros (ts1 & Hp1 & Hm1) (ts2 & Hp2 & Hm2). exists (ts1 ++ ts2).
  split; [apply Forall2_app; assumption|].
  rewrite concat_app. apply Forall2_app; assumption.
Qed.

(** The messages of one package are appended, one for each of its frame
    triggerings. *)
Lemma load_package_contents_spec ld package messages messages' :
  outcome (_load_package_contents ld package messages) = OK messages' ->
  exists more, messages' = messages ++ more /\ messages_of ld [package] more.
Proof.
  unfold _load_package_contents. intros Hrun.
  apply outcome_bind_ok in Hrun as (triggerings & Hts & Hrun).
  assert (Hloop : exists more,
             messages' = messages ++ more
             /\ Forall2 (fun t m => outcome (_load_message ld t) = OK m) triggerings more).
  { clear Hts. revert messages Hrun.
    induction triggerings as [|t ts IH]; intros messages Hrun; cbn [for_each] in Hrun.
    - injection Hrun as <-. exists []. rewrite app_nil_r. split; [reflexivity | constructor].
    - apply outcome_bind_ok in Hrun as (messages1 & Hstep & Hrun).
      apply outcome_bind_ok in Hstep as (m & Hm & Hstep). injection Hstep as <-.
      destruct (IH _ Hrun) as (more & -> & Hmore). exists (m :: more).
      rewrite <- app_assoc. split; [reflexivity|]. constructor; assumption. }
  destruct Hloop as (more & -> & Hmore). exists more. split; [reflexivity|].
  exists [triggerings]. split; [repeat constructor; assumption|].
  cbn [concat]. rewrite app_nil_r. assumption.
Qed.

Lemma handle_package_list_spec ld (package_list : Element) :
  forall messages messages',
    outcome (handle_package_list ld package_list messages) = OK messages' ->
    exists more,
      messages' = messages ++ more
      /\ messages_of ld (packages_below ld package_list) more.
Proof.
  assert (Hall : forall e : Element,
             let P := fun e => forall messages messages',
                          outcome (handle_package_list ld e messages) = OK messages' ->
                          exists more,
                            messages' = messages ++ more
                            /\ messages_of ld (packages_below ld e) more in
             P e /\ Forall P (children e)).
  { induction e as [i t a tx cs tl IH] using Element_children_ind. intros P.
    assert (Hcs : Forall P cs).
    { eapply Forall_impl; [exact IH|]. intros c [Hc _]. exact Hc. }
    split; [|exact Hcs].
    intros messages messages' Hrun. rewrite handle_package_list_unfold in Hrun.
    rewrite packages_below_unfold. cbn [children] in *.
    clear Hcs. revert messages Hrun.
    induction IH as [|package cs [_ Hsub] _ IHcs]; intros messages Hrun;
      cbn [over_packages flat_map] in *.
    - injection Hrun as <-. exists []. rewrite app_nil_r.
      split; [reflexivity | apply messages_of_nil].
    - destruct (has_tag (ns_tag ld "AR-PACKAGE") package).
      + apply outcome_bind_ok in Hrun as (messages2 & Hpackage & Hrun).
        apply outcome_bind_ok in Hpackage as (messages1 & Hcontents & Hpackage).
        apply load_package_contents_spec in Hcontents as (more1 & -> & Hmore1).
        assert (Hbelow : exists more,
                   messages2 = (messages ++ more1) ++ more
                   /\ messages_of ld
                        (with_first_child (sub_packages_tag ld) (packages_below ld) []
                           (children package)) more).
        { clear -Hsub Hpackage. induction Hsub as [|c cs' Hc _ IHsub];
            cbn [with_first_child] in *.
          - injection Hpackage as <-. exists []. rewrite app_nil_r.
            split; [reflexivity | apply messages_of_nil].
          - destruct (has_tag (sub_packages_tag ld) c); [|exact (IHsub Hpackage)].
            apply Hc. exact Hpackage. }
        destruct Hbelow as (more2 & -> & Hmore2).
        destruct (IHcs _ Hrun) as (more3 & -> & Hmore3).
        exists (more1 ++ more2 ++ more3). rewrite <- !app_assoc.
        split; [reflexivity|].
        apply (messages_of_app ld [package]); [assumption|].
        apply messages_of_app; assumption.
      + apply IHcs. exact Hrun. }
  apply Hall.
Qed.

(** X11. A load that returns has made one message for each CAN frame
    triggering of each package, none skipped and none added: the packages
    are taken in document order, a package before its sub-packages, and
    the frame triggerings of a package in the order in which they are
    located. *)
Theorem load_makes_a_message_per_frame_triggering :
  forall (ld : SystemLoader) (db : InternalDatabase),
    outcome (load ld) = OK db ->
    exists package_list,
      top_level_packages ld = Some package_list
      /\ messages_of ld (packages_below ld package_list) (messages db).
Proof.
  intros ld db Hrun. unfold load in Hrun.
  apply outcome_bind_ok in Hrun as (package_list & Htop & Hrun).
  apply outcome_bind_ok in Hrun as (messages & Hmessages & Hrun). injection Hrun as <-.
  exists package_list. split.
  - unfold top_level_packages. rewrite outcome_lift in Htop.
    destruct (is_ar4 ld); destruct (find_child _ _); try discriminate;
      injection Htop as <-; reflexivity.
  - apply handle_package_list_spec in Hmessages as (more & -> & Hmore). exact Hmore.
Qed.

End Messages.

Lemma load_makes_a_message_per_frame_triggering_witness :
  SystemLoader_init (fromstring plain_frame) true = OK (loader_of plain_frame)
  /\ exists db package_list,
      outcome (load (H := rational_numerics) (loader_of plain_frame)) = OK db
      /\ List.length (messages db) = 1%nat
      /\ top_level_packages (loader_of plain_frame) = Some package_list
      /\ messages_of (loader_of plain_frame)
           (packages_below (loader_of plain_frame) package_list) (messages db).
Proof.
  split; [apply loader_of_init; vm_compute; reflexivity|].
  assert (Hcount : message_count (load (H := rational_numerics) (loader_of plain_frame))
                   = Some 1%nat) by (vm_compute; reflexivity).
  unfold message_count in Hcount.
  destruct (outcome (load (H := rational_numerics) (loader_of plain_frame)))
    as [db|e] eqn:Hrun; [|discriminate Hcount].
  injection Hcount as Hcount.
  destruct (load_makes_a_message_per_frame_triggering (H := rational_numerics)
              (loader_of plain_frame) db Hrun) as (package_list & Htop & Hmessages).
  exists db, package_list. auto.
Defined.

Section Signals.
Context `{PyNumerics}.

(** X12. The signals of a PDU are those its signal mappings load, in the
    order of the mappings, the ordinary mappings before those of network
    management; a mapping that yields no signal (a signal group) is left
    out, and nothing else is. *)
Theorem pdu_signals_follow_the_mappings :
  forall (ld : SystemLoader) (pdu : option Element) (signals : list Signal),
    outcome (_load_pdu_signals ld pdu) = OK signals ->
    exists mappings loaded,
      signal_mappings ld pdu mappings
      /\ Forall2 (fun mapping s => outcome (_load_signal ld mapping) = OK s)
                 mappings loaded
      /\ signals = omap id loaded
      /\ (List.length signals <= List.length mappings)%nat.
Proof.
  intros ld pdu signals Hrun. unfold _load_pdu_signals in Hrun.
  apply outcome_bind_ok in Hrun as (first & Hfirst & Hrun).
  apply outcome_bind_ok in Hrun as (more & Hmore & Hrun).
  assert (Hloop : forall mappings acc acc',
             outcome (for_each mappings acc
                        (fun mapping signals =>
                           let* signal := _load_signal ld mapping in
                           match signal with
                           | Some s => ret (signals ++ [s])
                           | None => ret signals
                           end)) = OK acc' ->
             exists loaded,
               Forall2 (fun mapping s => outcome (_load_signal ld mapping) = OK s)
                       mappings loaded
               /\ acc' = acc ++ omap id loaded).
  { induction mappings as [|mapping mappings IH]; intros acc acc' Hloop;
      cbn [for_each] in Hloop.
    - injection Hloop as <-. exists []. rewrite app_nil_r. split; [constructor | reflexivity].
    - apply outcome_bind_ok in Hloop as (acc1 & Hstep & Hloop).
      apply outcome_bind_ok in Hstep as (signal & Hsignal & Hstep).
      destruct (IH _ _ Hloop) as (loaded & Hloaded & ->).
      exists (signal :: loaded). split; [constructor; assumption|].
      destruct signal as [s|]; injection Hstep as <-; simpl;
        [rewrite <- app_assoc|]; reflexivity. }
  destruct (Hloop _ _ _ Hrun) as (loaded & Hloaded & ->).
  exists (first ++ more), loaded.
  split; [exists first, more; destruct (is_ar4 ld); auto|].
  split; [assumption|]. split; [reflexivity|]. cbn [app].
  rewrite (Forall2_length _ _ _ Hloaded).
  clear. unfold omap. induction loaded as [|[s|] loaded IH]; simpl in *; lia.
Qed.

(** ** The signals of a multiplexed PDU *)

Lemma remove_first_filter {A} (p : A -> bool) (l : list A) (x : A) :
  List.filter p l = [x] -> Forall (fun y => p y = false) (remove_first p l).
Proof.
  induction l as [|y l IH]; cbn [List.filter remove_first]; [constructor|].
  destruct (p y) eqn:Hy.
  - intros [= _ Hrest]. clear IH. induction l as [|z l IH]; [constructor|].
    cbn [List.filter] in Hrest. destruct (p z) eqn:Hz; [discriminate|].
    constructor; auto.
  - intros Hrest. constructor; auto.
Qed.

(** The signals of an alternative once they are merged: the duplicate of
    the selector is gone, and every signal is under a multiplexer. *)
Lemma merge_dynalt_signals selector_pos selector_len sel v flag sigs sel' sigs' :
  merge_dynalt selector_pos selector_len sel v flag sigs = OK (sel', sigs') ->
  is_Some (name sel) ->
  name sel' = name sel /\ start sel' = start sel /\ length sel' = length sel
  /\ byte_order sel' = byte_order sel
  /\ multiplexer_signal sel' = multiplexer_signal sel
  /\ S (List.length sigs') = List.length sigs
  /\ Forall (fun s : Signal => start s <> selector_pos
                               /\ is_Some (multiplexer_signal s)) sigs'.
Proof.
  unfold merge_dynalt. intros Hmerge Hname.
  apply rbind_ok in Hmerge as (sel1 & Hinit & Hmerge).
  assert (Hsel1 : name sel1 = name sel /\ start sel1 = start sel
                  /\ length sel1 = length sel /\ byte_order sel1 = byte_order sel
                  /\ multiplexer_signal sel1 = multiplexer_signal sel).
  { destruct flag.
    - apply rbind_ok in Hinit as ([] & _ & Hinit). injection Hinit as <-.
      repeat split; reflexivity.
    - injection Hinit as <-. repeat split; reflexivity. }
  destruct (List.filter _ sigs) as [|dup [|]] eqn:Hdup; try discriminate.
  apply rbind_ok in Hmerge as ([] & _ & Hmerge).
  apply rbind_ok in Hmerge as ([] & _ & Hmerge).
  apply rbind_ok in Hmerge as (sel2 & Hupdate & Hmerge). injection Hmerge as <- <-.
  assert (Hsel2 : name sel2 = name sel1 /\ start sel2 = start sel1
                  /\ length sel2 = length sel1 /\ byte_order sel2 = byte_order sel1
                  /\ multiplexer_signal sel2 = multiplexer_signal sel1).
  { destruct (choices dup).
    - apply rbind_ok in Hupdate as (mine & _ & Hupdate). injection Hupdate as <-.
      repeat split; reflexivity.
    - injection Hupdate as <-. repeat split; reflexivity. }
  destruct Hsel1 as (N1 & S1 & L1 & B1 & M1). destruct Hsel2 as (N2 & S2 & L2 & B2 & M2).
  do 5 (split; [congruence|]).
  split.
  { rewrite length_map. clear -Hdup. revert Hdup.
    induction sigs as [|s sigs IH]; cbn [List.filter remove_first]; [discriminate|].
    destruct (start s =? selector_pos); [reflexivity|].
    intros Hdup. cbn [List.length]. rewrite IH; auto. }
  apply remove_first_filter in Hdup. apply Forall_map.
  eapply Forall_impl; [exact Hdup|]. intros s Hs. cbn beta in Hs.
  apply Z.eqb_neq in Hs. unfold claim.
  destruct (multiplexer_signal s) eqn:Hm.
  - rewrite Hm. split; [assumption | eauto].
  - cbn [set_multiplexer start multiplexer_signal]. split; [assumption|].
    rewrite N2, N1. assumption.
Qed.

Lemma load_dynalts_signals load_pdu ld frame_name selector_pos selector_len dynalts :
  forall idx sel sigs idx' sel' sigs',
    outcome (for_each dynalts (idx, sel, sigs)
               (load_dynalt load_pdu ld frame_name selector_pos selector_len))
    = OK (idx', sel', sigs') ->
    is_Some (name sel) ->
    name sel' = name sel /\ start sel' = start sel /\ length sel' = length sel
    /\ byte_order sel' = byte_order sel
    /\ multiplexer_signal sel' = multiplexer_signal sel
    /\ exists dynamic,
        sigs' = sigs ++ dynamic
        /\ Forall (fun s : Signal => start s <> selector_pos
                                     /\ is_Some (multiplexer_signal s)) dynamic.
Proof.
  induction dynalts as [|dynalt dynalts IH];
    intros idx sel sigs idx' sel' sigs' Hrun Hname.
  - injection Hrun as <- <- <-. do 5 (split; [reflexivity|]).
    exists []. rewrite app_nil_r. split; [reflexivity | constructor].
  - cbn [for_each] in Hrun.
    apply outcome_bind_ok in Hrun as ([[idx1 sel1] sigs1] & Hstep & Hrun).
    unfold load_dynalt in Hstep.
    apply outcome_bind_ok in Hstep as (v & _ & Hstep).
    apply outcome_bind_ok in Hstep as (dynalt_pdu & _ & Hstep).
    apply outcome_bind_ok in Hstep as ([[[idx2 bl] dsigs] ct] & _ & Hstep).
    apply outcome_bind_ok in Hstep as (flag & _ & Hstep).
    apply outcome_bind_ok in Hstep as ([sel2 dsigs'] & Hmerge & Hstep).
    injection Hstep as <- <- <-. rewrite outcome_lift in Hmerge.
    destruct (merge_dynalt_signals _ _ _ _ _ _ _ _ Hmerge Hname)
      as (N1 & S1 & L1 & B1 & M1 & _ & Hclaimed).
    destruct (IH _ _ _ _ _ _ Hrun) as (N2 & S2 & L2 & B2 & M2 & dynamic & -> & Hdynamic);
      [rewrite N1; assumption|].
    do 5 (split; [congruence|]).
    exists (dsigs' ++ dynamic). rewrite app_assoc. split; [reflexivity|].
    apply Forall_app. auto.
Qed.

Lemma load_statics_signals load_pdu frame_name static_pdus :
  forall idx sel sigs idx' sel' sigs',
    outcome (for_each static_pdus (idx, sel, sigs) (load_static load_pdu frame_name))
    = OK (idx', sel', sigs') ->
    exists parts,
      Forall2 (fun static_pdu (part : list Signal) =>
                 exists i i' bit_length cycle_time,
                   outcome (load_pdu (Some static_pdu) frame_name i)
                   = OK (i', bit_length, part, cycle_time)) static_pdus parts
      /\ sigs' = sigs ++ concat parts.
Proof.
  induction static_pdus as [|static_pdu static_pdus IH];
    intros idx sel sigs idx' sel' sigs' Hrun.
  - injection Hrun as _ _ <-. exists []. rewrite app_nil_r. split; [constructor | reflexivity].
  - cbn [for_each] in Hrun.
    apply outcome_bind_ok in Hrun as ([[idx1 sel1] sigs1] & Hstep & Hrun).
    unfold load_static in Hstep.
    apply outcome_bind_ok in Hstep as ([[[idx2 bl] ssigs] ct] & Hload & Hstep).
    injection Hstep as <- <- <-.
    destruct (IH _ _ _ _ _ _ Hrun) as (parts & Hparts & ->).
    exists (ssigs :: parts). cbn [concat]. rewrite <- app_assoc.
    split; [|reflexivity]. constructor; [|assumption]. eauto 6.
Qed.

(** X13. The signals a multiplexed PDU decomposes into are the selector
    signal, then the signals of the dynamic part alternatives, then those
    of the static parts.  The selector signal sits at the selector field
    and is itself under no multiplexer.  Among the signals of the
    alternatives the duplicates of the selector are gone, so that none
    starts at the selector position, and each is under a multiplexer: the
    selector, unless a nested one had claimed it before.  The signals of
    the static parts are passed on as their PDUs decompose. *)
Theorem multiplexed_signals_are_claimed :
  forall (load_pdu : option Element -> option string -> Z -> M PduResult)
         (ld : SystemLoader) (pdu : option Element) (frame_name : option string)
         (idx : Z) (sigs : list Signal),
    outcome (_load_pdu_multiplexed_parts load_pdu ld pdu frame_name idx) = OK sigs ->
    exists selector_pos selector_len sel dynamic static_pdus parts,
      outcome (selector_field ld pdu) = OK (selector_pos, selector_len)
      /\ sigs = sel :: dynamic ++ concat parts
      /\ start sel = selector_pos /\ length sel = Some selector_len
      /\ (byte_order sel = "big_endian" \/ byte_order sel = "little_endian")
      /\ multiplexer_signal sel = None
      /\ Forall (fun s : Signal => start s <> selector_pos
                                   /\ is_Some (multiplexer_signal s)) dynamic
      /\ outcome (_get_arxml_children ld pdu (static_pdus_spec ld)) = OK static_pdus
      /\ Forall2 (fun static_pdu (part : list Signal) =>
                    exists i i' bit_length cycle_time,
                      outcome (load_pdu (Some static_pdu) frame_name i)
                      = OK (i', bit_length, part, cycle_time)) static_pdus parts.
Proof.
  intros load_pdu ld pdu frame_name idx sigs Hrun.
  unfold _load_pdu_multiplexed_parts in Hrun.
  apply outcome_bind_ok in Hrun as ([selector_pos selector_len] & Hfield & Hrun).
  apply outcome_bind_ok in Hrun as (order_elem & _ & Hrun).
  apply outcome_bind_ok in Hrun as (order & Horder & Hrun).
  apply outcome_bind_ok in Hrun as (dynalts & _ & Hrun).
  apply outcome_bind_ok in Hrun as ([[idx1 sel1] sigs1] & Hdyn & Hrun).
  apply outcome_bind_ok in Hrun as (static_pdus & Hstatic & Hrun).
  apply outcome_bind_ok in Hrun as ([[idx2 sel2] sigs2] & Hstat & Hrun).
  injection Hrun as <-.
  assert (Horder' : order = "big_endian" \/ order = "little_endian").
  { destruct order_elem as [e|]; [|injection Horder as <-; auto].
    destruct (bool_decide _); [injection Horder as <-; auto|].
    apply outcome_bind_ok in Horder as (? & _ & Horder). injection Horder as <-. auto. }
  apply load_dynalts_signals in Hdyn as (_ & S1 & L1 & B1 & M1 & dynamic & -> & Hdynamic);
    [|cbn; eauto].
  pose proof (load_statics_selector _ _ _ _ _ _ _ _ _ Hstat) as ->.
  apply load_statics_signals in Hstat as (parts & Hparts & ->).
  exists selector_pos, selector_len, sel1, dynamic, static_pdus, parts.
  cbn [app] in *. cbn in S1, L1, B1, M1.
  split; [assumption|]. split; [reflexivity|]. split; [assumption|].
  split; [assumption|]. split; [rewrite B1; assumption|].
  split; [assumption|]. auto.
Qed.

End Signals.

Lemma pdu_signals_follow_the_mappings_witness :
  let ld := loader_of one_alternative in
  let pdu := _arxml_path_to_node (dicts ld) !! "/P/Leaf" in
  exists signals mappings loaded,
    outcome (_load_pdu_signals (H := rational_numerics) ld pdu) = OK signals
    /\ List.length signals = 2%nat
    /\ signal_mappings ld pdu mappings
    /\ Forall2 (fun mapping s => outcome (_load_signal ld mapping) = OK s) mappings loaded
    /\ signals = omap id loaded
    /\ (List.length signals <= List.length mappings)%nat.
Proof.
  intros ld pdu.
  assert (Hcount : count_of (outcome (_load_pdu_signals (H := rational_numerics) ld pdu))
                   = Some 2%nat) by (vm_compute; reflexivity).
  apply count_of_inv in Hcount as (signals & Hrun & Hlen).
  destruct (pdu_signals_follow_the_mappings (H := rational_numerics) ld pdu signals Hrun)
    as (mappings & loaded & Hmappings & Hloaded & Hsignals & Hbound).
  exists signals, mappings, loaded. auto 7.
Defined.

Lemma multiplexed_signals_are_claimed_witness :
  exists sigs selector_pos selector_len sel dynamic static_pdus
         (parts : list (list (@Signal rational_numerics))),
    sample_decomposition one_alternative = OK sigs
    /\ List.length sigs = 2%nat
    /\ outcome (selector_field (loader_of one_alternative) (mux_of one_alternative))
       = OK (selector_pos, selector_len)
    /\ sigs = sel :: dynamic ++ concat parts
    /\ start sel = selector_pos /\ length sel = Some selector_len
    /\ (byte_order sel = "big_endian" \/ byte_order sel = "little_endian")
    /\ multiplexer_signal sel = None
    /\ Forall (fun s : Signal => start s <> selector_pos
                                 /\ is_Some (multiplexer_signal s)) dynamic
    /\ outcome (_get_arxml_children (loader_of one_alternative) (mux_of one_alternative)
                  (static_pdus_spec (loader_of one_alternative))) = OK static_pdus
    /\ Forall2 (fun static_pdu (part : list Signal) =>
                  exists i i' bit_length cycle_time,
                    outcome (_load_pdu 10 (loader_of one_alternative) (Some static_pdu)
                               (Some "F") i)
                    = OK (i', bit_length, part, cycle_time)) static_pdus parts.
Proof.
  assert (Hcount : count_of (sample_decomposition one_alternative) = Some 2%nat)
    by (vm_compute; reflexivity).
  apply count_of_inv in Hcount as (sigs & Hrun & Hlen).
  pose proof Hrun as Hrun'. unfold sample_decomposition in Hrun'.
  destruct (multiplexed_signals_are_claimed (H := rational_numerics)
              (_load_pdu 10 (loader_of one_alternative)) (loader_of one_alternative)
              (mux_of one_alternative) (Some "F") 1 sigs Hrun')
    as (selector_pos & selector_len & sel & dynamic & static_pdus & parts & Hspec).
  exists sigs, selector_pos, selector_len, sel, dynamic, static_pdus, parts.
  split; [exact Hrun|]. split; [exact Hlen|]. exact Hspec.
Defined.

(* ===================================================================== *)
(** * Further properties: the ECU extract loader *)
(* ===================================================================== *)

(** The comprehension of [load] over the module references. *)
Lemma com_xpaths_comprehension (l : list Element) :
  (fix comprehension (l : list Element) : result (list string) :=
     match l with
     | [] => OK []
     | value_ref :: l' =>
         let! t := attr_of (text value_ref) in
         let! r := comprehension l' in
         if py_endswith "/Com" t then OK (t :: r) else OK r
     end) l
  = if forallb (fun value_ref => bool_decide (is_Some (text value_ref))) l
    then OK (com_xpaths_of l)
    else Err AttributeError.
Proof.
  induction l as [|value_ref l IH]; [reflexivity|].
  rewrite IH. cbn [forallb]. unfold com_xpaths_of. simpl.
  destruct (text value_ref) as [t|]; cbn [attr_of rbind]; [|reflexivity].
  rewrite bool_decide_eq_true_2 by eauto. cbn [andb].
  destruct (forallb _ l); cbn [rbind]; [|reflexivity].
  destruct (py_endswith "/Com" t); reflexivity.
Qed.

Section EcuLoad.
Context `{PyNumerics}.

(** X14. The containers an ECU extract is loaded from: there is a value
    collection, every module reference in it has a text, exactly one of
    these texts ends with [/Com], and the containers are those of the
    [ComConfig] container of the [Com] module in the package that this
    text names first.  With no such text, or with more than one, [load]
    raises, telling how many there are. *)
Theorem com_containers_of_the_com_module :
  forall (self : EcuExtractLoader),
    (forall containers,
        com_containers self = OK containers ->
        exists collection com_xpath package config,
          find ECUC_VALUE_COLLECTION_XPATH (ecu_root self) = Some collection
          /\ Forall (fun value_ref => is_Some (text value_ref))
                    (iterfind ECUC_MODULE_CONFIGURATION_VALUES_REF_XPATH [collection])
          /\ com_xpaths_of (iterfind ECUC_MODULE_CONFIGURATION_VALUES_REF_XPATH [collection])
             = [com_xpath]
          /\ second_part (com_xpath +:+ "/ComConfig") = OK package
          /\ find (com_config_path package) (ecu_root self) = Some config
          /\ containers = children config)
    /\ (forall collection,
           find ECUC_VALUE_COLLECTION_XPATH (ecu_root self) = Some collection ->
           Forall (fun value_ref => is_Some (text value_ref))
                  (iterfind ECUC_MODULE_CONFIGURATION_VALUES_REF_XPATH [collection]) ->
           List.length
             (com_xpaths_of (iterfind ECUC_MODULE_CONFIGURATION_VALUES_REF_XPATH [collection]))
           <> 1%nat ->
           ecu_load self
           = Err (ValueError
                    (ComCount
                       (List.length
                          (com_xpaths_of
                             (iterfind ECUC_MODULE_CONFIGURATION_VALUES_REF_XPATH
                                [collection])))))).
Proof.
  intros self. split.
  - intros containers Hrun. unfold com_containers in Hrun.
    destruct (find ECUC_VALUE_COLLECTION_XPATH (ecu_root self)) as [collection|];
      [|discriminate]. cbn [attr_of rbind] in Hrun.
    rewrite com_xpaths_comprehension in Hrun.
    destruct (forallb _ _) eqn:Htexts in Hrun; [|discriminate]. cbn [rbind] in Hrun.
    destruct (com_xpaths_of _) as [|com_xpath [|]] eqn:Hpaths; try discriminate.
    apply rbind_ok in Hrun as (com_config & Hconfig & Hrun).
    destruct com_config as [config|]; [|discriminate]. injection Hrun as <-.
    unfold find_com_config in Hconfig.
    apply rbind_ok in Hconfig as (package & Hpackage & Hconfig).
    apply rbind_ok in Hconfig as (package' & Hquoted & Hconfig).
    assert (package' = package) as ->.
    { unfold quoted in Hquoted. destruct (char_in _ _); [discriminate|]. congruence. }
    injection Hconfig as Hconfig.
    exists collection, com_xpath, package, config.
    split; [reflexivity|]. split.
    { apply Forall_forall. intros value_ref Hin. rewrite forallb_forall in Htexts.
      apply list_elem_of_In in Hin. apply Htexts in Hin.
      apply bool_decide_eq_true in Hin. exact Hin. }
    auto.
  - intros collection Hcollection Htexts Hcount. unfold ecu_load, com_containers.
    rewrite Hcollection. cbn [attr_of rbind]. rewrite com_xpaths_comprehension.
    assert (forallb (fun value_ref => bool_decide (is_Some (text value_ref)))
              (iterfind ECUC_MODULE_CONFIGURATION_VALUES_REF_XPATH [collection]) = true)
      as ->.
    { apply forallb_forall. intros value_ref Hin. apply bool_decide_eq_true.
      rewrite Forall_forall in Htexts. apply Htexts, list_elem_of_In, Hin. }
    cbn [rbind].
    destruct (com_xpaths_of _) as [|com_xpath [|]]; try reflexivity.
    contradiction Hcount. reflexivity.
Qed.

(** A container whose reading raises makes the loop raise. *)
Lemma load_containers_raises self containers c :
  c ∈ containers ->
  (forall b, is_com_i_pdu c <> OK b)
  \/ (is_com_i_pdu c = OK true /\ forall m, load_message self c <> OK m) ->
  forall messages messages', load_containers self containers messages <> OK messages'.
Proof.
  induction containers as [|c' containers IH]; intros Hc Hraises messages messages' Hrun.
  - apply elem_of_nil in Hc. exact Hc.
  - cbn [load_containers] in Hrun.
    apply rbind_ok in Hrun as (b & Hb & Hrun).
    apply elem_of_cons in Hc as [<-|Hc].
    + destruct Hraises as [Hnone | [Hpdu Hmessage]]; [exact (Hnone b Hb)|].
      rewrite Hpdu in Hb. injection Hb as <-. cbn [negb] in Hrun.
      apply rbind_ok in Hrun as (m & Hm & _). exact (Hmessage m Hm).
    + destruct (negb b); [exact (IH Hc Hraises _ _ Hrun)|].
      apply rbind_ok in Hrun as (m & _ & Hrun).
      destruct m; exact (IH Hc Hraises _ _ Hrun).
Qed.

(** X15. A ComIPdu container without a [ComPduIdRef] reference, or with a
    direction that is neither [SEND] nor [RECEIVE], is not skipped: it
    makes [load_message] raise, and a container that makes [load_message]
    raise makes the whole load raise, wherever it stands among the
    containers. *)
Theorem ecu_load_raises_with_a_container :
  forall (self : EcuExtractLoader),
    (forall com_i_pdu name parameters direction references,
        text_of (find SHORT_NAME_XPATH com_i_pdu) = OK name ->
        parameter_elements com_i_pdu = OK parameters ->
        first_value VALUE_XPATH "ComIPduDirection" parameters = OK direction ->
        reference_elements com_i_pdu = OK references ->
        (first_value VALUE_REF_XPATH "ComPduIdRef" references = OK None ->
         load_message self com_i_pdu = Err (ValueError NoComPduIdRef))
        /\ (forall com_pdu_id_ref,
               first_value VALUE_REF_XPATH "ComPduIdRef" references
               = OK (Some com_pdu_id_ref) ->
               direction <> Some "SEND" -> direction <> Some "RECEIVE" ->
               load_message self com_i_pdu = Err (NotImplementedError direction)))
    /\ (forall containers c e,
           com_containers self = OK containers ->
           c ∈ containers ->
           is_com_i_pdu c = OK true ->
           load_message self c = Err e ->
           forall db, ecu_load self <> OK db).
Proof.
  intros self. split.
  - intros com_i_pdu name parameters direction references Hname Hparameters Hdirection
           Hreferences.
    unfold load_message, load_message_can_if.
    rewrite Hname. cbn [rbind]. rewrite Hparameters. cbn [rbind].
    rewrite Hdirection. cbn [rbind]. rewrite Hreferences. cbn [rbind].
    split.
    + intros ->. reflexivity.
    + intros com_pdu_id_ref -> Hsend Hreceive. cbn [rbind].
      rewrite !bool_decide_eq_false_2 by assumption. reflexivity.
  - intros containers c e Hcontainers Hc Hpdu Hmessage db Hload.
    unfold ecu_load in Hload. rewrite Hcontainers in Hload. cbn [rbind] in Hload.
    apply rbind_ok in Hload as (messages & Hmessages & _).
    apply (load_containers_raises self containers c Hc) in Hmessages; [assumption|].
    right. split; [assumption|]. intros m Hm. congruence.
Qed.

End EcuLoad.

Lemma com_containers_of_the_com_module_witness :
  (exists containers collection com_xpath package config,
      com_containers ecu_extract_loader = OK containers
      /\ List.length containers = 2%nat
      /\ find ECUC_VALUE_COLLECTION_XPATH (ecu_root ecu_extract_loader) = Some collection
      /\ com_xpaths_of (iterfind ECUC_MODULE_CONFIGURATION_VALUES_REF_XPATH [collection])
         = [com_xpath]
      /\ second_part (com_xpath +:+ "/ComConfig") = OK package
      /\ find (com_config_path package) (ecu_root ecu_extract_loader) = Some config
      /\ containers = children config)
  /\ ecu_load (H := rational_numerics)
       (mkEcuExtractLoader (fromstring ecu_extract_without_com) true)
     = Err (ValueError (ComCount 0)).
Proof.
  split.
  - assert (Hcount : count_of (com_containers ecu_extract_loader) = Some 2%nat)
      by (vm_compute; reflexivity).
    apply count_of_inv in Hcount as (containers & Hrun & Hlen).
    destruct (proj1 (com_containers_of_the_com_module (H := rational_numerics)
                       ecu_extract_loader) containers Hrun)
      as (collection & com_xpath & package & config & Hc & _ & Hx & Hp & Hf & Heq).
    exists containers, collection, com_xpath, package, config. auto 8.
  - set (self := mkEcuExtractLoader (fromstring ecu_extract_without_com) true).
    destruct (find ECUC_VALUE_COLLECTION_XPATH (ecu_root self)) as [collection|] eqn:Hc;
      [|vm_compute in Hc; discriminate Hc].
    pose proof Hc as Hc'. vm_compute in Hc'. injection Hc' as Hc'.
    assert (Hzero : List.length
                      (com_xpaths_of
                         (iterfind ECUC_MODULE_CONFIGURATION_VALUES_REF_XPATH [collection]))
                    = 0%nat) by (rewrite <- Hc'; vm_compute; reflexivity).
    rewrite <- Hzero at 1.
    apply (proj2 (com_containers_of_the_com_module (H := rational_numerics) self)
             collection Hc).
    + rewrite <- Hc'. vm_compute. repeat constructor. eauto.
    + rewrite Hzero. discriminate.
Defined.

Lemma ecu_load_raises_with_a_container_witness :
  let self := mkEcuExtractLoader (fromstring ecu_extract_without_reference) true in
  let undirected :=
    fromstring (container "Message" "ComIPdu" [parameter "ComIPduDirection" "BOTH"]
                  [reference "ComPduIdRef" "/Ecu/EcuC/Pdu1"]) in
  (exists c, com_containers self = OK [c]
             /\ load_message (H := rational_numerics) self c = Err (ValueError NoComPduIdRef)
             /\ forall db, ecu_load (H := rational_numerics) self <> OK db)
  /\ load_message (H := rational_numerics) self undirected
     = Err (NotImplementedError (Some "BOTH")).
Proof.
  intros self undirected.
  destruct (ecu_load_raises_with_a_container (H := rational_numerics) self)
    as [Hmessage Hload].
  split.
  - destruct (com_containers self) as [[|c [|]]|] eqn:Hcontainers;
      try (vm_compute in Hcontainers; discriminate Hcontainers).
    exists c.
    assert (Hc : is_com_i_pdu c = OK true
                 /\ text_of (find SHORT_NAME_XPATH c) = OK (Some "Message1")
                 /\ (exists parameters references,
                        parameter_elements c = OK parameters
                        /\ first_value VALUE_XPATH "ComIPduDirection" parameters
                           = OK (Some "SEND")
                        /\ reference_elements c = OK references
                        /\ first_value VALUE_REF_XPATH "ComPduIdRef" references = OK None)).
    { vm_compute in Hcontainers. injection Hcontainers as <-.
      split; [vm_compute; reflexivity|]. split; [vm_compute; reflexivity|].
      eexists _, _. split; [vm_compute; reflexivity|].
      split; [vm_compute; reflexivity|]. split; vm_compute; reflexivity. }
    destruct Hc as (Hpdu & Hname & parameters & references & Hp & Hd & Hr & Hnone).
    pose proof (proj1 (Hmessage c _ _ _ _ Hname Hp Hd Hr) Hnone) as Hraise.
    split; [reflexivity|]. split; [exact Hraise|].
    apply (Hload [c] c (ValueError NoComPduIdRef) eq_refl);
      [apply elem_of_cons; auto | exact Hpdu | exact Hraise].
  - refine (proj2 (Hmessage undirected (Some "Message") _ (Some "BOTH") _ _ _ _ _)
              "/Ecu/EcuC/Pdu1" _ _ _);
      try (vm_compute; reflexivity); discriminate.
Defined.

Section EcuSignals.
Context `{PyNumerics}.

(** A parameter that no item carries is not collected. *)
Lemma collect_signal_lacks items :
  forall bit_position length byte_order is_signed is_float
         bit_position' length' byte_order' is_signed' is_float',
    collect_signal items (bit_position, length, byte_order, is_signed, is_float)
    = OK (bit_position', length', byte_order', is_signed', is_float') ->
    (lacks "ComBitPosition" items -> bit_position' = bit_position)
    /\ (lacks "ComBitSize" items -> length' = length)
    /\ (lacks "ComSignalEndianness" items -> byte_order' = byte_order).
Proof.
  induction items as [|item items IH];
    intros bit_position length byte_order is_signed is_float
           bit_position' length' byte_order' is_signed' is_float' Hrun.
  - injection Hrun as <- <- <- _ _. auto.
  - cbn [collect_signal] in Hrun.
    apply rbind_ok in Hrun as ([parameter value] & Hitem & Hrun).
    apply rbind_ok in Hrun as ([[[[b1 l1] o1] s1] f1] & Hacc & Hrun).
    apply IH in Hrun as (Hb & Hl & Ho).
    assert (Hstep : (parameter <> "ComBitPosition" -> b1 = bit_position)
                    /\ (parameter <> "ComBitSize" -> l1 = length)
                    /\ (parameter <> "ComSignalEndianness" -> o1 = byte_order)).
    { destruct (String.eqb_spec parameter "ComBitPosition") as [->|Hne1].
      { apply rbind_ok in Hacc as (n & _ & Hacc). injection Hacc as <- <- <- _ _.
        repeat split; congruence. }
      destruct (String.eqb_spec parameter "ComBitSize") as [->|Hne2].
      { apply rbind_ok in Hacc as (n & _ & Hacc). injection Hacc as <- <- <- _ _.
        repeat split; congruence. }
      destruct (String.eqb_spec parameter "ComSignalEndianness") as [->|Hne3].
      { apply rbind_ok in Hacc as (v & _ & Hacc). injection Hacc as <- <- <- _ _.
        repeat split; congruence. }
      destruct (String.eqb parameter "ComSignalType").
      - destruct (string_in _ value); [injection Hacc as <- <- <- _ _; auto|].
        destruct (string_in _ value); injection Hacc as <- <- <- _ _; auto.
      - injection Hacc as <- <- <- _ _. auto. }
    destruct Hstep as (Hb1 & Hl1 & Ho1).
    unfold lacks. rewrite !Forall_cons.
    repeat split; intros [Hhead Htail].
    + rewrite Hb by assumption. apply Hb1. eapply Hhead. eassumption.
    + rewrite Hl by assumption. apply Hl1. eapply Hhead. eassumption.
    + rewrite Ho by assumption. apply Ho1. eapply Hhead. eassumption.
Qed.

(** X16. A signal of an ECU extract is skipped, not refused: when the
    path names no container of [ComConfig], or when the container has no
    parameter for the bit position, for the bit size or for the
    endianness, [load_signal] returns [None].  A signal that is loaded is
    not scaled and has no range, unit or choices.  The signals of a
    message are at most as many as its references to signals. *)
Theorem ecu_signals_skip_incomplete_signals :
  forall (self : EcuExtractLoader),
    (forall xpath,
        find_value self xpath = OK None -> load_signal self (Some xpath) = OK None)
    /\ (forall xpath container items r,
           find_value self xpath = OK (Some container) ->
           parameter_elements container = OK items ->
           (lacks "ComBitPosition" items \/ lacks "ComBitSize" items
            \/ lacks "ComSignalEndianness" items) ->
           load_signal self (Some xpath) = OK r -> r = None)
    /\ (forall xpath s,
           load_signal self xpath = OK (Some s) ->
           scale s = PyInt 1 /\ offset s = PyInt 0
           /\ minimum s = None /\ maximum s = None
           /\ unit s = None /\ choices s = None /\ initial s = None
           /\ is_multiplexer s = false)
    /\ (forall values signals signals',
           load_message_signals self values signals = OK signals' ->
           exists more,
             signals' = signals ++ more
             /\ (List.length more <= List.length (List.filter is_signal_reference values))%nat).
Proof.
  intros self. split; [|split; [|split]].
  - intros xpath Hnone. unfold load_signal. cbn [attr_of rbind]. rewrite Hnone. reflexivity.
  - intros xpath container items r Hcontainer Hitems Hlacks Hrun.
    unfold load_signal in Hrun. cbn [attr_of rbind] in Hrun.
    rewrite Hcontainer in Hrun. cbn [rbind] in Hrun.
    apply rbind_ok in Hrun as (name & _ & Hrun).
    rewrite Hitems in Hrun. cbn [rbind] in Hrun.
    apply rbind_ok in Hrun as ([[[[b l] o] s] f] & Hcollect & Hrun).
    apply collect_signal_lacks in Hcollect as (Hb & Hl & Ho).
    destruct Hlacks as [Hlacks|[Hlacks|Hlacks]].
    + rewrite (Hb Hlacks) in Hrun. congruence.
    + rewrite (Hl Hlacks) in Hrun. destruct b; congruence.
    + rewrite (Ho Hlacks) in Hrun. destruct b; [destruct l|]; congruence.
  - intros xpath s Hrun. unfold load_signal in Hrun.
    apply rbind_ok in Hrun as (xpath' & _ & Hrun).
    apply rbind_ok in Hrun as (container & _ & Hrun).
    destruct container as [container|]; [|discriminate].
    apply rbind_ok in Hrun as (name & _ & Hrun).
    apply rbind_ok in Hrun as (items & _ & Hrun).
    apply rbind_ok in Hrun as ([[[[b l] o] sg] f] & _ & Hrun).
    destruct b; [destruct l; [destruct o|]|]; try discriminate.
    injection Hrun as <-. repeat split; reflexivity.
  - intros values. induction values as [|value values IH]; intros signals signals' Hrun.
    + injection Hrun as <-. exists []. rewrite app_nil_r. split; [reflexivity | simpl; lia].
    + cbn [load_message_signals] in Hrun.
      apply rbind_ok in Hrun as (definition_ref & Hdef & Hrun).
      apply rbind_ok in Hrun as (definition_ref' & Hdef' & Hrun).
      destruct definition_ref as [d|]; [|discriminate]. injection Hdef' as <-.
      cbn [List.filter]. unfold is_signal_reference at 1. rewrite Hdef.
      destruct (py_endswith "ComIPduSignalRef" d); cbn [negb] in Hrun.
      * apply rbind_ok in Hrun as (value_ref & _ & Hrun).
        apply rbind_ok in Hrun as (signal & _ & Hrun).
        destruct signal as [s|]; apply IH in Hrun as (more & -> & Hmore).
        -- exists (s :: more). rewrite <- app_assoc. split; [reflexivity|].
           cbn [List.length]. lia.
        -- exists more. split; [reflexivity|]. cbn [List.length]. lia.
      * apply IH in Hrun as (more & -> & Hmore). eauto.
Qed.

End EcuSignals.

Lemma ecu_signals_skip_incomplete_signals_witness :
  let self := mkEcuExtractLoader (fromstring ecu_extract_with_signals) true in
  load_signal (H := rational_numerics) self (Some "/Ecu/Com/ComConfig/Missing") = OK None
  /\ load_signal (H := rational_numerics) self (Some "/Ecu/Com/ComConfig/Signal2") = OK None
  /\ signal_counts (ecu_load (H := rational_numerics) self) = Some [1%nat]
  /\ (exists s, load_signal (H := rational_numerics) self (Some "/Ecu/Com/ComConfig/Signal1")
                = OK (Some s)
                /\ scale s = PyInt 1 /\ offset s = PyInt 0)
  /\ (exists signals',
         load_message_signals (H := rational_numerics) self [] [] = OK signals'
         /\ exists more, signals' = [] ++ more
                         /\ (List.length more
                             <= List.length (List.filter is_signal_reference []))%nat).
Proof.
  intros self.
  destruct (ecu_signals_skip_incomplete_signals (H := rational_numerics) self)
    as (Hmissing & Hskip & Hdefaults & Hcount).
  split; [apply Hmissing; vm_compute; reflexivity|].
  split.
  { destruct (find_value self "/Ecu/Com/ComConfig/Signal2") as [[container|]|] eqn:Hc;
      try (vm_compute in Hc; discriminate Hc).
    assert (Hitems : exists items, parameter_elements container = OK items
                                   /\ lacks "ComBitSize" items).
    { vm_compute in Hc. injection Hc as <-. eexists. split; [vm_compute; reflexivity|].
      repeat constructor; intros name' value Hitem; vm_compute in Hitem;
        injection Hitem as <- <-; discriminate. }
    destruct Hitems as (items & Hitems & Hlacks).
    assert (Hok : is_ok (load_signal (H := rational_numerics) self
                           (Some "/Ecu/Com/ComConfig/Signal2")) = true)
      by (vm_compute; reflexivity).
    apply is_ok_inv in Hok as [r Hr]. rewrite Hr. f_equal.
    exact (Hskip _ container items r Hc Hitems (or_intror (or_introl Hlacks)) Hr). }
  split; [vm_compute; reflexivity|].
  split.
  { assert (Hsome : exists s, load_signal (H := rational_numerics) self
                                (Some "/Ecu/Com/ComConfig/Signal1") = OK (Some s)).
    { assert (Hok : is_ok (load_signal (H := rational_numerics) self
                             (Some "/Ecu/Com/ComConfig/Signal1")) = true)
        by (vm_compute; reflexivity).
      apply is_ok_inv in Hok as [[s|] Hr]; [eauto|].
      assert (Hnone : match load_signal (H := rational_numerics) self
                              (Some "/Ecu/Com/ComConfig/Signal1") with
                      | OK None => false | _ => true end = true)
        by (vm_compute; reflexivity).
      rewrite Hr in Hnone. discriminate Hnone. }
    destruct Hsome as [s Hs]. exists s. split; [exact Hs|].
    destruct (Hdefaults _ s Hs) as (Hscale & Hoffset & _). auto. }
  exists []. split; [reflexivity|]. exact (Hcount [] [] [] eq_refl).
Defined.

(** The CanIf entry the search returns refers to the PDU. *)
Lemma refers_to_item expected com_pdu_id_ref items :
  refers_to expected com_pdu_id_ref items = OK true ->
  exists item, item ∈ items
               /\ value_item VALUE_REF_XPATH item = OK (expected, Some com_pdu_id_ref).
Proof.
  induction items as [|item items IH]; cbn [refers_to]; [discriminate|].
  intros Hrun. apply rbind_ok in Hrun as ([reference value] & Hitem & Hrun).
  destruct (String.eqb_spec reference expected) as [->|Hne]; cbn [andb] in Hrun.
  - destruct (bool_decide (value = Some com_pdu_id_ref)) eqn:Hvalue.
    + apply bool_decide_eq_true in Hvalue as ->. exists item.
      split; [apply elem_of_cons; auto | assumption].
    + destruct (IH Hrun) as (item' & Hin & Hitem'). exists item'.
      split; [apply elem_of_cons; auto | assumption].
  - destruct (IH Hrun) as (item' & Hin & Hitem'). exists item'.
    split; [apply elem_of_cons; auto | assumption].
Qed.

Lemma refers_to_no_item expected com_pdu_id_ref items :
  refers_to expected com_pdu_id_ref items = OK false ->
  forall item, item ∈ items ->
               value_item VALUE_REF_XPATH item <> OK (expected, Some com_pdu_id_ref).
Proof.
  induction items as [|item items IH]; cbn [refers_to]; intros Hrun item' Hin.
  - apply elem_of_nil in Hin. tauto.
  - apply rbind_ok in Hrun as ([reference value] & Hitem & Hrun).
    apply elem_of_cons in Hin as [->|Hin].
    + intros Hitem'. rewrite Hitem in Hitem'. injection Hitem' as -> ->.
      rewrite String.eqb_refl, bool_decide_eq_true_2 in Hrun by reflexivity.
      discriminate Hrun.
    + destruct (_ && _); [discriminate|]. exact (IH Hrun item' Hin).
Qed.

Lemma search_can_if_spec com_pdu_id_ref messages found :
  search_can_if com_pdu_id_ref messages = OK found ->
  match found with
  | Some cfg =>
      exists definition_ref expected references item,
        cfg ∈ messages
        /\ text_of (find DEFINITION_REF_XPATH cfg) = OK (Some definition_ref)
        /\ expected_reference definition_ref = Some expected
        /\ reference_elements cfg = OK references
        /\ item ∈ references
        /\ value_item VALUE_REF_XPATH item = OK (expected, Some com_pdu_id_ref)
  | None =>
      forall cfg definition_ref expected references item,
        cfg ∈ messages ->
        text_of (find DEFINITION_REF_XPATH cfg) = OK (Some definition_ref) ->
        expected_reference definition_ref = Some expected ->
        reference_elements cfg = OK references ->
        item ∈ references ->
        value_item VALUE_REF_XPATH item <> OK (expected, Some com_pdu_id_ref)
  end.
Proof.
  revert found.
  induction messages as [|message messages IH]; cbn [search_can_if]; intros found Hrun.
  - injection Hrun as <-. intros cfg ? ? ? ? Hin. apply elem_of_nil in Hin. tauto.
  - apply rbind_ok in Hrun as (definition_ref & Hdef & Hrun).
    apply rbind_ok in Hrun as (definition_ref' & Hdef' & Hrun).
    destruct definition_ref as [d|]; [|discriminate]. injection Hdef' as <-.
    fold (expected_reference d) in Hrun.
    assert (Hrest : forall found',
               search_can_if com_pdu_id_ref messages = OK found' ->
               (forall references item expected,
                   expected_reference d = Some expected ->
                   reference_elements message = OK references ->
                   item ∈ references ->
                   value_item VALUE_REF_XPATH item <> OK (expected, Some com_pdu_id_ref)) ->
               match found' with
               | Some cfg =>
                   exists definition_ref expected references item,
                     cfg ∈ message :: messages
                     /\ text_of (find DEFINITION_REF_XPATH cfg) = OK (Some definition_ref)
                     /\ expected_reference definition_ref = Some expected
                     /\ reference_elements cfg = OK references
                     /\ item ∈ references
                     /\ value_item VALUE_REF_XPATH item = OK (expected, Some com_pdu_id_ref)
               | None =>
                   forall cfg definition_ref expected references item,
                     cfg ∈ message :: messages ->
                     text_of (find DEFINITION_REF_XPATH cfg) = OK (Some definition_ref) ->
                     expected_reference definition_ref = Some expected ->
                     reference_elements cfg = OK references ->
                     item ∈ references ->
                     value_item VALUE_REF_XPATH item <> OK (expected, Some com_pdu_id_ref)
               end).
    { intros found' Hfound' Hhere. apply IH in Hfound'. destruct found' as [cfg|].
      - destruct Hfound' as (dr & ex & rs & it & Hin & Hrest).
        exists dr, ex, rs, it. split; [apply elem_of_cons; auto | exact Hrest].
      - intros cfg dr ex rs it Hin Hdr Hex Hrs Hit.
        apply elem_of_cons in Hin as [->|Hin]; [|eapply Hfound'; eassumption].
        rewrite Hdef in Hdr. injection Hdr as <-. eapply Hhere; eassumption. }
    destruct (expected_reference d) as [expected|] eqn:Hexpected.
    + apply rbind_ok in Hrun as (references & Hreferences & Hrun).
      apply rbind_ok in Hrun as (hit & Hhit & Hrun). destruct hit.
      * injection Hrun as <-. apply refers_to_item in Hhit as (item & Hin & Hitem).
        exists d, expected, references, item.
        split; [apply elem_of_cons; auto|]. auto.
      * apply (Hrest _ Hrun). intros references' item expected' [= <-] Hreferences' Hin.
        rewrite Hreferences in Hreferences'. injection Hreferences' as <-.
        eapply refers_to_no_item; eassumption.
    + apply (Hrest _ Hrun). discriminate.
Qed.

(** X17. The CanIf entry found for a PDU reference is a container of
    [CanIfInitCfg] in the package the reference names first, defined as a
    transmit or a receive PDU configuration, with a reference of the
    matching kind, [CanIfTxPduRef] or [CanIfRxPduRef], whose value is the
    PDU reference.  When no entry is found, no transmit or receive
    configuration there has such a reference. *)
Theorem can_if_entry_refers_to_the_pdu :
  forall (self : EcuExtractLoader) (com_pdu_id_ref : string) (found : option Element),
    find_can_if_rx_tx_pdu_cfg self com_pdu_id_ref = OK found ->
    exists package,
      second_part com_pdu_id_ref = OK package
      /\ match found with
         | Some cfg =>
             exists definition_ref expected references item,
               cfg ∈ iterfind (can_if_path package) [ecu_root self]
               /\ text_of (find DEFINITION_REF_XPATH cfg) = OK (Some definition_ref)
               /\ expected_reference definition_ref = Some expected
               /\ reference_elements cfg = OK references
               /\ item ∈ references
               /\ value_item VALUE_REF_XPATH item = OK (expected, Some com_pdu_id_ref)
         | None =>
             forall cfg definition_ref expected references item,
               cfg ∈ iterfind (can_if_path package) [ecu_root self] ->
               text_of (find DEFINITION_REF_XPATH cfg) = OK (Some definition_ref) ->
               expected_reference definition_ref = Some expected ->
               reference_elements cfg = OK references ->
               item ∈ references ->
               value_item VALUE_REF_XPATH item <> OK (expected, Some com_pdu_id_ref)
         end.
Proof.
  intros self com_pdu_id_ref found Hrun. unfold find_can_if_rx_tx_pdu_cfg in Hrun.
  apply rbind_ok in Hrun as (package & Hpackage & Hrun).
  apply rbind_ok in Hrun as (package' & Hquoted & Hrun).
  assert (package' = package) as ->.
  { unfold quoted in Hquoted. destruct (char_in _ _); [discriminate|]. congruence. }
  exists package. split; [assumption|].
  apply search_can_if_spec. assumption.
Qed.

Lemma can_if_entry_refers_to_the_pdu_witness :
  exists cfg package definition_ref expected references item,
    find_can_if_rx_tx_pdu_cfg ecu_extract_loader "/Ecu/EcuC/Pdu1" = OK (Some cfg)
    /\ second_part "/Ecu/EcuC/Pdu1" = OK package
    /\ cfg ∈ iterfind (can_if_path package) [ecu_root ecu_extract_loader]
    /\ text_of (find DEFINITION_REF_XPATH cfg) = OK (Some definition_ref)
    /\ expected_reference definition_ref = Some expected
    /\ reference_elements cfg = OK references
    /\ item ∈ references
    /\ value_item VALUE_REF_XPATH item = OK (expected, Some "/Ecu/EcuC/Pdu1").
Proof.
  destruct (find_can_if_rx_tx_pdu_cfg ecu_extract_loader "/Ecu/EcuC/Pdu1")
    as [[cfg|]|] eqn:Hfound; try (vm_compute in Hfound; discriminate Hfound).
  destruct (can_if_entry_refers_to_the_pdu ecu_extract_loader "/Ecu/EcuC/Pdu1"
              (Some cfg) Hfound)
    as (package & Hpackage & dr & ex & rs & it & Hspec).
  exists cfg, package, dr, ex, rs, it. split; [reflexivity|]. split; assumption.
Defined.

(* ===================================================================== *)
(** * Further properties: text tables and linear scaling *)
(* ===================================================================== *)

Section Scaling.
Context `{PyNumerics}.

(** The running bound of [_load_texttable] is the bound aggregated over
    the limits that are there. *)
Lemma merge_bound_aggregate (pick : pynum -> pynum -> pynum)
      (limits : list (option pynum)) :
  forall bound,
    fold_left (merge_bound pick) limits bound = aggregate pick bound (omap id limits).
Proof.
  unfold omap.
  induction limits as [|[v|] limits IH]; intros bound; cbn [fold_left];
    [destruct bound; reflexivity| |].
  - rewrite IH. destruct bound as [b|]; reflexivity.
  - rewrite IH. destruct bound as [b|]; reflexivity.
Qed.

(** The loop of [_load_texttable] on what it reads. *)
Lemma texttable_loop ld (is_float : bool) compu_scales :
  forall minimum maximum choices minimum' maximum' choices',
    outcome
      (for_each compu_scales (minimum, maximum, choices)
         (fun compu_scale acc =>
            let '(minimum, maximum, choices) := acc in
            let* lower_limit := _get_unique_arxml_child ld (Some compu_scale) ["LOWER-LIMIT"] in
            let* upper_limit := _get_unique_arxml_child ld (Some compu_scale) ["UPPER-LIMIT"] in
            let* vt := _get_unique_arxml_child ld (Some compu_scale) ["&COMPU-CONST"; "VT"] in
            let* comments := _load_comments ld (Some compu_scale) in
            let* minimum_int_scale :=
              lift ((if is_float then float_limit else int_limit) lower_limit) in
            let* maximum_int_scale :=
              lift ((if is_float then float_limit else int_limit) upper_limit) in
            let minimum := merge_bound py_min minimum minimum_int_scale in
            let maximum := merge_bound py_max maximum maximum_int_scale in
            match vt with
            | Some vt =>
                let* lower_text := lift (text_of lower_limit) in
                let* value := lift (parse_int_text lower_text) in
                ret (minimum, maximum,
                     <[value := mkNamedSignalValue value (text vt) comments]> choices)
            | None => ret (minimum, maximum, choices)
            end))
    = OK (minimum', maximum', choices') ->
    exists tss,
      Forall2 (reads_text_scale ld is_float) compu_scales tss
      /\ minimum' = fold_left (merge_bound py_min) (tx_lower <$> tss) minimum
      /\ maximum' = fold_left (merge_bound py_max) (tx_upper <$> tss) maximum
      /\ choices' = text_entries tss choices.
Proof.
  induction compu_scales as [|compu_scale compu_scales IH];
    intros minimum maximum choices minimum' maximum' choices' Hrun.
  - injection Hrun as <- <- <-. exists []. split; [constructor|]. auto.
  - cbn [for_each] in Hrun.
    apply outcome_bind_ok in Hrun as ([[mn1 mx1] ch1] & Hstep & Hrun).
    apply outcome_bind_ok in Hstep as (lower_limit & Hlower & Hstep).
    apply outcome_bind_ok in Hstep as (upper_limit & Hupper & Hstep).
    apply outcome_bind_ok in Hstep as (vt & Hvt & Hstep).
    apply outcome_bind_ok in Hstep as (comments & Hcomments & Hstep).
    apply outcome_bind_ok in Hstep as (lo & Hlo & Hstep).
    apply outcome_bind_ok in Hstep as (hi & Hhi & Hstep).
    rewrite outcome_lift in Hlo, Hhi.
    destruct (IH _ _ _ _ _ _ Hrun) as (tss & Hreads & -> & -> & ->).
    destruct vt as [vt|].
    + apply outcome_bind_ok in Hstep as (lower_text & Htext & Hstep).
      apply outcome_bind_ok in Hstep as (value & Hvalue & Hstep).
      rewrite outcome_lift in Htext. rewrite outcome_lift in Hvalue.
      injection Hstep as <- <- <-.
      destruct lower_limit as [lower|]; [|discriminate Htext].
      injection Htext as <-.
      exists (mkTextScale lo hi (Some (mkNamedSignalValue value (text vt) comments)) :: tss).
      split; [|auto].
      constructor; [|exact Hreads].
      exists (Some lower), upper_limit, (Some vt), comments. cbn.
      do 6 (split; [assumption|]). eauto.
    + injection Hstep as <- <- <-.
      exists (mkTextScale lo hi None :: tss). split; [|auto].
      constructor; [|exact Hreads].
      exists lower_limit, upper_limit, None, comments. cbn. auto 8.
Qed.

Lemma text_entries_present (tss : list TextScale) :
  forall table ts entry,
    ts ∈ tss -> tx_entry ts = Some entry ->
    exists entry', text_entries tss table !! nsv_value entry = Some entry'
                   /\ nsv_value entry' = nsv_value entry.
Proof.
  assert (Hkeep : forall tss table k e,
             table !! k = Some e -> nsv_value e = k ->
             exists e', text_entries tss table !! k = Some e' /\ nsv_value e' = k).
  { clear. induction tss as [|ts tss IH]; intros table k e Hk He; [eauto|].
    unfold text_entries. cbn [fold_left].
    change (fold_left _ tss ?t) with (text_entries tss t).
    destruct (tx_entry ts) as [entry|]; [|eauto].
    destruct (decide (nsv_value entry = k)) as [<-|Hne].
    - eapply IH; [apply lookup_insert_eq | reflexivity].
    - eapply IH; [rewrite lookup_insert_ne by assumption; eassumption | assumption]. }
  induction tss as [|ts' tss IH]; intros table ts entry Hin Hentry.
  - apply elem_of_nil in Hin. tauto.
  - unfold text_entries. cbn [fold_left].
    change (fold_left _ tss ?t) with (text_entries tss t).
    apply elem_of_cons in Hin as [<-|Hin].
    + rewrite Hentry. eapply Hkeep; [apply lookup_insert_eq | reflexivity].
    + eapply IH; eassumption.
Qed.

(** X18. For a COMPU-METHOD of category TEXTTABLE whose loading returns:
    the choices are the entries of the named scales, each under the
    integer its lower limit denotes, in document order, so that every
    named scale has a lower limit and is found among the choices under
    that value; the minimum and the maximum are [min] and [max] over the
    lower and the upper limits that are there, the limits being read as
    floats for a float signal and as integers otherwise; and these bounds
    are what the decimal record of the signal receives. *)
Theorem texttable_spec :
  forall (ld : SystemLoader) (compu_method : option Element) (decimal : SignalDecimal)
         (is_float : bool) mn mx table decimal',
    outcome (_load_texttable ld compu_method decimal is_float)
    = OK (mn, mx, table, decimal') ->
    exists compu_scales tss,
      outcome (_get_arxml_children ld compu_method compu_scales_location) = OK compu_scales
      /\ Forall2 (reads_text_scale ld is_float) compu_scales tss
      /\ table = text_entries tss ∅
      /\ (forall ts entry,
             ts ∈ tss -> tx_entry ts = Some entry ->
             exists entry', table !! nsv_value entry = Some entry'
                            /\ nsv_value entry' = nsv_value entry)
      /\ mn = aggregate py_min None (omap tx_lower tss)
      /\ mx = aggregate py_max None (omap tx_upper tss)
      /\ decimal' = mkSignalDecimal (dec_scale decimal) (dec_offset decimal)
                      (VNum <$> mn) (VNum <$> mx).
Proof.
  intros ld compu_method decimal is_float mn mx table decimal' Hrun.
  unfold _load_texttable in Hrun.
  apply outcome_bind_ok in Hrun as (compu_scales & Hscales & Hrun).
  apply outcome_bind_ok in Hrun as ([[mn1 mx1] table1] & Hloop & Hrun).
  injection Hrun as <- <- <- <-.
  apply texttable_loop in Hloop as (tss & Hreads & -> & -> & ->).
  exists compu_scales, tss.
  split; [exact Hscales|]. split; [exact Hreads|]. split; [reflexivity|].
  split; [intros ts entry; apply text_entries_present|].
  rewrite !merge_bound_aggregate.
  assert (Homap : forall (f : TextScale -> option pynum),
             omap id (f <$> tss) = omap f tss).
  { intros f. unfold omap. clear. induction tss as [|ts tss IH]; [reflexivity|].
    simpl. destruct (f ts); simpl; [f_equal|]; exact IH. }
  rewrite !Homap. auto.
Qed.

End Scaling.

Lemma texttable_spec_witness :
  text_table_numbers
  = Some (Some 0%Q, Some 7%Q, [Some (Some "off"); Some (Some "on"); None])
  /\ exists mn mx table decimal' compu_scales
            (tss : list (@TextScale rational_numerics)),
      outcome (_load_texttable (H := rational_numerics) (loader_of text_table)
                 (method_of text_table)
                 (mkSignalDecimal (decimal_of_int 1) (decimal_of_int 0) None None) false)
      = OK (mn, mx, table, decimal')
      /\ Forall2 (reads_text_scale (loader_of text_table) false) compu_scales tss
      /\ table = text_entries tss ∅
      /\ mn = aggregate py_min None (omap tx_lower tss)
      /\ mx = aggregate py_max None (omap tx_upper tss).
Proof.
  split; [vm_compute; reflexivity|].
  assert (Hok : is_ok (outcome (_load_texttable (H := rational_numerics)
                                  (loader_of text_table) (method_of text_table)
                                  (mkSignalDecimal (decimal_of_int 1) (decimal_of_int 0)
                                     None None) false)) = true)
    by (vm_compute; reflexivity).
  apply is_ok_inv in Hok as [[[[mn mx] table] decimal'] Hrun].
  destruct (texttable_spec (H := rational_numerics) _ _ _ _ _ _ _ _ Hrun)
    as (compu_scales & tss & _ & Hreads & Htable & _ & Hmn & Hmx & _).
  exists mn, mx, table, decimal', compu_scales, tss. auto 6.
Defined.

Section Linear.
Context `{PyNumerics}.

(** X19. The linear coefficients of a [COMPU-SCALE]: without a
    [COMPU-RATIONAL-COEFFS] element there are none and the decimal record
    is left alone; with one there must be exactly two numerators and one
    denominator, or a [ValueError] tells how many there are; the scale is
    the second numerator over the denominator, the offset the first one
    over the denominator, both computed as decimals, stored in the decimal
    record and returned as floats. *)
Theorem linear_factor_and_offset_spec :
  forall (ld : SystemLoader) (compu_scale : option Element) (decimal : SignalDecimal),
    (forall fo decimal',
        outcome (_load_linear_factor_and_offset ld compu_scale decimal)
        = OK (fo, decimal') ->
        exists coeffs,
          rational_coefficients ld compu_scale coeffs
          /\ match coeffs with
             | None => fo = None /\ decimal' = decimal
             | Some (dscale, doffset) =>
                 exists fscale foffset,
                   float_of_decimal dscale = OK fscale
                   /\ float_of_decimal doffset = OK foffset
                   /\ fo = Some (fscale, foffset)
                   /\ decimal' = mkSignalDecimal dscale doffset
                                   (dec_minimum decimal) (dec_maximum decimal)
             end)
    /\ (forall c numerators,
           outcome (_get_unique_arxml_child ld compu_scale ["&COMPU-RATIONAL-COEFFS"])
           = OK (Some c) ->
           outcome (_get_arxml_children ld (Some c) ["&COMPU-NUMERATOR"; "*&V"])
           = OK numerators ->
           (List.length numerators <> 2%nat ->
            outcome (_load_linear_factor_and_offset ld compu_scale decimal)
            = Err (ValueError (NumeratorCount (List.length numerators))))
           /\ (forall denominators,
                  List.length numerators = 2%nat ->
                  outcome (_get_arxml_children ld (Some c) ["&COMPU-DENOMINATOR"; "*&V"])
                  = OK denominators ->
                  List.length denominators <> 1%nat ->
                  outcome (_load_linear_factor_and_offset ld compu_scale decimal)
                  = Err (ValueError (DenominatorCount (List.length denominators))))).
Proof.
  intros ld compu_scale decimal. split.
  - intros fo decimal' Hrun. unfold _load_linear_factor_and_offset in Hrun.
    apply outcome_bind_ok in Hrun as (rc & Hrc & Hrun).
    destruct rc as [c|].
    + apply outcome_bind_ok in Hrun as (numerators & Hnum & Hrun).
      destruct numerators as [|n0 [|n1 [|]]]; try discriminate Hrun.
      apply outcome_bind_ok in Hrun as (denominators & Hden & Hrun).
      destruct denominators as [|d0 [|]]; try discriminate Hrun.
      apply outcome_bind_ok in Hrun as (den & Hd & Hrun).
      apply outcome_bind_ok in Hrun as (num1 & Hn1 & Hrun).
      apply outcome_bind_ok in Hrun as (dscale & Hs & Hrun).
      apply outcome_bind_ok in Hrun as (num0 & Hn0 & Hrun).
      apply outcome_bind_ok in Hrun as (doffset & Ho & Hrun).
      apply outcome_bind_ok in Hrun as (fscale & Hfs & Hrun).
      apply outcome_bind_ok in Hrun as (foffset & Hfo & Hrun).
      injection Hrun as <- <-.
      exists (Some (dscale, doffset)). split.
      * exists (Some c). split; [assumption|].
        exists n0, n1, d0, den, num0, num1, dscale, doffset.
        repeat split; assumption.
      * exists fscale, foffset. split; [exact Hfs|]. split; [exact Hfo|]. auto.
    + injection Hrun as <- <-. exists None. split; [|auto].
      exists None. auto.
  - intros c numerators Hrc Hnum. unfold _load_linear_factor_and_offset.
    rewrite (outcome_bind _ _ _ Hrc). rewrite (outcome_bind _ _ _ Hnum).
    split.
    + intros Hcount. destruct numerators as [|n0 [|n1 [|]]]; try reflexivity.
      contradiction Hcount. reflexivity.
    + intros denominators Htwo Hden Hcount.
      destruct numerators as [|n0 [|n1 [|]]]; try discriminate Htwo.
      rewrite (outcome_bind _ _ _ Hden).
      destruct denominators as [|d0 [|]]; try reflexivity.
      contradiction Hcount. reflexivity.
Qed.

(** X20. For a COMPU-METHOD of category LINEAR whose loading returns:
    there is one scale; the factor and the offset are floats, the
    coefficients of the scale or 1.0 and 0.0 when it has none; the limits
    are read as integers, also for a float signal; the minimum and the
    maximum are the limits times the factor plus the offset, each present
    exactly when its limit is; and the decimal record receives them as
    decimals. *)
Theorem linear_spec :
  forall (ld : SystemLoader) (compu_method : option Element) (decimal : SignalDecimal)
         (is_float : bool) mn mx factor offset decimal',
    outcome (_load_linear ld compu_method decimal is_float)
    = OK (mn, mx, factor, offset, decimal') ->
    exists compu_scale lower_limit upper_limit lo hi fo decimal1,
      outcome (_get_unique_arxml_child ld compu_method
                 ["COMPU-INTERNAL-TO-PHYS"; "COMPU-SCALES"; "&COMPU-SCALE"])
      = OK (Some compu_scale)
      /\ outcome (_get_unique_arxml_child ld (Some compu_scale) ["&LOWER-LIMIT"])
         = OK lower_limit
      /\ outcome (_get_unique_arxml_child ld (Some compu_scale) ["&UPPER-LIMIT"])
         = OK upper_limit
      /\ int_limit lower_limit = OK lo /\ int_limit upper_limit = OK hi
      /\ outcome (_load_linear_factor_and_offset ld (Some compu_scale) decimal)
         = OK (fo, decimal1)
      /\ factor = PyFloat (match fo with Some (f, _) => f | None => float_one end)
      /\ offset = PyFloat (match fo with Some (_, o) => o | None => float_zero end)
      /\ project lo factor offset = OK mn /\ project hi factor offset = OK mx
      /\ (is_Some mn <-> is_Some lower_limit) /\ (is_Some mx <-> is_Some upper_limit)
      /\ decimal' = mkSignalDecimal (dec_scale decimal1) (dec_offset decimal1)
                      ((fun m => VDecimal (decimal_of_num m)) <$> mn)
                      ((fun m => VDecimal (decimal_of_num m)) <$> mx).
Proof.
  intros ld compu_method decimal is_float mn mx factor offset decimal' Hrun.
  unfold _load_linear in Hrun.
  apply outcome_bind_ok in Hrun as (compu_scale & Hscale & Hrun).
  apply outcome_bind_ok in Hrun as (lower_limit & Hlower & Hrun).
  apply outcome_bind_ok in Hrun as (upper_limit & Hupper & Hrun).
  apply outcome_bind_ok in Hrun as (lo & Hlo & Hrun).
  apply outcome_bind_ok in Hrun as (hi & Hhi & Hrun).
  apply outcome_bind_ok in Hrun as ([fo decimal1] & Hfo & Hrun).
  apply outcome_bind_ok in Hrun as (mn' & Hmn & Hrun).
  apply outcome_bind_ok in Hrun as (mx' & Hmx & Hrun).
  injection Hrun as <- <- <- <- <-.
  rewrite outcome_lift in Hlo, Hhi, Hmn, Hmx.
  destruct compu_scale as [compu_scale|]; [|discriminate Hlower].
  assert (Hsome : forall (limit : option Element) l m f o,
             int_limit limit = OK l -> project l f o = OK m ->
             (is_Some m <-> is_Some limit)).
  { intros limit l m f o Hl Hm. unfold int_limit, limit_value in Hl.
    destruct limit as [e|].
    - apply rbind_ok in Hl as (v & _ & Hl). injection Hl as <-.
      cbn [project] in Hm. apply rbind_ok in Hm as (y & _ & Hm). injection Hm as <-.
      split; eauto.
    - injection Hl as <-. injection Hm as <-. split; intros [? ?]; discriminate. }
  exists compu_scale, lower_limit, upper_limit, lo, hi, fo, decimal1.
  do 6 (split; [assumption|]).
  split; [destruct fo as [[f o]|]; reflexivity|].
  split; [destruct fo as [[f o]|]; reflexivity|].
  split; [assumption|]. split; [assumption|].
  split; [eapply Hsome; eassumption|]. split; [eapply Hsome; eassumption|].
  reflexivity.
Qed.

End Linear.

Lemma linear_factor_and_offset_spec_witness :
  (exists compu_scale fo decimal'
          (coeffs : option (@pydecimal rational_numerics * @pydecimal rational_numerics)),
      outcome (_get_unique_arxml_child (loader_of linear_method) (method_of linear_method)
                 ["COMPU-INTERNAL-TO-PHYS"; "COMPU-SCALES"; "&COMPU-SCALE"])
      = OK (Some compu_scale)
      /\ outcome (_load_linear_factor_and_offset (H := rational_numerics)
                    (loader_of linear_method) (Some compu_scale)
                    (mkSignalDecimal (decimal_of_int 1) (decimal_of_int 0) None None))
         = OK (fo, decimal')
      /\ rational_coefficients (loader_of linear_method) (Some compu_scale) coeffs
      /\ is_Some coeffs)
  /\ error_of (outcome (_load_linear_factor_and_offset (H := rational_numerics)
                          (loader_of three_numerators) (method_of three_numerators)
                          (mkSignalDecimal (decimal_of_int 1) (decimal_of_int 0) None None)))
     = Some (ValueError (NumeratorCount 3)).
Proof.
  set (decimal := mkSignalDecimal (decimal_of_int 1) (decimal_of_int 0) None None).
  split.
  - assert (Hs : is_ok (outcome (_get_unique_arxml_child (loader_of linear_method)
                                   (method_of linear_method)
                                   ["COMPU-INTERNAL-TO-PHYS"; "COMPU-SCALES"; "&COMPU-SCALE"]))
                 = true) by (vm_compute; reflexivity).
    apply is_ok_inv in Hs as [[compu_scale|] Hscale];
      [|vm_compute in Hscale; discriminate Hscale].
    assert (Hok : match outcome (_load_linear_factor_and_offset (H := rational_numerics)
                                   (loader_of linear_method) (Some compu_scale) decimal) with
                  | OK (Some _, _) => true
                  | _ => false
                  end = true).
    { pose proof Hscale as Hscale'. vm_compute in Hscale'. injection Hscale' as <-.
      vm_compute. reflexivity. }
    destruct (outcome (_load_linear_factor_and_offset (H := rational_numerics)
                         (loader_of linear_method) (Some compu_scale) decimal))
      as [[[fo|] decimal']|] eqn:Hrun; try discriminate Hok.
    destruct (proj1 (linear_factor_and_offset_spec (H := rational_numerics)
                       (loader_of linear_method) (Some compu_scale) decimal)
                _ _ Hrun) as (coeffs & Hcoeffs & Hfo).
    exists compu_scale, (Some fo), decimal', coeffs.
    split; [exact Hscale|]. split; [exact Hrun|]. split; [exact Hcoeffs|].
    destruct coeffs as [c|]; [eauto|]. destruct Hfo as [Hfo _]. discriminate Hfo.
  - destruct (linear_factor_and_offset_spec (H := rational_numerics)
                (loader_of three_numerators) (method_of three_numerators) decimal)
      as [_ Hcount].
    assert (Hc : is_ok (outcome (_get_unique_arxml_child (loader_of three_numerators)
                                   (method_of three_numerators)
                                   ["&COMPU-RATIONAL-COEFFS"])) = true)
      by (vm_compute; reflexivity).
    apply is_ok_inv in Hc as [[c|] Hc]; [|vm_compute in Hc; discriminate Hc].
    assert (Hn : count_of (outcome (_get_arxml_children (loader_of three_numerators)
                                      (Some c) ["&COMPU-NUMERATOR"; "*&V"])) = Some 3%nat).
    { pose proof Hc as Hc'. vm_compute in Hc'. injection Hc' as <-.
      vm_compute. reflexivity. }
    apply count_of_inv in Hn as (numerators & Hnum & Hlen).
    destruct (Hcount c numerators Hc Hnum) as [Hraise _].
    rewrite Hraise by (rewrite Hlen; discriminate). rewrite Hlen. reflexivity.
Defined.

Lemma linear_spec_witness :
  linear_method_numbers = Some (Some 3%Q, Some 23%Q, 2%Q, 3%Q)
  /\ exists mn mx factor offset decimal' compu_scale fo decimal1,
      outcome (_load_linear (H := rational_numerics) (loader_of linear_method)
                 (method_of linear_method)
                 (mkSignalDecimal (decimal_of_int 1) (decimal_of_int 0) None None) false)
      = OK (mn, mx, factor, offset, decimal')
      /\ outcome (_load_linear_factor_and_offset (loader_of linear_method)
                    (Some compu_scale)
                    (mkSignalDecimal (decimal_of_int 1) (decimal_of_int 0) None None))
         = OK (fo, decimal1)
      /\ factor = PyFloat (match fo with Some (f, _) => f | None => float_one end)
      /\ offset = PyFloat (match fo with Some (_, o) => o | None => float_zero end).
Proof.
  split; [vm_compute; reflexivity|].
  assert (Hok : is_ok (outcome (_load_linear (H := rational_numerics)
                                  (loader_of linear_method) (method_of linear_method)
                                  (mkSignalDecimal (decimal_of_int 1) (decimal_of_int 0)
                                     None None) false)) = true)
    by (vm_compute; reflexivity).
  apply is_ok_inv in Hok as [[[[[mn mx] factor] offset] decimal'] Hrun].
  destruct (linear_spec (H := rational_numerics) _ _ _ _ _ _ _ _ _ Hrun)
    as (compu_scale & lower_limit & upper_limit & lo & hi & fo & decimal1
        & _ & _ & _ & _ & _ & Hfo & Hfactor & Hoffset & _).
  exists mn, mx, factor, offset, decimal', compu_scale, fo, decimal1. auto.
Defined.

(* ===================================================================== *)
(** * Comments *)
(* ===================================================================== *)

Section Comments.

(** An element of another language does not touch the comment of a
    language. *)
Lemma comments_fold_other (l_2s : list Element) :
  forall (result : Comments) lang,
    (forall l_2, l_2 ∈ l_2s -> language l_2 <> lang) ->
    fold_left (fun result l_2 => <[language l_2 := text l_2]> result) l_2s result !! lang
    = result !! lang.
Proof.
  induction l_2s as [|l l_2s IH]; intros result lang Hother; cbn [fold_left];
    [reflexivity|].
  rewrite IH by (intros; apply Hother, elem_of_cons; auto).
  apply lookup_insert_ne. apply Hother, elem_of_cons. auto.
Qed.

(** The loop of [_load_comments] drops no language. *)
Lemma comments_fold_kept (l_2s : list Element) :
  forall (result : Comments) lang,
    is_Some (result !! lang) ->
    is_Some (fold_left (fun result l_2 => <[language l_2 := text l_2]> result)
               l_2s result !! lang).
Proof.
  induction l_2s as [|l l_2s IH]; intros result lang Hlang; cbn [fold_left];
    [exact Hlang|].
  apply IH. apply lookup_insert_is_Some.
  destruct (decide (language l = lang)); auto.
Qed.

(** The dictionary the loop of [_load_comments] builds. *)
Lemma comments_fold (l_2s : list Element) :
  forall (result : Comments),
    let result' := fold_left (fun result l_2 => <[language l_2 := text l_2]> result)
                             l_2s result in
    (forall l_2, l_2 ∈ l_2s -> is_Some (result' !! language l_2))
    /\ (forall lang t, result' !! lang = Some t ->
                       result !! lang = Some t
                       \/ exists l_2, l_2 ∈ l_2s /\ language l_2 = lang /\ text l_2 = t)
    /\ (forall before l_2 after,
           l_2s = before ++ l_2 :: after ->
           (forall other, other ∈ after -> language other <> language l_2) ->
           result' !! language l_2 = Some (text l_2)).
Proof.
  intros result result'.
  assert (Hlast : forall before l_2 after,
             l_2s = before ++ l_2 :: after ->
             (forall other, other ∈ after -> language other <> language l_2) ->
             result' !! language l_2 = Some (text l_2)).
  { intros before l_2 after -> Hafter. unfold result'.
    rewrite fold_left_app. cbn [fold_left].
    rewrite comments_fold_other by assumption. apply lookup_insert_eq. }
  split; [|split; [|exact Hlast]].
  - intros l_2 Hin. subst result'. clear Hlast. revert result.
    induction l_2s as [|l l_2s IH]; intros result; [apply elem_of_nil in Hin; tauto|].
    cbn [fold_left]. apply elem_of_cons in Hin as [->|Hin]; [|auto].
    apply comments_fold_kept. unfold Comments. rewrite lookup_insert_eq. eauto.
  - intros lang t. subst result'. clear Hlast. revert result. unfold Comments.
    induction l_2s as [|l l_2s IH]; intros result; cbn [fold_left]; [auto|].
    intros Hlang. apply IH in Hlang as [Hlang|(l_2 & Hl & Hlang)].
    + destruct (decide (language l = lang)) as [<-|Hne].
      * rewrite lookup_insert_eq in Hlang. injection Hlang as <-.
        right. exists l. split; [apply elem_of_cons; auto | auto].
      * rewrite lookup_insert_ne in Hlang by assumption. auto.
    + right. exists l_2. split; [apply elem_of_cons; auto | assumption].
Qed.

(** X21. The comments of a node: there are none when the node has no
    [DESC] with [L-2] elements; otherwise every [L-2] element puts its
    text under its language ([EN] when it names none), every comment
    comes from such an element, and of two elements of one language the
    later one decides. *)
Theorem comments_spec :
  forall (ld : SystemLoader) (node : option Element) (result : option Comments),
    outcome (_load_comments ld node) = OK result ->
    exists l_2s,
      outcome (_get_arxml_children ld node ["DESC"; "*L-2"]) = OK l_2s
      /\ (result = None <-> l_2s = [])
      /\ (forall l_2, l_2 ∈ l_2s ->
             exists comments, result = Some comments
                              /\ is_Some (comments !! language l_2))
      /\ (forall comments lang t,
             result = Some comments -> comments !! lang = Some t ->
             exists l_2, l_2 ∈ l_2s /\ language l_2 = lang /\ text l_2 = t)
      /\ (forall comments before l_2 after,
             result = Some comments ->
             l_2s = before ++ l_2 :: after ->
             (forall other, other ∈ after -> language other <> language l_2) ->
             comments !! language l_2 = Some (text l_2)).
Proof.
  intros ld node result Hrun. unfold _load_comments in Hrun.
  apply outcome_bind_ok in Hrun as (l_2s & Hl_2s & Hrun).
  exists l_2s. split; [exact Hl_2s|].
  fold language in Hrun.
  change (fun (result : Comments) (l_2 : Element) =>
            <[default "EN" (attrib_get "L" (attrib l_2)) := text l_2]> result)
    with (fun (result : Comments) (l_2 : Element) => <[language l_2 := text l_2]> result)
    in Hrun.
  destruct (comments_fold l_2s ∅) as (Hin & Hfrom & Hlast). cbv zeta in *.
  unfold Comments in *.
  set (comments := fold_left _ l_2s ∅) in *.
  destruct (bool_decide (size comments = 0%nat)) eqn:Hsize.
  - injection Hrun as <-. apply bool_decide_eq_true in Hsize.
    apply map_size_empty_iff in Hsize.
    assert (Hnil : l_2s = []).
    { destruct l_2s as [|l l_2s]; [reflexivity|].
      destruct (Hin l) as [t Ht]; [apply elem_of_cons; auto|].
      rewrite Hsize, lookup_empty in Ht. discriminate. }
    split; [tauto|]. subst l_2s.
    split; [intros l_2 Hl; apply elem_of_nil in Hl; tauto|].
    split; [discriminate|]. discriminate.
  - injection Hrun as <-. apply bool_decide_eq_false in Hsize.
    split.
    { split; [discriminate|]. intros ->. contradiction Hsize. reflexivity. }
    split; [eauto|]. split.
    + intros comments' lang t [= <-] Hlang.
      apply Hfrom in Hlang as [Hlang|Hlang]; [|exact Hlang].
      rewrite lookup_empty in Hlang. discriminate.
    + intros comments' before l_2 after [= <-]. apply Hlast.
Qed.

End Comments.

Lemma comments_spec_witness :
  sample_comments described_frame
  = Some [Some (Some "a frame"); Some (Some "ein Rahmen"); None]
  /\ exists result l_2s,
      outcome (_load_comments (loader_of described_frame)
                 (_arxml_path_to_node (dicts (loader_of described_frame)) !! "/P/F"))
      = OK result
      /\ List.length l_2s = 3%nat
      /\ outcome (_get_arxml_children (loader_of described_frame)
                    (_arxml_path_to_node (dicts (loader_of described_frame)) !! "/P/F")
                    ["DESC"; "*L-2"]) = OK l_2s
      /\ (result = None <-> l_2s = []).
Proof.
  split; [vm_compute; reflexivity|].
  assert (Hok : is_ok (outcome (_load_comments 
                                  (loader_of described_frame)
                                  (_arxml_path_to_node (dicts (loader_of described_frame))
                                     !! "/P/F"))) = true)
    by (vm_compute; reflexivity).
  apply is_ok_inv in Hok as [result Hrun].
  destruct (comments_spec _ _ _ Hrun)
    as (l_2s & Hl_2s & Hnone & _).
  assert (Hcount : count_of (outcome (_get_arxml_children (loader_of described_frame)
                                        (_arxml_path_to_node
                                           (dicts (loader_of described_frame)) !! "/P/F")
                                        ["DESC"; "*L-2"])) = Some 3%nat)
    by (vm_compute; reflexivity).
  rewrite Hl_2s in Hcount. injection Hcount as Hcount.
  exists result, l_2s. auto.
Defined.

(* ===================================================================== *)
(** * The type of a signal *)
(* ===================================================================== *)

(** No signal is both signed and floating point. *)
Lemma load_signal_type_exclusive (ld : SystemLoader) (i_signal : option Element)
      (is_signed is_float : bool) :
  outcome (_load_signal_type ld i_signal) = OK (is_signed, is_float) ->
  is_signed && is_float = false.
Proof.
  unfold _load_signal_type. intros Hrun.
  apply outcome_bind_ok in Hrun as ([base_type|] & _ & Hrun);
    [|injection Hrun as <- <-; reflexivity].
  apply outcome_bind_ok in Hrun as ([encoding|] & _ & Hrun); [|discriminate].
  cbv zeta in Hrun.
  repeat match type of Hrun with
         | context [if ?b then _ else _] => destruct b
         end; injection Hrun as <- <-; reflexivity.
Qed.

(** X22. The type of a signal: unsigned and not a float without a base
    type; signed for the encodings [2C], [1C] and [SM], a float for
    [IEEE754], never both; and a base type without an encoding raises a
    [NameError], since the message of the error the source means to raise
    is built from a variable that does not exist. *)
Theorem signal_type_spec (ld : SystemLoader) (i_signal : option Element) :
  (outcome (_get_sw_base_type ld i_signal) = OK None ->
   outcome (_load_signal_type ld i_signal) = OK (false, false))
  /\ (forall base_type,
         outcome (_get_sw_base_type ld i_signal) = OK (Some base_type) ->
         outcome (_get_unique_arxml_child ld (Some base_type) ["&BASE-TYPE-ENCODING"])
         = OK None ->
         outcome (_load_signal_type ld i_signal) = Err NameError)
  /\ (forall base_type encoding,
         outcome (_get_sw_base_type ld i_signal) = OK (Some base_type) ->
         outcome (_get_unique_arxml_child ld (Some base_type) ["&BASE-TYPE-ENCODING"])
         = OK (Some encoding) ->
         outcome (_load_signal_type ld i_signal)
         = OK (bool_decide (text encoding ∈ [Some "2C"; Some "1C"; Some "SM"]),
               bool_decide (text encoding = Some "IEEE754")))
  /\ (forall is_signed is_float,
         outcome (_load_signal_type ld i_signal) = OK (is_signed, is_float) ->
         is_signed && is_float = false).
Proof.
  split; [|split; [|split]]; [| | |intros ? ?; apply load_signal_type_exclusive];
    unfold _load_signal_type.
  - intros Hbase. rewrite (outcome_bind _ _ _ Hbase). reflexivity.
  - intros base_type Hbase Henc. rewrite (outcome_bind _ _ _ Hbase).
    rewrite (outcome_bind _ _ _ Henc). reflexivity.
  - intros base_type encoding Hbase Henc. rewrite (outcome_bind _ _ _ Hbase).
    rewrite (outcome_bind _ _ _ Henc). cbv zeta.
    destruct (text encoding) as [enc|] eqn:Htext.
    + destruct (decide (enc = "2C")) as [->|H2c]; [reflexivity|].
      destruct (decide (enc = "1C")) as [->|H1c]; [reflexivity|].
      destruct (decide (enc = "SM")) as [->|Hsm]; [reflexivity|].
      rewrite !bool_decide_eq_false_2 by congruence. cbn [orb].
      rewrite (bool_decide_eq_false_2 (Some enc ∈ _)).
      * destruct (bool_decide (Some enc = Some "IEEE754")); reflexivity.
      * rewrite !elem_of_cons, elem_of_nil. intros [?|[?|[?|[]]]]; congruence.
    + reflexivity.
Qed.

Lemma signal_type_spec_witness :
  error_of (outcome (_load_signal_type (loader_of base_types) (node_at base_types "/P/Data")))
  = Some NameError
  /\ outcome (_load_signal_type (loader_of base_types) (node_at base_types "/P/Speed"))
     = OK (true, false).
Proof.
  split.
  - destruct (outcome (_get_sw_base_type (loader_of base_types)
                         (node_at base_types "/P/Data"))) as [[base_type|]|e] eqn:Hbase;
      try (vm_compute in Hbase; discriminate).
    assert (Henc : outcome (_get_unique_arxml_child (loader_of base_types) (Some base_type)
                              ["&BASE-TYPE-ENCODING"]) = OK None).
    { vm_compute in Hbase. injection Hbase as <-. vm_compute. reflexivity. }
    destruct (signal_type_spec (loader_of base_types) (node_at base_types "/P/Data"))
      as (_ & Hbare & _).
    rewrite (Hbare base_type Hbase Henc). reflexivity.
  - destruct (outcome (_get_sw_base_type (loader_of base_types)
                         (node_at base_types "/P/Speed"))) as [[base_type|]|e] eqn:Hbase;
      try (vm_compute in Hbase; discriminate).
    destruct (outcome (_get_unique_arxml_child (loader_of base_types) (Some base_type)
                         ["&BASE-TYPE-ENCODING"])) as [[encoding|]|e] eqn:Henc;
      try (vm_compute in Hbase; injection Hbase as <-; vm_compute in Henc; discriminate).
    destruct (signal_type_spec (loader_of base_types) (node_at base_types "/P/Speed"))
      as (_ & _ & Hencoded & _).
    rewrite (Hencoded base_type encoding Hbase Henc).
    vm_compute in Hbase. injection Hbase as <-. vm_compute in Henc. injection Henc as <-.
    vm_compute. reflexivity.
Defined.

(* ===================================================================== *)
(** * Signals *)
(* ===================================================================== *)

Section Signals.
Context `{PyNumerics}.

(** The byte order of a signal is one of two. *)
Lemma load_signal_byte_order_cases (ld : SystemLoader) (mapping : option Element)
      (order : string) :
  outcome (_load_signal_byte_order ld mapping) = OK order ->
  order = "big_endian" \/ order = "little_endian".
Proof.
  unfold _load_signal_byte_order. intros Hrun.
  apply outcome_bind_ok in Hrun as ([e|] & _ & Hrun).
  - destruct (bool_decide _); injection Hrun as <-; auto.
  - injection Hrun as <-; auto.
Qed.

(** [_get_i_signal] is the lookup [_load_signal] repeats. *)
Lemma get_i_signal_unfold (ld : SystemLoader) (mapping : option Element) :
  _get_i_signal ld mapping
  = _get_unique_arxml_child ld mapping [if is_ar4 ld then "&I-SIGNAL" else "&SIGNAL"].
Proof. unfold _get_i_signal. destruct (is_ar4 ld); reflexivity. Qed.

(** X23. A mapping without a signal (that of a signal group) gives no
    signal, and neither does a signal whose system signal reference leads
    to anything but a [SYSTEM-SIGNAL].  A signal that is returned is the
    mapped signal at the mapped position: it has the short name of the
    I-SIGNAL, its system signal, if it has one, is a [SYSTEM-SIGNAL], its
    byte order is big or little endian, it is not both signed and a float,
    and it is no multiplexer and belongs to none. *)
Theorem signal_groups_are_skipped (ld : SystemLoader) (mapping : Element) :
  (outcome (_get_i_signal ld (Some mapping)) = OK None ->
   outcome (_load_signal ld mapping) = OK None)
  /\ (forall i_signal system_signal,
         outcome (_get_i_signal ld (Some mapping)) = OK (Some i_signal) ->
         outcome (_get_unique_arxml_child ld (Some i_signal) ["&SYSTEM-SIGNAL"])
         = OK (Some system_signal) ->
         tag system_signal <> ns_tag ld "SYSTEM-SIGNAL" ->
         outcome (_load_signal ld mapping) = OK None)
  /\ (forall signal,
         outcome (_load_signal ld mapping) = OK (Some signal) ->
         (exists i_signal,
             outcome (_get_i_signal ld (Some mapping)) = OK (Some i_signal)
             /\ outcome (_load_signal_name ld (Some i_signal)) = OK (name signal)
             /\ (forall system_signal,
                    outcome (_get_unique_arxml_child ld (Some i_signal) ["&SYSTEM-SIGNAL"])
                    = OK (Some system_signal) ->
                    tag system_signal = ns_tag ld "SYSTEM-SIGNAL"))
         /\ outcome (_load_signal_start_position ld (Some mapping)) = OK (start signal)
         /\ (byte_order signal = "big_endian" \/ byte_order signal = "little_endian")
         /\ is_signed signal && is_float signal = false
         /\ is_multiplexer signal = false
         /\ multiplexer_ids signal = None
         /\ multiplexer_signal signal = None).
Proof.
  split; [|split].
  - intros Hnone. unfold _load_signal. cbv zeta.
    rewrite (outcome_bind _ _ _ Hnone). reflexivity.
  - intros i_signal system_signal Hsignal Hsystem Htag. unfold _load_signal. cbv zeta.
    rewrite (outcome_bind _ _ _ Hsignal). rewrite (outcome_bind _ _ _ Hsystem).
    unfold has_tag. apply String.eqb_neq in Htag. rewrite Htag. reflexivity.
  - intros signal Hrun. unfold _load_signal in Hrun. cbv zeta in Hrun.
    apply outcome_bind_ok in Hrun as ([i_signal|] & Hsignal & Hrun); [|discriminate].
    apply outcome_bind_ok in Hrun as (system_signal & Hsystem & Hrun).
    destruct (match system_signal with
              | Some s => negb (has_tag (ns_tag ld "SYSTEM-SIGNAL") s)
              | None => false
              end) eqn:Hgroup; [discriminate|].
    rewrite <- get_i_signal_unfold in Hrun.
    apply outcome_bind_ok in Hrun as (i_signal' & Hsignal' & Hrun).
    rewrite Hsignal in Hsignal'. injection Hsignal' as <-.
    apply outcome_bind_ok in Hrun as (name & Hname & Hrun).
    apply outcome_bind_ok in Hrun as (start_position & Hstart & Hrun).
    apply outcome_bind_ok in Hrun as (length & _ & Hrun).
    apply outcome_bind_ok in Hrun as (order & Horder & Hrun).
    apply outcome_bind_ok in Hrun as ([is_signed is_float] & Htype & Hrun).
    apply outcome_bind_ok in Hrun as (ss & _ & Hrun).
    apply outcome_bind_ok in Hrun as (initial & _ & Hrun).
    apply outcome_bind_ok in Hrun as (initial' & _ & Hrun).
    injection Hrun as <-. cbn.
    split.
    { exists i_signal. split; [exact Hsignal|]. split; [exact Hname|].
      intros s Hs. rewrite Hsystem in Hs. injection Hs as ->.
      apply negb_false_iff in Hgroup. apply String.eqb_eq. exact Hgroup. }
    split; [exact Hstart|].
    split; [exact (load_signal_byte_order_cases _ _ _ Horder)|].
    split; [exact (load_signal_type_exclusive _ _ _ _ Htype)|]. auto.
Qed.

End Signals.

Lemma signal_groups_are_skipped_witness :
  exists first group grouped,
    sample_mappings signals_and_groups = [first; group; grouped]
    /\ outcome (_load_signal (H := rational_numerics) (loader_of signals_and_groups) group)
       = OK None
    /\ outcome (_load_signal (H := rational_numerics) (loader_of signals_and_groups) grouped)
       = OK None.
Proof.
  assert (Hsample :
            exists first group grouped,
              sample_mappings signals_and_groups = [first; group; grouped]
              /\ outcome (_get_i_signal (loader_of signals_and_groups) (Some group)) = OK None
              /\ exists i_signal system_signal,
                  outcome (_get_i_signal (loader_of signals_and_groups) (Some grouped))
                  = OK (Some i_signal)
                  /\ outcome (_get_unique_arxml_child (loader_of signals_and_groups)
                                (Some i_signal) ["&SYSTEM-SIGNAL"])
                     = OK (Some system_signal)
                  /\ tag system_signal <> ns_tag (loader_of signals_and_groups) "SYSTEM-SIGNAL").
  { destruct (sample_mappings signals_and_groups)
      as [|first [|group [|grouped [|]]]] eqn:Hmappings;
      try (vm_compute in Hmappings; discriminate).
    exists first, group, grouped. split; [reflexivity|].
    vm_compute in Hmappings. injection Hmappings as _ <- <-.
    split; [vm_compute; reflexivity|].
    eexists. eexists. split; [vm_compute; reflexivity|].
    split; [vm_compute; reflexivity|]. vm_compute. discriminate. }
  destruct Hsample as (first & group & grouped & Hmappings & Hnone
                       & i_signal & system_signal & Hsignal & Hsystem & Htag).
  exists first, group, grouped. split; [exact Hmappings|]. split.
  - apply (signal_groups_are_skipped (H := rational_numerics)). exact Hnone.
  - apply (signal_groups_are_skipped (H := rational_numerics)
             (loader_of signals_and_groups) grouped)
      with (i_signal := i_signal) (system_signal := system_signal); assumption.
Defined.

(* ===================================================================== *)
(** * [load_string] and the loaders *)
(* ===================================================================== *)

Lemma append_cons (x : ascii) (a b : string) : String x a +:+ b = String x (a +:+ b).
Proof. reflexivity. Qed.

Lemma append_associative (a b c : string) : (a +:+ b) +:+ c = a +:+ (b +:+ c).
Proof.
  induction a as [|x a IH]; [reflexivity|]. rewrite !append_cons, IH. reflexivity.
Qed.

Lemma append_empty (a : string) : a +:+ "" = a.
Proof.
  induction a as [|x a IH]; [reflexivity|]. rewrite append_cons, IH. reflexivity.
Qed.

Lemma all_chars_weaken (p q : ascii -> bool) (s : string) :
  (forall c, p c = true -> q c = true) ->
  all_chars p s = true -> all_chars q s = true.
Proof.
  intros Hpq. induction s as [|c s IH]; [reflexivity|]. cbn.
  intros [Hc Hs]%andb_true_iff. rewrite (Hpq c Hc). cbn. auto.
Qed.

(** [$] leaves a text as it is or takes a final newline off it. *)
Lemma chomp_cases (s : string) : s = chomp s \/ s = chomp s +:+ String "010" "".
Proof.
  induction s as [|c s IH]; [auto|]. cbn [chomp]. destruct s as [|c' s].
  - destruct (ascii_eqb c "010") eqn:Hc; [|auto].
    right. apply Ascii.eqb_eq in Hc. subst c. reflexivity.
  - destruct IH as [IH|IH]; [left | right; rewrite append_cons]; f_equal; exact IH.
Qed.

Lemma chomp_without_newline (s : string) :
  all_chars (fun c => negb (is_newline c)) s = true -> chomp s = s.
Proof.
  induction s as [|c s IH]; [reflexivity|]. cbn [all_chars chomp].
  intros [Hc Hs]%andb_true_iff. destruct s as [|c' s].
  - unfold is_newline in Hc. destruct (ascii_eqb c "010"); [discriminate|reflexivity].
  - f_equal. auto.
Qed.

Lemma digit_or_dot_no_newline (c : ascii) :
  digit_or_dot c = true -> negb (is_newline c) = true.
Proof.
  unfold is_newline. destruct (ascii_eqb c "010") eqn:Hc; [|reflexivity].
  apply Ascii.eqb_eq in Hc. subst c. vm_compute. discriminate.
Qed.

(** The reversal of a text, twice. *)
Lemma rev_app_append (s acc : string) :
  String.rev_app s acc = String.rev_app s "" +:+ acc.
Proof.
  revert acc. induction s as [|c s IH]; intros acc; [reflexivity|].
  cbn [String.rev_app]. rewrite IH, (IH (String c "")), append_associative. reflexivity.
Qed.

Lemma rev_app_rev_app (s a b : string) :
  String.rev_app (String.rev_app s a) b = String.rev_app a (s +:+ b).
Proof.
  revert a. induction s as [|c s IH]; intros a; [reflexivity|].
  cbn [String.rev_app]. rewrite IH. reflexivity.
Qed.

Lemma rev_last (r r' : string) (d : ascii) :
  String.rev r = String d r' -> r = String.rev r' +:+ String d "".
Proof.
  intros Hrev. assert (Hr : String.rev (String.rev r) = r).
  { unfold String.rev. rewrite rev_app_rev_app. cbn. apply append_empty. }
  rewrite <- Hr, Hrev. unfold String.rev. cbn [String.rev_app].
  apply rev_app_append.
Qed.

(** A group that can stop somewhere stops somewhere, and not before. *)
Lemma greedy_group_here (follows : string -> bool) (s : string) :
  follows s = true -> is_Some (greedy_group follows s).
Proof.
  intros Hs. destruct s as [|c s]; cbn [greedy_group]; rewrite Hs; [eauto|].
  destruct (is_newline c); [eauto|]. destruct (greedy_group follows s); eauto.
Qed.

Lemma greedy_group_extends (follows : string -> bool) (p rest : string) :
  all_chars (fun c => negb (is_newline c)) p = true ->
  follows rest = true ->
  exists q, greedy_group follows (p +:+ rest) = Some (p +:+ q).
Proof.
  intros Hp Hrest. induction p as [|c p IH]; [|rewrite !append_cons].
  - change ("" +:+ rest) with rest.
    destruct (greedy_group_here follows rest Hrest) as [q Hq]. eauto.
  - cbn [all_chars] in Hp. apply andb_true_iff in Hp as [Hc Hp].
    destruct (IH Hp) as [q Hq]. exists q. cbn [greedy_group].
    apply negb_true_iff in Hc. rewrite Hc, Hq. reflexivity.
Qed.

(** The tag the loader takes its namespace from: [load_string] finds a
    namespace in it that begins with the loader's. *)
Lemma match_braced_extends (t ns : string) :
  match_root_tag t = Some ns ->
  all_chars (fun c => negb (is_newline c)) ns = true
  /\ exists q, match_braced_autosar t = Some (ns +:+ q).
Proof.
  intros Hmatch. pose proof (match_root_tag_shape _ _ Hmatch) as Hshape.
  assert (Hline : all_chars (fun c => negb (is_newline c)) ns = true).
  { unfold match_root_tag in Hmatch.
    destruct (strip_prefix "{" (chomp t)); [|discriminate].
    destruct (strip_suffix "}AUTOSAR" s); [|discriminate].
    destruct (all_chars _ s0) eqn:Hall; [|discriminate].
    injection Hmatch as <-. exact Hall. }
  split; [exact Hline|].
  assert (Htag : exists final, t = String "{" (ns +:+ ("}AUTOSAR" +:+ final))).
  { unfold qname in Hshape. destruct (chomp_cases t) as [Ht|Ht]; rewrite Hshape in Ht.
    - exists "". rewrite Ht. rewrite append_cons. change ("" +:+ ?x) with x.
      rewrite append_empty. reflexivity.
    - exists (String "010" ""). rewrite Ht. rewrite !append_cons.
      change ("" +:+ ?x) with x. rewrite append_associative. reflexivity. }
  destruct Htag as [final ->]. unfold match_braced_autosar.
  change (strip_prefix "{" (String "{" (ns +:+ "}AUTOSAR" +:+ final)))
    with (Some (ns +:+ "}AUTOSAR" +:+ final)).
  apply greedy_group_extends; [exact Hline | reflexivity].
Qed.

(** A namespace the loader can read a version from is still recognized by
    [load_string] when more text follows it. *)
Lemma recognized_extends (ns q : string) :
  all_chars (fun c => negb (is_newline c)) ns = true ->
  is_Some (match_autosar4 ns) \/ is_Some (match_autosar3 ns) \/ is_Some (match_daimler ns) ->
  recognized_namespace (ns +:+ q) = true.
Proof.
  intros Hline Hknown. unfold recognized_namespace.
  unfold match_autosar4, match_autosar3, match_daimler in Hknown.
  rewrite (chomp_without_newline ns Hline) in Hknown.
  destruct Hknown as [[g Hg]|[[g Hg]|[g Hg]]].
  - destruct (strip_prefix "http://autosar.org/schema/r" ns) as [r|] eqn:Hr; [|discriminate].
    destruct (strip_prefix "4." r) as [w|] eqn:Hw; [|discriminate].
    apply strip_prefix_split in Hr, Hw. subst r ns.
    apply orb_true_iff. left. apply orb_true_iff. left.
    apply bool_decide_eq_true_2. vm_compute. eauto.
  - destruct (strip_prefix "http://autosar.org/" ns) as [r|] eqn:Hr; [|discriminate].
    destruct (strip_prefix "3." r) as [w|] eqn:Hw; [|discriminate].
    apply strip_prefix_split in Hr, Hw. subst r ns.
    apply orb_true_iff. left. apply orb_true_iff. right.
    apply bool_decide_eq_true_2. vm_compute. eauto.
  - destruct (strip_prefix "http://autosar.org/" ns) as [r|] eqn:Hr; [|discriminate].
    destruct (String.rev r) as [|d r'] eqn:Hrev; [discriminate|].
    destruct (strip_suffix ".DAI." (String.rev r')) as [g'|] eqn:Hg'; [|discriminate].
    destruct (py_isdigit d && all_chars digit_or_dot g') eqn:Hdigits; [|discriminate].
    apply andb_true_iff in Hdigits as [Hd Hdots].
    apply strip_prefix_split in Hr. apply strip_suffix_split in Hg'.
    apply rev_last in Hrev. rewrite Hg' in Hrev. subst r ns.
    apply orb_true_iff. right.
    assert (Hprefix : match_atoms (literally "http://autosar" ++ [AnyChar] ++ literally "org/")
                        (("http://autosar.org/" +:+ (g' +:+ ".DAI.") +:+ String d "") +:+ q)
                      = Some (g' +:+ (".DAI." +:+ String d q))).
    { rewrite !append_associative. reflexivity. }
    rewrite Hprefix. apply bool_decide_eq_true_2.
    destruct (greedy_group_extends dai_digit g' (".DAI." +:+ String d q)) as [q' Hq'].
    + apply (all_chars_weaken digit_or_dot); [apply digit_or_dot_no_newline | exact Hdots].
    + unfold dai_digit. change (strip_prefix ".DAI." (".DAI." +:+ String d q))
        with (Some (String d q)). exact Hd.
    + rewrite Hq'. eauto.
Qed.

(** What the version detection accepts passes the two checks of
    [load_string]. *)
Lemma detect_version_recognized (t ns : string) (v : AutosarVersion) :
  detect_version t = OK (ns, v) ->
  exists xml_namespace,
    match_braced_autosar t = Some xml_namespace
    /\ recognized_namespace xml_namespace = true.
Proof.
  intros Hdetect. unfold detect_version in Hdetect.
  destruct (match_root_tag t) as [ns'|] eqn:Hroot; [|discriminate].
  destruct (match_braced_extends _ _ Hroot) as (Hline & q & Hbraced).
  exists (ns' +:+ q). split; [exact Hbraced|].
  apply recognized_extends; [exact Hline|].
  apply rbind_ok in Hdetect as (vs & Hvs & _).
  destruct (match_autosar4 ns'); [eauto|].
  destruct (match_autosar3 ns'); [eauto|].
  destruct (match_daimler ns'); [eauto|discriminate].
Qed.

Section LoadString.
Context `{PyNumerics}.

(** X24. [load_string] and the loaders.  A document that is no ECU
    extract and that [SystemLoader] accepts is loaded by it, with the
    result of its [load]: the checks [load_string] makes first let it
    through.  An ECU extract with the root tag of AUTOSAR 4.0 is loaded by
    the [EcuExtractLoader].  When [load_string] raises for want of a
    namespace or of a recognized one, the [SystemLoader] would have raised
    for the same document.  An ECU extract with another root tag that
    passes the two checks, as every root tag does that the [SystemLoader]
    reads a version from, raises the third error of [load_string], and
    nothing else raises it. *)
Theorem load_string_agrees_with_the_loaders (string : Xml) (strict : bool) :
  (forall ld,
      SystemLoader_init (fromstring string) strict = OK ld ->
      is_ecu_extract (fromstring string) = false ->
      exists run, load_string string strict = inr run
                  /\ outcome run = outcome (load ld)
                  /\ journal run = journal (load ld))
  /\ (tag (fromstring string) = ROOT_TAG ->
      is_ecu_extract (fromstring string) = true ->
      load_string string strict
      = inr (lift (ecu_load (mkEcuExtractLoader (fromstring string) strict))))
  /\ (is_ecu_extract (fromstring string) = true ->
      tag (fromstring string) <> ROOT_TAG ->
      (forall xml_namespace,
          match_braced_autosar (tag (fromstring string)) = Some xml_namespace ->
          recognized_namespace xml_namespace = true ->
          load_string string strict = inl (UnexpectedRootTag (tag (fromstring string))))
      /\ (forall xml_namespace version,
             detect_version (tag (fromstring string)) = OK (xml_namespace, version) ->
             load_string string strict
             = inl (UnexpectedRootTag (tag (fromstring string)))))
  /\ (forall e,
         load_string string strict = inl e ->
         match e with
         | UnexpectedRootTag t =>
             t = tag (fromstring string)
             /\ is_ecu_extract (fromstring string) = true
             /\ t <> ROOT_TAG
         | NoNamespace _ | UnrecognizedXmlNamespace _ =>
             exists e', SystemLoader_init (fromstring string) strict = Err e'
         end).
Proof.
  assert (Hrejected :
            match_braced_autosar (tag (fromstring string)) = None
            \/ (exists xml_namespace,
                   match_braced_autosar (tag (fromstring string)) = Some xml_namespace
                   /\ recognized_namespace xml_namespace = false) ->
            exists e', SystemLoader_init (fromstring string) strict = Err e').
  { intros Hcheck. unfold SystemLoader_init.
    destruct (detect_version (tag (fromstring string))) as [[ns v]|e'] eqn:Hdetect;
      [|eauto].
    destruct (detect_version_recognized _ _ _ Hdetect) as (xml_namespace & Hbraced & Hknown).
    destruct Hcheck as [Hnone|(other & Hother & Hunknown)]; congruence. }
  split; [|split; [|split]].
  - intros ld Hinit Hecu. unfold load_string. cbv zeta.
    pose proof Hinit as Hdetect. unfold SystemLoader_init in Hdetect.
    apply rbind_ok in Hdetect as ([ns v] & Hdetect & _).
    destruct (detect_version_recognized _ _ _ Hdetect) as (xml_namespace & -> & ->).
    cbn [negb]. rewrite Hecu, Hinit. eexists. split; [reflexivity|].
    unfold outcome, journal, lift, bind. destruct (load ld) as [j r]. auto.
  - intros Htag Hecu. unfold load_string. cbv zeta. rewrite Htag, Hecu.
    reflexivity.
  - intros Hecu Htag.
    assert (Hpasses : forall xml_namespace,
               match_braced_autosar (tag (fromstring string)) = Some xml_namespace ->
               recognized_namespace xml_namespace = true ->
               load_string string strict
               = inl (UnexpectedRootTag (tag (fromstring string)))).
    { intros xml_namespace Hbraced Hknown. unfold load_string. cbv zeta.
      rewrite Hbraced, Hknown, Hecu. cbn [negb].
      apply String.eqb_neq in Htag. rewrite Htag. reflexivity. }
    split; [exact Hpasses|].
    intros xml_namespace version Hdetect.
    destruct (detect_version_recognized _ _ _ Hdetect) as (ns & Hbraced & Hknown).
    exact (Hpasses ns Hbraced Hknown).
  - intros e. unfold load_string. cbv zeta.
    destruct (match_braced_autosar (tag (fromstring string))) as [xml_namespace|] eqn:Hbraced.
    + destruct (recognized_namespace xml_namespace) eqn:Hknown; cbn [negb].
      * destruct (is_ecu_extract (fromstring string)); [|discriminate].
        destruct (String.eqb_spec (tag (fromstring string)) ROOT_TAG) as [Htag|Htag];
          cbn [negb]; [discriminate|].
        intros [= <-]. auto.
      * intros [= <-]. apply Hrejected. eauto.
    + intros [= <-]. apply Hrejected. auto.
Qed.

End LoadString.

Lemma load_string_agrees_with_the_loaders_witness :
  (exists run,
      load_string (H := rational_numerics) plain_frame true = inr run
      /\ outcome run = outcome (load (H := rational_numerics) (loader_of plain_frame))
      /\ journal run = journal (load (H := rational_numerics) (loader_of plain_frame)))
  /\ load_string (H := rational_numerics) ecu_extract_with_signals true
     = inr (lift (ecu_load (H := rational_numerics)
                    (mkEcuExtractLoader (fromstring ecu_extract_with_signals) true)))
  /\ is_ecu_extract (fromstring ecu_extract_with_another_root) = true
  /\ load_string (H := rational_numerics) ecu_extract_with_another_root true
     = inl (UnexpectedRootTag "{http://autosar.org/schema/r4.2.1}AUTOSAR").
Proof.
  split; [|split; [|split]].
  - apply (load_string_agrees_with_the_loaders (H := rational_numerics) plain_frame true).
    + apply loader_of_init. vm_compute. reflexivity.
    + vm_compute. reflexivity.
  - apply (load_string_agrees_with_the_loaders (H := rational_numerics)
             ecu_extract_with_signals true).
    + vm_compute. reflexivity.
    + vm_compute. reflexivity.
  - vm_compute. reflexivity.
  - destruct (load_string_agrees_with_the_loaders (H := rational_numerics)
                ecu_extract_with_another_root true) as (_ & _ & Hother & _).
    destruct Hother as [_ Hversion]; [vm_compute; reflexivity | vm_compute; discriminate|].
    exact (Hversion "http://autosar.org/schema/r4.2.1" (mkVersion 4 2 1)
             ltac:(vm_compute; reflexivity)).
Defined.

(* ===================================================================== *)
(** * Messages *)
(* ===================================================================== *)

Section MessageOfAFrame.
Context `{PyNumerics}.

(** X25. The message of a frame triggering.  A frame that carries no PDU
    fails the assertion of [_load_message] once its name, identifier,
    length, addressing mode and comments are read.  A message that is
    returned has the short name, the length and the comments of the frame,
    the identifier of the triggering, the signals and the cycle time of the
    PDU of the frame, and the strictness of the loader; it is an extended
    frame only when the addressing mode of the triggering reads
    [EXTENDED]. *)
Theorem message_of_a_frame (ld : SystemLoader) (can_frame_triggering : Element) :
  (forall can_frame name frame_id length is_extended comments,
      outcome (_get_can_frame ld (Some can_frame_triggering)) = OK can_frame ->
      outcome (_load_message_name ld can_frame) = OK name ->
      outcome (_load_message_frame_id ld (Some can_frame_triggering)) = OK frame_id ->
      outcome (_load_message_length ld can_frame) = OK length ->
      outcome (_load_message_is_extended_frame ld (Some can_frame_triggering))
      = OK is_extended ->
      outcome (_load_comments ld can_frame) = OK comments ->
      outcome (_get_pdu ld can_frame) = OK None ->
      outcome (_load_message ld can_frame_triggering) = Err AssertionError)
  /\ (forall message,
         outcome (_load_message ld can_frame_triggering) = OK message ->
         exists can_frame pdu next_selector_idx bit_length,
           outcome (_get_can_frame ld (Some can_frame_triggering)) = OK can_frame
           /\ outcome (_get_pdu ld can_frame) = OK (Some pdu)
           /\ outcome (_load_message_name ld can_frame) = OK (msg_name message)
           /\ outcome (_load_message_frame_id ld (Some can_frame_triggering))
              = OK (frame_id message)
           /\ outcome (_load_message_length ld can_frame) = OK (msg_length message)
           /\ outcome (_load_comments ld can_frame) = OK (msg_comment message)
           /\ outcome (_load_pdu recursion_limit ld (Some pdu) (msg_name message) 1)
              = OK (next_selector_idx, bit_length, signals message, cycle_time message)
           /\ msg_strict message = _strict ld
           /\ (is_extended_frame message = true <->
               exists mode,
                 outcome (_get_unique_arxml_child ld (Some can_frame_triggering)
                            ["CAN-ADDRESSING-MODE"]) = OK (Some mode)
                 /\ text mode = Some "EXTENDED")).
Proof.
  split.
  - intros can_frame name frame_id length is_extended comments
           Hframe Hname Hid Hlength Hextended Hcomments Hpdu.
    unfold _load_message. cbv zeta.
    rewrite (outcome_bind _ _ _ Hframe), (outcome_bind _ _ _ Hname),
      (outcome_bind _ _ _ Hid), (outcome_bind _ _ _ Hlength),
      (outcome_bind _ _ _ Hextended), (outcome_bind _ _ _ Hcomments),
      (outcome_bind _ _ _ Hpdu).
    reflexivity.
  - intros message Hrun. unfold _load_message in Hrun. cbv zeta in Hrun.
    apply outcome_bind_ok in Hrun as (can_frame & Hframe & Hrun).
    apply outcome_bind_ok in Hrun as (name & Hname & Hrun).
    apply outcome_bind_ok in Hrun as (frame_id & Hid & Hrun).
    apply outcome_bind_ok in Hrun as (length & Hlength & Hrun).
    apply outcome_bind_ok in Hrun as (is_extended & Hextended & Hrun).
    apply outcome_bind_ok in Hrun as (comments & Hcomments & Hrun).
    apply outcome_bind_ok in Hrun as ([pdu|] & Hpdu & Hrun).
    2:{ apply outcome_bind_ok in Hrun as (? & Hassert & _). discriminate. }
    apply outcome_bind_ok in Hrun as (_ & _ & Hrun).
    apply outcome_bind_ok in Hrun as ([[[idx bit_length] signals] cycle_time] & Hload & Hrun).
    injection Hrun as <-. cbn.
    exists can_frame, pdu, idx, bit_length.
    repeat (split; [assumption|]). split; [reflexivity|].
    unfold _load_message_is_extended_frame in Hextended.
    apply outcome_bind_ok in Hextended as ([mode|] & Hmode & Hextended).
    + injection Hextended as <-. split.
      * intros Hdecide. apply bool_decide_eq_true in Hdecide. eauto.
      * intros (mode' & Hmode' & Htext). rewrite Hmode in Hmode'.
        injection Hmode' as <-. apply bool_decide_eq_true. exact Htext.
    + injection Hextended as <-. split; [discriminate|].
      intros (mode' & Hmode' & _). rewrite Hmode in Hmode'. discriminate.
Qed.

End MessageOfAFrame.

Lemma message_of_a_frame_witness :
  exists triggering,
    sample_triggerings frame_without_pdu = [triggering]
    /\ outcome (_load_message (H := rational_numerics) (loader_of frame_without_pdu)
                  triggering) = Err AssertionError.
Proof.
  assert (Hsample :
            exists triggering can_frame name frame_id length is_extended comments,
              sample_triggerings frame_without_pdu = [triggering]
              /\ outcome (_get_can_frame (loader_of frame_without_pdu) (Some triggering))
                 = OK can_frame
              /\ outcome (_load_message_name (loader_of frame_without_pdu) can_frame)
                 = OK name
              /\ outcome (_load_message_frame_id (loader_of frame_without_pdu)
                            (Some triggering)) = OK frame_id
              /\ outcome (_load_message_length (loader_of frame_without_pdu) can_frame)
                 = OK length
              /\ outcome (_load_message_is_extended_frame (loader_of frame_without_pdu)
                            (Some triggering)) = OK is_extended
              /\ outcome (_load_comments (loader_of frame_without_pdu) can_frame)
                 = OK comments
              /\ outcome (_get_pdu (loader_of frame_without_pdu) can_frame) = OK None).
  { destruct (sample_triggerings frame_without_pdu) as [|triggering [|]] eqn:Htriggerings;
      try (vm_compute in Htriggerings; discriminate).
    exists triggering. vm_compute in Htriggerings. injection Htriggerings as <-.
    do 6 eexists. split; [reflexivity|].
    repeat (split; [vm_compute; reflexivity|]). vm_compute. reflexivity. }
  destruct Hsample as (triggering & can_frame & name & frame_id & length & is_extended
                       & comments & Htriggerings & Hframe & Hname & Hid & Hlength
                       & Hextended & Hcomments & Hpdu).
  exists triggering. split; [exact Htriggerings|].
  apply (message_of_a_frame (H := rational_numerics) (loader_of frame_without_pdu)
           triggering) with can_frame name frame_id length is_extended comments;
    assumption.
Defined.

(* ===================================================================== *)
(** * The signals of a load *)
(* ===================================================================== *)

Section WellFormed.
Context `{PyNumerics}.

Lemma load_signal_well_formed (ld : SystemLoader) (mapping : Element) (signal : Signal) :
  outcome (_load_signal ld mapping) = OK (Some signal) -> well_formed signal.
Proof.
  intros Hrun. unfold _load_signal in Hrun. cbv zeta in Hrun.
  apply outcome_bind_ok in Hrun as ([i_signal|] & _ & Hrun); [|discriminate].
  apply outcome_bind_ok in Hrun as (system_signal & _ & Hrun).
  destruct (match system_signal with
            | Some s => negb (has_tag (ns_tag ld "SYSTEM-SIGNAL") s)
            | None => false
            end); [discriminate|].
  apply outcome_bind_ok in Hrun as (i_signal' & _ & Hrun).
  apply outcome_bind_ok in Hrun as (name & _ & Hrun).
  apply outcome_bind_ok in Hrun as (start_position & _ & Hrun).
  apply outcome_bind_ok in Hrun as (length & _ & Hrun).
  apply outcome_bind_ok in Hrun as (order & Horder & Hrun).
  apply outcome_bind_ok in Hrun as ([is_signed is_float] & Htype & Hrun).
  apply outcome_bind_ok in Hrun as (ss & _ & Hrun).
  apply outcome_bind_ok in Hrun as (initial & _ & Hrun).
  apply outcome_bind_ok in Hrun as (initial' & _ & Hrun).
  injection Hrun as <-. unfold well_formed. cbn.
  split; [exact (load_signal_byte_order_cases _ _ _ Horder)|].
  split; [exact (load_signal_type_exclusive _ _ _ _ Htype)|].
  split; [exact I | discriminate].
Qed.

Lemma load_pdu_signals_well_formed (ld : SystemLoader) (pdu : option Element)
      (signals : list Signal) :
  outcome (_load_pdu_signals ld pdu) = OK signals -> Forall well_formed signals.
Proof.
  unfold _load_pdu_signals. cbv zeta. intros Hrun.
  apply outcome_bind_ok in Hrun as (first & _ & Hrun).
  apply outcome_bind_ok in Hrun as (more & _ & Hrun).
  eapply (for_each_invariant (Forall well_formed)); [| |exact Hrun]; [|constructor].
  intros mapping acc acc' _ Hacc Hstep.
  apply outcome_bind_ok in Hstep as ([signal|] & Hsignal & Hstep); injection Hstep as <-;
    [|exact Hacc].
  apply Forall_app. split; [exact Hacc|].
  constructor; [|constructor]. exact (load_signal_well_formed _ _ _ Hsignal).
Qed.

Lemma remove_first_Forall {A} (P : A -> Prop) (p : A -> bool) (l : list A) :
  Forall P l -> Forall P (remove_first p l).
Proof.
  induction 1 as [|x l Hx Hl IH]; cbn [remove_first]; [constructor|].
  destruct (p x); [exact Hl | constructor; assumption].
Qed.

Lemma claim_well_formed (sel : Signal) (v : Z) (s : Signal) :
  is_Some (name sel) -> well_formed s -> well_formed (claim sel v s).
Proof.
  intros [n Hn] (Horder & Htype & Hmux & Hsel). unfold claim.
  destruct (multiplexer_signal s) eqn:Hs.
  - unfold well_formed. rewrite Hs. auto.
  - unfold well_formed. cbn. rewrite Hn. auto.
Qed.

Lemma merge_dynalt_well_formed selector_pos selector_len sel v flag sigs sel' sigs' :
  merge_dynalt selector_pos selector_len sel v flag sigs = OK (sel', sigs') ->
  selector_ok sel -> Forall well_formed sigs ->
  selector_ok sel' /\ Forall well_formed sigs'.
Proof.
  unfold merge_dynalt. intros Hmerge Hsel Hsigs.
  apply rbind_ok in Hmerge as (sel1 & Hinit & Hmerge).
  assert (Hsel1 : selector_ok sel1).
  { destruct flag.
    - apply rbind_ok in Hinit as ([] & _ & Hinit). injection Hinit as <-. exact Hsel.
    - injection Hinit as <-. exact Hsel. }
  destruct (List.filter _ sigs) as [|dup [|]]; try discriminate.
  apply rbind_ok in Hmerge as ([] & _ & Hmerge).
  apply rbind_ok in Hmerge as ([] & _ & Hmerge).
  apply rbind_ok in Hmerge as (sel2 & Hupdate & Hmerge). injection Hmerge as <- <-.
  assert (Hsel2 : selector_ok sel2).
  { destruct (choices dup); [|injection Hupdate as <-; exact Hsel1].
    apply rbind_ok in Hupdate as (mine & _ & Hupdate). injection Hupdate as <-.
    destruct Hsel1 as ((Horder & Htype & Hmux & Hselector) & Hname & Hflag).
    split; [|split; [exact Hname | exact Hflag]].
    split; [exact Horder|]. split; [exact Htype|]. split; [exact Hmux|].
    intros _. destruct (Hselector Hflag) as (? & ? & ? & ? & _).
    cbn. eauto 7. }
  split; [exact Hsel2|].
  apply Forall_map. eapply Forall_impl; [apply remove_first_Forall; exact Hsigs|].
  intros s Hs. apply claim_well_formed; [apply Hsel2 | exact Hs].
Qed.

Lemma multiplexed_parts_well_formed
      (load_pdu : option Element -> option string -> Z -> M PduResult)
      (ld : SystemLoader) (pdu : option Element) (frame_name : option string) (idx : Z)
      (signals : list Signal) :
  (forall p n i i' bit_length part cycle_time,
      outcome (load_pdu p n i) = OK (i', bit_length, part, cycle_time) ->
      Forall well_formed part) ->
  outcome (_load_pdu_multiplexed_parts load_pdu ld pdu frame_name idx) = OK signals ->
  Forall well_formed signals.
Proof.
  intros Hload Hrun. unfold _load_pdu_multiplexed_parts in Hrun.
  apply outcome_bind_ok in Hrun as ([selector_pos selector_len] & _ & Hrun).
  apply outcome_bind_ok in Hrun as (order_elem & _ & Hrun).
  apply outcome_bind_ok in Hrun as (order & Horder & Hrun).
  assert (Horder' : order = "big_endian" \/ order = "little_endian").
  { destruct order_elem as [e|]; [|injection Horder as <-; auto].
    destruct (bool_decide (text e = Some "MOST-SIGNIFICANT-BYTE-FIRST"));
      [injection Horder as <-; auto|].
    apply outcome_bind_ok in Horder as (? & _ & Horder). injection Horder as <-. auto. }
  cbv zeta in Hrun.
  apply outcome_bind_ok in Hrun as (dynalts & _ & Hrun).
  apply outcome_bind_ok in Hrun as (st & Hdyn & Hrun).
  apply outcome_bind_ok in Hrun as (static_pdus & _ & Hrun).
  apply outcome_bind_ok in Hrun as ([[idx' sel'] sigs'] & Hstatic & Hrun).
  injection Hrun as <-.
  set (Q := fun st : MuxState => selector_ok (snd (fst st)) /\ Forall well_formed (snd st)).
  assert (Hst : Q st).
  { eapply (for_each_invariant Q); [| |exact Hdyn].
    - intros dynalt [[i sel] sigs] [[i1 sel1] sigs1] _ [Hsel Hsigs] Hstep.
      unfold load_dynalt in Hstep.
      apply outcome_bind_ok in Hstep as (v & _ & Hstep).
      apply outcome_bind_ok in Hstep as (dynalt_pdu & _ & Hstep).
      apply outcome_bind_ok in Hstep as ([[[i2 bl] dsigs] ct] & Hpdu & Hstep).
      apply outcome_bind_ok in Hstep as (flag & _ & Hstep).
      apply outcome_bind_ok in Hstep as ([sel2 dsigs2] & Hmerge & Hstep).
      injection Hstep as <- <- <-. rewrite outcome_lift in Hmerge.
      destruct (merge_dynalt_well_formed _ _ _ _ _ _ _ _ Hmerge Hsel
                  (Hload _ _ _ _ _ _ _ Hpdu)) as [Hsel2 Hdsigs2].
      split; [exact Hsel2|]. cbn [snd]. apply Forall_app. auto.
    - split; [|constructor]. cbn [fst snd].
      split; [|split; [cbn; eauto | reflexivity]].
      unfold well_formed. cbn. split; [exact Horder'|]. split; [reflexivity|].
      split; [exact I|]. intros _. eauto 7. }
  assert (Hst' : Q (idx', sel', sigs')).
  { eapply (for_each_invariant Q); [| exact Hst |exact Hstatic].
    intros static_pdu [[i sel] sigs] [[i1 sel1] sigs1] _ [Hsel Hsigs] Hstep.
    unfold load_static in Hstep.
    apply outcome_bind_ok in Hstep as ([[[i2 bl] ssigs] ct] & Hpdu & Hstep).
    injection Hstep as <- <- <-.
    split; [exact Hsel|]. cbn [snd]. apply Forall_app. split; [exact Hsigs|].
    exact (Hload _ _ _ _ _ _ _ Hpdu). }
  destruct Hst' as [[Hsel _] Hsigs]. constructor; assumption.
Qed.

Lemma load_pdu_well_formed (depth : nat) :
  forall (ld : SystemLoader) (pdu : option Element) (frame_name : option string)
         (idx idx' : Z) (bit_length : option Z) (signals : list Signal)
         (cycle_time : option Z),
    outcome (_load_pdu depth ld pdu frame_name idx)
    = OK (idx', bit_length, signals, cycle_time) ->
    Forall well_formed signals.
Proof.
  induction depth as [|depth IH]; intros ld pdu frame_name idx idx' bit_length signals
                                         cycle_time Hrun; cbn [_load_pdu] in Hrun;
    [discriminate|].
  apply outcome_bind_ok in Hrun as (? & _ & Hrun).
  apply outcome_bind_ok in Hrun as (? & _ & Hrun).
  apply outcome_bind_ok in Hrun as (? & _ & Hrun).
  apply outcome_bind_ok in Hrun as (? & _ & Hrun).
  apply outcome_bind_ok in Hrun as (own & Hown & Hrun).
  apply outcome_bind_ok in Hrun as (t & _ & Hrun).
  apply outcome_bind_ok in Hrun as (all & Hall & Hrun).
  injection Hrun as _ _ <- _.
  apply load_pdu_signals_well_formed in Hown.
  destruct (String.eqb t (ns_tag ld "MULTIPLEXED-I-PDU")); [|injection Hall as <-; exact Hown].
  apply outcome_bind_ok in Hall as (more & Hmore & Hall). injection Hall as <-.
  apply Forall_app. split; [exact Hown|].
  eapply multiplexed_parts_well_formed; [|exact Hmore].
  intros p n i i' bl part ct. apply IH.
Qed.

(** X26. Every signal of every message that a load returns is well
    formed: its byte order is [big_endian] or [little_endian]; it is not
    both signed and a float; it is under no multiplexer, or under one with
    exactly one multiplexer id; and if it is a multiplexer itself, it is
    unsigned, not a float, unscaled, and has choices.  This holds through
    every nesting of multiplexed PDUs. *)
Theorem loaded_signals_are_well_formed (ld : SystemLoader) (db : InternalDatabase) :
  outcome (load ld) = OK db ->
  Forall (fun message => Forall well_formed (signals message)) (messages db).
Proof.
  intros Hrun. unfold load in Hrun.
  apply outcome_bind_ok in Hrun as (package_list & _ & Hrun).
  apply outcome_bind_ok in Hrun as (loaded & Hloaded & Hrun). injection Hrun as <-.
  apply handle_package_list_spec in Hloaded as (more & -> & triggerings & _ & Hmore).
  cbn [app messages]. clear package_list.
  induction Hmore as [|triggering message ts ms Hmessage _ IH]; constructor; [|exact IH].
  unfold _load_message in Hmessage. cbv zeta in Hmessage.
  do 8 (apply outcome_bind_ok in Hmessage as (? & _ & Hmessage)).
  apply outcome_bind_ok in Hmessage as ([[[i bl] sigs] ct] & Hpdu & Hmessage).
  injection Hmessage as <-. cbn. exact (load_pdu_well_formed _ _ _ _ _ _ _ _ _ Hpdu).
Qed.

End WellFormed.

Lemma loaded_signals_are_well_formed_witness :
  exists db,
    outcome (load (H := rational_numerics) (loader_of nested_multiplexers)) = OK db
    /\ signal_counts (outcome (load (H := rational_numerics) (loader_of nested_multiplexers)))
       = Some [5%nat]
    /\ Forall (fun message => Forall (well_formed (H := rational_numerics))
                                     (signals message)) (messages db).
Proof.
  assert (Hcount : signal_counts (outcome (load (H := rational_numerics)
                                             (loader_of nested_multiplexers)))
                   = Some [5%nat]) by (vm_compute; reflexivity).
  destruct (outcome (load (H := rational_numerics) (loader_of nested_multiplexers)))
    as [db|e] eqn:Hrun; [|discriminate Hcount].
  exists db. split; [reflexivity|]. split; [exact Hcount|].
  exact (loaded_signals_are_well_formed (H := rational_numerics) _ db Hrun).
Defined.

(* ===================================================================== *)
(** * The ECU extract loader: skipped messages *)
(* ===================================================================== *)

(** The name [iter_parameter_values] yields for a parameter is its
    name. *)
Lemma value_item_name (value_xpath : list path_step) (item : Element)
      (name : string) (value : option string) :
  value_item value_xpath item = OK (name, value) -> parameter_name item = Some name.
Proof.
  unfold value_item, text_of, parameter_name. intros Hitem.
  destruct (find DEFINITION_REF_XPATH item) as [d|]; [|discriminate].
  cbn [attr_of rbind] in Hitem.
  apply rbind_ok in Hitem as (v & _ & Hitem).
  destruct (text d) as [s|]; [|discriminate].
  cbn [attr_of rbind] in Hitem. injection Hitem as <- _. reflexivity.
Qed.

Lemma parameter_elements_children (container : Element) (items : list Element) :
  parameter_elements container = OK items ->
  exists parameters,
    find PARAMETER_VALUES_XPATH container = Some parameters /\ items = children parameters.
Proof.
  unfold parameter_elements.
  destruct (find PARAMETER_VALUES_XPATH container) as [p|]; [|discriminate].
  intros [= <-]. eauto.
Qed.

(** Decides the comparisons of two names. *)
Ltac decide_names :=
  repeat match goal with
         | |- context [bool_decide (Some ?a = Some ?b)] =>
             first [ rewrite (bool_decide_eq_true_2 (Some a = Some b)) by reflexivity
                   | rewrite (bool_decide_eq_false_2 (Some a = Some b)) by congruence ]
         end.

(** The loop of [load_message_rx_tx] over the parameters of a CanIf entry:
    it returns exactly when every parameter can be read, and a value is
    collected exactly when a parameter has its name. *)
Lemma collect_can_if_spec (can_id dlc id_type : string) (items : list Element) :
  can_id <> dlc -> can_id <> id_type -> dlc <> id_type ->
  forall frame_id length is_extended_frame,
    if forallb (readable_parameter (can_id, dlc, id_type)) items
    then exists frame_id' length' is_extended_frame',
        collect_can_if can_id dlc id_type items (frame_id, length, is_extended_frame)
        = OK (frame_id', length', is_extended_frame')
        /\ (is_Some frame_id' <->
            is_Some frame_id
            \/ existsb (fun item => bool_decide (parameter_name item = Some can_id)) items
               = true)
        /\ (is_Some length' <->
            is_Some length
            \/ existsb (fun item => bool_decide (parameter_name item = Some dlc)) items
               = true)
        /\ (is_Some is_extended_frame' <->
            is_Some is_extended_frame
            \/ existsb (fun item => bool_decide (parameter_name item = Some id_type)) items
               = true)
    else exists e,
        collect_can_if can_id dlc id_type items (frame_id, length, is_extended_frame)
        = Err e.
Proof.
  intros Hcd Hct Hdt.
  induction items as [|item items IH]; intros frame_id length is_extended_frame.
  - cbn. exists frame_id, length, is_extended_frame. split; [reflexivity|].
    repeat split; try tauto; intros [?|?]; auto; discriminate.
  - cbn [forallb collect_can_if existsb]. unfold readable_parameter at 1.
    destruct (value_item VALUE_XPATH item) as [[name value]|e] eqn:Hitem;
      cbn [andb rbind]; [|eauto].
    rewrite (value_item_name _ _ _ _ Hitem).
    destruct (String.eqb_spec name can_id) as [->|Hn1]; cbn [orb].
    { destruct (py_int_of value) as [n|e]; cbn [is_ok andb rbind]; [|eauto].
      specialize (IH (Some n) length is_extended_frame).
      destruct (forallb _ items); [|exact IH].
      destruct IH as (f' & l' & e' & Hrun & Hf & Hl & He).
      exists f', l', e'. split; [exact Hrun|].
      decide_names. cbn [orb].
      rewrite Hf, Hl, He.
      repeat split; try tauto; intros _; left; eauto. }
    destruct (String.eqb_spec name dlc) as [->|Hn2].
    { destruct (py_int_of value) as [n|e]; cbn [is_ok andb rbind]; [|eauto].
      specialize (IH frame_id (Some n) is_extended_frame).
      destruct (forallb _ items); [|exact IH].
      destruct IH as (f' & l' & e' & Hrun & Hf & Hl & He).
      exists f', l', e'. split; [exact Hrun|].
      decide_names. cbn [orb].
      rewrite Hf, Hl, He.
      repeat split; try tauto; intros _; left; eauto. }
    cbn [andb].
    destruct (String.eqb_spec name id_type) as [->|Hn3]; cbn [rbind].
    { specialize (IH frame_id length (Some (bool_decide (value = Some "EXTENDED_CAN")))).
      destruct (forallb _ items); [|exact IH].
      destruct IH as (f' & l' & e' & Hrun & Hf & Hl & He).
      exists f', l', e'. split; [exact Hrun|].
      decide_names. cbn [orb].
      rewrite Hf, Hl, He.
      repeat split; try tauto; intros _; left; eauto. }
    specialize (IH frame_id length is_extended_frame).
    destruct (forallb _ items); [|exact IH].
    destruct IH as (f' & l' & e' & Hrun & Hf & Hl & He).
    exists f', l', e'. split; [exact Hrun|].
    decide_names. cbn [orb].
    rewrite Hf, Hl, He. tauto.
Qed.

Lemma direction_keys_distinct (direction : option string) (can_id dlc id_type : string) :
  direction_keys direction = Some (can_id, dlc, id_type) ->
  can_id <> dlc /\ can_id <> id_type /\ dlc <> id_type.
Proof.
  unfold direction_keys.
  destruct (bool_decide (direction = Some "SEND"));
    [|destruct (bool_decide (direction = Some "RECEIVE")); [|discriminate]];
    intros [= <- <- <-]; repeat split; discriminate.
Qed.

(** What [load_message] reads before it decides: the part of
    [load_message] up to the CanIf entry is [can_if_entry_of], and what
    follows is the loop over the parameters of the entry. *)
Lemma load_message_can_if_entry (self : EcuExtractLoader) (com_i_pdu : Element)
      (name : option string) (entry : option Element) (can_id dlc id_type : string) :
  can_if_entry_of self com_i_pdu = Some (name, entry, (can_id, dlc, id_type)) ->
  load_message_can_if self com_i_pdu
  = (let! data :=
       match entry with
       | Some cfg =>
           let! parameters := parameter_elements cfg in
           collect_can_if can_id dlc id_type parameters (None, None, None)
       | None => OK (None, None, None)
       end in
     OK (name, data)).
Proof.
  unfold can_if_entry_of, load_message_can_if. intros Hentry.
  destruct (text_of (find SHORT_NAME_XPATH com_i_pdu)) as [name'|]; [|discriminate].
  destruct (parameter_elements com_i_pdu) as [parameters|]; [|discriminate].
  destruct (reference_elements com_i_pdu) as [references|]; [|discriminate].
  cbn [rbind].
  destruct (first_value VALUE_XPATH "ComIPduDirection" parameters) as [direction|];
    [|discriminate].
  destruct (first_value VALUE_REF_XPATH "ComPduIdRef" references) as [[ref|]|];
    try discriminate.
  cbn [rbind].
  destruct (direction_keys direction) as [keys|] eqn:Hkeys; [|discriminate].
  destruct (find_can_if_rx_tx_pdu_cfg self ref) as [entry'|] eqn:Hfind; [|discriminate].
  injection Hentry as <- <- ->.
  unfold direction_keys in Hkeys.
  destruct (bool_decide (direction = Some "SEND")).
  - injection Hkeys as <- <- <-. unfold load_message_tx, load_message_rx_tx.
    rewrite Hfind. reflexivity.
  - destruct (bool_decide (direction = Some "RECEIVE")); [|discriminate].
    injection Hkeys as <- <- <-. unfold load_message_rx, load_message_rx_tx.
    rewrite Hfind. reflexivity.
Qed.

Lemma load_message_can_if_read (self : EcuExtractLoader) (com_i_pdu : Element)
      (name : option string) (data : CanIfData) :
  load_message_can_if self com_i_pdu = OK (name, data) ->
  exists entry keys, can_if_entry_of self com_i_pdu = Some (name, entry, keys).
Proof.
  unfold can_if_entry_of, load_message_can_if. intros Hrun.
  apply rbind_ok in Hrun as (name' & -> & Hrun).
  apply rbind_ok in Hrun as (parameters & -> & Hrun).
  apply rbind_ok in Hrun as (direction & -> & Hrun).
  apply rbind_ok in Hrun as (references & -> & Hrun).
  apply rbind_ok in Hrun as ([ref|] & -> & Hrun); [|discriminate].
  apply rbind_ok in Hrun as (data' & Hdata & Hrun). injection Hrun as <- <-.
  unfold direction_keys.
  destruct (bool_decide (direction = Some "SEND")).
  - unfold load_message_tx, load_message_rx_tx in Hdata.
    apply rbind_ok in Hdata as (entry & -> & _). eauto.
  - destruct (bool_decide (direction = Some "RECEIVE")); [|discriminate].
    unfold load_message_rx, load_message_rx_tx in Hdata.
    apply rbind_ok in Hdata as (entry & -> & _). eauto.
Qed.

Lemma can_if_entry_keys (self : EcuExtractLoader) (com_i_pdu : Element)
      (name : option string) (entry : option Element) (can_id dlc id_type : string) :
  can_if_entry_of self com_i_pdu = Some (name, entry, (can_id, dlc, id_type)) ->
  can_id <> dlc /\ can_id <> id_type /\ dlc <> id_type.
Proof.
  unfold can_if_entry_of. intros Hentry.
  destruct (text_of _); [|discriminate].
  destruct (parameter_elements _); [|discriminate].
  destruct (reference_elements _); [|discriminate].
  destruct (first_value VALUE_XPATH _ _) as [direction|]; [|discriminate].
  destruct (first_value VALUE_REF_XPATH _ _) as [[ref|]|]; try discriminate.
  destruct (direction_keys direction) as [keys|] eqn:Hkeys; [|discriminate].
  destruct (find_can_if_rx_tx_pdu_cfg _ _); [|discriminate].
  injection Hentry as _ _ ->. exact (direction_keys_distinct _ _ _ _ Hkeys).
Qed.

Section SkippedMessages.
Context `{PyNumerics}.

(** What [load_message] does with a container, by the CanIf entry of the
    container. *)
Lemma load_message_by_entry (self : EcuExtractLoader) (com_i_pdu : Element)
      (name : option string) (entry : option Element) (keys : string * string * string) :
  can_if_entry_of self com_i_pdu = Some (name, entry, keys) ->
  match entry with
  | None => load_message self com_i_pdu = OK None
  | Some cfg =>
      if readable_entry keys cfg then
        if complete keys cfg then
          exists frame_id is_extended_frame length,
            load_message self com_i_pdu
            = (let! signals :=
                 load_message_signals self
                   (iterfind ECUC_REFERENCE_VALUE_XPATH [com_i_pdu]) [] in
               OK (Some (mkMessage frame_id is_extended_frame name length None signals
                           None (ecu_strict self))))
        else load_message self com_i_pdu = OK None
      else
        exists e,
          load_message self com_i_pdu = Err e
          /\ (find PARAMETER_VALUES_XPATH cfg = None -> e = ValueError NoParameterValues)
  end.
Proof.
  destruct keys as [[can_id dlc] id_type]. intros Hentry.
  pose proof (can_if_entry_keys _ _ _ _ _ _ _ Hentry) as (Hcd & Hct & Hdt).
  unfold load_message. rewrite (load_message_can_if_entry _ _ _ _ _ _ _ Hentry).
  destruct entry as [cfg|]; [|reflexivity].
  unfold readable_entry, complete, has_parameter, parameter_elements.
  destruct (find PARAMETER_VALUES_XPATH cfg) as [parameters|];
    [|exists (ValueError NoParameterValues); split; [reflexivity | auto]].
  cbn [rbind].
  pose proof (collect_can_if_spec can_id dlc id_type (children parameters) Hcd Hct Hdt
                None None None) as Hcollect.
  destruct (forallb _ (children parameters)).
  - destruct Hcollect as (frame_id & length & is_extended_frame & -> & Hf & Hl & He).
    cbn [rbind].
    destruct (existsb _ (children parameters)) eqn:Hid in Hf |- *.
    + destruct frame_id as [frame_id|];
        [|exfalso; destruct (proj2 Hf (or_intror eq_refl)); discriminate].
      destruct (existsb (fun item => bool_decide (parameter_name item = Some dlc))
                        (children parameters)) eqn:Hlen in Hl |- *.
      * destruct length as [length|];
          [|exfalso; destruct (proj2 Hl (or_intror eq_refl)); discriminate].
        destruct (existsb (fun item => bool_decide (parameter_name item = Some id_type))
                          (children parameters)) eqn:Htype in He |- *.
        -- destruct is_extended_frame as [is_extended_frame|];
             [|exfalso; destruct (proj2 He (or_intror eq_refl)); discriminate].
           cbn [andb]. eauto.
        -- destruct is_extended_frame as [is_extended_frame|]; [|reflexivity].
           exfalso. destruct (proj1 He (ex_intro _ _ eq_refl)) as [[? ?]|?]; discriminate.
      * destruct length as [length|].
        -- exfalso. destruct (proj1 Hl (ex_intro _ _ eq_refl)) as [[? ?]|?]; discriminate.
        -- cbn [andb]. destruct is_extended_frame; reflexivity.
    + destruct frame_id as [frame_id|]; [|reflexivity].
      exfalso. destruct (proj1 Hf (ex_intro _ _ eq_refl)) as [[? ?]|?]; discriminate.
  - destruct Hcollect as [e ->]. exists e. split; [reflexivity | discriminate].
Qed.

(** [load_message] returns [None] for the containers that are to be
    skipped, and for no other. *)
Lemma load_message_skips (self : EcuExtractLoader) (com_i_pdu : Element) :
  to_be_skipped self com_i_pdu = true -> load_message self com_i_pdu = OK None.
Proof.
  unfold to_be_skipped.
  destruct (can_if_entry_of self com_i_pdu) as [[[name entry] keys]|] eqn:Hentry;
    [|discriminate].
  pose proof (load_message_by_entry _ _ _ _ _ Hentry) as Hload.
  destruct entry as [cfg|]; [|intros _; exact Hload].
  destruct (readable_entry keys cfg); [|discriminate].
  destruct (complete keys cfg); [discriminate | intros _; exact Hload].
Qed.

Lemma load_message_none (self : EcuExtractLoader) (com_i_pdu : Element)
      (r : option Message) :
  load_message self com_i_pdu = OK r ->
  (r = None <-> to_be_skipped self com_i_pdu = true).
Proof.
  intros Hrun. pose proof Hrun as Hread. unfold load_message in Hread.
  apply rbind_ok in Hread as ([name data] & Hdata & _).
  apply load_message_can_if_read in Hdata as (entry & keys & Hentry).
  pose proof (load_message_by_entry _ _ _ _ _ Hentry) as Hload.
  unfold to_be_skipped. rewrite Hentry.
  destruct entry as [cfg|].
  - destruct (readable_entry keys cfg).
    + destruct (complete keys cfg); cbn [andb negb].
      * destruct Hload as (frame_id & is_extended_frame & length & Hload).
        rewrite Hload in Hrun. apply rbind_ok in Hrun as (signals & _ & Hrun).
        injection Hrun as <-. split; discriminate.
      * rewrite Hload in Hrun. injection Hrun as <-. tauto.
    + destruct Hload as (e & Hload & _). rewrite Hload in Hrun. discriminate.
  - rewrite Hload in Hrun. injection Hrun as <-. tauto.
Qed.

(** The loop over the containers, over two lists in a row. *)
Lemma load_containers_app (self : EcuExtractLoader) (before after : list Element) :
  forall messages,
    load_containers self (before ++ after) messages
    = (let! messages := load_containers self before messages in
       load_containers self after messages).
Proof.
  induction before as [|c before IH]; intros messages; [reflexivity|].
  cbn [app load_containers]. destruct (is_com_i_pdu c) as [b|]; [|reflexivity].
  cbn [rbind]. destruct (negb b); [apply IH|].
  destruct (load_message self c) as [[m|]|]; cbn [rbind]; [apply IH | apply IH | reflexivity].
Qed.

(** The loop over the containers: every ComIPdu container makes a message
    or is one that is to be skipped. *)
Lemma load_containers_count (self : EcuExtractLoader) (containers : list Element) :
  forall messages messages',
    load_containers self containers messages = OK messages' ->
    (List.length messages'
     + List.length (List.filter (fun c => is_pdu_container c && to_be_skipped self c)
                                containers))%nat
    = (List.length messages
       + List.length (List.filter is_pdu_container containers))%nat.
Proof.
  induction containers as [|c containers IH]; intros messages messages' Hrun.
  - injection Hrun as <-. simpl. lia.
  - cbn [load_containers] in Hrun.
    apply rbind_ok in Hrun as (b & Hb & Hrun).
    cbn [List.filter].
    assert (Hpdu : is_pdu_container c = b)
      by (unfold is_pdu_container; rewrite Hb; destruct b; reflexivity).
    rewrite Hpdu. destruct b; cbn [negb andb] in *.
    + apply rbind_ok in Hrun as (message & Hmessage & Hrun).
      pose proof (load_message_none _ _ _ Hmessage) as Hnone.
      destruct message as [m|]; apply IH in Hrun.
      * destruct (to_be_skipped self c);
          [destruct Hnone as [_ Hnone]; discriminate (Hnone eq_refl)|].
        rewrite length_app in Hrun. cbn [List.length] in *. lia.
      * destruct Hnone as [Hnone _]. rewrite (Hnone eq_refl). cbn [List.length]. lia.
    + apply IH in Hrun. lia.
Qed.

(** C9, as the code has it.  A ComIPdu container is skipped when no CanIf
    entry refers to its PDU, or when the entry that does lacks the
    parameter for the CAN id, for the length or for the addressing mode
    and the parameters it has can be read: [load_message] returns [None]
    for it, and for no other container, and the load goes on as if the
    container were not there.  An entry whose parameters cannot be read
    makes [load_message] raise, whatever the entry lacks, with the error
    for the missing [PARAMETER-VALUES] element where that is what is
    missing, and the load raises with it.  The database that [load]
    returns has as many messages as there are ComIPdu containers less the
    skipped ones. *)
Theorem ecu_extract_skips_incomplete_messages :
  forall (self : EcuExtractLoader),
    (forall c, to_be_skipped self c = true -> load_message self c = OK None)
    /\ (forall c r,
           load_message self c = OK r -> (r = None <-> to_be_skipped self c = true))
    /\ (forall c name entry keys,
           can_if_entry_of self c = Some (name, Some entry, keys) ->
           readable_entry keys entry = false ->
           exists e,
             load_message self c = Err e
             /\ (find PARAMETER_VALUES_XPATH entry = None ->
                 e = ValueError NoParameterValues))
    /\ (forall containers c e,
           com_containers self = OK containers ->
           c ∈ containers -> is_com_i_pdu c = OK true ->
           load_message self c = Err e ->
           forall db, ecu_load self <> OK db)
    /\ (forall before c after,
           com_containers self = OK (before ++ c :: after) ->
           is_com_i_pdu c = OK true ->
           to_be_skipped self c = true ->
           ecu_load self
           = (let! messages := load_containers self (before ++ after) [] in
              OK (mkInternalDatabase messages)))
    /\ (forall containers db,
           com_containers self = OK containers ->
           ecu_load self = OK db ->
           (List.length (messages db)
            + List.length (List.filter
                             (fun c => is_pdu_container c && to_be_skipped self c)
                             containers))%nat
           = List.length (List.filter is_pdu_container containers)).
Proof.
  intros self. split; [exact (load_message_skips self)|].
  split; [exact (load_message_none self)|]. split; [|split; [|split]].
  - intros c name entry keys Hentry Hunreadable.
    pose proof (load_message_by_entry _ _ _ _ _ Hentry) as Hload. cbv beta iota in Hload.
    rewrite Hunreadable in Hload. exact Hload.
  - intros containers c e Hcontainers Hc Hpdu Hraises db Hload.
    unfold ecu_load in Hload. rewrite Hcontainers in Hload. cbn [rbind] in Hload.
    apply rbind_ok in Hload as (loaded & Hloaded & _).
    refine (load_containers_raises self containers c Hc _ _ _ Hloaded).
    right. split; [exact Hpdu|]. intros m Hm. congruence.
  - intros before c after Hcontainers Hpdu Hskip. unfold ecu_load.
    rewrite Hcontainers. cbn [rbind]. rewrite !load_containers_app.
    destruct (load_containers self before []) as [loaded|]; [|reflexivity].
    cbn [rbind load_containers]. rewrite Hpdu. cbn [rbind negb].
    rewrite (load_message_skips _ _ Hskip). reflexivity.
  - intros containers db Hcontainers Hload. unfold ecu_load in Hload.
    rewrite Hcontainers in Hload. cbn [rbind] in Hload.
    apply rbind_ok in Hload as (loaded & Hloaded & Hload). injection Hload as <-.
    apply load_containers_count in Hloaded. simpl in *. lia.
Qed.

End SkippedMessages.

(** C9, as stated, fails: in [ecu_extract_without_parameters] the CanIf
    entry of the one message has neither CAN id nor length nor addressing
    mode, for want of a [PARAMETER-VALUES] element, and the message is not
    skipped: [load_message] raises, and the load with it. *)
Lemma incomplete_entry_can_abort_the_load :
  ~ (forall (H : PyNumerics) (self : EcuExtractLoader) (containers : list Element)
            (c : Element) (name : option string) (entry : Element)
            (keys : string * string * string),
        com_containers self = OK containers ->
        c ∈ containers -> is_com_i_pdu c = OK true ->
        can_if_entry_of self c = Some (name, Some entry, keys) ->
        complete keys entry = false ->
        load_message self c = OK None /\ exists db, ecu_load self = OK db).
Proof.
  intros Hclaim.
  set (self := mkEcuExtractLoader (fromstring ecu_extract_without_parameters) true).
  assert (Hsample :
            exists c name entry keys,
              com_containers self = OK [c]
              /\ is_com_i_pdu c = OK true
              /\ can_if_entry_of self c = Some (name, Some entry, keys)
              /\ complete keys entry = false
              /\ error_of (load_message (H := rational_numerics) self c)
                 = Some (ValueError NoParameterValues)).
  { destruct (com_containers self) as [[|c [|]]|] eqn:Hcontainers;
      try (vm_compute in Hcontainers; discriminate).
    exists c. vm_compute in Hcontainers. injection Hcontainers as <-.
    do 3 eexists. split; [reflexivity|]. split; [vm_compute; reflexivity|].
    split; [vm_compute; reflexivity|]. split; vm_compute; reflexivity. }
  destruct Hsample as (c & name & entry & keys & Hcontainers & Hpdu & Hentry & Hlacks & Herror).
  destruct (Hclaim rational_numerics self [c] c name entry keys Hcontainers
              ltac:(apply list_elem_of_singleton; reflexivity) Hpdu Hentry Hlacks)
    as [Hskipped _].
  rewrite Hskipped in Herror. discriminate.
Qed.

Lemma ecu_extract_skips_incomplete_messages_witness :
  (exists first second db,
      com_containers ecu_extract_loader = OK [first; second]
      /\ is_com_i_pdu second = OK true
      /\ to_be_skipped ecu_extract_loader second = true
      /\ load_message (H := rational_numerics) ecu_extract_loader second = OK None
      /\ ecu_load (H := rational_numerics) ecu_extract_loader
         = (let! messages := load_containers ecu_extract_loader [first] [] in
            OK (mkInternalDatabase messages))
      /\ ecu_load (H := rational_numerics) ecu_extract_loader = OK db
      /\ List.length (messages db) = 1%nat
      /\ (List.length (messages db)
          + List.length (List.filter
                           (fun c => is_pdu_container c
                                     && to_be_skipped ecu_extract_loader c)
                           [first; second]))%nat
         = List.length (List.filter is_pdu_container [first; second]))
  /\ (exists c e,
         first_container ecu_extract_with_unreadable_length = Some c
         /\ load_message (H := rational_numerics)
              (mkEcuExtractLoader (fromstring ecu_extract_with_unreadable_length) true) c
            = Err e
         /\ forall db,
             ecu_load (H := rational_numerics)
               (mkEcuExtractLoader (fromstring ecu_extract_with_unreadable_length) true)
             <> OK db).
Proof.
  split.
  - destruct (ecu_extract_skips_incomplete_messages (H := rational_numerics)
                ecu_extract_loader) as (Hskips & _ & _ & _ & Hgoes_on & Hcount).
    assert (Hsample :
              exists first second,
                com_containers ecu_extract_loader = OK [first; second]
                /\ is_com_i_pdu second = OK true
                /\ to_be_skipped ecu_extract_loader second = true).
    { destruct (com_containers ecu_extract_loader) as [[|first [|second [|]]]|]
        eqn:Hcontainers; try (vm_compute in Hcontainers; discriminate).
      exists first, second. vm_compute in Hcontainers. injection Hcontainers as <- <-.
      split; [reflexivity|]. split; vm_compute; reflexivity. }
    destruct Hsample as (first & second & Hcontainers & Hpdu & Hskip).
    assert (Hmessages : signal_counts (ecu_load (H := rational_numerics) ecu_extract_loader)
                        = Some [0%nat]) by (vm_compute; reflexivity).
    assert (Hdb : exists db,
               ecu_load (H := rational_numerics) ecu_extract_loader = OK db
               /\ List.length (messages db) = 1%nat).
    { revert Hmessages. clear.
      destruct (ecu_load (H := rational_numerics) ecu_extract_loader) as [db|];
        [|discriminate].
      intros [= Hmessages]. exists db. split; [reflexivity|].
      rewrite <- (length_map (fun m => List.length (signals m))), Hmessages.
      reflexivity. }
    destruct Hdb as (db & Hload & Hone).
    exists first, second, db. split; [exact Hcontainers|]. split; [exact Hpdu|].
    split; [exact Hskip|]. split; [exact (Hskips second Hskip)|].
    split; [exact (Hgoes_on [first] second [] Hcontainers Hpdu Hskip)|].
    split; [exact Hload|]. split; [exact Hone|].
    exact (Hcount [first; second] db Hcontainers Hload).
  - set (self := mkEcuExtractLoader (fromstring ecu_extract_with_unreadable_length) true).
    destruct (ecu_extract_skips_incomplete_messages (H := rational_numerics) self)
      as (_ & _ & Hunreadable & Hraises & _).
    assert (Hsample :
              exists c name entry keys,
                first_container ecu_extract_with_unreadable_length = Some c
                /\ com_containers self = OK [c]
                /\ is_com_i_pdu c = OK true
                /\ can_if_entry_of self c = Some (name, Some entry, keys)
                /\ readable_entry keys entry = false).
    { destruct (com_containers self) as [[|c [|]]|] eqn:Hcontainers;
        try (vm_compute in Hcontainers; discriminate).
      exists c. vm_compute in Hcontainers. injection Hcontainers as <-.
      do 3 eexists. split; [vm_compute; reflexivity|]. split; [reflexivity|].
      split; [vm_compute; reflexivity|]. split; vm_compute; reflexivity. }
    destruct Hsample as (c & name & entry & keys & Hfirst & Hcontainers & Hpdu & Hentry
                         & Hbad).
    destruct (Hunreadable c name entry keys Hentry Hbad) as (e & Herr & _).
    exists c, e. split; [exact Hfirst|]. split; [exact Herr|].
    apply (Hraises [c] c e Hcontainers); [apply list_elem_of_singleton; reflexivity| |];
      assumption.
Defined.
